(* ===== verification/_CoqProject ===== *)
-Q . S2P
Prelude.v
F32.v
RustStr.v
Model.v
Distance.v
LayerIdx.v
Ingest.v
Chunk.v
Schema.v
Rollup.v
Dedup.v
Search.v
Resolve.v
Knn.v
Files.v
Lance.v
DatasetCache.v
Store.v
Commit.v
Tasks.v
Locks.v
Push.v
Embed.v
Index.v
Maintain.v
Integrity.v
Stats.v
Pipeline.v
Growth.v
PipelineSpec.v
PipelineRun.v
Retag.v
Branch.v
Snapshot.v
Isolation.v
Neighbours.v
Suggest.v
Config.v
Body.v
Service.v
ServiceSpec.v
Metrics.v
Stub.v
Load.v
Start.v
Http.v
HttpSpec.v
Server.v
