(* ===== verification/Prelude.v ===== *)
(** * vectorlink: a verification library (root file)

    vectorlink is a search server for documents of a versioned database: a push
    brings the operations of one commit (documents inserted, changed, deleted),
    the server chunks and embeds the texts, writes the rows to a versioned
    dataset (LanceDB), tags the dataset version with the commit, and from then on
    answers searches on exactly that version.  This library models the server,
    its command-line tools and its start-up, from src/src/, and proves what makes
    them correct.

    ** The parts, and the files that model them

    Shared: Prelude (results, sorting by a comparison, hash maps visited in an
    arbitrary order, folds), F32 (binary32 and binary64, every rounding the
    program performs, by the Standard Library's SpecFloat), RustStr (strings as
    UTF-8 bytes).

    The vocabulary and the pure algorithms: Model (kernel/model.rs, error.rs),
    Distance (kernel/distance.rs), LayerIdx (layeridx), Ingest (ingest), Chunk
    (chunk), Schema (store/lance/schema.rs, config.rs), Rollup
    (store/lance/rollup.rs), Dedup (store/lance/dedup.rs), Search
    (store/lance/search.rs), Resolve (resolve), Knn (store/lance/resolve.rs),
    Suggest (the typeahead of search.rs).

    The store: Files (directory trees with failing calls), Lance (the interface
    of the dataset library and a small dataset that satisfies it), DatasetCache,
    Store (state, datasets, branches, writes: store/lance/mod.rs, write.rs,
    store/branch.rs), Commit (reservations, tags, last-indexed, deltas, deletion:
    commit.rs, stats.rs), Tasks, Index (index.rs, vector_index.rs, the cascade
    on the store), Maintain (clean-up and pruning: mod.rs, integrity.rs),
    Integrity (the report), Stats (stats.rs, vector_index.rs), Retag (commit.rs),
    Branch (what the branch-out of Store does), Snapshot and Neighbours (reading a
    commit's version), Stub (the in-memory store of contract tests:
    store/mod.rs).

    Pushing: Embed (embed/mod.rs, embed/cache.rs), Pipeline (the two pipelines of
    service/mod.rs), with their specification in PipelineSpec, PipelineRun,
    Growth and Isolation; Locks and Push (the interleavings).

    The service and its interfaces: Config (config), Service and ServiceSpec
    (service), Body (reading of a push body), Http and HttpSpec (http_api),
    Metrics (metrics.rs), Load (bin/load.rs), Start (main.rs); Server, the
    process as a whole: its requests, its restarts and the loads in between
    against an abstract store of commits.

    ** State and operations

    A Rust function is a Definition or Fixpoint of its name.  [Result] is
    [result]; a function that can panic returns an option, its [None] the panic.
    Stateful code is a function in a small monad: [io] over [LanceStore] (what
    the process keeps, and the dataset directories on disk, by name) in Store;
    [srv] over [Service] (the store, the settings, the configuration, the
    embedding cache, the network, readiness, tasks, clock) in Service; [web] over
    [AppState] in Http.  An operation that fails leaves the state it had
    reached, not the one it began with.  One operation runs to its end;
    the code's own interleavings at locks and await points are the step
    relations of Locks and Push.  [HashMap]s are [gmap]s; where the source
    iterates one, the order is any permutation ([HashIter]), and results that
    are compared are proved independent of it or stated up to permutation.
    Machine integers are [Z] or [N] with their wrap-around or saturation
    written out; [Instant]s are nanoseconds.

    ** What is a parameter

    Code that is not in the repository is a class or an argument, and what is
    relied on is a class of laws, with an instance that shows it can hold.
    LanceDB: [LanceOps] with [LanceLaws], [LanceVersionLaws], [LanceBranchLaws]
    (Lance, Retag), [LanceIndexOps] with [LanceIndexLaws] and [LanceIndexGrows]
    and [LanceFrame] (Index, Growth), [LanceForkLaws] (Branch), [LanceFiles] (Store),
    [LanceMaintOps] with [LanceMaintLaws] (Maintain), [LanceScan] with
    [LanceScanLaws] (Snapshot), [LanceCount] and [LanceNearestLaws]
    (Neighbours); the instances are on the small dataset [RefLance].  sled,
    SHA-256 and zstd ([SledOps], [Codec]), HTTP to the embedding providers ([Http], [Clients]), what an embedding call
    answers ([Embedder]), serde_json ([from_str], [JsonVectors], [ParamsJson],
    [SettingsJson]), form decoding and encoding ([ByteSerialize], [FormParse]),
    base64 and header values ([HttpLib]), Unicode lower-casing ([Lowercase]),
    the formatting of floats and quoted strings ([Formats]), the tokenizer,
    file access ([FileOps], [FsFaults]), clocks, uuids, the SIMD distance.

    ** What the theorems show

    A push is correct from end to end.  PipelineRun: a run of either pipeline
    that succeeds leaves exactly the specified rows at the branch's head and
    under the commit's tag, the two agree, an aborted push writes no row and no
    tag, rows stay well typed.  ServiceSpec, Body and HttpSpec carry this to the
    service task, to a body cut between characters by the transport, and to the
    HTTP answer; Load to the offline tool: on main, when it exits with success
    and had a document to store, it leaves what a push leaves.  Isolation:
    whatever is written, cleaned up or restarted later, until it is deleted a
    commit is served from the same rows.
    Server: seen from outside, the whole process is a map from commits to rows,
    and every run of requests, restarts and loads is a run of that abstract
    server ([spec_step]): only the commit a request or a load names appears, and
    only what a deletion names goes.
    Growth and Maintain: clean-ups spare every tagged version and every index
    in use; Retag and Start: so does the clean-up at start-up.  Push and Locks:
    whatever interleaves, a commit that no deletion names is under way in at most
    one push and indexed at most once, a commit that is neither indexed nor held
    by a dropped request can be indexed, and the keyed locks exclude.  Commit,
    Branch: the 409 guard, last-indexed after the loss of the maps, deletion,
    branch-out on every outcome.

    Answers are right: the served commit and the page of hits
    (ServiceSpec, HttpSpec), the readers of a snapshot (Snapshot, Neighbours),
    exact neighbours, fusion, matching and chunking (Knn, Dedup, Resolve, Chunk),
    completions (Suggest), counts (Stats), the integrity report (Integrity), the
    metrics text (Metrics).

    The program protects itself: the admin gate and the requests that change
    nothing but the embedding cache (HttpSpec), locked embedding parameters and a
    consistent configuration (Config), the bounds of the task table (Tasks) and of chunks (ServiceSpec),
    a shutdown that ends (Start).

    Round trips: resource paths (Model), tag names (LayerIdx), domain paths
    (Stats), cached vectors (Embed), the metrics text (Metrics).  Theorems
    that are witnessed have a lemma of their name with the suffix _witness on a
    concrete input.

    Where the code does not do what its comments say, an Example shows it on a
    concrete run: modules RetagExample, LoadExample, StartExample,
    StatsExample and others.

    ** Bounds and fuel

    Loops that are structural in the source's data are structural here.  The
    others take fuel, and never run out of it: [boundaries] (Chunk) has the token
    count, [complete_loop] (Suggest) the length of the text, each proved enough;
    [ilog_loop], [rollup_loop] and [merges_loop] (Rollup) and [boundary_loop]
    (Retag) the number they divide or count up to; [read_lines] and [task_lines]
    (Body) the length of the buffer; [chunks_loop] (Embed), [evict_loop]
    (DatasetCache), [split_seps] and [drop_seps] (Suggest) and the trims of
    RustStr the length of their list; [shutdown_wait] (Start) 602 polls, proved
    enough when a poll takes at least 200 ms.  Streams and bodies are finite
    lists of what arrives.

    ** What is not modelled, and why

    Logging and terminal output, timing output, the registration of modules
    (lib.rs, kernel/mod.rs), binding of ports and signal handling, the axum
    server around the metrics text, CORS, the extraction of parameter structures
    (axum and serde): glue and I/O without state of the program.  The progress
    counters of the pipelines and the sizes of the lock maps are an argument of
    [internal_stats].  In Server a handler runs to its end, with the task it
    spawns, before the next request is taken, and a restart, or a run of the load tool
    that does not panic, falls between requests; the interleavings of pushes at their await points are in Push.
    Tests are not modelled. *)

From Stdlib Require Export ZArith Lia String Ascii.
From stdpp Require Export base tactics list gmap strings sorting numbers pretty.
Export list_basics.list list_relations.list list_monad.list list_misc.list list_numbers.list list_tactics.list.


(** ** Concrete runs

    The witnesses run the model on small inputs.  A run as a whole holds
    functions and proofs, which do not compute to anything readable; [compute_as]
    evaluates what [f] reads of both sides of [H], and [refute_as] closes a case
    whose reading differs. *)

Tactic Notation "compute_as" uconstr(f) "in" hyp(H) := apply (f_equal f) in H; vm_compute in H.
Tactic Notation "refute_as" uconstr(f) "in" hyp(H) := compute_as f in H; discriminate H.

(** ** Results

    Rust's [Result<A, E>].  The [MBind] instance gives stdpp's do-notation, so
    [x ← c; k] is the source's [let x = c?; k]. *)

Inductive result (E A : Type) : Type :=
| Ok (a : A)
| Err (e : E).
Arguments Ok {E A} a.
Arguments Err {E A} e.

#[export] Instance result_mret {E} : MRet (result E) := λ A a, Ok a.
#[export] Instance result_mbind {E} : MBind (result E) := λ A B f r,
  match r with Ok a => f a | Err e => Err e end.
#[export] Instance result_fmap {E} : FMap (result E) := λ A B f r,
  match r with Ok a => Ok (f a) | Err e => Err e end.
#[export] Instance result_eq_dec {E A} `{EqDecision E, EqDecision A} :
  EqDecision (result E A).
Proof. solve_decision. Defined.

(** [Result::map_err]. *)
Definition map_err {E F A} (f : E → F) (r : result E A) : result F A :=
  match r with Ok a => Ok a | Err e => Err (f e) end.

(** [Option::ok_or]. *)
Definition ok_or {E A} (e : E) (o : option A) : result E A :=
  match o with Some a => Ok a | None => Err e end.

Definition is_ok {E A} (r : result E A) : bool :=
  match r with Ok _ => true | Err _ => false end.

Lemma result_bind_ok {E A B} (r : result E A) (f : A → result E B) b :
  r ≫= f = Ok b ↔ ∃ a, r = Ok a ∧ f a = Ok b.
Proof.
  destruct r as [a|e]; cbn; split.
  - eauto.
  - by intros (? & [= ->] & ?).
  - done.
  - by intros (? & ? & ?).
Qed.

(** Collecting fallible results in order, stopping at the first error (the
    [?] operator inside a loop). *)
Fixpoint res_map {E A B} (f : A → result E B) (l : list A) : result E (list B) :=
  match l with
  | [] => Ok []
  | x :: l => y ← f x; ys ← res_map f l; Ok (y :: ys)
  end.

Lemma res_map_ok {E A B} (f : A → result E B) l ys :
  res_map f l = Ok ys ↔ Forall2 (λ x y, f x = Ok y) l ys.
Proof.
  revert ys; induction l as [|x l IH]; intros ys; cbn.
  - split; [intros [= <-]; constructor|by inversion 1].
  - rewrite result_bind_ok. split.
    + intros (y & Hy & (zs & Hzs & [= <-])%result_bind_ok).
      constructor; [done|]. by apply IH.
    + inversion 1 as [|? y ? zs Hy Hzs]; subst. exists y. split; [done|].
      apply IH in Hzs. by rewrite Hzs.
Qed.

(** ** Lists *)

Lemma forallb_spec {A} (P : A → bool) l : forallb P l = true ↔ Forall (λ x, P x = true) l.
Proof.
  induction l as [|x l IH]; cbn; [by split|].
  by rewrite andb_true_iff, Forall_cons, IH.
Qed.

Lemma Permutation_fst_mapM {A B} (f : A → option B) l1 l2 k1 k2 :
  l1 ≡ₚ l2 → mapM f l1 = Some k1 → mapM f l2 = Some k2 → k1 ≡ₚ k2.
Proof.
  intros Hp H1%mapM_Some H2%mapM_Some. revert k1 k2 H1 H2.
  induction Hp as [|x l l' Hp IH|x y l|l l' l'' Hp1 IH1 Hp2 IH2]; intros k1 k2 H1 H2.
  - inversion H1; inversion H2; done.
  - inversion H1; inversion H2; subst. simplify_eq. by rewrite (IH l'0 l'1).
  - inversion H1 as [|? a ? k1' ? H1']; subst. inversion H1' as [|? b ? k1'' ? H1'']; subst.
    inversion H2 as [|? c ? k2' ? H2']; subst. inversion H2' as [|? d ? k2'' ? H2'']; subst.
    simplify_eq. assert (k1'' = k2'') as ->.
    { clear -H1'' H2''. revert k2'' H2''. induction H1''; inversion 1; subst; simplify_eq; [done|].
      f_equal; auto. }
    apply Permutation_swap.
  - assert (is_Some (mapM f l')) as [k' Hk'].
    { apply mapM_is_Some. apply Forall2_length in H1 as Hlen. rewrite <-Hp1.
      clear -H1. induction H1; constructor; eauto. }
    apply mapM_Some in Hk'. trans k'; eauto.
Qed.

Lemma elem_of_take_in {A} (l : list A) n x : x ∈ take n l → x ∈ l.
Proof. intros H. rewrite <-(take_drop n l). apply elem_of_app. by left. Qed.

Lemma elem_of_drop_in {A} (l : list A) n x : x ∈ drop n l → x ∈ l.
Proof. intros H. rewrite <-(take_drop n l). apply elem_of_app. by right. Qed.

Lemma StronglySorted_take {A} (R : A → A → Prop) n l : StronglySorted R l → StronglySorted R (take n l).
Proof.
  intros Hs; revert n; induction Hs as [|x l Hs IH Hx]; intros [|n]; cbn; try constructor; auto.
  by apply Forall_take.
Qed.

Lemma StronglySorted_take_drop {A} (R : A → A → Prop) n l x y :
  StronglySorted R l → x ∈ take n l → y ∈ drop n l → R x y.
Proof.
  intros Hs; revert n; induction Hs as [|z l Hs IH Hz]; intros [|n]; cbn [take drop];
    try (intros []%elem_of_nil; fail).
  intros [->|Hx]%elem_of_cons Hy; [|by eapply IH].
  rewrite Forall_forall in Hz. by apply Hz, (elem_of_drop_in _ n).
Qed.

(** ** Comparisons

    Rust comparators are functions into [Ordering]; [Lt], [Eq] and [Gt] are
    Rocq's [comparison].  [CmpOrder P cmp] says that on the values satisfying
    [P] the comparator is a total preorder. *)

Definition then_with (c : comparison) (d : comparison) : comparison :=
  match c with Eq => d | _ => c end.

Class CmpOrder {A} (P : A → Prop) (cmp : A → A → comparison) : Prop := {
  cmp_antisym x y : P x → P y → cmp y x = CompOpp (cmp x y);
  cmp_trans x y z : P x → P y → P z → cmp x y ≠ Gt → cmp y z ≠ Gt → cmp x z ≠ Gt;
}.

Section cmp.
Context {A : Type} (P : A → Prop).

Lemma cmp_refl cmp `{!CmpOrder P cmp} x : P x → cmp x x = Eq.
Proof.
  intros Hx. pose proof (cmp_antisym (P:=P) (cmp:=cmp) x x Hx Hx) as H.
  by destruct (cmp x x).
Qed.

Lemma cmp_eq_trans cmp `{!CmpOrder P cmp} x y z :
  P x → P y → P z → cmp x y = Eq → cmp y z = Eq → cmp x z = Eq.
Proof.
  intros Hx Hy Hz Hxy Hyz.
  pose proof (cmp_antisym (P:=P) (cmp:=cmp) x y Hx Hy) as Hyx.
  pose proof (cmp_antisym (P:=P) (cmp:=cmp) y z Hy Hz) as Hzy.
  pose proof (cmp_antisym (P:=P) (cmp:=cmp) x z Hx Hz) as Hzx.
  pose proof (cmp_trans (P:=P) (cmp:=cmp) x y z Hx Hy Hz) as H1.
  pose proof (cmp_trans (P:=P) (cmp:=cmp) z y x Hz Hy Hx) as H2.
  rewrite Hxy, Hyz in *. cbn in *. rewrite Hzy, Hyx in H2.
  destruct (cmp x z); [done|..]; rewrite Hzx in H2; naive_solver.
Qed.

Lemma cmp_lt_le_trans cmp `{!CmpOrder P cmp} x y z :
  P x → P y → P z → cmp x y = Lt → cmp y z ≠ Gt → cmp x z = Lt.
Proof.
  intros Hx Hy Hz Hxy Hyz.
  pose proof (cmp_antisym (P:=P) (cmp:=cmp) x y Hx Hy) as Hyx.
  pose proof (cmp_antisym (P:=P) (cmp:=cmp) x z Hx Hz) as Hzx.
  pose proof (cmp_trans (P:=P) (cmp:=cmp) x y z Hx Hy Hz) as H1.
  pose proof (cmp_trans (P:=P) (cmp:=cmp) y z x Hy Hz Hx Hyz) as H2.
  rewrite Hxy in *. cbn in *. rewrite Hyx in H2.
  destruct (cmp x z); [|done|]; rewrite Hzx in H2; naive_solver.
Qed.

Lemma cmp_le_lt_trans cmp `{!CmpOrder P cmp} x y z :
  P x → P y → P z → cmp x y ≠ Gt → cmp y z = Lt → cmp x z = Lt.
Proof.
  intros Hx Hy Hz Hxy Hyz.
  pose proof (cmp_antisym (P:=P) (cmp:=cmp) y z Hy Hz) as Hzy.
  pose proof (cmp_antisym (P:=P) (cmp:=cmp) x z Hx Hz) as Hzx.
  pose proof (cmp_trans (P:=P) (cmp:=cmp) x y z Hx Hy Hz Hxy) as H1.
  pose proof (cmp_trans (P:=P) (cmp:=cmp) z x y Hz Hx Hy) as H2.
  rewrite Hyz in *. cbn in *. rewrite Hzy in H2.
  destruct (cmp x z); [|done|]; rewrite Hzx in H2; naive_solver.
Qed.

Lemma then_with_order c d :
  CmpOrder P c → CmpOrder P d → CmpOrder P (λ x y, then_with (c x y) (d x y)).
Proof.
  intros Hc Hd. split.
  - intros x y Hx Hy. rewrite (cmp_antisym (cmp:=c) x y) by done.
    destruct (c x y); cbn; [|done..]. by apply (cmp_antisym (cmp:=d)).
  - intros x y z Hx Hy Hz Hxy Hyz.
    destruct (c x y) eqn:Exy, (c y z) eqn:Eyz; cbn in Hxy, Hyz; try done.
    + rewrite (cmp_eq_trans c x y z) by done. cbn.
      by apply (cmp_trans (P:=P) (cmp:=d) x y z).
    + rewrite (cmp_le_lt_trans c x y z); [done..|congruence|done].
    + rewrite (cmp_lt_le_trans c x y z); [done..|congruence].
    + rewrite (cmp_lt_le_trans c x y z); [done..|congruence].
Qed.

(** Descending order: [b.cmp(a)]. *)
Lemma flip_order c : CmpOrder P c → CmpOrder P (λ x y, c y x).
Proof.
  intros Hc. split.
  - intros x y Hx Hy. by apply (cmp_antisym (cmp:=c)).
  - intros x y z Hx Hy Hz H1 H2. by apply (cmp_trans (P:=P) (cmp:=c) z y x).
Qed.
End cmp.

(** Ordering by a key. *)
Lemma on_key_order {A B} (P : A → Prop) (Q : B → Prop) (f : A → B) c :
  CmpOrder Q c → (∀ x, P x → Q (f x)) → CmpOrder P (λ x y, c (f x) (f y)).
Proof.
  intros Hc HPQ. split.
  - intros x y Hx Hy. apply (cmp_antisym (cmp:=c)); auto.
  - intros x y z Hx Hy Hz. apply (cmp_trans (P:=Q) (cmp:=c)); auto.
Qed.

Section std_orders.
#[export] Instance Z_compare_order : CmpOrder (λ _, True) Z.compare.
Proof.
  split.
  - intros x y _ _. apply Z.compare_antisym.
  - intros x y z _ _ _. rewrite !Z.compare_gt_iff. lia.
Qed.

#[export] Instance nat_compare_order : CmpOrder (λ _, True) Nat.compare.
Proof.
  split.
  - intros x y _ _. apply Nat.compare_antisym.
  - intros x y z _ _ _. rewrite !Nat.compare_gt_iff. lia.
Qed.

Lemma ascii_compare_lt_trans a b c :
  Ascii.compare a b = Lt → Ascii.compare b c = Lt → Ascii.compare a c = Lt.
Proof. unfold Ascii.compare. rewrite !N.compare_lt_iff. lia. Qed.

Lemma ascii_compare_refl a : Ascii.compare a a = Eq.
Proof. unfold Ascii.compare. by rewrite N.compare_refl. Qed.

Lemma string_compare_lt_trans s t u :
  String.compare s t = Lt → String.compare t u = Lt → String.compare s u = Lt.
Proof.
  revert t u; induction s as [|a s IH]; intros [|b t] [|c u]; cbn; try done.
  destruct (Ascii.compare a b) eqn:Hab; destruct (Ascii.compare b c) eqn:Hbc;
    try done; intros H1 H2.
  - apply Ascii.compare_eq_iff in Hab as ->. apply Ascii.compare_eq_iff in Hbc as ->.
    rewrite ascii_compare_refl. eauto.
  - apply Ascii.compare_eq_iff in Hab as ->. by rewrite Hbc.
  - apply Ascii.compare_eq_iff in Hbc as ->. by rewrite Hab.
  - by rewrite (ascii_compare_lt_trans a b c).
Qed.

(** [str::cmp]: bytewise lexicographic order. *)
#[export] Instance string_compare_order : CmpOrder (λ _, True) String.compare.
Proof.
  split.
  - intros x y _ _. by rewrite String.compare_antisym.
  - intros x y z _ _ _ Hxy Hyz.
    destruct (String.compare x y) eqn:E1; [|clear Hxy|done].
    { by apply String.compare_eq_iff in E1 as ->. }
    destruct (String.compare y z) eqn:E2; [|clear Hyz|done].
    { apply String.compare_eq_iff in E2 as ->. congruence. }
    by rewrite (string_compare_lt_trans x y z).
Qed.

Lemma string_compare_refl s : String.compare s s = Eq.
Proof. apply (cmp_refl (λ _, True)); apply _ || done. Qed.
End std_orders.

(** ** Stable sorting

    [slice::sort_by] is a stable sort: elements that compare equal keep their
    order.  On a comparator that is a total preorder the stable sort is unique,
    so insertion sort stands for the library's merge sort. *)

Section sort.
Context {A : Type} (cmp : A → A → comparison).

Fixpoint sort_insert (x : A) (l : list A) : list A :=
  match l with
  | [] => [x]
  | y :: l' => match cmp x y with
               | Gt => y :: sort_insert x l'
               | _ => x :: l
               end
  end.

Definition sort_by (l : list A) : list A := foldr sort_insert [] l.

Lemma sort_insert_perm x l : sort_insert x l ≡ₚ x :: l.
Proof.
  induction l as [|y l IH]; cbn; [done|].
  destruct (cmp x y); [done|done|]. rewrite IH. apply Permutation_swap.
Qed.

Lemma sort_by_perm l : sort_by l ≡ₚ l.
Proof. induction l as [|x l IH]; cbn; [done|]. by rewrite sort_insert_perm, IH. Qed.

Lemma sort_by_length l : length (sort_by l) = length l.
Proof. by rewrite sort_by_perm. Qed.

Definition cmp_le (x y : A) : Prop := cmp x y ≠ Gt.

Context (P : A → Prop) `{!CmpOrder P cmp}.

Lemma sort_insert_sorted x l :
  P x → Forall P l → StronglySorted cmp_le l → StronglySorted cmp_le (sort_insert x l).
Proof.
  intros Hx Hl Hs; induction Hs as [|y l Hs IH Hy]; cbn.
  { constructor; constructor. }
  inversion Hl as [|?? Py Pl]; subst.
  destruct (cmp x y) eqn:Hxy.
  1,2: constructor; [by constructor|]; constructor; [unfold cmp_le; congruence|];
    rewrite list.Forall_forall in *; intros z Hz;
    apply (cmp_trans (P:=P) (cmp:=cmp) x y z); auto; [congruence|by apply Hy].
  constructor; [by apply IH|]. rewrite sort_insert_perm. constructor; [|done].
  unfold cmp_le. rewrite (cmp_antisym (P:=P) (cmp:=cmp) x y), Hxy by done. done.
Qed.

Lemma sort_by_sorted l : Forall P l → StronglySorted cmp_le (sort_by l).
Proof.
  intros Hl; induction Hl as [|x l Hx Hl IH]; cbn; [constructor|].
  apply sort_insert_sorted; [done|by rewrite sort_by_perm|done].
Qed.

(** Sorting does not depend on the order of its input when equal elements
    are indistinguishable. *)
Lemma sort_by_unique l1 l2 :
  (∀ x y, x ∈ l1 → y ∈ l1 → cmp x y = Eq → x = y) →
  Forall P l1 → l1 ≡ₚ l2 → sort_by l1 = sort_by l2.
Proof.
  intros Heq Hl Hp.
  apply (StronglySorted_unique_strong cmp_le).
  - intros x y Hx Hy Hxy Hyx. rewrite sort_by_perm in Hx.
    rewrite sort_by_perm, <-Hp in Hy. rewrite list.Forall_forall in Hl.
    unfold cmp_le in *. apply Heq; [done..|].
    rewrite (cmp_antisym (P:=P) (cmp:=cmp) x y (Hl x Hx) (Hl y Hy)) in Hyx.
    destruct (cmp x y); cbn in *; congruence.
  - by apply sort_by_sorted.
  - apply sort_by_sorted. by rewrite <-Hp.
  - by rewrite !sort_by_perm.
Qed.
End sort.

(** ** Hash maps

    A [HashMap] is a [gmap]; the order its iterators visit the entries is
    unspecified, so every definition that iterates takes a [HashIter] and the
    theorems hold for all of them. *)

Class HashIter (K V : Type) `{Countable K} := {
  hash_iter : gmap K V → list (K * V);
  hash_iter_perm m : hash_iter m ≡ₚ map_to_list m;
}.
Arguments hash_iter {K V _ _ _} m.

(** The iteration order used to evaluate closed examples. *)
Definition map_order {K V} `{Countable K} : HashIter K V :=
  {| hash_iter := map_to_list; hash_iter_perm m := reflexivity _ |}.

(** Another order: the reverse. *)
Program Definition rev_order {K V} `{Countable K} : HashIter K V :=
  {| hash_iter m := reverse (map_to_list m) |}.
Next Obligation. intros. cbn. by rewrite reverse_Permutation. Qed.

Section hash.
Context {K V : Type} `{Countable K}.

Lemma hash_iter_elem `{!HashIter K V} (m : gmap K V) k v :
  (k, v) ∈ hash_iter m ↔ m !! k = Some v.
Proof. by rewrite hash_iter_perm, elem_of_map_to_list. Qed.

Lemma hash_iter_nodup `{!HashIter K V} (m : gmap K V) : NoDup (hash_iter m).*1.
Proof. rewrite hash_iter_perm. apply NoDup_fst_map_to_list. Qed.

Lemma hash_iter_indep (H1 H2 : HashIter K V) (m : gmap K V) :
  hash_iter (HashIter:=H1) m ≡ₚ hash_iter (HashIter:=H2) m.
Proof. by rewrite !hash_iter_perm. Qed.
End hash.

(** Values of a map in iteration order: [into_values]. *)
Definition into_values {K V} `{HashIter K V} (m : gmap K V) : list V := (hash_iter m).*2.

Lemma into_values_elem {K V} `{HashIter K V} (m : gmap K V) v :
  v ∈ into_values m ↔ ∃ k, m !! k = Some v.
Proof.
  unfold into_values. rewrite list_elem_of_fmap. split.
  - intros ([k v'] & -> & Hin). exists k. by apply hash_iter_elem.
  - intros [k Hk]. exists (k, v). split; [done|]. by apply hash_iter_elem.
Qed.

Lemma into_values_indep {K V} `{Countable K} (H1 H2 : HashIter K V) (m : gmap K V) :
  into_values (H0:=H1) m ≡ₚ into_values (H0:=H2) m.
Proof. unfold into_values. by rewrite (hash_iter_indep H1 H2 m). Qed.

(** ** Lists *)

Lemma filter_nil {A} (P : A → Prop) `{∀ x, Decision (P x)} l : filter P l = [] ↔ ∀ x, x ∈ l → ¬ P x.
Proof.
  split.
  - intros Hf x Hx HP. apply (elem_of_nil (A:=A) x). rewrite <-Hf. by apply list_elem_of_filter.
  - intros Hn. destruct (filter P l) as [|x l'] eqn:E; [done|]. assert (Hx : x ∈ filter P l) by (rewrite E; apply elem_of_cons; by left).
    apply list_elem_of_filter in Hx as [HP Hx]. by destruct (Hn x Hx).
Qed.

(** A [HashSet] of strings, in its iteration order. *)
Definition set_order `{HashIter string unit} (ids : gset string) : list string := (hash_iter (gset_to_gmap tt ids)).*1.

Lemma set_order_elem `{HashIter string unit} (ids : gset string) x : x ∈ set_order ids ↔ x ∈ ids.
Proof.
  unfold set_order. rewrite list_elem_of_fmap. split.
  - intros ([y []] & -> & Hin). apply hash_iter_elem, lookup_gset_to_gmap_Some in Hin. by destruct Hin.
  - intros Hx. exists (x, tt). split; [done|]. apply hash_iter_elem, lookup_gset_to_gmap_Some. by split.
Qed.

(** ** Keeping the best candidate per key *)

(** A strict preference: irreflexive and transitive. *)
Class Better {A} (better : A → A → bool) : Prop := {
  better_irrefl x : better x x = false;
  better_trans x y z : better x y = true → better y z = true → better x z = true;
}.

Section keep_best.
Context {K A : Type} `{Countable K} (key : A → K) (better : A → A → bool).

(** A candidate enters under a new key, and replaces the entry it beats. *)
Definition keep_best_step (acc : gmap K A) (candidate : A) : gmap K A :=
  match acc !! key candidate with
  | Some best => if better candidate best
                 then <[key candidate := candidate]> acc else acc
  | None => <[key candidate := candidate]> acc
  end.

Definition keep_best (l : list A) : gmap K A := foldl keep_best_step ∅ l.

(** What the map holds: a candidate of the key that none beats. *)
Definition best_of (l : list A) (k : K) (b : A) : Prop :=
  b ∈ l ∧ key b = k ∧ ∀ c, c ∈ l → key c = k → better c b = false.

Context `{!Better better}.

Lemma keep_best_inv l acc seen :
  (∀ k, match acc !! k with
        | Some b => best_of seen k b
        | None => ∀ c, c ∈ seen → key c ≠ k
        end) →
  ∀ k, match foldl keep_best_step acc l !! k with
       | Some b => best_of (seen ++ l) k b
       | None => ∀ c, c ∈ seen ++ l → key c ≠ k
       end.
Proof.
  revert acc seen; induction l as [|x l IH]; intros acc seen Hinv k; cbn [foldl].
  { rewrite app_nil_r. apply Hinv. }
  rewrite (cons_middle x seen l), app_assoc. apply IH. clear k IH. intros k.
  unfold keep_best_step. specialize (Hinv k) as Hk.
  destruct (acc !! key x) as [b|] eqn:Hb.
  - specialize (Hinv (key x)). rewrite Hb in Hinv. destruct Hinv as (Hin & Hkey & Hmin).
    destruct (better x b) eqn:Hlt.
    + destruct (decide (k = key x)) as [->|Hne].
      * rewrite lookup_insert_eq. split; [set_solver|]. split; [done|].
        intros c [Hc| ->%list_elem_of_singleton]%elem_of_app Hck; [|apply better_irrefl].
        destruct (better c x) eqn:E; [|done].
        specialize (Hmin c Hc Hck). by rewrite (better_trans _ _ _ E Hlt) in Hmin.
      * rewrite lookup_insert_ne by done. destruct (acc !! k) as [b'|].
        -- destruct Hk as (? & ? & Hm). split; [set_solver|]. split; [done|].
           intros c [?| ->%list_elem_of_singleton]%elem_of_app ?; [by apply Hm|done].
        -- intros c [?| ->%list_elem_of_singleton]%elem_of_app; auto.
    + destruct (acc !! k) as [b'|] eqn:Hb'.
      * destruct Hk as (? & ? & Hm). split; [set_solver|]. split; [done|].
        intros c [?| ->%list_elem_of_singleton]%elem_of_app ?; [by apply Hm|].
        assert (b' = b) as -> by congruence. done.
      * intros c [?| ->%list_elem_of_singleton]%elem_of_app; [auto|]. congruence.
  - specialize (Hinv (key x)). rewrite Hb in Hinv.
    destruct (decide (k = key x)) as [->|Hne].
    + rewrite lookup_insert_eq. split; [set_solver|]. split; [done|].
      intros c [Hc| ->%list_elem_of_singleton]%elem_of_app Hck; [|apply better_irrefl].
      by apply Hinv in Hc.
    + rewrite lookup_insert_ne by done. destruct (acc !! k) as [b'|].
      * destruct Hk as (? & ? & Hm). split; [set_solver|]. split; [done|].
        intros c [?| ->%list_elem_of_singleton]%elem_of_app ?; [by apply Hm|done].
      * intros c [?| ->%list_elem_of_singleton]%elem_of_app; auto.
Qed.

Lemma keep_best_spec l k :
  match keep_best l !! k with
  | Some b => best_of l k b
  | None => ∀ c, c ∈ l → key c ≠ k
  end.
Proof.
  apply (keep_best_inv l ∅ []). intros k'. rewrite lookup_empty. intros c Hc.
  by apply elem_of_nil in Hc.
Qed.

Lemma keep_best_lookup l k b : keep_best l !! k = Some b → best_of l k b.
Proof. intros E. pose proof (keep_best_spec l k) as Hs. by rewrite E in Hs. Qed.

Lemma keep_best_complete l c : c ∈ l → ∃ b, keep_best l !! key c = Some b.
Proof.
  intros Hc. pose proof (keep_best_spec l (key c)) as Hs.
  destruct (keep_best l !! key c); [eauto|]. by apply Hs in Hc.
Qed.
End keep_best.

(** One iteration order for the hash maps of every value type. *)
Class StrHash := str_hash :: ∀ V, HashIter string V.

Definition str_map_order : StrHash := λ V, map_order.
Definition str_rev_order : StrHash := λ V, rev_order.
