(* ===== verification/F32.v ===== *)
(** * Single-precision floats

    Rust's [f32] is IEEE 754 binary32.  The development computes with the
    Standard Library's executable specification of it ([SpecFloat], precision
    24, largest exponent 128), so every rounding the program performs is
    performed here, and [NaN], infinities and signed zeros behave as the
    hardware's do.  [f64] (precision 53, exponent 1024) appears once, in the
    partition count of the vector index. *)

From S2P Require Import Prelude.
From Stdlib Require Export Floats.SpecFloat.

Abbreviation f32 := spec_float.
Abbreviation f64 := spec_float.

#[export] Instance f32_eq_dec : EqDecision f32.
Proof. unfold EqDecision, Decision. repeat decide equality. Defined.

Module F32.
Definition prec : Z := 24.
Definition emax : Z := 128.

(** Integer to float conversion ([n as f32]): round to nearest even. *)
Definition of_Z (n : Z) : f32 := binary_normalize prec emax n 0 false.

Definition add : f32 → f32 → f32 := SFadd prec emax.
Definition sub : f32 → f32 → f32 := SFsub prec emax.
Definition mul : f32 → f32 → f32 := SFmul prec emax.
Definition div : f32 → f32 → f32 := SFdiv prec emax.
Definition sqrt : f32 → f32 := SFsqrt prec emax.

Definition zero : f32 := S754_zero false.
Definition one : f32 := of_Z 1.
Definition two : f32 := of_Z 2.

Definition is_nan (x : f32) : bool := match x with S754_nan => true | _ => false end.
Definition is_infinite (x : f32) : bool :=
  match x with S754_infinity _ => true | _ => false end.
Definition is_finite (x : f32) : bool := negb (is_nan x) && negb (is_infinite x).

(** [PartialOrd::partial_cmp] and the operators defined from it; every
    comparison with a [NaN] is false. *)
Definition partial_cmp (x y : f32) : option comparison := SFcompare x y.
Definition lt (x y : f32) : bool := SFltb x y.
Definition gt (x y : f32) : bool := SFltb y x.
Definition le (x y : f32) : bool := SFleb x y.
Definition eqb (x y : f32) : bool := SFeqb x y.

(** [a.partial_cmp(&b).unwrap_or(Ordering::Equal)]. *)
Definition cmp_or_eq (x y : f32) : comparison := default Eq (partial_cmp x y).

(** [f32::clamp]. *)
Definition clamp (x lo hi : f32) : f32 :=
  let x := if lt x lo then lo else x in
  if gt x hi then hi else x.

(** [f32::max]: a [NaN] operand is ignored. *)
Definition max (x y : f32) : f32 :=
  if is_nan x then y else if is_nan y then x else if lt x y then y else x.

(** A number is anything but [NaN]. *)
Definition num (x : f32) : Prop := is_nan x = false.
End F32.

#[export] Instance F32_num_dec x : Decision (F32.num x).
Proof. unfold F32.num. apply _. Defined.

(** ** The order on numbers

    The comparison of two numbers is the lexicographic comparison of their
    keys: the class of the value, then exponent and mantissa (negated for
    negative values). *)

Section order.
Definition f32_key (x : f32) : Z * (Z * Z) :=
  match x with
  | S754_infinity true => (-2, (0, 0))
  | S754_finite true m e => (-1, (-e, Zneg m))
  | S754_zero _ | S754_nan => (0, (0, 0))
  | S754_finite false m e => (1, (e, Zpos m))
  | S754_infinity false => (2, (0, 0))
  end%Z.

Definition key_cmp (a b : Z * (Z * Z)) : comparison :=
  then_with (Z.compare a.1 b.1)
    (then_with (Z.compare a.2.1 b.2.1) (Z.compare a.2.2 b.2.2)).

Lemma key_cmp_order : CmpOrder (λ _, True) key_cmp.
Proof.
  unfold key_cmp. pose proof Z_compare_order.
  apply (then_with_order _ (λ a b, Z.compare a.1 b.1)
           (λ a b, then_with (Z.compare a.2.1 b.2.1) (Z.compare a.2.2 b.2.2)));
    [|apply (then_with_order _ (λ a b, Z.compare a.2.1 b.2.1)
               (λ a b, Z.compare a.2.2 b.2.2))];
    split; intros; by (apply Z.compare_antisym || (rewrite Z.compare_gt_iff in *; lia)).
Qed.

Lemma partial_cmp_key x y :
  F32.num x → F32.num y →
  F32.partial_cmp x y = Some (key_cmp (f32_key x) (f32_key y)).
Proof.
  unfold F32.partial_cmp, key_cmp.
  destruct x as [s|[]| |[] m e], y as [s'|[]| |[] m' e']; cbn; try done; intros _ _.
  - rewrite Z.compare_opp, (Z.compare_antisym e' e).
    destruct (e' ?= e)%Z; cbn; done.
  - by destruct (e ?= e')%Z.
Qed.

Lemma cmp_or_eq_key x y :
  F32.num x → F32.num y → F32.cmp_or_eq x y = key_cmp (f32_key x) (f32_key y).
Proof. intros Hx Hy. unfold F32.cmp_or_eq. by rewrite partial_cmp_key. Qed.

#[export] Instance cmp_or_eq_order : CmpOrder F32.num F32.cmp_or_eq.
Proof.
  pose proof key_cmp_order as Hk. split.
  - intros x y Hx Hy. rewrite !cmp_or_eq_key by done.
    by apply (cmp_antisym (P:=λ _, True) (cmp:=key_cmp)).
  - intros x y z Hx Hy Hz. rewrite !cmp_or_eq_key by done.
    by apply (cmp_trans (P:=λ _, True) (cmp:=key_cmp)).
Qed.

Lemma partial_cmp_cmp x y :
  F32.num x → F32.num y → F32.partial_cmp x y = Some (F32.cmp_or_eq x y).
Proof. intros Hx Hy. by rewrite cmp_or_eq_key, partial_cmp_key. Qed.

Lemma lt_cmp x y : F32.lt x y = true → F32.cmp_or_eq x y = Lt.
Proof.
  unfold F32.lt, SFltb, F32.cmp_or_eq, F32.partial_cmp.
  by destruct (SFcompare x y) as [[]|].
Qed.

Lemma lt_cmp_iff x y :
  F32.num x → F32.num y → F32.lt x y = true ↔ F32.cmp_or_eq x y = Lt.
Proof.
  intros Hx Hy. split; [apply lt_cmp|]. intros H.
  unfold F32.lt, SFltb. change (SFcompare x y) with (F32.partial_cmp x y).
  by rewrite partial_cmp_cmp, H.
Qed.

Lemma lt_num x y : F32.lt x y = true → F32.num x ∧ F32.num y.
Proof. by destruct x, y. Qed.

Lemma le_num x y : F32.le x y = true → F32.num x ∧ F32.num y.
Proof. by destruct x, y. Qed.

Lemma le_cmp_iff x y :
  F32.num x → F32.num y → F32.le x y = true ↔ F32.cmp_or_eq x y ≠ Gt.
Proof.
  intros Hx Hy. unfold F32.le, SFleb.
  change (SFcompare x y) with (F32.partial_cmp x y).
  rewrite partial_cmp_cmp by done. by destruct (F32.cmp_or_eq x y).
Qed.
End order.

Section order_lemmas.
Implicit Types x y z : f32.

Lemma cmp_antisym_f32 x y :
  F32.num x → F32.num y → F32.cmp_or_eq y x = CompOpp (F32.cmp_or_eq x y).
Proof. intros. by apply (cmp_antisym (P:=F32.num)). Qed.

Lemma le_not_lt x y : F32.num x → F32.num y → F32.le x y = negb (F32.lt y x).
Proof.
  intros Hx Hy. unfold F32.le, F32.lt, SFleb, SFltb.
  change (SFcompare x y) with (F32.partial_cmp x y).
  change (SFcompare y x) with (F32.partial_cmp y x).
  rewrite !partial_cmp_cmp, (cmp_antisym_f32 x y) by done.
  by destruct (F32.cmp_or_eq x y).
Qed.

Lemma le_refl_f32 x : F32.num x → F32.le x x = true.
Proof.
  intros Hx. rewrite le_cmp_iff by done.
  by rewrite (cmp_refl F32.num F32.cmp_or_eq) by done.
Qed.

Lemma le_trans_f32 x y z : F32.le x y = true → F32.le y z = true → F32.le x z = true.
Proof.
  intros H1 H2. destruct (le_num _ _ H1), (le_num _ _ H2).
  rewrite !le_cmp_iff in * by done.
  by apply (cmp_trans (P:=F32.num) (cmp:=F32.cmp_or_eq) x y z).
Qed.

Lemma lt_le_f32 x y : F32.lt x y = true → F32.le x y = true.
Proof.
  intros H. destruct (lt_num _ _ H). rewrite le_cmp_iff by done.
  rewrite lt_cmp_iff in H by done. by rewrite H.
Qed.

Lemma lt_trans_f32 x y z : F32.lt x y = true → F32.lt y z = true → F32.lt x z = true.
Proof.
  intros H1 H2. destruct (lt_num _ _ H1), (lt_num _ _ H2).
  rewrite !lt_cmp_iff in * by done.
  apply (cmp_lt_le_trans F32.num F32.cmp_or_eq x y z); [done..|congruence].
Qed.

Lemma lt_irrefl_f32 x : F32.lt x x = false.
Proof.
  destruct (F32.lt x x) eqn:H; [|done]. destruct (lt_num _ _ H).
  rewrite lt_cmp_iff in H by done.
  by rewrite (cmp_refl F32.num F32.cmp_or_eq) in H by done.
Qed.

(** Comparison by a distance is a strict order. *)
Lemma lt_better {A} (f : A → f32) : Better (λ a b, F32.lt (f a) (f b)).
Proof. split; intros; [apply lt_irrefl_f32|by eapply lt_trans_f32]. Qed.

Lemma gt_false_le x y : F32.num x → F32.num y → F32.gt x y = false → F32.le x y = true.
Proof. intros Hx Hy H. rewrite le_not_lt by done. unfold F32.gt in H. cbn. by unfold F32.lt; rewrite H. Qed.

Lemma le_total_f32 x y : F32.num x → F32.num y → F32.le x y = true ∨ F32.lt y x = true.
Proof. intros Hx Hy. rewrite le_not_lt by done. destruct (F32.lt y x); auto. Qed.

Lemma le_eqb_f32 x y : F32.num x → F32.num y → F32.le x y = true → F32.lt x y = false → F32.eqb x y = true.
Proof.
  intros Hx Hy. unfold F32.le, F32.lt, F32.eqb, SFleb, SFltb, SFeqb.
  by destruct (SFcompare x y) as [[]|].
Qed.
End order_lemmas.

Create HintDb f32.
#[export] Hint Resolve le_refl_f32 lt_le_f32 : f32.

(** ** Non-negative values

    [F32.nn]: a positive zero, a positive finite value or positive infinity.
    Rounding a non-negative exact value yields one, so that sums of such values
    and quotients of a positive finite value by one never become [NaN]. *)

Definition F32_nn (x : f32) : Prop :=
  match x with
  | S754_zero false | S754_infinity false | S754_finite false _ _ => True
  | _ => False
  end.

Lemma nn_num x : F32_nn x → F32.num x.
Proof. by destruct x. Qed.

Section rounding.
Context (prec emax : Z).

Lemma shr_1_nonneg mrs : (0 <= shr_m mrs → 0 <= shr_m (shr_1 mrs))%Z.
Proof. destruct mrs as [[|[]|[]] r s]; cbn; lia. Qed.

Lemma iter_shr_nonneg n mrs : (0 <= shr_m mrs → 0 <= shr_m (iter_pos shr_1 n mrs))%Z.
Proof.
  revert mrs; induction n as [n IH|n IH|]; intros mrs H; cbn; auto using shr_1_nonneg.
Qed.

Lemma shr_fexp_nonneg m e l : (0 <= m → 0 <= shr_m (shr_fexp prec emax m e l).1)%Z.
Proof.
  intros Hm. unfold shr_fexp, shr.
  assert (0 <= shr_m (shr_record_of_loc m l))%Z as H by (by destruct l as [|[]]).
  case_match; cbn; auto using iter_shr_nonneg.
Qed.

Lemma round_nearest_even_nonneg m l : (0 <= m → 0 <= round_nearest_even m l)%Z.
Proof. destruct l as [|[]]; cbn; try lia. case_match; lia. Qed.

Lemma binary_round_aux_nn m e l :
  (0 <= m)%Z → F32_nn (binary_round_aux prec emax false m e l).
Proof.
  intros Hm. unfold binary_round_aux.
  destruct (shr_fexp prec emax m e l) as [mrs1 e1] eqn:E1.
  pose proof (shr_fexp_nonneg m e l Hm) as H1. rewrite E1 in H1. cbn in H1.
  set (m2 := round_nearest_even _ _).
  pose proof (shr_fexp_nonneg m2 e1 loc_Exact
    ltac:(unfold m2; by apply round_nearest_even_nonneg)) as H2.
  destruct (shr_fexp prec emax m2 e1 loc_Exact) as [mrs2 e2]. cbn in H2.
  destruct (shr_m mrs2); [done| |lia]. by destruct (Z.leb _ _).
Qed.

Lemma binary_normalize_nn m e : (0 <= m)%Z → F32_nn (binary_normalize prec emax m e false).
Proof.
  intros Hm. destruct m; [done| |lia]. cbn. unfold binary_round.
  destruct (shl_align _ _ _). by apply binary_round_aux_nn.
Qed.
End rounding.

Lemma of_Z_nn n : (0 <= n)%Z → F32_nn (F32.of_Z n).
Proof. apply binary_normalize_nn. Qed.

Lemma add_nn x y : F32_nn x → F32_nn y → F32_nn (F32.add x y).
Proof.
  destruct x as [[]|[]| |[] m e], y as [[]|[]| |[] m' e']; try done. intros _ _.
  unfold F32.add, SFadd. apply binary_normalize_nn. cbn. lia.
Qed.

Lemma div_finite_nn m e y : F32_nn y → F32_nn (F32.div (S754_finite false m e) y).
Proof.
  destruct y as [[]|[]| |[] m' e']; try done. intros _. unfold F32.div, SFdiv.
  destruct (SFdiv_core_binary _ _ _ _ _ _) as [[q ez] l] eqn:E.
  apply binary_round_aux_nn. unfold SFdiv_core_binary in E.
  match type of E with (let '(_, _) := Z.div_eucl ?a ?b in _) = _ =>
    pose proof (Z_div_mod a b ltac:(lia)) as Hd;
    assert (0 <= a)%Z as Ha by (repeat case_match; try lia; apply Z.shiftl_nonneg; lia);
    destruct (Z.div_eucl a b) as [q' r'] end.
  simplify_eq. nia.
Qed.
#[export] Hint Resolve nn_num of_Z_nn add_nn div_finite_nn : f32.
