(* ===== verification/RustStr.v ===== *)
(** * Rust strings

    A [String] or [&str] is a sequence of UTF-8 bytes; it is a Rocq [string],
    whose characters are 8-bit.  [len] is the number of bytes and indices are
    byte offsets.  This file holds the standard-library operations the program
    uses, each executable. *)

From S2P Require Import Prelude.

Abbreviation byte_of c := (N_of_ascii c).

(** The two characters that cannot be written in a literal here. *)
Definition newline : ascii := Ascii.ascii_of_nat 10.
Definition carriage_return : ascii := Ascii.ascii_of_nat 13.

(** [str::len]: the number of bytes. *)
Definition str_len (s : string) : nat := String.length s.

Abbreviation str_bytes := list_ascii_of_string.
Abbreviation str_of_bytes := string_of_list_ascii.

Lemma str_bytes_app s t : str_bytes (s +:+ t) = str_bytes s ++ str_bytes t.
Proof. induction s as [|c s IH]; simpl; [done|]. f_equal; apply IH. Qed.

Lemma str_len_bytes s : length (str_bytes s) = str_len s.
Proof. unfold str_len. induction s as [|c s IH]; simpl; [done|]. f_equal; apply IH. Qed.

Lemma str_bytes_inj s t : str_bytes s = str_bytes t → s = t.
Proof.
  intros H. rewrite <-(string_of_list_ascii_of_string s), H.
  apply string_of_list_ascii_of_string.
Qed.

(** ** Searching and splitting *)

(** [str::starts_with]. *)
Definition starts_with (p s : string) : bool := String.prefix p s.

(** [str::strip_prefix]. *)
Fixpoint strip_prefix (p s : string) : option string :=
  match p, s with
  | EmptyString, _ => Some s
  | String a p, String b s => if Ascii.eqb a b then strip_prefix p s else None
  | String _ _, EmptyString => None
  end.

(** [str::ends_with]. *)
Definition ends_with (suffix s : string) : bool :=
  (str_len suffix <=? str_len s)%nat &&
  String.eqb (String.substring (str_len s - str_len suffix) (str_len suffix) s) suffix.

(** [str::find(&str)]: byte offset of the first match. *)
Definition find_str (pat s : string) : option nat := String.index 0 pat s.

(** [str::contains(&str)]. *)
Definition contains (pat s : string) : bool :=
  match find_str pat s with Some _ => true | None => false end.

(** [&s[i..]] for an offset inside the string. *)
Definition str_from (i : nat) (s : string) : string := String.substring i (str_len s - i) s.

(** [str::split(char)]: always at least one segment. *)
Fixpoint split_char (c : ascii) (s : string) : list string :=
  match s with
  | EmptyString => [EmptyString]
  | String a s' =>
      if Ascii.eqb a c then EmptyString :: split_char c s'
      else match split_char c s' with
           | seg :: segs => String a seg :: segs
           | [] => [String a EmptyString]
           end
  end.

(** [str::split_once(char)]. *)
Fixpoint split_once (c : ascii) (s : string) : option (string * string) :=
  match s with
  | EmptyString => None
  | String a s' =>
      if Ascii.eqb a c then Some (EmptyString, s')
      else match split_once c s' with
           | Some (l, r) => Some (String a l, r)
           | None => None
           end
  end.

(** [str::splitn(n, char)]: at most [n] segments, the last one unsplit. *)
Fixpoint splitn_char (n : nat) (c : ascii) (s : string) : list string :=
  match n with
  | 0 => []
  | S n' => match n' with
            | 0 => [s]
            | S _ => match split_once c s with
                     | Some (l, r) => l :: splitn_char n' c r
                     | None => [s]
                     end
            end
  end.

(** [[String]::join]. *)
Definition join (sep : string) (segs : list string) : string := String.concat sep segs.

Lemma split_char_cons c s : ∃ seg segs, split_char c s = seg :: segs.
Proof.
  destruct s as [|a s]; simpl; [eauto|].
  destruct (Ascii.eqb a c); [eauto|]. destruct (split_char c s); eauto.
Qed.

Definition no_char (c : ascii) (s : string) : Prop := c ∉ str_bytes s.

Lemma split_char_no c s : Forall (no_char c) (split_char c s).
Proof.
  induction s as [|a s IH]; simpl.
  { repeat constructor. apply not_elem_of_nil. }
  destruct (Ascii.eqb_spec a c) as [->|Hne].
  { constructor; [apply not_elem_of_nil|done]. }
  destruct (split_char_cons c s) as (seg & segs & Hs). rewrite Hs in *.
  inversion IH as [|?? Hseg Hsegs]; subst. constructor; [|done].
  unfold no_char in *; simpl. apply not_elem_of_cons; auto.
Qed.

Lemma split_char_app_sep c s t :
  no_char c s → split_char c (s +:+ String c t) = s :: split_char c t.
Proof.
  intros Hs; induction s as [|a s IH]; simpl.
  { by rewrite Ascii.eqb_refl. }
  unfold no_char in *; simpl in Hs.
  destruct (Ascii.eqb_spec a c) as [->|Hne]; [set_solver|].
  rewrite IH; [done|set_solver].
Qed.

Lemma split_char_none c s : no_char c s → split_char c s = [s].
Proof.
  intros Hs; induction s as [|a s IH]; simpl; [done|].
  unfold no_char in *; simpl in Hs.
  destruct (Ascii.eqb_spec a c) as [->|Hne]; [set_solver|].
  rewrite IH; [done|set_solver].
Qed.

(** Splitting and joining with the same separator are inverse. *)
Lemma join_split c s : join (String c EmptyString) (split_char c s) = s.
Proof.
  unfold join. induction s as [|a s IH]; simpl; [done|].
  destruct (split_char_cons c s) as (seg & segs & Hs). rewrite Hs in *.
  destruct (Ascii.eqb_spec a c) as [->|Hne].
  - simpl in *. by rewrite IH.
  - simpl in *. destruct segs; simpl in *; by rewrite <-IH.
Qed.

Lemma split_join c segs :
  segs ≠ [] → Forall (no_char c) segs →
  split_char c (join (String c EmptyString) segs) = segs.
Proof.
  unfold join. induction segs as [|s segs IH]; intros Hne Hall; [done|].
  inversion Hall as [|?? Hs Hsegs]; subst. destruct segs as [|s' segs].
  { by apply split_char_none. }
  change (String.concat _ (s :: s' :: segs))
    with (s +:+ String c (String.concat (String c EmptyString) (s' :: segs))).
  rewrite split_char_app_sep by done. by rewrite IH.
Qed.

Lemma split_once_inv c s l r : split_once c s = Some (l, r) ↔ s = l +:+ String c r ∧ no_char c l.
Proof.
  revert l; induction s as [|a s IH]; intros l; cbn.
  { split; [done|]. intros [Hs _]. by destruct l. }
  destruct (Ascii.eqb_spec a c) as [->|Hne].
  - split; [intros [= <- <-]; split; [done|apply not_elem_of_nil]|]. intros [Hs Hn]. destruct l as [|b l]; [by injection Hs as ->|].
    injection Hs as -> _. destruct Hn. by left.
  - destruct (split_once c s) as [[l0 r0]|].
    + split.
      * intros [= <- <-]. destruct (proj1 (IH l0) eq_refl) as [-> Hn]. split; [done|]. by apply not_elem_of_cons.
      * intros [Hs Hn]. destruct l as [|b l]; [by injection Hs as ->|]. injection Hs as -> Hs.
        apply not_elem_of_cons in Hn as [_ Hn]. by pose proof (proj2 (IH l) (conj Hs Hn)) as [= -> ->].
    + split; [done|]. intros [Hs Hn]. destruct l as [|b l]; [by injection Hs as ->|]. injection Hs as -> Hs.
      apply not_elem_of_cons in Hn as [_ Hn]. discriminate (proj2 (IH l) (conj Hs Hn)).
Qed.

Lemma no_char_app c s t : no_char c s → no_char c t → no_char c (s +:+ t).
Proof. unfold no_char. rewrite str_bytes_app, elem_of_app. tauto. Qed.

(** ** UTF-8 *)

Definition in_range (lo hi : N) (c : ascii) : bool := ((lo <=? byte_of c) && (byte_of c <=? hi))%N.

(** A continuation byte, [0b10xxxxxx]. *)
Definition is_cont (c : ascii) : bool := in_range 128 191 c.

(** [str::from_utf8]: well-formed UTF-8, without overlong forms, surrogates
    or code points above U+10FFFF. *)
Fixpoint utf8_valid (l : list ascii) : bool :=
  match l with
  | [] => true
  | b0 :: l1 =>
      if in_range 0 127 b0 then utf8_valid l1
      else if in_range 194 223 b0 then
        match l1 with b1 :: l2 => is_cont b1 && utf8_valid l2 | _ => false end
      else if in_range 224 239 b0 then
        match l1 with
        | b1 :: b2 :: l3 =>
            in_range (if (byte_of b0 =? 224)%N then 160 else 128)
                     (if (byte_of b0 =? 237)%N then 159 else 191) b1
            && is_cont b2 && utf8_valid l3
        | _ => false
        end
      else if in_range 240 244 b0 then
        match l1 with
        | b1 :: b2 :: b3 :: l4 =>
            in_range (if (byte_of b0 =? 240)%N then 144 else 128)
                     (if (byte_of b0 =? 244)%N then 143 else 191) b1
            && is_cont b2 && is_cont b3 && utf8_valid l4
        | _ => false
        end
      else false
  end.

(** [str::is_char_boundary]. *)
Definition is_char_boundary (s : string) (i : nat) : bool :=
  if (i =? 0)%nat then true
  else if (i =? str_len s)%nat then true
  else match str_bytes s !! i with
       | None => false
       | Some b => negb (is_cont b)
       end.

(** [&s[i..j]]: panics (here [None]) unless [i <= j] and both offsets are
    character boundaries inside the string. *)
Definition str_slice (s : string) (i j : nat) : option string :=
  if (i <=? j)%nat && is_char_boundary s i && is_char_boundary s j
  then Some (String.substring i (j - i) s) else None.

Lemma is_char_boundary_le s i : is_char_boundary s i = true → i ≤ str_len s.
Proof.
  unfold is_char_boundary. destruct (Nat.eqb_spec i 0); [lia|].
  destruct (Nat.eqb_spec i (str_len s)); [lia|].
  destruct (str_bytes s !! i) eqn:E; [|done].
  intros _. apply lookup_lt_Some in E. rewrite str_len_bytes in E. lia.
Qed.

Lemma is_char_boundary_0 s : is_char_boundary s 0 = true.
Proof. done. Qed.

Lemma is_char_boundary_len s : is_char_boundary s (str_len s) = true.
Proof. unfold is_char_boundary. rewrite Nat.eqb_refl. by case_match. Qed.

(** ** White space

    [char::is_whitespace] on the UTF-8 encoding: how many bytes of white space
    the string starts with (0: none). *)
Definition ws_ascii (c : ascii) : bool := in_range 9 13 c || (byte_of c =? 32)%N.

Definition ws_prefix (l : list ascii) : nat :=
  match map (λ c, byte_of c) l with
  | 194%N :: 133%N :: _ | 194%N :: 160%N :: _ => 2          (* U+0085, U+00A0 *)
  | 225%N :: 154%N :: 128%N :: _ => 3                       (* U+1680 *)
  | 226%N :: 128%N :: b :: _ =>                             (* U+2000..200A, 2028, 2029, 202F *)
      if ((128 <=? b) && (b <=? 138) || (b =? 168) || (b =? 169) || (b =? 175))%N then 3 else 0
  | 226%N :: 129%N :: 159%N :: _ => 3                       (* U+205F *)
  | 227%N :: 128%N :: 128%N :: _ => 3                       (* U+3000 *)
  | _ => match l with c :: _ => if ws_ascii c then 1 else 0 | [] => 0 end
  end.

(** [trim_start], on bytes; the fuel is the length. *)
Fixpoint trim_start_bytes (fuel : nat) (l : list ascii) : list ascii :=
  match fuel with
  | 0 => l
  | S fuel => match ws_prefix l with
              | 0 => l
              | n => trim_start_bytes fuel (drop n l)
              end
  end.

(** Length of the white-space character the byte string ends with (0: none). *)
Definition ws_suffix (l : list ascii) : nat :=
  let try n := if (n <=? length l)%nat && (ws_prefix (drop (length l - n) l) =? n)%nat then n else 0 in
  match try 3 with
  | 0 => match try 2 with 0 => try 1 | n => n end
  | n => n
  end.

Fixpoint trim_end_bytes (fuel : nat) (l : list ascii) : list ascii :=
  match fuel with
  | 0 => l
  | S fuel => match ws_suffix l with
              | 0 => l
              | n => trim_end_bytes fuel (take (length l - n) l)
              end
  end.

(** [str::trim]. *)
Definition trim (s : string) : string :=
  let l := str_bytes s in
  let l := trim_start_bytes (length l) l in
  str_of_bytes (trim_end_bytes (length l) l).

(** [str::lines]: split at newlines.  A carriage return before a newline is
    part of the line ending; a last piece without newline is kept as it is, and
    dropped when it is empty. *)
Definition strip_cr (line : string) : string :=
  match reverse (str_bytes line) with
  | c :: l => if Ascii.eqb c carriage_return then str_of_bytes (reverse l) else line
  | [] => line
  end.

Definition lines (s : string) : list string :=
  match reverse (split_char newline s) with
  | [] => []
  | last :: init =>
      map strip_cr (reverse init)
      ++ match last with EmptyString => [] | _ => [last] end
  end.

Example trim_ex : trim "  a b	 " = "a b".
Proof. vm_compute. reflexivity. Qed.

(** ** Hexadecimal *)

Definition hex_digit (n : N) : ascii :=
  if (n <? 10)%N then ascii_of_N (48 + n) else ascii_of_N (87 + n).

(** [format!("{:02x}", b)]. *)
Definition hex_byte (b : ascii) : list ascii :=
  [hex_digit (byte_of b / 16)%N; hex_digit (byte_of b mod 16)%N].

(** [char::to_digit(16)]. *)
Definition digit_of_hex (c : ascii) : option N :=
  let n := byte_of c in
  if in_range 48 57 c then Some (n - 48)%N
  else if in_range 97 102 c then Some (n - 87)%N
  else if in_range 65 70 c then Some (n - 55)%N
  else None.

(** [u8::from_str_radix(s, 16)] on a two-byte string: an optional [+] sign,
    then at least one digit. *)
Definition u8_from_hex2 (a b : ascii) : option ascii :=
  if Ascii.eqb a "+"%char then d ← digit_of_hex b; Some (ascii_of_N d)
  else h ← digit_of_hex a; d ← digit_of_hex b; Some (ascii_of_N (16 * h + d)).

Lemma all_bytes (P : ascii → bool) :
  forallb P (map ascii_of_nat (seq 0 256)) = true → ∀ c, P c = true.
Proof.
  intros H c. rewrite forallb_forall in H. apply H.
  apply in_map_iff. exists (nat_of_ascii c).
  split; [apply ascii_nat_embedding|].
  apply in_seq. pose proof (nat_ascii_bounded c). lia.
Qed.

Lemma u8_from_hex_byte c :
  u8_from_hex2 (hex_digit (byte_of c / 16)) (hex_digit (byte_of c mod 16)) = Some c.
Proof.
  apply (bool_decide_eq_true_1 (u8_from_hex2 (hex_digit (byte_of c / 16))
                                  (hex_digit (byte_of c mod 16)) = Some c)).
  revert c. apply all_bytes. vm_compute. reflexivity.
Qed.

Lemma utf8_valid_app l1 l2 :
  utf8_valid l1 = true → utf8_valid (l1 ++ l2) = utf8_valid l2.
Proof.
  remember (length l1) as n eqn:Hn. assert (length l1 ≤ n) as Hle by lia. clear Hn.
  revert l1 Hle; induction n as [|n IH]; intros [|b0 l1] Hle; cbn in Hle; try done; try lia.
  cbn. repeat case_match; simplify_eq/=; try done; rewrite ?andb_true_iff;
    intros; destruct_and?; rewrite ?andb_true_l;
    try (apply IH; [lia|done]);
    repeat match goal with H : ?b = true |- context [?b] => rewrite H end; cbn;
    apply IH; cbn in *; (lia || done).
Qed.

(** ** Trimming twice *)

Lemma ws_prefix_le l : ws_prefix l ≤ length l.
Proof.
  destruct l as [|a [|b [|c l]]]; unfold ws_prefix; cbn [map];
    repeat case_match; simplify_eq/=; lia.
Qed.

Lemma ws_prefix_take k l : ws_prefix l = 0 → ws_prefix (take k l) = 0.
Proof.
  destruct k as [|[|[|k]]]; destruct l as [|a [|b [|c l]]]; cbn [take]; try done;
    unfold ws_prefix; cbn [map]; intros H; repeat case_match; simplify_eq/=; try done;
    by (unfold ws_ascii, in_range in *;
        match goal with H : byte_of ?a = 226%N, H2 : _ = true |- _ => rewrite H in H2 end).
Qed.

Lemma trim_start_bytes_prefix fuel l :
  length l ≤ fuel → ws_prefix (trim_start_bytes fuel l) = 0.
Proof.
  revert l; induction fuel as [|fuel IH]; intros l Hl; cbn [trim_start_bytes].
  { destruct l; [done|cbn in Hl; lia]. }
  destruct (ws_prefix l) as [|n] eqn:E; [done|]. apply IH.
  pose proof (ws_prefix_le l). rewrite length_drop. lia.
Qed.

Lemma trim_start_bytes_id fuel l : ws_prefix l = 0 → trim_start_bytes fuel l = l.
Proof. destruct fuel; cbn; [done|]. by intros ->. Qed.

Lemma ws_suffix_le l : ws_suffix l ≤ length l.
Proof.
  unfold ws_suffix.
  assert (∀ n, (if (n <=? length l)%nat && (ws_prefix (drop (length l - n) l) =? n)%nat
                then n else 0) ≤ length l) as H.
  { intros n. destruct (Nat.leb_spec n (length l)); cbn; [case_match|]; lia. }
  pose proof (H 3); pose proof (H 2); pose proof (H 1). cbv zeta. repeat case_match; lia.
Qed.

Lemma trim_end_bytes_take fuel l : ∃ k, trim_end_bytes fuel l = take k l.
Proof.
  revert l; induction fuel as [|fuel IH]; intros l; cbn [trim_end_bytes].
  { exists (length l). by rewrite take_ge. }
  destruct (ws_suffix l) as [|n]; [exists (length l); by rewrite take_ge|].
  destruct (IH (take (length l - S n) l)) as [k ->]. rewrite take_take. eauto.
Qed.

Lemma trim_end_bytes_suffix fuel l :
  length l ≤ fuel → ws_suffix (trim_end_bytes fuel l) = 0.
Proof.
  revert l; induction fuel as [|fuel IH]; intros l Hl; cbn [trim_end_bytes].
  { destruct l; [done|cbn in Hl; lia]. }
  destruct (ws_suffix l) as [|n] eqn:E; [done|]. apply IH.
  pose proof (ws_suffix_le l). rewrite length_take. lia.
Qed.

Lemma trim_end_bytes_id fuel l : ws_suffix l = 0 → trim_end_bytes fuel l = l.
Proof. destruct fuel; cbn [trim_end_bytes]; [done|]. by intros ->. Qed.

Lemma trim_idemp s : trim (trim s) = trim s.
Proof.
  unfold trim. rewrite list_ascii_of_string_of_list_ascii.
  set (l := trim_start_bytes (length (str_bytes s)) (str_bytes s)).
  assert (ws_prefix l = 0) as Hp by (apply trim_start_bytes_prefix; done).
  destruct (trim_end_bytes_take (length l) l) as [k Hk].
  rewrite (trim_start_bytes_id _ (trim_end_bytes _ _)) by (rewrite Hk; by apply ws_prefix_take).
  rewrite (trim_end_bytes_id _ (trim_end_bytes _ _)); [done|].
  by apply trim_end_bytes_suffix.
Qed.
