(* ===== verification/Model.v ===== *)
(** * Domain types (src/src/kernel/model.rs, src/src/kernel/error.rs)

    The vocabulary of the program: validated domains, resource paths and their
    parser, push operations, search hits, statistics, and the error taxonomy.
    The newtypes [Domain], [CommitId] and [BranchName] wrap a string and are
    kept as records, so that a raw string is not mistaken for a validated one. *)

From S2P Require Import Prelude F32 RustStr.

(** ** Identifiers *)

Record Domain := mkDomain { domain_str : string }.
Record CommitId := mkCommitId { commit_str : string }.
Record BranchName := mkBranchName { branch_str : string }.

#[export] Instance Domain_eq_dec : EqDecision Domain. Proof. solve_decision. Defined.
#[export] Instance CommitId_eq_dec : EqDecision CommitId. Proof. solve_decision. Defined.
#[export] Instance BranchName_eq_dec : EqDecision BranchName. Proof. solve_decision. Defined.

Inductive Ref : Type :=
| RefBranch (b : BranchName)
| RefCommit (c : CommitId).

#[export] Instance Ref_eq_dec : EqDecision Ref. Proof. solve_decision. Defined.

Record ResourcePath := mkResourcePath {
  rp_org : string;
  rp_db : string;
  rp_repo : string;
  rp_reference : Ref;
}.

#[export] Instance ResourcePath_eq_dec : EqDecision ResourcePath.
Proof. solve_decision. Defined.

Inductive ParseError : Type :=
| InvalidDomain (s : string)
| InvalidRefKind (s : string)
| IncompleteRef (s : string).

#[export] Instance ParseError_eq_dec : EqDecision ParseError. Proof. solve_decision. Defined.

(** ** Errors *)

Inductive ServiceError : Type :=
| Validation (msg : string)
| NotFound (msg : string)
| Conflict (msg : string)
| Unavailable (msg : string)
| ServiceInternal (msg : string)
| AbortError (msg : string).

Inductive IngestError : Type :=
| MalformedLine (line : nat) (detail : string)
| IngestIo (msg : string).

Inductive StoreError : Type :=
| StoreInternal (msg : string)
| ReadOnly (msg : string).

#[export] Instance ServiceError_eq_dec : EqDecision ServiceError. Proof. solve_decision. Defined.
#[export] Instance IngestError_eq_dec : EqDecision IngestError. Proof. solve_decision. Defined.
#[export] Instance StoreError_eq_dec : EqDecision StoreError. Proof. solve_decision. Defined.

(** [Display], as derived by [thiserror]. *)
Definition store_error_to_string (e : StoreError) : string :=
  match e with
  | StoreInternal msg => "store error: " +:+ msg
  | ReadOnly msg => "read-only: " +:+ msg
  end.

(** ** Resource paths *)

Definition slash : ascii := "/"%char.

(** [parse_domain]: TerminusDB's graphspec grammar. *)
Definition parse_domain (input : string) : result ParseError ResourcePath :=
  match split_char slash input with
  | [org; db] =>
      Ok (mkResourcePath org db "local" (RefBranch (mkBranchName "main")))
  | [org; db; repo] =>
      Ok (mkResourcePath org db repo (RefBranch (mkBranchName "main")))
  | [org; db; repo; ref_kind; ref_value] =>
      if String.eqb ref_kind "branch" then
        Ok (mkResourcePath org db repo (RefBranch (mkBranchName ref_value)))
      else if String.eqb ref_kind "commit" then
        Ok (mkResourcePath org db repo (RefCommit (mkCommitId ref_value)))
      else Err (InvalidRefKind ref_kind)
  | [_; _; _; ref_kind] =>
      if String.eqb ref_kind "branch" || String.eqb ref_kind "commit"
      then Err (IncompleteRef ref_kind)
      else Err (InvalidDomain input)
  | _ => Err (InvalidDomain input)
  end.

(** [Domain::from_resource_path]. *)
Definition from_resource_path (rp : ResourcePath) : Domain :=
  mkDomain (rp_org rp +:+ "/" +:+ rp_db rp).

(** [extract_branch] of the service: the branch of a path, [main] for a
    commit reference. *)
Definition extract_branch (rp : ResourcePath) : string :=
  match rp_reference rp with
  | RefBranch b => branch_str b
  | RefCommit _ => "main"
  end.

(** The fully-qualified spelling of a path, the grammar [parse_domain]
    documents for five segments. *)
Definition print_path (rp : ResourcePath) : string :=
  let '(kind, value) := match rp_reference rp with
                        | RefBranch b => ("branch", branch_str b)
                        | RefCommit c => ("commit", commit_str c)
                        end in
  join "/" [rp_org rp; rp_db rp; rp_repo rp; kind; value].

(** A path none of whose segments contains a slash. *)
Definition path_wf (rp : ResourcePath) : Prop :=
  no_char slash (rp_org rp) ∧ no_char slash (rp_db rp) ∧ no_char slash (rp_repo rp) ∧
  no_char slash (match rp_reference rp with
                 | RefBranch b => branch_str b
                 | RefCommit c => commit_str c
                 end).

(** ** Search modes, operations, task status *)

Inductive SearchMode : Type := Vector | Fts | Hybrid.
#[export] Instance SearchMode_eq_dec : EqDecision SearchMode. Proof. solve_decision. Defined.

(** [SearchMode::parse]. *)
Definition search_mode_parse (s : string) : option SearchMode :=
  if String.eqb s "vector" then Some Vector
  else if String.eqb s "fts" then Some Fts
  else if String.eqb s "hybrid" then Some Hybrid
  else None.

Inductive Operation : Type :=
| Inserted (id : string) (text : string)
| Changed (id : string) (text : string)
| Deleted (id : string)
| OpError (message : string)
| OpAbort.
#[export] Instance Operation_eq_dec : EqDecision Operation. Proof. solve_decision. Defined.

Record SkippedDoc := mkSkippedDoc { sk_id : string; sk_message : string }.
#[export] Instance SkippedDoc_eq_dec : EqDecision SkippedDoc. Proof. solve_decision. Defined.

(** The percentage is an [f64]; the program only ever stores [0.0]. *)
Inductive TaskStatus : Type :=
| Pending (percentage : f64)
| Complete (indexed_documents : N) (skipped : list SkippedDoc)
| TaskError (error : string).

#[export] Instance f64_eq_dec : EqDecision f64 := f32_eq_dec.
#[export] Instance TaskStatus_eq_dec : EqDecision TaskStatus. Proof. solve_decision. Defined.

Inductive ProgressUpdate : Type :=
| Progress (indexed total_seen skipped : N)
| ProgressComplete (indexed_documents : N) (skipped : list SkippedDoc)
| ProgressError (error : string)
| Aborted.
#[export] Instance ProgressUpdate_eq_dec : EqDecision ProgressUpdate. Proof. solve_decision. Defined.

(** ** Search results *)

Record LegScore := mkLegScore { leg_rank : Z; leg_distance : f32 }.

Record ChunkInfo := mkChunkInfo {
  ci_index : Z;
  ci_count : Z;
  ci_token_start : Z;
  ci_doc_token_len : Z;
  ci_location : f32;
  ci_snippet : option string;
}.

Record SearchHit := mkSearchHit {
  sh_id : string;
  sh_distance : f32;
  sh_chunk : ChunkInfo;
  sh_rrf_score : option f32;
  sh_vector : option LegScore;
  sh_fts : option LegScore;
}.

Record LastIndexed := mkLastIndexed {
  li_branch : string;
  li_commit : option string;
  li_version : N;
}.

Record DuplicateMember := mkDuplicateMember {
  dm_id : string;
  dm_snippet : option string;
}.

Record DuplicateGroup := mkDuplicateGroup {
  dg_group : list DuplicateMember;
  dg_distance : f32;
}.

#[export] Instance DuplicateMember_eq_dec : EqDecision DuplicateMember. Proof. solve_decision. Defined.
#[export] Instance DuplicateGroup_eq_dec : EqDecision DuplicateGroup. Proof. solve_decision. Defined.
#[export] Instance LastIndexed_eq_dec : EqDecision LastIndexed. Proof. solve_decision. Defined.

(** ** Properties *)

Lemma parse_domain_segments s rp :
  parse_domain s = Ok rp →
  path_wf rp ∧
  ∃ rest, split_char slash s = rp_org rp :: rp_db rp :: rest ∧
    match rest with
    | [] => rp_repo rp = "local" ∧ rp_reference rp = RefBranch (mkBranchName "main")
    | [repo] => rp_repo rp = repo ∧ rp_reference rp = RefBranch (mkBranchName "main")
    | [repo; kind; value] =>
        rp_repo rp = repo ∧
        (kind = "branch" ∧ rp_reference rp = RefBranch (mkBranchName value) ∨
         kind = "commit" ∧ rp_reference rp = RefCommit (mkCommitId value))
    | _ => False
    end.
Proof.
  unfold parse_domain. pose proof (split_char_no slash s) as Hno.
  assert (no_char slash "local" ∧ no_char slash "main") as [Hl Hm].
  { unfold no_char; cbn. split; by apply (bool_decide_unpack _). }
  destruct (split_char slash s) as [|a [|b [|c [|d [|e [|]]]]]]; try done;
    rewrite ?list.Forall_cons in Hno; destruct_and? Hno.
  - intros [= <-]. unfold path_wf; cbn. split; [by split_and!|]. by exists [].
  - intros [= <-]. unfold path_wf; cbn. split; [by split_and!|]. by exists [c].
  - by destruct (_ || _).
  - destruct (String.eqb_spec d "branch") as [->|]; [|destruct (String.eqb_spec d "commit") as [->|]];
      [intros [= <-]..|done]; unfold path_wf; cbn; (split; [by split_and!|]);
      eexists; (split; [done|]); cbn; auto.
Qed.

(** Printing a path in the fully-qualified grammar and parsing it again
    gives the same path, for every path whose segments contain no slash: the
    parser neither loses nor confuses the organisation, database, repository,
    reference kind or reference value. *)
Theorem parse_print_roundtrip rp : path_wf rp → parse_domain (print_path rp) = Ok rp.
Proof.
  destruct rp as [org db repo [b|c]]; unfold path_wf; cbn -[join]; intros (? & ? & ? & ?);
    unfold parse_domain, print_path; cbn -[join split_char];
    rewrite (split_join slash) by
      (done || (rewrite !list.Forall_cons; split_and!; auto; by apply (bool_decide_unpack _)));
    cbn; [by destruct b|by destruct c].
Qed.

Lemma parse_print_roundtrip_witness :
  parse_domain (print_path (mkResourcePath "admin" "star_wars" "local"
                              (RefCommit (mkCommitId "abc123"))))
  = Ok (mkResourcePath "admin" "star_wars" "local" (RefCommit (mkCommitId "abc123"))).
Proof.
  apply parse_print_roundtrip. unfold path_wf; cbn.
  split_and!; by apply (bool_decide_unpack _).
Defined.

(** The domain string the service derives from an accepted request is
    itself an accepted domain, and normalising it again changes nothing: every
    spelling of a request ([org/db], with a repository, a branch or a commit)
    addresses the same store key. *)
Theorem domain_normalisation_idempotent s rp :
  parse_domain s = Ok rp →
  ∃ rp', parse_domain (domain_str (from_resource_path rp)) = Ok rp' ∧
         from_resource_path rp' = from_resource_path rp ∧
         extract_branch rp' = "main".
Proof.
  intros ((Horg & Hdb & _) & _)%parse_domain_segments.
  exists (mkResourcePath (rp_org rp) (rp_db rp) "local" (RefBranch (mkBranchName "main"))).
  split; [|done]. unfold parse_domain, from_resource_path; cbn -[split_char].
  change (rp_org rp +:+ "/" +:+ rp_db rp) with (rp_org rp +:+ String slash (rp_db rp)).
  by rewrite split_char_app_sep, (split_char_none slash (rp_db rp)).
Qed.

Lemma domain_normalisation_idempotent_witness :
  ∃ rp', parse_domain "admin/star_wars" = Ok rp' ∧
         from_resource_path rp' = mkDomain "admin/star_wars" ∧ extract_branch rp' = "main".
Proof.
  apply (domain_normalisation_idempotent "admin/star_wars/local/commit/abc"
    (mkResourcePath "admin" "star_wars" "local" (RefCommit (mkCommitId "abc")))).
  reflexivity.
Defined.
