(* ===== verification/Distance.v ===== *)
(** * Distance transforms (src/src/kernel/distance.rs)

    The one place where distances are scaled.  A Lance cosine distance lies in
    [[0, 2]]; the program reports it halved and clamped to [[0, 1]].
    The SIMD kernel [lance_linalg::distance::cosine_distance] is a parameter of
    the definition that calls it. *)

From S2P Require Import Prelude F32.

(** [normalized_cosine_from_lance]. *)
Definition normalized_cosine_from_lance (lance_cosine_distance : f32) : f32 :=
  F32.clamp (F32.div lance_cosine_distance F32.two) F32.zero F32.one.

(** [Iterator::sum] on [f32] folds from the left, from [-0.0]. *)
Definition f32_sum (l : list f32) : f32 := foldl F32.add (S754_zero true) l.

(** [l2_normalize]: the slice after the in-place update. *)
Definition l2_normalize (v : list f32) : list f32 :=
  let norm := F32.sqrt (f32_sum (map (λ x, F32.mul x x) v)) in
  if F32.gt norm F32.zero then map (λ x, F32.div x norm) v else v.

(** [vectors_equal]: equal lengths and elementwise [==]. *)
Definition vectors_equal (a b : list f32) : bool :=
  (length a =? length b)%nat && forallb (λ p, F32.eqb p.1 p.2) (zip a b).

(** [cosine_distance_normalized], over the SIMD kernel. *)
Definition cosine_distance_normalized
    (cosine_distance : list f32 → list f32 → f32) (a b : list f32) : f32 :=
  normalized_cosine_from_lance (cosine_distance a b).

(** ** Properties *)

Section clamp.
Implicit Types x lo hi : f32.

Lemma clamp_range x lo hi :
  F32.num x → F32.le lo hi = true →
  F32.le lo (F32.clamp x lo hi) = true ∧ F32.le (F32.clamp x lo hi) hi = true.
Proof.
  intros Hx Hlh. destruct (le_num _ _ Hlh) as [Hlo Hhi]. unfold F32.clamp.
  assert (F32.le lo (if F32.lt x lo then lo else x) = true) as Hl.
  { destruct (F32.lt x lo) eqn:E; [by apply le_refl_f32|]. by apply gt_false_le. }
  set (y := if F32.lt x lo then lo else x) in *.
  destruct (le_num _ _ Hl) as [_ Hy].
  destruct (F32.gt y hi) eqn:E; [split; [done|by apply le_refl_f32]|].
  split; [done|]. by apply gt_false_le.
Qed.

Lemma clamp_id x lo hi :
  F32.le lo x = true → F32.le x hi = true → F32.clamp x lo hi = x.
Proof.
  intros H1 H2. destruct (le_num _ _ H1), (le_num _ _ H2). unfold F32.clamp.
  rewrite le_not_lt in H1, H2 by done. apply negb_true_iff in H1, H2.
  unfold F32.gt. unfold F32.lt in *. by rewrite H1, H2.
Qed.

Lemma clamp_nan x lo hi : F32.is_nan x = true → F32.is_nan (F32.clamp x lo hi) = true.
Proof. by destruct x, lo, hi. Qed.
End clamp.

(** Whatever number the distance kernel returns (an infinity or a value
    the kernel's own rounding pushed out of range included), the reported
    distance is on the reference scale [[0, 1]]; only a [NaN] distance escapes
    it, and stays a [NaN]. *)
Theorem normalized_distance_scale d :
  (F32.num (F32.div d F32.two) →
     F32.le F32.zero (normalized_cosine_from_lance d) = true ∧
     F32.le (normalized_cosine_from_lance d) F32.one = true) ∧
  (F32.is_nan (F32.div d F32.two) = true → F32.is_nan (normalized_cosine_from_lance d) = true).
Proof.
  split; intros H; unfold normalized_cosine_from_lance.
  - by apply clamp_range.
  - by apply clamp_nan.
Qed.

Lemma normalized_distance_scale_witness :
  F32.le (normalized_cosine_from_lance (S754_infinity false)) F32.one = true ∧
  F32.is_nan (normalized_cosine_from_lance S754_nan) = true.
Proof.
  split.
  - apply (proj1 (normalized_distance_scale (S754_infinity false))). reflexivity.
  - apply (proj2 (normalized_distance_scale S754_nan)). reflexivity.
Defined.

(** Halving is exact, so that the three reference points are hit exactly. *)
Example normalized_identical : normalized_cosine_from_lance F32.zero = F32.zero.
Proof. reflexivity. Qed.
Example normalized_orthogonal :
  normalized_cosine_from_lance F32.one = F32.div F32.one F32.two.
Proof. vm_compute. reflexivity. Qed.
Example normalized_opposite : normalized_cosine_from_lance F32.two = F32.one.
Proof. vm_compute. reflexivity. Qed.
Example normalized_above : normalized_cosine_from_lance (F32.of_Z 3) = F32.one.
Proof. vm_compute. reflexivity. Qed.

Lemma vectors_equal_spec a b :
  vectors_equal a b = true ↔ Forall2 (λ x y, F32.eqb x y = true) a b.
Proof.
  unfold vectors_equal. rewrite andb_true_iff, Nat.eqb_eq.
  revert b; induction a as [|x a IH]; intros [|y b]; cbn; try by intuition (congruence || constructor || inversion H).
  rewrite andb_true_iff. rewrite Forall2_cons. rewrite <-IH. intuition lia.
Qed.

Lemma f32_eqb_sym x y : F32.eqb x y = F32.eqb y x.
Proof.
  unfold F32.eqb, SFeqb.
  destruct (F32.is_nan x) eqn:Hx; [by destruct x, y|].
  destruct (F32.is_nan y) eqn:Hy; [by destruct x as [| | |[]], y|].
  change (SFcompare x y) with (F32.partial_cmp x y).
  change (SFcompare y x) with (F32.partial_cmp y x).
  rewrite !partial_cmp_cmp, (cmp_antisym_f32 x y) by done.
  by destruct (F32.cmp_or_eq x y).
Qed.

Lemma f32_eqb_trans x y z : F32.eqb x y = true → F32.eqb y z = true → F32.eqb x z = true.
Proof.
  unfold F32.eqb, SFeqb. intros H1 H2.
  assert (F32.num x ∧ F32.num y ∧ F32.num z) as (Hx & Hy & Hz).
  { by destruct x as [| | |[]], y as [| | |[]], z as [| | |[]]. }
  change (SFcompare x y) with (F32.partial_cmp x y) in *.
  change (SFcompare y z) with (F32.partial_cmp y z) in *.
  change (SFcompare x z) with (F32.partial_cmp x z) in *.
  rewrite !partial_cmp_cmp in * by done.
  rewrite (cmp_eq_trans F32.num F32.cmp_or_eq x y z); [done..|by destruct (F32.cmp_or_eq x y)|by destruct (F32.cmp_or_eq y z)].
Qed.

(** Exact equality of stored vectors is symmetric and transitive, implies
    equal dimensions, and is reflexive exactly on the vectors without a [NaN]:
    a duplicate verdict can be read in either direction and chained, and a
    vector poisoned by a [NaN] is never anybody's duplicate, its own included. *)
Theorem vectors_equal_per a b c :
  vectors_equal a b = vectors_equal b a ∧
  (vectors_equal a b = true → length a = length b ∧ (vectors_equal b c = true → vectors_equal a c = true)) ∧
  (vectors_equal a a = true ↔ Forall F32.num a).
Proof.
  assert (∀ a b, vectors_equal a b = true → vectors_equal b a = true) as Hsym.
  { intros u v. rewrite !vectors_equal_spec. intros H.
    apply Forall2_flip. eapply Forall2_impl; [done|]. intros x y. cbn.
    by rewrite f32_eqb_sym. }
  split_and!.
  - apply eq_bool_prop_intro. split; intros; apply Is_true_true, Hsym; by apply Is_true_true.
  - intros Hab. split.
    + apply vectors_equal_spec in Hab. by apply Forall2_length in Hab.
    + rewrite !vectors_equal_spec in *. intros Hbc.
      eapply Forall2_trans; [intros x y z; apply f32_eqb_trans|done..].
  - rewrite vectors_equal_spec, Forall2_same_length_lookup. split.
    + intros [_ H]. apply Forall_lookup. intros i x Hi. specialize (H i x x Hi Hi).
      by destruct x.
    + intros H. split; [done|]. intros i x y Hx Hy. simplify_eq.
      rewrite Forall_lookup in H. apply H in Hx. unfold F32.eqb, SFeqb.
      change (SFcompare x x) with (F32.partial_cmp x x).
      rewrite partial_cmp_cmp by done. by rewrite (cmp_refl F32.num F32.cmp_or_eq).
Qed.

Lemma vectors_equal_per_witness :
  vectors_equal [F32.one; S754_zero true] [F32.one; S754_zero false] = true ∧
  vectors_equal [F32.one; S754_zero true] [F32.one; S754_zero true] = true.
Proof.
  split; [reflexivity|].
  refine (proj2 (proj1 (proj2 (vectors_equal_per [F32.one; S754_zero true]
    [F32.one; S754_zero false] [F32.one; S754_zero true])) _) _); reflexivity.
Defined.

(** Normalising never changes the dimension of a vector, and leaves the
    all-zero vector alone instead of dividing by its zero norm. *)
Theorem l2_normalize_shape v :
  length (l2_normalize v) = length v ∧
  (F32.eqb (F32.sqrt (f32_sum (map (λ x, F32.mul x x) v))) F32.zero = true → l2_normalize v = v).
Proof.
  unfold l2_normalize. split.
  - destruct (F32.gt _ _); [apply length_map|done].
  - intros H. destruct (F32.gt _ _) eqn:E; [|done].
    revert H E. generalize (F32.sqrt (f32_sum (map (λ x, F32.mul x x) v))).
    by intros [|[]| |[]].
Qed.

Lemma l2_normalize_shape_witness :
  l2_normalize [F32.zero; S754_zero true] = [F32.zero; S754_zero true].
Proof. refine (proj2 (l2_normalize_shape _) _). reflexivity. Defined.
