(* ===== verification/LayerIdx.v ===== *)
(** * Layer index (src/src/layeridx/mod.rs)

    The encoding of a commit id as a Lance tag name and back, and the
    resolution of a requested commit to the layer that can serve it. *)

From S2P Require Import Prelude RustStr.

Inductive LayerIdxError : Type :=
| LayerInternal (msg : string)
| DecodeError (msg : string).
#[export] Instance LayerIdxError_eq_dec : EqDecision LayerIdxError. Proof. solve_decision. Defined.

(** ** Tag encoding *)

Definition is_ascii_alphanumeric (c : ascii) : bool :=
  in_range 48 57 c || in_range 65 90 c || in_range 97 122 c.

Definition dash : ascii := "-"%char.

(** The encoding of one byte: what one iteration of the loop pushes. *)
Definition encode_byte (c : ascii) : list ascii :=
  if Ascii.eqb c dash then [dash; dash]
  else if is_ascii_alphanumeric c || Ascii.eqb c "_"%char then [c]
  else dash :: hex_byte c.

(** [encode_commit_tag]. *)
Definition encode_commit_tag (commit : string) : string :=
  "c_" +:+ str_of_bytes (concat (map encode_byte (str_bytes commit))).

(** The [while] loop of [decode_commit_tag] over the bytes that remain; the
    positions of the error messages are the offsets [i]. *)
Fixpoint decode_bytes (i : nat) (bytes : list ascii) : result LayerIdxError (list ascii) :=
  match bytes with
  | [] => Ok []
  | b :: rest =>
      if Ascii.eqb b dash then
        match rest with
        | [] => Err (DecodeError ("truncated escape at position " +:+ pretty (N.of_nat i)))
        | b1 :: rest1 =>
            if Ascii.eqb b1 dash then
              out ← decode_bytes (i + 2) rest1; Ok (dash :: out)
            else match rest1 with
                 | [] => Err (DecodeError ("truncated hex escape at position " +:+ pretty (N.of_nat i)))
                 | b2 :: rest2 =>
                     if negb (utf8_valid [b1; b2]) then
                       Err (DecodeError ("invalid UTF-8 in hex at position " +:+ pretty (N.of_nat i)))
                     else match u8_from_hex2 b1 b2 with
                          | None =>
                              Err (DecodeError ("invalid hex '" +:+ str_of_bytes [b1; b2]
                                     +:+ "' at position " +:+ pretty (N.of_nat i)))
                          | Some v => out ← decode_bytes (i + 3) rest2; Ok (v :: out)
                          end
                 end
        end
      else out ← decode_bytes (i + 1) rest; Ok (b :: out)
  end.

(** [decode_commit_tag].  [from_utf8_detail] is the text of the standard
    library's UTF-8 error. *)
Definition decode_commit_tag (from_utf8_detail : list ascii → string) (tag : string)
    : result LayerIdxError string :=
  match strip_prefix "c_" tag with
  | None => Err (DecodeError "missing 'c_' prefix")
  | Some s =>
      out ← decode_bytes 0 (str_bytes s);
      if utf8_valid out then Ok (str_of_bytes out)
      else Err (DecodeError ("decoded bytes not valid UTF-8: " +:+ from_utf8_detail out))
  end.

(** ** Nearest indexed layer *)

Inductive ResolvedLayer : Type :=
| Exact (commit : string) (version : N)
| Ancestor (served_commit : string) (version : N)
| NoLayer.
#[export] Instance ResolvedLayer_eq_dec : EqDecision ResolvedLayer. Proof. solve_decision. Defined.

(** The walk over the ancestors, nearest first. *)
Fixpoint walk_ancestors (resolve : string → result LayerIdxError (option N)) (ancestors : list string)
    : result LayerIdxError ResolvedLayer :=
  match ancestors with
  | [] => Ok NoLayer
  | ancestor :: rest =>
      r ← resolve ancestor;
      match r with
      | Some version => Ok (Ancestor ancestor version)
      | None => walk_ancestors resolve rest
      end
  end.

(** [resolve_nearest_layer]; the injected lookup is a function. *)
Definition resolve_nearest_layer (requested_commit : string) (ancestors : list string)
    (resolve : string → result LayerIdxError (option N)) : result LayerIdxError ResolvedLayer :=
  r ← resolve requested_commit;
  match r with
  | Some version => Ok (Exact requested_commit version)
  | None => walk_ancestors resolve ancestors
  end.

(** ** Encoding: properties *)

(** Every byte of an encoding is legal in a Lance tag and below 128. *)
Definition tag_char (c : ascii) : bool :=
  is_ascii_alphanumeric c || Ascii.eqb c "_"%char || Ascii.eqb c dash.

Lemma encode_byte_chars c : forallb tag_char (encode_byte c) = true.
Proof. revert c. apply all_bytes. vm_compute. reflexivity. Qed.

Lemma hex_byte_ascii c : utf8_valid (hex_byte c) = true.
Proof. revert c. apply (all_bytes (λ c, utf8_valid (hex_byte c))). vm_compute. reflexivity. Qed.

Lemma hex_digit_not_dash c : Ascii.eqb (hex_digit (byte_of c / 16)) dash = false.
Proof.
  apply negb_true_iff. revert c.
  apply (all_bytes (λ c, negb (Ascii.eqb (hex_digit (byte_of c / 16)) dash))).
  vm_compute. reflexivity.
Qed.

(** Decoding the encoding of one byte yields that byte and goes on after it. *)
Lemma decode_encode_byte c rest i :
  ∃ j, decode_bytes i (encode_byte c ++ rest) = (out ← decode_bytes j rest; Ok (c :: out)).
Proof.
  unfold encode_byte. destruct (Ascii.eqb_spec c dash) as [->|Hc].
  { exists (i + 2). reflexivity. }
  destruct (is_ascii_alphanumeric c || _).
  { exists (i + 1). cbn. apply Ascii.eqb_neq in Hc. by rewrite Hc. }
  exists (i + 3). pose proof (hex_byte_ascii c) as Hu. pose proof (u8_from_hex_byte c) as Hx.
  pose proof (hex_digit_not_dash c) as Hd. unfold hex_byte in *.
  cbn -[hex_digit utf8_valid u8_from_hex2 byte_of]. rewrite Hd, Hu, Hx. cbn. done.
Qed.

Lemma decode_encode_bytes l i : decode_bytes i (concat (map encode_byte l)) = Ok l.
Proof.
  revert i; induction l as [|c l IH]; intros i; [done|]. cbn [map concat].
  destruct (decode_encode_byte c (concat (map encode_byte l)) i) as [j ->].
  by rewrite IH.
Qed.

Lemma strip_prefix_app p s : strip_prefix p (p +:+ s) = Some s.
Proof. induction p as [|a p IH]; simpl; [done|]. by rewrite Ascii.eqb_refl. Qed.

(** Decoding the tag of a commit id gives the commit id back, for every
    commit id (any Rust string): the "exactly reversible" claim of the
    encoding. *)
Theorem tag_roundtrip detail commit :
  utf8_valid (str_bytes commit) = true →
  decode_commit_tag detail (encode_commit_tag commit) = Ok commit.
Proof.
  intros Hu. unfold decode_commit_tag, encode_commit_tag. rewrite strip_prefix_app.
  rewrite list_ascii_of_string_of_list_ascii, decode_encode_bytes. cbn.
  by rewrite Hu, string_of_list_ascii_of_string.
Qed.

Lemma tag_roundtrip_witness :
  decode_commit_tag (λ _, "") (encode_commit_tag "a-b/c") = Ok "a-b/c" ∧
  encode_commit_tag "a-b/c" = "c_a--b-2fc".
Proof. split; [apply tag_roundtrip|]; reflexivity. Defined.

Lemma encode_bytes_inj l1 l2 :
  concat (map encode_byte l1) = concat (map encode_byte l2) → l1 = l2.
Proof.
  intros H. pose proof (decode_encode_bytes l1 0) as H1.
  rewrite H, decode_encode_bytes in H1. by injection H1.
Qed.

Lemma encode_commit_tag_bytes c :
  str_bytes (encode_commit_tag c) = str_bytes "c_" ++ concat (map encode_byte (str_bytes c)).
Proof.
  unfold encode_commit_tag. by rewrite str_bytes_app, list_ascii_of_string_of_list_ascii.
Qed.

#[export] Instance encode_commit_tag_inj : Inj (=) (=) encode_commit_tag.
Proof.
  intros c1 c2 H%(f_equal str_bytes). rewrite !encode_commit_tag_bytes in H.
  apply (inj (app _)), encode_bytes_inj, str_bytes_inj in H. done.
Qed.

(** Lance's rules for a tag name: non-empty, letters, digits, ['.'], ['-'] and
    ['_'] only, no leading or trailing ['.'], no [".."], not ending in
    [".lock"]. *)
Definition lance_tag_ok (t : string) : Prop :=
  t ≠ "" ∧ Forall (λ c, tag_char c = true) (str_bytes t) ∧ "."%char ∉ str_bytes t.

(** Every tag the service creates is a legal Lance tag name (and contains
    no dot at all, so that none of Lance's rules about dots can fail), and two
    different commits never share a tag. *)
Theorem tag_name_legal_and_injective c1 c2 :
  lance_tag_ok (encode_commit_tag c1) ∧
  (encode_commit_tag c1 = encode_commit_tag c2 → c1 = c2).
Proof.
  split; [|apply encode_commit_tag_inj].
  assert (Forall (λ c, tag_char c = true) (str_bytes (encode_commit_tag c1))) as Hall.
  { rewrite encode_commit_tag_bytes. apply Forall_app. split; [by repeat constructor|].
    apply Forall_concat, Forall_fmap, Forall_true. intros c. cbn.
    apply forallb_spec, encode_byte_chars. }
  split; [done|]. split; [done|]. intros Hdot.
  rewrite Forall_forall in Hall. by specialize (Hall _ Hdot).
Qed.

Lemma tag_name_legal_and_injective_witness :
  lance_tag_ok (encode_commit_tag "../x.lock") ∧ "../x.lock" = "../x.lock".
Proof.
  split; [apply (tag_name_legal_and_injective "../x.lock" "../x.lock")|].
  apply (proj2 (tag_name_legal_and_injective "../x.lock" "../x.lock")). reflexivity.
Defined.

(** The decoder accepts more than the encoder produces: a sign, upper-case
    digits, and escapes of characters that need none, so that several tags
    decode to the same commit. *)
Theorem decode_not_injective :
  ∃ t1 t2, t1 ≠ t2 ∧ decode_commit_tag (λ _, "") t1 = Ok "/" ∧ decode_commit_tag (λ _, "") t2 = Ok "/".
Proof. exists "c_-2f", "c_-2F". split_and!; by vm_compute. Qed.

Lemma decode_accepts_sign : decode_commit_tag (λ _, "") "c_-+f" = Ok (String (ascii_of_N 15) "").
Proof. vm_compute. reflexivity. Qed.

(** ** Resolution: properties *)

Lemma walk_ancestors_spec resolve ancestors r :
  walk_ancestors resolve ancestors = Ok r ↔
  match r with
  | Exact _ _ => False
  | Ancestor c v =>
      ∃ pre post, ancestors = pre ++ c :: post ∧
        Forall (λ a, resolve a = Ok None) pre ∧ resolve c = Ok (Some v)
  | NoLayer => Forall (λ a, resolve a = Ok None) ancestors
  end.
Proof.
  induction ancestors as [|a rest IH]; cbn.
  - split.
    + intros [= <-]. constructor.
    + destruct r; [done| |done]. by intros ([] & ? & ? & ?).
  - rewrite result_bind_ok. split.
    + intros ([v|] & Ha & H).
      * simplify_eq. by exists [], rest.
      * apply IH in H. destruct r; [done| |by constructor].
        destruct H as (pre & post & -> & ? & ?). exists (a :: pre), post. by repeat constructor.
    + destruct r; [done| |].
      * intros ([|a' pre] & post & ? & Hpre & Hc); simplify_eq/=; [by eexists|].
        inversion Hpre; subst. exists None. split; [done|]. apply IH. by exists pre, post.
      * inversion 1; subst. exists None. split; [done|]. by apply IH.
Qed.

(** Resolution answers [Exact] exactly when the requested commit is
    indexed; otherwise it serves the first indexed ancestor of the list and
    every nearer ancestor is not indexed; otherwise none is.  A lookup that
    fails before the answer is found is an error, never skipped. *)
Theorem resolve_nearest_layer_spec requested ancestors resolve r :
  resolve_nearest_layer requested ancestors resolve = Ok r ↔
  match r with
  | Exact c v => c = requested ∧ resolve requested = Ok (Some v)
  | Ancestor c v =>
      resolve requested = Ok None ∧
      ∃ pre post, ancestors = pre ++ c :: post ∧
        Forall (λ a, resolve a = Ok None) pre ∧ resolve c = Ok (Some v)
  | NoLayer => Forall (λ a, resolve a = Ok None) (requested :: ancestors)
  end.
Proof.
  unfold resolve_nearest_layer. rewrite result_bind_ok. split.
  - intros ([v|] & Hr & H); [by simplify_eq|].
    apply walk_ancestors_spec in H. destruct r; [done|done|by constructor].
  - destruct r.
    + intros [-> ?]. by eexists.
    + intros [? ?]. exists None. split; [done|]. by apply walk_ancestors_spec.
    + inversion 1; subst. exists None. split; [done|]. by apply walk_ancestors_spec.
Qed.

(** Growing the window of ancestors (the caller retries with 10, then up
    to 1000) never changes an answer that was already found. *)
Theorem resolve_window_monotone requested ancestors more resolve r :
  resolve_nearest_layer requested ancestors resolve = Ok r → r ≠ NoLayer →
  resolve_nearest_layer requested (ancestors ++ more) resolve = Ok r.
Proof.
  intros H Hr. rewrite resolve_nearest_layer_spec in H. apply resolve_nearest_layer_spec.
  destruct r; [done| |done]. destruct H as (? & pre & post & -> & ? & ?).
  split; [done|]. exists pre, (post ++ more). by rewrite <-app_assoc.
Qed.

Definition example_resolver (c : string) : result LayerIdxError (option N) :=
  Ok (if String.eqb c "p2" then Some 7%N else None).

Lemma resolve_window_monotone_witness :
  resolve_nearest_layer "head" ["p1"; "p2"; "p3"] example_resolver = Ok (Ancestor "p2" 7).
Proof.
  apply (resolve_window_monotone "head" ["p1"; "p2"] ["p3"]); [reflexivity|done].
Defined.
