(* ===== verification/Ingest.v ===== *)
(** * Push bodies (src/src/ingest/mod.rs)

    The newline-delimited JSON body of a push, parsed into operations, and the
    document type of an IRI.  The JSON parser (serde_json, with the
    deserialiser derived for [Operation]) is the parameter [from_str]. *)

From S2P Require Import Prelude F32 RustStr Model.

Section ingest.
Context (from_str : string → result string Operation).

(** [parse_operation_line]. *)
Definition parse_operation_line (line : string) (line_num : nat) : result IngestError Operation :=
  let trimmed := trim line in
  if String.eqb trimmed "" then Err (MalformedLine line_num "empty line")
  else map_err (MalformedLine line_num) (from_str trimmed).

(** The loop of [parse_ndjson_body], from index [idx] on. *)
Fixpoint parse_lines (idx : nat) (ls : list string) : result IngestError (list Operation) :=
  match ls with
  | [] => Ok []
  | line :: ls' =>
      let line_num := idx + 1 in
      let trimmed := trim line in
      if String.eqb trimmed "" then parse_lines (idx + 1) ls'
      else
        op ← parse_operation_line trimmed line_num;
        ops ← parse_lines (idx + 1) ls';
        Ok (op :: ops)
  end.

(** [parse_ndjson_body]. *)
Definition parse_ndjson_body (body : string) : result IngestError (list Operation) :=
  parse_lines 0 (lines body).
End ingest.

(** The second-to-last segment, when there are two. *)
Definition second_to_last (segments : list string) : option string :=
  if (2 <=? length segments)%nat then segments !! (length segments - 2) else None.

(** [extract_doc_type]. *)
Definition extract_doc_type (doc_id : string) : string :=
  let fallback := default "unknown" (second_to_last (split_char "/" doc_id)) in
  match find_str "///" doc_id with
  | Some after_scheme =>
      default fallback (second_to_last (split_char "/" (str_from (after_scheme + 3) doc_id)))
  | None => fallback
  end.

Example doc_type_iri : extract_doc_type "terminusdb:///star-wars/People/20" = "People".
Proof. vm_compute. reflexivity. Qed.
Example doc_type_plain : extract_doc_type "Type/id" = "Type".
Proof. vm_compute. reflexivity. Qed.
Example doc_type_none : extract_doc_type "id" = "unknown".
Proof. vm_compute. reflexivity. Qed.

(** ** Properties *)

Section ingest_props.
Context (from_str : string → result string Operation).

Definition blank (line : string) : bool := String.eqb (trim line) "".

(** What a body that parses contains, line by line. *)
Inductive parsed_as : list string → list Operation → Prop :=
| parsed_nil : parsed_as [] []
| parsed_blank line ls ops :
    blank line = true → parsed_as ls ops → parsed_as (line :: ls) ops
| parsed_op line ls op ops :
    blank line = false → from_str (trim line) = Ok op →
    parsed_as ls ops → parsed_as (line :: ls) (op :: ops).

Lemma parse_trimmed_line line n :
  blank line = false →
  parse_operation_line from_str (trim line) n = map_err (MalformedLine n) (from_str (trim line)).
Proof.
  unfold blank, parse_operation_line. rewrite trim_idemp. by intros ->.
Qed.

Lemma parse_lines_ok ls idx ops :
  parse_lines from_str idx ls = Ok ops ↔ parsed_as ls ops.
Proof.
  revert idx ops; induction ls as [|line ls IH]; intros idx ops; cbn.
  { split; [intros [= <-]; constructor|by inversion 1]. }
  fold (blank line). destruct (blank line) eqn:Hb.
  { rewrite IH. split; [by constructor|]. inversion 1; congruence. }
  rewrite parse_trimmed_line by done. rewrite result_bind_ok. split.
  - intros (op & Hop & (ops' & Hops & [= <-])%result_bind_ok).
    destruct (from_str (trim line)) eqn:E; simplify_eq/=.
    constructor; [done..|]. by eapply IH.
  - inversion 1 as [| |? ? op ops' ? Hop Hops]; subst; [congruence|].
    exists op. rewrite Hop. split; [done|]. apply (IH (idx + 1)) in Hops. by rewrite Hops.
Qed.

Lemma parse_lines_err ls idx e :
  parse_lines from_str idx ls = Err e ↔
  ∃ pre line post ops detail,
    ls = pre ++ line :: post ∧ parsed_as pre ops ∧ blank line = false ∧
    from_str (trim line) = Err detail ∧ e = MalformedLine (idx + length pre + 1) detail.
Proof.
  revert idx e; induction ls as [|line ls IH]; intros idx e; cbn.
  { split; [done|]. by intros ([] & ? & ? & ? & ? & ? & ?). }
  fold (blank line). destruct (blank line) eqn:Hb.
  { rewrite IH. split.
    - intros (pre & l & post & ops & d & -> & Hpre & Hl & Hd & ->).
      exists (line :: pre), l, post, ops, d. split_and!; [done|by constructor|done..|].
      cbn. f_equal. lia.
    - intros (pre & l & post & ops & d & Hls & Hpre & Hl & Hd & ->).
      destruct pre as [|p pre]; simplify_eq/=; [congruence|].
      exists pre, l, post, ops, d. split_and!; [done| |done..|f_equal; lia].
      inversion Hpre; subst; [done|congruence]. }
  rewrite parse_trimmed_line by done. destruct (from_str (trim line)) as [op|d] eqn:Hop; cbn.
  - destruct (parse_lines from_str (idx + 1) ls) as [ops|e'] eqn:Hls; cbn.
    + split; [done|]. intros (pre & l & post & ops' & d & Heq & Hpre & Hl & Hd & ->).
      destruct pre as [|p pre]; simplify_eq/=; [congruence|].
      inversion Hpre; subst; [congruence|].
      assert (parse_lines from_str (idx + 1) (pre ++ l :: post) =
                Err (MalformedLine (idx + 1 + length pre + 1) d)) as Hx.
      { apply IH. by eexists _, _, _, _, _. }
      congruence.
    + split.
      * intros [= <-]. apply IH in Hls as (pre & l & post & ops & d & -> & Hpre & Hl & Hd & ->).
        exists (line :: pre), l, post, (op :: ops), d.
        split_and!; [done|by constructor|done..|]. cbn. f_equal. lia.
      * intros (pre & l & post & ops & d & Heq & Hpre & Hl & Hd & ->).
        destruct pre as [|p pre]; simplify_eq/=; [congruence|].
        inversion Hpre; subst; [congruence|].
        assert (parse_lines from_str (idx + 1) (pre ++ l :: post) =
                  Err (MalformedLine (idx + 1 + length pre + 1) d)) as Hx.
        { apply IH. by eexists _, _, _, _, _. }
        rewrite Hx in Hls. simplify_eq. do 2 f_equal. lia.
  - split.
    + intros [= <-]. exists [], line, ls, [], d. split_and!; [done|constructor|done..|].
      cbn. f_equal. lia.
    + intros (pre & l & post & ops & d' & Heq & Hpre & Hl & Hd & ->).
      destruct pre as [|p pre]; simplify_eq/=; [repeat f_equal; lia || congruence|].
      inversion Hpre; congruence.
Qed.

(** A body is accepted exactly when every non-blank line of it is an
    operation, and then the operations are those lines' in order, none lost
    and none invented; otherwise the error names the first bad line by its
    1-based number in the body, blank lines counted, and carries the JSON
    parser's message (never the "empty line" of the single-line parser). *)
Theorem parse_ndjson_body_spec body :
  (∀ ops, parse_ndjson_body from_str body = Ok ops ↔ parsed_as (lines body) ops) ∧
  (∀ e, parse_ndjson_body from_str body = Err e ↔
     ∃ pre line post ops detail,
       lines body = pre ++ line :: post ∧ parsed_as pre ops ∧ blank line = false ∧
       from_str (trim line) = Err detail ∧ e = MalformedLine (length pre + 1) detail).
Proof.
  split; intros; unfold parse_ndjson_body.
  - apply parse_lines_ok.
  - rewrite parse_lines_err. done.
Qed.
End ingest_props.

(** A parser for the closed example: [D:<id>] is a deletion. *)
Definition example_from_str (s : string) : result string Operation :=
  match strip_prefix "D:" s with
  | Some id => Ok (Deleted id)
  | None => Err "expected value"
  end.

Definition example_body : string :=
  str_of_bytes (str_bytes "D:a" ++ [newline] ++ str_bytes "   " ++ [newline]
                  ++ str_bytes " D:b " ++ [carriage_return; newline] ++ str_bytes "x").

Example parse_ndjson_example :
  parse_ndjson_body example_from_str example_body = Err (MalformedLine 4 "expected value").
Proof. vm_compute. reflexivity. Qed.
