(* ===== verification/Chunk.v ===== *)
(** * Chunking (src/src/chunk/mod.rs)

    A document is cut into overlapping windows of tokens.  The tokenizer (the
    tokenizers crate with the model's vocabulary) is a parameter: a function
    from a text to its [Encoding] or an error.  Slicing a string off a
    character boundary panics in Rust, so [chunk_text] returns an option whose
    [None] is the panic.  [as u32] wraps. *)

From S2P Require Import Prelude F32 RustStr.

Record ChunkParams := mkChunkParams { max_tokens : nat; overlap : nat }.

Record Chunk := mkChunk {
  ch_index : N;
  ch_count : N;
  ch_token_start : N;
  ch_doc_token_len : N;
  ch_text : string;
}.
#[export] Instance Chunk_eq_dec : EqDecision Chunk. Proof. solve_decision. Defined.

Inductive ChunkError : Type :=
| TokenizerError (msg : string)
| InvalidParams (n : nat).
#[export] Instance ChunkError_eq_dec : EqDecision ChunkError. Proof. solve_decision. Defined.

(** What the program reads of a tokenizer's [Encoding]. *)
Record Encoding := mkEncoding { get_ids : list N; get_offsets : list (nat * nat) }.

Definition as_u32 (n : nat) : N := N.of_nat n mod 2 ^ 32.

(** The boundary loop of [chunk_text]; [None] when the fuel runs out. *)
Fixpoint boundaries (fuel len max step start : nat) : option (list (nat * nat)) :=
  match fuel with
  | 0 => if (start <? len)%nat then None else Some []
  | S fuel =>
      if (start <? len)%nat then
        let end_ := (start + max) `min` len in
        if (end_ =? len)%nat then Some [(start, end_)]
        else bs ← boundaries fuel len max step (start + step); Some ((start, end_) :: bs)
      else Some []
  end.

(** [snap_to_char_boundary_down]: the loop walks back from the clamped offset. *)
Fixpoint snap_down_from (text : string) (pos : nat) : nat :=
  match pos with
  | 0 => 0
  | S pos' => if is_char_boundary text pos then pos else snap_down_from text pos'
  end.

Definition snap_to_char_boundary_down (text : string) (offset : nat) : nat :=
  snap_down_from text (offset `min` str_len text).

(** [snap_to_char_boundary_up]: [n] is the distance left to the end. *)
Fixpoint snap_up_from (text : string) (n pos : nat) : nat :=
  match n with
  | 0 => pos
  | S n => if is_char_boundary text pos then pos else snap_up_from text n (S pos)
  end.

Definition snap_to_char_boundary_up (text : string) (offset : nat) : nat :=
  let clamped := offset `min` str_len text in
  snap_up_from text (str_len text - clamped) clamped.

Definition chunk_step (params : ChunkParams) : nat :=
  if (max_tokens params <=? overlap params)%nat then 1 else max_tokens params - overlap params.

(** The closure of the second pass: one chunk from its token range.  Indexing
    [offsets] out of range panics too. *)
Definition chunk_of_range (text : string) (offsets : list (nat * nat)) (doc_token_len count : N)
    (i : nat) (range : nat * nat) : option Chunk :=
  let '(tok_start, tok_end) := range in
  start_off ← offsets !! tok_start;
  let raw_start := start_off.1 in
  raw_end ← (if (0 <? tok_end)%nat && (tok_end <=? length offsets)%nat
             then snd <$> offsets !! (tok_end - 1) else Some (str_len text));
  let byte_start := snap_to_char_boundary_down text raw_start in
  let byte_end := snap_to_char_boundary_up text raw_end in
  chunk_text ← str_slice text byte_start byte_end;
  Some (mkChunk (as_u32 i) count (as_u32 tok_start) doc_token_len chunk_text).

(** [chunk_text]. *)
Definition chunk_text (encode : string → result string Encoding) (text : string)
    (params : ChunkParams) : option (result ChunkError (list Chunk)) :=
  if (max_tokens params =? 0)%nat then Some (Err (InvalidParams (max_tokens params)))
  else match encode text with
       | Err e => Some (Err (TokenizerError e))
       | Ok encoding =>
           let token_ids := get_ids encoding in
           let offsets := get_offsets encoding in
           let doc_token_len := as_u32 (length token_ids) in
           if (length token_ids <=? max_tokens params)%nat then
             Some (Ok [mkChunk 0 1 0 doc_token_len text])
           else
             bs ← boundaries (length token_ids) (length token_ids) (max_tokens params)
                    (chunk_step params) 0;
             let count := as_u32 (length bs) in
             chunks ← mapM (λ p, chunk_of_range text offsets doc_token_len count p.1 p.2)
                        (zip (seq 0 (length bs)) bs);
             Some (Ok chunks)
       end.

(** [chunk_location]. *)
Definition chunk_location (token_start doc_token_len : N) : f32 :=
  if (doc_token_len =? 0)%N then F32.zero
  else F32.div (F32.of_Z (Z.of_N token_start)) (F32.of_Z (Z.of_N doc_token_len)).

(** [params_for_window]. *)
Definition WINDOW : nat := 512.

Definition params_for_window (encode : string → result string Encoding) (prefix : string)
    : result ChunkError ChunkParams :=
  prefix_encoding ← map_err TokenizerError (encode prefix);
  let prefix_tokens := length (get_ids prefix_encoding) in
  let max_tokens := WINDOW - prefix_tokens in
  Ok (mkChunkParams max_tokens (max_tokens `div` 7)).

(** ** Loading the tokenizer

    Reading a file, bzip2 and the parser of the tokenizers crate. *)
Class TokenizerFiles (T : Type) := {
  tk_open : string → result string string;
  bz2_decode : string → result string string;
  tokenizer_from_bytes : string → result string T;
  tokenizer_from_file : string → result string T;
}.

Definition io_load_tokenizer {T} `{TokenizerFiles T} (path : string) : result ChunkError T :=
  if ends_with ".bz2" path then
    file ← map_err (λ e, TokenizerError ("open " +:+ path +:+ " failed: " +:+ e)) (tk_open path);
    json_bytes ← map_err (λ e, TokenizerError ("bzip2 decompress " +:+ path +:+ " failed: " +:+ e +:+ " (corrupt asset?)"))
                   (bz2_decode file);
    map_err (λ e, TokenizerError ("parse tokenizer from decompressed " +:+ path +:+ " failed: " +:+ e))
      (tokenizer_from_bytes json_bytes)
  else map_err (λ e, TokenizerError ("failed to load tokenizer: " +:+ e)) (tokenizer_from_file path).

(** ** Token ranges *)

Lemma chunk_step_pos params : 0 < chunk_step params.
Proof. unfold chunk_step. destruct (Nat.leb_spec (max_tokens params) (overlap params)); lia. Qed.

Lemma chunk_step_le params : 0 < max_tokens params → chunk_step params ≤ max_tokens params.
Proof. unfold chunk_step. destruct (Nat.leb_spec (max_tokens params) (overlap params)); lia. Qed.

(** The shape of a covering of [[start, len)]: ranges of at most [max] tokens,
    each full except the last, each starting [step] after the one before. *)
Inductive covering (len max step : nat) : nat → list (nat * nat) → Prop :=
| covering_last start :
    start < len → len ≤ start + max → covering len max step start [(start, len)]
| covering_step start bs :
    start + max < len → covering len max step (start + step) bs →
    covering len max step start ((start, start + max) :: bs).

Lemma boundaries_covering fuel len max step start :
  0 < step ≤ max → start < len → len ≤ start + fuel →
  ∃ bs, boundaries fuel len max step start = Some bs ∧ covering len max step start bs.
Proof.
  revert start; induction fuel as [|fuel IH]; intros start Hs Hlt Hf; [lia|]. cbn [boundaries].
  destruct (Nat.ltb_spec start len); [|lia].
  destruct (Nat.eqb_spec ((start + max) `min` len) len) as [E|E].
  { rewrite E. eexists. split; [done|]. constructor; lia. }
  destruct (IH (start + step)) as (bs & -> & Hc); [done|lia|lia|].
  cbn. rewrite Nat.min_l by lia. eexists. split; [done|]. constructor; [lia|done].
Qed.

Section covering.
Context (len max step : nat).

Lemma covering_token start bs t :
  step ≤ max → covering len max step start bs → start ≤ t < len →
  ∃ a b, (a, b) ∈ bs ∧ a ≤ t < b.
Proof.
  intros Hs Hc; revert t; induction Hc as [start ? ?|start bs ? Hc IH]; intros t Ht.
  - exists start, len. rewrite list_elem_of_singleton. split; [done|lia].
  - destruct (decide (t < start + max)).
    + exists start, (start + max). rewrite elem_of_cons. split; [by left|lia].
    + destruct (IH t) as (a & b & ? & ?); [lia|].
      exists a, b. rewrite elem_of_cons. split; [by right|done].
Qed.

Lemma covering_range start bs a b :
  covering len max step start bs → 0 < max → (a, b) ∈ bs → start ≤ a ∧ a < b ∧ b ≤ len ∧ b - a ≤ max.
Proof.
  induction 1 as [start ? ?|start bs ? Hc IH]; intros Hm Hin.
  - apply list_elem_of_singleton in Hin. simplify_eq. lia.
  - apply elem_of_cons in Hin as [?|Hin]; simplify_eq; [lia|].
    destruct (IH Hm Hin). lia.
Qed.

Lemma covering_head start bs : covering len max step start bs → ∃ b bs', bs = (start, b) :: bs'.
Proof. destruct 1; eauto. Qed.

Lemma covering_adjacent start bs i a b a' b' :
  covering len max step start bs → bs !! i = Some (a, b) → bs !! S i = Some (a', b') →
  a' = a + step ∧ b = a + max.
Proof.
  intros Hc; revert i; induction Hc as [start ? ?|start bs ? Hc IH]; intros [|i] Hi Hi'; cbn in *; try done.
  - destruct (covering_head _ _ Hc) as (b0 & bs' & ->). by simplify_eq/=.
  - by apply (IH i).
Qed.

Lemma covering_last_end start bs : covering len max step start bs → ∃ a, last bs = Some (a, len).
Proof.
  induction 1 as [start ? ?|start bs ? Hc IH]; [eauto|].
  destruct (covering_head _ _ Hc) as (b0 & bs' & ->). done.
Qed.

Lemma covering_length start bs :
  0 < step → covering len max step start bs → length bs ≤ len - start.
Proof. intros Hs. induction 1; cbn; lia. Qed.
End covering.

(** ** Snapping *)

Lemma snap_down_spec text offset :
  is_char_boundary text (snap_to_char_boundary_down text offset) = true ∧
  snap_to_char_boundary_down text offset ≤ offset `min` str_len text.
Proof.
  unfold snap_to_char_boundary_down. generalize (offset `min` str_len text) as pos.
  induction pos as [|pos IH]; cbn [snap_down_from]; [done|].
  destruct (is_char_boundary text (S pos)) eqn:E; [done|]. destruct IH. split; [done|lia].
Qed.

Lemma snap_up_from_spec text n pos :
  pos + n = str_len text →
  is_char_boundary text (snap_up_from text n pos) = true ∧ pos ≤ snap_up_from text n pos ≤ str_len text.
Proof.
  revert pos; induction n as [|n IH]; intros pos Hn; cbn [snap_up_from].
  { replace pos with (str_len text) by lia. split; [apply is_char_boundary_len|lia]. }
  destruct (is_char_boundary text pos) eqn:E; [split; [done|lia]|].
  destruct (IH (S pos)); [lia|]. split; [done|lia].
Qed.

Lemma snap_up_spec text offset :
  is_char_boundary text (snap_to_char_boundary_up text offset) = true ∧
  offset `min` str_len text ≤ snap_to_char_boundary_up text offset ≤ str_len text.
Proof. apply snap_up_from_spec. lia. Qed.

(** ** Properties *)

(** What the program relies on of a tokenizer's offsets: one pair per token,
    and no token ends before an earlier one starts. *)
Definition offsets_ok (e : Encoding) : Prop :=
  length (get_offsets e) = length (get_ids e) ∧
  ∀ i j a b, i ≤ j → get_offsets e !! i = Some a → get_offsets e !! j = Some b → a.1 ≤ b.2.

Lemma chunk_of_range_ok text e dl count i a b :
  offsets_ok e → a < b → b ≤ length (get_ids e) →
  ∃ oa ob, get_offsets e !! a = Some oa ∧ get_offsets e !! (b - 1) = Some ob ∧
    let s := snap_to_char_boundary_down text oa.1 in
    let t := snap_to_char_boundary_up text ob.2 in
    s ≤ oa.1 ∧ ob.2 `min` str_len text ≤ t ∧
    chunk_of_range text (get_offsets e) dl count i (a, b) =
      Some (mkChunk (as_u32 i) count (as_u32 a) dl (String.substring s (t - s) text)).
Proof.
  intros [Hlen Hmono] Hab Hb.
  destruct (lookup_lt_is_Some_2 (get_offsets e) a) as [oa Hoa]; [lia|].
  destruct (lookup_lt_is_Some_2 (get_offsets e) (b - 1)) as [ob Hob]; [lia|].
  exists oa, ob. do 2 (split; [done|]). cbn zeta.
  pose proof (Hmono a (b - 1) oa ob ltac:(lia) Hoa Hob) as Hle.
  destruct (snap_down_spec text oa.1) as [Hs1 Hs2].
  destruct (snap_up_spec text ob.2) as [Ht1 Ht2].
  split_and!; [lia|lia|].
  unfold chunk_of_range. rewrite Hoa. cbn [mbind option_bind].
  destruct (Nat.ltb_spec 0 b); [|lia]. destruct (Nat.leb_spec b (length (get_offsets e))); [|lia].
  cbn [andb]. rewrite Hob. cbn [fmap option_fmap option_map mbind option_bind].
  unfold str_slice. rewrite Hs1, Ht1.
  destruct (Nat.leb_spec (snap_to_char_boundary_down text oa.1)
              (snap_to_char_boundary_up text ob.2)); [done|lia].
Qed.

(** C40: chunking always returns (the boundary loop terminates and no slice
    panics, whatever offsets a normalising tokenizer reports), and the ranges
    of a document longer than the window cover every token, are at most
    [max_tokens] long, start at token 0 and end at the last token. *)
Theorem chunk_text_total_and_covering encode text params e :
  encode text = Ok e → offsets_ok e → 0 < max_tokens params →
  max_tokens params < length (get_ids e) →
  ∃ bs chunks,
    chunk_text encode text params = Some (Ok chunks) ∧
    (∀ t, t < length (get_ids e) → ∃ a b, (a, b) ∈ bs ∧ a ≤ t < b) ∧
    (∀ a b, (a, b) ∈ bs → a < b ∧ b ≤ length (get_ids e) ∧ b - a ≤ max_tokens params) ∧
    Forall2 (λ c '(i, (a, b)),
      ch_index c = as_u32 i ∧ ch_count c = as_u32 (length bs) ∧ ch_token_start c = as_u32 a ∧
      ch_doc_token_len c = as_u32 (length (get_ids e)) ∧
      ∃ oa ob, get_offsets e !! a = Some oa ∧ get_offsets e !! (b - 1) = Some ob ∧
        ∃ s t, s ≤ oa.1 ∧ ob.2 `min` str_len text ≤ t ∧
          ch_text c = String.substring s (t - s) text)
      chunks (zip (seq 0 (length bs)) bs).
Proof.
  intros He Hok Hm Hlen.
  destruct (boundaries_covering (length (get_ids e)) (length (get_ids e)) (max_tokens params)
              (chunk_step params) 0) as (bs & Hbs & Hc).
  { split; [apply chunk_step_pos|by apply chunk_step_le]. }
  { lia. } { lia. }
  assert (∀ a b, (a, b) ∈ bs → a < b ∧ b ≤ length (get_ids e) ∧ b - a ≤ max_tokens params) as Hr.
  { intros a b Hin. destruct (covering_range _ _ _ _ _ _ _ Hc Hm Hin). tauto. }
  set (f := λ p : nat * (nat * nat), chunk_of_range text (get_offsets e)
              (as_u32 (length (get_ids e))) (as_u32 (length bs)) p.1 p.2).
  assert (∃ chunks, mapM f (zip (seq 0 (length bs)) bs) = Some chunks) as [chunks Hch].
  { apply mapM_is_Some, Forall_forall. intros [i [a b]] Hin.
    apply elem_of_zip_r in Hin. destruct (Hr a b Hin) as (? & ? & ?).
    destruct (chunk_of_range_ok text e (as_u32 (length (get_ids e))) (as_u32 (length bs)) i a b)
      as (? & ? & ? & ? & ? & ? & Heq); [done..|]. unfold f, compose; cbn [fst snd]. rewrite Heq. eauto. }
  exists bs, chunks. split_and!; [| |done|].
  - unfold chunk_text. destruct (Nat.eqb_spec (max_tokens params) 0); [lia|]. rewrite He.
    destruct (Nat.leb_spec (length (get_ids e)) (max_tokens params)); [lia|].
    rewrite Hbs. cbn [mbind option_bind]. fold f. by rewrite Hch.
  - intros t Ht. eapply covering_token; [|exact Hc|lia]. by apply chunk_step_le.
  - apply mapM_Some, Forall2_flip in Hch. apply Forall2_same_length_lookup.
    split; [by eapply Forall2_length|]. intros k c [i [a b]] Hk Hf.
    pose proof (list_elem_of_lookup_2 _ _ _ Hf) as Hin.
    eapply Forall2_lookup_lr in Hf; [|exact Hch|exact Hk].
    unfold f, flip in Hf; cbn [fst snd] in Hf.
    apply elem_of_zip_r in Hin. destruct (Hr a b Hin) as (? & ? & ?).
    destruct (chunk_of_range_ok text e (as_u32 (length (get_ids e))) (as_u32 (length bs)) i a b)
      as (oa & ob & Hoa & Hob & Hs & Ht & Heq); [done..|].
    rewrite Heq in Hf. injection Hf as <-. cbn. split_and!; [done..|].
    exists oa, ob. split_and!; [done..|]. eauto.
Qed.

(** The tokens [a] to [b] (excluded) of a document are those of a chunk: its
    text is the document's from the start of the first to the end of the last. *)
Definition chunk_tokens (text : string) (e : Encoding) (c : Chunk) (a b : nat) : Prop :=
  ch_token_start c = as_u32 a ∧
  (a = 0 ∧ b = length (get_ids e) ∧ ch_text c = text ∨
   ∃ oa ob, get_offsets e !! a = Some oa ∧ get_offsets e !! (b - 1) = Some ob ∧
     let s := snap_to_char_boundary_down text oa.1 in
     ch_text c = String.substring s (snap_to_char_boundary_up text ob.2 - s) text).

Lemma chunk_of_range_tokens text e dl count i a b c :
  offsets_ok e → a < b → b ≤ length (get_ids e) →
  chunk_of_range text (get_offsets e) dl count i (a, b) = Some c → chunk_tokens text e c a b.
Proof.
  intros Hok Hab Hb Hc. destruct (chunk_of_range_ok text e dl count i a b) as (oa & ob & Ha & Hob & _ & _ & Heq); [done..|].
  rewrite Heq in Hc. injection Hc as <-. split; [done|]. right. by exists oa, ob.
Qed.

(** Every chunk has at most [max_tokens] of the document's tokens. *)
Lemma chunk_text_within encode text params e chunks c :
  encode text = Ok e → offsets_ok e → chunk_text encode text params = Some (Ok chunks) → c ∈ chunks →
  ∃ a b, a ≤ b ∧ b ≤ length (get_ids e) ∧ b - a ≤ max_tokens params ∧ chunk_tokens text e c a b.
Proof.
  intros He Hok. unfold chunk_text. rewrite He. destruct (Nat.eqb_spec (max_tokens params) 0) as [|Hm]; [done|].
  destruct (Nat.leb_spec (length (get_ids e)) (max_tokens params)) as [Hle|Hlt].
  { intros [= <-] ->%list_elem_of_singleton. exists 0, (length (get_ids e)). split_and!; [lia..|]. split; [done|by left]. }
  destruct (boundaries_covering (length (get_ids e)) (length (get_ids e)) (max_tokens params) (chunk_step params) 0)
    as (bs & -> & Hc); [split; [apply chunk_step_pos|apply chunk_step_le; lia]|lia..|]. cbn [mbind option_bind].
  destruct (mapM _ _) as [cs|] eqn:Hcs; [|done]. intros [= <-] [k Hk]%list_elem_of_lookup_1.
  apply mapM_Some in Hcs. destruct (Forall2_lookup_r _ _ _ _ _ Hcs Hk) as ([i [a b]] & Hin%list_elem_of_lookup_2%elem_of_zip_r & Hi).
  destruct (covering_range _ _ _ _ _ a b Hc) as (_ & ? & ? & ?); [lia|done|].
  exists a, b. split_and!; [lia..|]. by eapply chunk_of_range_tokens.
Qed.

(** A tokenizer for the closed examples: one token per byte, numbered by its
    code; it refuses texts that contain an exclamation mark. *)
Definition byte_tokenizer (text : string) : result string Encoding :=
  if contains "!" text then Err "unsupported"
  else Ok (mkEncoding (map (λ c, byte_of c) (str_bytes text))
             (map (λ i, (i, i + 1)) (seq 0 (str_len text)))).

Lemma byte_tokenizer_offsets text e : byte_tokenizer text = Ok e → offsets_ok e.
Proof.
  unfold byte_tokenizer. destruct (contains _ _); intros [= <-]. split; cbn.
  - by rewrite !length_map, length_seq, str_len_bytes.
  - intros i j a b Hij Ha Hb. rewrite list_lookup_fmap in Ha, Hb.
    apply fmap_Some in Ha as (x & Hx & ->). apply fmap_Some in Hb as (y & Hy & ->).
    apply lookup_seq in Hx, Hy. cbn. lia.
Qed.

Lemma chunk_text_total_and_covering_witness :
  ∃ (bs : list (nat * nat)) chunks,
    chunk_text byte_tokenizer "abcdefghij" (mkChunkParams 4 1) = Some (Ok chunks) ∧
    (∀ t, t < 10 → ∃ a b, (a, b) ∈ bs ∧ a ≤ t < b).
Proof.
  destruct (chunk_text_total_and_covering byte_tokenizer "abcdefghij" (mkChunkParams 4 1)
    (mkEncoding (map (λ c, byte_of c) (str_bytes "abcdefghij")) (map (λ i, (i, i + 1)) (seq 0 10))))
    as (bs & chunks & H1 & H2 & _).
  - reflexivity.
  - apply (byte_tokenizer_offsets "abcdefghij"). reflexivity.
  - cbn. lia.
  - cbn. lia.
  - exists bs, chunks. split; [exact H1|exact H2].
Defined.

Example chunk_text_example :
  chunk_text byte_tokenizer "abcdefghij" (mkChunkParams 4 1) =
    Some (Ok [mkChunk 0 3 0 10 "abcd"; mkChunk 1 3 3 10 "defg"; mkChunk 2 3 6 10 "ghij"]).
Proof. vm_compute. reflexivity. Qed.

(** The remaining branches of [chunk_text]. *)
Lemma chunk_text_other encode text params :
  (max_tokens params = 0 → chunk_text encode text params = Some (Err (InvalidParams 0))) ∧
  (∀ d, 0 < max_tokens params → encode text = Err d →
     chunk_text encode text params = Some (Err (TokenizerError d))) ∧
  (∀ e, 0 < max_tokens params → encode text = Ok e → length (get_ids e) ≤ max_tokens params →
     chunk_text encode text params =
       Some (Ok [mkChunk 0 1 0 (as_u32 (length (get_ids e))) text])).
Proof.
  unfold chunk_text. split_and!; intros.
  - by rewrite H.
  - destruct (Nat.eqb_spec (max_tokens params) 0); [lia|]. by rewrite H0.
  - destruct (Nat.eqb_spec (max_tokens params) 0); [lia|]. rewrite H0.
    by destruct (Nat.leb_spec (length (get_ids e)) (max_tokens params)); [|lia].
Qed.

(** Two consecutive chunks share exactly [overlap] tokens when the
    overlap is smaller than the window; when it is not, the step is clamped to
    one token and they share [max_tokens - 1]. *)
Theorem adjacent_overlap params len bs i a b a' b' :
  0 < max_tokens params → 0 < len →
  boundaries len len (max_tokens params) (chunk_step params) 0 = Some bs →
  bs !! i = Some (a, b) → bs !! S i = Some (a', b') →
  b - a' = (if (max_tokens params <=? overlap params)%nat
            then max_tokens params - 1 else overlap params).
Proof.
  intros Hm Hlen Hbs Hi Hi'.
  destruct (boundaries_covering len len (max_tokens params) (chunk_step params) 0)
    as (bs' & Hbs' & Hc); [split; [apply chunk_step_pos|by apply chunk_step_le]|lia|lia|].
  simplify_eq. destruct (covering_adjacent _ _ _ _ _ _ _ _ _ _ Hc Hi Hi') as [-> ->].
  unfold chunk_step in *. destruct (Nat.leb_spec (max_tokens params) (overlap params)); lia.
Qed.

Lemma adjacent_overlap_witness :
  4 - 3 = 1.
Proof.
  apply (adjacent_overlap (mkChunkParams 4 1) 10 [(0, 4); (3, 7); (6, 10)] 0 0 4 3 7);
    (reflexivity || (cbn; lia)).
Defined.

(** The parameters derived for a model keep prefix and chunk together
    inside its 512-token window, make the overlap smaller than the chunk, and
    leave room for a chunk exactly when the prefix itself fits; a prefix that
    fills the window makes every chunking fail loud instead of looping. *)
Theorem params_for_window_spec encode prefix e :
  encode prefix = Ok e →
  ∃ p, params_for_window encode prefix = Ok p ∧
    overlap p = max_tokens p `div` 7 ∧
    (length (get_ids e) < WINDOW →
       length (get_ids e) + max_tokens p = WINDOW ∧ overlap p < max_tokens p) ∧
    (WINDOW ≤ length (get_ids e) →
       ∀ text, chunk_text encode text p = Some (Err (InvalidParams 0))).
Proof.
  intros He. unfold params_for_window. rewrite He. eexists. split; [done|].
  cbn [max_tokens overlap]. split_and!; [done| |].
  - intros H. split; [lia|].
    apply Nat.div_lt; lia.
  - intros H text. apply chunk_text_other. cbn [max_tokens]. lia.
Qed.

Lemma params_for_window_spec_witness :
  ∃ p, params_for_window byte_tokenizer "passage: " = Ok p ∧ overlap p = max_tokens p `div` 7.
Proof.
  destruct (params_for_window_spec byte_tokenizer "passage: "
    (mkEncoding (map (λ c, byte_of c) (str_bytes "passage: ")) (map (λ i, (i, i + 1)) (seq 0 9))))
    as (p & H1 & H2 & _); [reflexivity|]. exists p. split; [exact H1|exact H2].
Defined.

Example params_for_window_example :
  params_for_window byte_tokenizer "passage: " = Ok (mkChunkParams 503 71).
Proof. vm_compute. reflexivity. Qed.

(** A tokenizer is only ever loaded whole: every step has succeeded. *)
Lemma io_load_tokenizer_ok {T} `{TokenizerFiles T} path (t : T) :
  io_load_tokenizer path = Ok t ↔
  if ends_with ".bz2" path
  then ∃ file json, tk_open path = Ok file ∧ bz2_decode file = Ok json ∧ tokenizer_from_bytes json = Ok t
  else tokenizer_from_file path = Ok t.
Proof.
  unfold io_load_tokenizer. destruct (ends_with ".bz2" path).
  - destruct (tk_open path) as [file|e]; cbn; [|by split; [|intros (? & ? & ? & _)]].
    destruct (bz2_decode file) as [json|e] eqn:Eb; cbn; [|by split; [|intros (? & ? & [= <-] & ? & _); congruence]].
    destruct (tokenizer_from_bytes json) as [t'|e] eqn:Et; cbn; split.
    1: intros [= ->]; eauto. all: try done. all: intros (? & ? & [= <-] & ? & ?); congruence.
  - destruct (tokenizer_from_file path); cbn; (split; [intros [= ->]|intros [= <-]]); reflexivity.
Qed.
