(* ===== verification/Schema.v ===== *)
(** * Store schema and index configuration
      (src/src/store/lance/schema.rs, src/src/store/lance/config.rs)

    The rows, queries and hits of the Lance store, the reserved branch names
    and the pinned parameters of the vector index.  [i32] columns are [Z]; an
    [as u32] cast of one is written out. *)

From S2P Require Import Prelude F32 RustStr Model.

Record ChunkRow := mkChunkRow {
  cr_doc_id : string;
  cr_doc_type : string;
  cr_chunk_index : Z;
  cr_chunk_count : Z;
  cr_chunk_token_start : Z;
  cr_doc_token_len : Z;
  cr_embedding : list f32;
  cr_clustering_embedding : list f32;
  cr_content : string;
}.
#[export] Instance ChunkRow_eq_dec : EqDecision ChunkRow. Proof. solve_decision. Defined.

Record SearchQuery := mkSearchQuery {
  sq_query_embedding : list f32;
  sq_query_text : string;
  sq_mode : SearchMode;
  sq_start : nat;
  sq_count : nat;
  sq_doc_type_filter : list string;
  sq_doc_id_filter : list string;
  sq_snippet : bool;
}.

Record SuggestQuery := mkSuggestQuery {
  sg_query_text : string;
  sg_count : nat;
  sg_doc_type_filter : list string;
  sg_doc_id_filter : list string;
}.

Record SuggestHit := mkSuggestHit {
  sgh_id : string;
  sgh_snippet : option string;
  sgh_match_start : option nat;
  sgh_match_end : option nat;
  sgh_next_words : list string;
}.

Record SuggestResult := mkSuggestResult {
  sgr_total_approx : nat;
  sgr_completions : list string;
  sgr_hits : list SuggestHit;
}.

Inductive DistanceKind : Type := RawCosine | Normalised.
#[export] Instance DistanceKind_eq_dec : EqDecision DistanceKind. Proof. solve_decision. Defined.

Record ChunkHit := mkChunkHit {
  h_doc_id : string;
  h_distance : f32;
  h_distance_kind : DistanceKind;
  h_chunk_index : Z;
  h_chunk_count : Z;
  h_chunk_token_start : Z;
  h_doc_token_len : Z;
  h_content : string;
  h_embedding : list f32;
  h_clustering_embedding : list f32;
}.
#[export] Instance ChunkHit_eq_dec : EqDecision ChunkHit. Proof. solve_decision. Defined.

(** An [i32] read as [u32]. *)
Definition i32_as_u32 (z : Z) : Z := (z mod 2 ^ 32)%Z.

(** ** Reserved branches *)

Definition MAIN_BRANCH : string := "main".
Definition RESERVED_PREFIX : string := ".-".
Definition COMPACT_REBUILD_PREFIX : string := ".-compact_rebuild_".

Definition compact_rebuild_branch_name (epoch : N) : string :=
  COMPACT_REBUILD_PREFIX +:+ pretty epoch.

Definition is_compact_rebuild_branch (branch : string) : bool :=
  starts_with COMPACT_REBUILD_PREFIX branch.

Definition is_reserved_branch_name (branch : string) : bool :=
  starts_with RESERVED_PREFIX branch.

Definition DEFAULT_DUPLICATE_MAX_POINTS : nat := 50 * 1000.
Definition DEFAULT_DUPLICATE_MAX_PAIRS : nat := 10 * 1000.

(** ** Near-duplicate scans *)

Record DuplicateScope := mkDuplicateScope {
  set_doc_types : list string;
  set_doc_ids : list string;
  target_doc_types : list string;
  target_doc_ids : list string;
}.

Definition is_empty {A} (l : list A) : bool := match l with [] => true | _ => false end.

(** [DuplicateScope::has_target]. *)
Definition has_target (s : DuplicateScope) : bool :=
  negb (is_empty (target_doc_types s)) || negb (is_empty (target_doc_ids s)).

Record NeighbourObservation := mkNeighbourObservation {
  doc_a : string;
  doc_b : string;
  normalized_distance : f32;
  content_a : option string;
  content_b : option string;
}.

(** ** Index configuration *)

Record VectorIndexConfig := mkVectorIndexConfig {
  num_partitions : Z;
  vic_m : nat;
  ef_construction : nat;
  nprobes : nat;
  refine_factor : option N;
}.

(** [VectorIndexConfig::default_for_dim]; [None] is the panic of the
    [assert!]. *)
Definition default_for_dim (dim : nat) : option VectorIndexConfig :=
  if (0 <? dim)%nat then Some (mkVectorIndexConfig 16 30 200 4 (Some 2%N)) else None.

(** [f64 as usize]: truncation toward zero, saturating; [NaN] is 0. *)
Definition f64_as_usize (x : f64) : Z :=
  match x with
  | S754_finite false m e =>
      Z.min (2 ^ 64 - 1) (if (0 <=? e)%Z then Zpos m * 2 ^ e else Zpos m / 2 ^ (- e))
  | S754_infinity false => 2 ^ 64 - 1
  | _ => 0
  end%Z.

Definition f64_of_Z (n : Z) : f64 := binary_normalize 53 1024 n 0 false.

(** [VectorIndexConfig::recommended_num_partitions]. *)
Definition recommended_num_partitions (c : VectorIndexConfig) (row_count : Z) : Z :=
  let sqrt_n := SFsqrt 53 1024 (f64_of_Z row_count) in
  let three_quarters := SFdiv 53 1024 (f64_of_Z 3) (f64_of_Z 4) in
  let adaptive := f64_as_usize (SFmul 53 1024 sqrt_n three_quarters) in
  Z.max (num_partitions c) adaptive.

(** ** Properties *)

Lemma starts_with_app p s : starts_with p (p +:+ s) = true.
Proof.
  unfold starts_with. induction p as [|a p IH]; [by destruct s|]. simpl.
  destruct (ascii_dec a a); [apply IH|done].
Qed.

(** The branches the compaction rebuilds on are all in the reserved name
    space that requests may not use, are recognised as rebuild branches, and
    two compaction epochs never share one. *)
Theorem rebuild_branch_names e1 e2 :
  is_compact_rebuild_branch (compact_rebuild_branch_name e1) = true ∧
  is_reserved_branch_name (compact_rebuild_branch_name e1) = true ∧
  is_reserved_branch_name MAIN_BRANCH = false ∧
  (compact_rebuild_branch_name e1 = compact_rebuild_branch_name e2 → e1 = e2).
Proof.
  split_and!.
  - apply starts_with_app.
  - apply (starts_with_app ".-" ("compact_rebuild_" +:+ pretty e1)).
  - reflexivity.
  - unfold compact_rebuild_branch_name. intros H.
    by apply (inj (String.append _)), (inj pretty) in H.
Qed.

Lemma rebuild_branch_names_witness :
  is_reserved_branch_name ".-compact_rebuild_17" = true ∧ 17%N = 17%N.
Proof.
  split; [apply (rebuild_branch_names 17 17)|].
  apply (proj2 (proj2 (proj2 (rebuild_branch_names 17 17)))). reflexivity.
Defined.

(** Every branch the program treats as a rebuild branch is reserved. *)
Lemma rebuild_is_reserved b :
  is_compact_rebuild_branch b = true → is_reserved_branch_name b = true.
Proof.
  unfold is_compact_rebuild_branch, is_reserved_branch_name, starts_with.
  destruct b as [|c1 [|c2 b]]; simpl; intros H; [done|by case_match|].
  case_match; [|done]. case_match; [|done]. by destruct b.
Qed.

Lemma recommended_floor c n : (num_partitions c <= recommended_num_partitions c n)%Z.
Proof. unfold recommended_num_partitions. lia. Qed.

Example recommended_10k :
  (λ c, recommended_num_partitions c 10000) <$> default_for_dim 768 = Some 75%Z.
Proof. vm_compute. reflexivity. Qed.
Example recommended_100k :
  (λ c, recommended_num_partitions c 100000) <$> default_for_dim 768 = Some 237%Z.
Proof. vm_compute. reflexivity. Qed.
Example recommended_2m :
  (λ c, recommended_num_partitions c 2000000) <$> default_for_dim 768 = Some 1060%Z.
Proof. vm_compute. reflexivity. Qed.
Example recommended_10m :
  (λ c, recommended_num_partitions c 10000000) <$> default_for_dim 768 = Some 2371%Z.
Proof. vm_compute. reflexivity. Qed.
Example recommended_small :
  (λ c, recommended_num_partitions c 100) <$> default_for_dim 768 = Some 16%Z.
Proof. vm_compute. reflexivity. Qed.
