(* ===== verification/Rollup.v ===== *)
(** * Index roll-up (src/src/store/lance/rollup.rs)

    When a commit gets an index, how deltas are partitioned for the batch
    roll-up of the clean-up, and the incremental cascade that merges three
    indices at a time after a push.  Lance itself, the dataset [Ds] with
    [load_indices] and [optimize_indices], is a parameter, of which nothing is
    assumed: what a merge leaves of the vector, full-text and clustering indices
    is Lance's, and what the hierarchy looks like then is not proved. *)

From S2P Require Import Prelude RustStr Model.

(** [should_index_commit]. *)
Definition should_index_commit (commit_position : nat) : bool :=
  ((commit_position + 1) mod 3 =? 0)%nat.

(** The [while] loop of [ilog]; [None] when the fuel runs out (it does for
    base 1, where the loop of the source does not end) and when the division
    panics (base 0). *)
Fixpoint ilog_loop (fuel val base exp : nat) : option nat :=
  if (base <=? val)%nat then
    match base, fuel with
    | 0, _ | _, 0 => None
    | _, S fuel => ilog_loop fuel (val `div` base) base (exp + 1)
    end
  else Some exp.

Definition ilog (n base : nat) : option nat :=
  if (n <? base)%nat then Some 0 else ilog_loop n n base 0.

(** The loop of [rollup_partitions]. *)
Fixpoint rollup_loop (fuel offset remaining base : nat) : option (list (nat * nat)) :=
  if (base <=? remaining)%nat then
    match fuel with
    | 0 => None
    | S fuel =>
        exp ← ilog remaining base;
        let size := base ^ exp in
        ps ← rollup_loop fuel (offset + size) (remaining - size) base;
        Some ((offset, offset + size - 1) :: ps)
    end
  else Some [].

Definition rollup_partitions (total base : nat) : option (list (nat * nat)) :=
  if (total <? base)%nat then Some [] else rollup_loop total 0 total base.

(** [merges_needed]: the fuel is the argument. *)
Fixpoint merges_loop (fuel n count : nat) : nat :=
  match fuel with
  | 0 => count
  | S fuel =>
      if (0 <? n)%nat && (n mod 3 =? 0)%nat then merges_loop fuel (n `div` 3) (count + 1)
      else count
  end.

Definition merges_needed (delta_count : nat) : nat := merges_loop delta_count delta_count 0.

(** ** The two procedures, over Lance *)

Section lance.
Context {Ds Idx : Type}.
Context (load_indices : Ds → result string (list Idx)).
Context (optimize_merge : nat → Ds → result string Ds).

Definition load_or (msg : string) (ds : Ds) : result StoreError (list Idx) :=
  map_err (λ e, StoreInternal (msg +:+ e)) (load_indices ds).

Fixpoint merge_partitions (sizes : list nat) (ds : Ds) : result StoreError Ds :=
  match sizes with
  | [] => Ok ds
  | size :: sizes =>
      ds ← map_err (λ e, StoreInternal ("rollup merge(" +:+ pretty (N.of_nat size) +:+ ") failed: " +:+ e))
             (optimize_merge size ds);
      merge_partitions sizes ds
  end.

(** [io_exponential_rollup]: the dataset after it, and the counts it
    returns.  [None]: a partition computation that does not return. *)
Definition io_exponential_rollup (ds : Ds) (base : nat)
    : option (result StoreError (Ds * (nat * nat))) :=
  match load_or "load indices failed: " ds with
  | Err e => Some (Err e)
  | Ok indices_before =>
      if (length indices_before =? 0)%nat then Some (Ok (ds, (0, 0)))
      else
        let count_before := length indices_before in
        partitions ← rollup_partitions count_before base;
        if (length partitions =? 0)%nat then Some (Ok (ds, (count_before, count_before)))
        else Some (
          ds ← merge_partitions (map (λ p, p.2 - p.1 + 1) (reverse partitions)) ds;
          indices_after ← load_or "load indices after rollup failed: " ds;
          Ok (ds, (count_before, length indices_after)))
  end.

(** The loop of [io_incremental_cascade]: [n] merges left. *)
Fixpoint cascade_loop (n : nat) (ds : Ds) : result StoreError Ds :=
  match n with
  | 0 => Ok ds
  | S n =>
      indices ← load_or "load indices in cascade failed: " ds;
      if (length indices <? 3)%nat then Ok ds
      else
        ds ← map_err (λ e, StoreInternal ("cascade merge(3) failed: " +:+ e)) (optimize_merge 3 ds);
        cascade_loop n ds
  end.

Definition io_incremental_cascade (ds : Ds) (delta_count : nat)
    : result StoreError (Ds * (nat * nat)) :=
  indices_before ← load_or "load indices failed: " ds;
  let count_before := length indices_before in
  let needed := merges_needed delta_count in
  if (needed =? 0)%nat then Ok (ds, (count_before, count_before))
  else
    ds ← cascade_loop needed ds;
    indices_after ← load_or "load indices after cascade failed: " ds;
    Ok (ds, (count_before, length indices_after)).
End lance.

(** ** Partitions *)

Lemma pow_pos base e : base ≠ 0 → 0 < base ^ e.
Proof. intros Hb. by apply Nat.neq_0_lt_0, Nat.pow_nonzero. Qed.

Lemma ilog_loop_spec fuel val base exp :
  2 ≤ base → 0 < val → val ≤ fuel →
  ∃ e, ilog_loop fuel val base exp = Some (exp + e) ∧ base ^ e ≤ val < base ^ (e + 1).
Proof.
  intros Hb. revert val exp; induction fuel as [|fuel IH]; intros val exp Hv Hf; [lia|].
  cbn [ilog_loop]. destruct (Nat.leb_spec base val) as [Hle|Hlt].
  2: { exists 0. cbn. split; [f_equal; lia|lia]. }
  destruct base as [|[|b]]; [lia..|]. set (base := S (S b)) in *.
  destruct (IH (val `div` base) (exp + 1)) as (e & He & H1 & H2).
  { apply Nat.div_str_pos. lia. }
  { enough (val `div` base < val) by lia. apply Nat.div_lt; lia. }
  exists (e + 1). rewrite He. split; [f_equal; lia|].
  pose proof (Nat.div_mod val base ltac:(lia)). pose proof (Nat.mod_upper_bound val base ltac:(lia)).
  rewrite !Nat.pow_add_r, Nat.pow_1_r in *. nia.
Qed.

Lemma ilog_spec n base :
  2 ≤ base → base ≤ n → ∃ e, ilog n base = Some e ∧ 1 ≤ e ∧ base ^ e ≤ n < base ^ (e + 1).
Proof.
  intros Hb Hn. unfold ilog. destruct (Nat.ltb_spec n base); [lia|].
  destruct (ilog_loop_spec n n base 0) as (e & He & H1 & H2); [lia..|].
  exists e. split; [done|]. split; [|done].
  destruct e; [|lia]. rewrite Nat.add_0_l, Nat.pow_1_r in H2. lia.
Qed.

(** Contiguous ranges from [offset], each as large as the largest power of
    [base] that fits in what remains, down to a remainder below [base]. *)
Inductive partitioned (base : nat) : nat → nat → list (nat * nat) → Prop :=
| partitioned_nil offset remaining : remaining < base → partitioned base offset remaining []
| partitioned_cons offset remaining e ps :
    1 ≤ e → base ^ e ≤ remaining < base ^ (e + 1) →
    partitioned base (offset + base ^ e) (remaining - base ^ e) ps →
    partitioned base offset remaining ((offset, offset + base ^ e - 1) :: ps).

Lemma rollup_loop_partitioned fuel offset remaining base :
  2 ≤ base → remaining ≤ fuel →
  ∃ ps, rollup_loop fuel offset remaining base = Some ps ∧ partitioned base offset remaining ps.
Proof.
  intros Hb. revert offset remaining; induction fuel as [|fuel IH]; intros offset remaining Hf;
    cbn [rollup_loop]; destruct (Nat.leb_spec base remaining) as [Hle|Hlt]; try lia;
    try (eexists; split; [done|by constructor]).
  destruct (ilog_spec remaining base) as (e & -> & He & H1 & H2); [done..|]. cbn.
  pose proof (pow_pos base e ltac:(lia)).
  destruct (IH (offset + base ^ e) (remaining - base ^ e)) as (ps & -> & Hps); [lia|].
  eexists. split; [done|]. by constructor.
Qed.

Definition partition_size (p : nat * nat) : nat := p.2 - p.1 + 1.

Lemma partitioned_total base offset remaining ps :
  2 ≤ base → partitioned base offset remaining ps →
  sum_list (map partition_size ps) + remaining mod base = remaining.
Proof.
  intros Hb. induction 1 as [offset remaining Hr|offset remaining e ps He Hr Hp IH];
    cbn -[partition_size Nat.modulo Nat.pow].
  { by apply Nat.mod_small. }
  pose proof (pow_pos base e ltac:(lia)).
  assert (partition_size (offset, offset + base ^ e - 1) = base ^ e) as ->.
  { unfold partition_size; cbn. lia. }
  assert (remaining mod base = (remaining - base ^ e) mod base) as ->; [|lia].
  replace e with (S (e - 1)) in * by lia. rewrite Nat.pow_succ_r' in *.
  replace remaining with ((remaining - base * base ^ (e - 1)) + base ^ (e - 1) * base) at 1 by lia.
  by rewrite Nat.Div0.mod_add.
Qed.

Lemma partitioned_contiguous base offset remaining ps i p q :
  2 ≤ base → partitioned base offset remaining ps →
  (ps !! 0 = Some p → p.1 = offset) ∧
  (ps !! i = Some p → ps !! S i = Some q → q.1 = p.2 + 1).
Proof.
  intros Hb Hp. revert i p q; induction Hp as [|offset remaining e ps He Hr Hp IH]; intros i p q; [done|].
  pose proof (pow_pos base e ltac:(lia)).
  split; [by intros [= <-]|]. destruct i as [|i]; cbn [lookup list_lookup].
  - intros [= <-] Hq. destruct (IH 0 q q) as [H1 _]. rewrite (H1 Hq). cbn. lia.
  - intros. by apply (IH i).
Qed.

Lemma partitioned_powers base offset remaining ps :
  2 ≤ base → partitioned base offset remaining ps →
  Forall (λ p, ∃ e, 1 ≤ e ∧ partition_size p = base ^ e) ps ∧
  StronglySorted (λ p q, partition_size q ≤ partition_size p) ps ∧
  Forall (λ p, partition_size p ≤ remaining) ps.
Proof.
  intros Hb. induction 1 as [|offset remaining e ps He Hr Hp (IH1 & IH2 & IH3)];
    [repeat constructor|].
  pose proof (pow_pos base e ltac:(lia)).
  assert (partition_size (offset, offset + base ^ e - 1) = base ^ e) as Hs.
  { unfold partition_size; cbn. lia. }
  split_and!.
  - constructor; [eauto|done].
  - constructor; [done|]. rewrite Hs. rewrite Forall_forall in IH1, IH3 |- *.
    intros p Hin. destruct (IH1 p Hin) as (e' & _ & He'). specialize (IH3 p Hin).
    rewrite He' in IH3 |- *. apply Nat.pow_le_mono_r; [lia|].
    enough (e' < e + 1) by lia. apply (Nat.pow_lt_mono_r_iff base); lia.
  - constructor; [lia|]. eapply Forall_impl; [done|]. cbn. lia.
Qed.

Lemma partitioned_largest base offset remaining ps :
  2 ≤ base → partitioned base offset remaining ps →
  Forall (λ p, offset + remaining - p.1 < base * partition_size p) ps.
Proof.
  intros Hb. induction 1 as [|offset remaining e ps He Hr Hp IH]; [constructor|].
  pose proof (pow_pos base e ltac:(lia)). constructor.
  - unfold partition_size; cbn [fst snd]. rewrite Nat.pow_add_r, Nat.pow_1_r in Hr. nia.
  - eapply Forall_impl; [exact IH|]. cbn beta. intros p Hlt. lia.
Qed.

(** C29: the roll-up partitions always exist for a base of at least two (both
    loops end), are contiguous from the oldest delta on, and each is as large as
    the largest power of the base that fits in what is left at its start, so none
    is larger than the one before; together they cover all deltas but the
    [total mod base] newest. *)
Theorem rollup_partitions_spec total base :
  2 ≤ base →
  ∃ ps, rollup_partitions total base = Some ps ∧
    (∀ p, ps !! 0 = Some p → p.1 = 0) ∧
    (∀ i p q, ps !! i = Some p → ps !! S i = Some q → q.1 = p.2 + 1) ∧
    Forall (λ p, ∃ e, 1 ≤ e ∧ partition_size p = base ^ e) ps ∧
    Forall (λ p, total - p.1 < base * partition_size p) ps ∧
    StronglySorted (λ p q, partition_size q ≤ partition_size p) ps ∧
    sum_list (map partition_size ps) = total - total mod base.
Proof.
  intros Hb. unfold rollup_partitions.
  assert (∃ ps, (if (total <? base)%nat then Some [] else rollup_loop total 0 total base) = Some ps ∧
                partitioned base 0 total ps) as (ps & Hps & Hp).
  { destruct (Nat.ltb_spec total base).
    - eexists. split; [done|by constructor].
    - by apply rollup_loop_partitioned. }
  exists ps. pose proof (partitioned_total _ _ _ _ Hb Hp).
  destruct (partitioned_powers _ _ _ _ Hb Hp) as (? & ? & _).
  split_and!; [done| | |done|by apply (partitioned_largest base 0)|done|lia].
  - intros p. apply (partitioned_contiguous _ _ _ _ 0 p p Hb Hp).
  - intros i p q. apply (partitioned_contiguous _ _ _ _ i p q Hb Hp).
Qed.

Lemma rollup_partitions_spec_witness :
  ∃ ps, rollup_partitions 13 3 = Some ps ∧ sum_list (map partition_size ps) = 12.
Proof.
  destruct (rollup_partitions_spec 13 3) as (ps & H & _ & _ & _ & _ & _ & Hs); [lia|].
  exists ps. split; [exact H|exact Hs].
Defined.

Example rollup_partitions_123 :
  rollup_partitions 123 3 = Some [(0, 80); (81, 107); (108, 116); (117, 119); (120, 122)].
Proof. vm_compute. reflexivity. Qed.

(** ** The cascade *)

Lemma merges_loop_count fuel n count : merges_loop fuel n count = count + merges_loop fuel n 0.
Proof.
  revert n count; induction fuel as [|fuel IH]; intros n count; cbn [merges_loop]; [lia|].
  destruct (_ && _); [|lia]. rewrite (IH _ (count + 1)), (IH _ (0 + 1)). lia.
Qed.

Lemma merges_loop_fuel fuel1 fuel2 n count :
  n ≤ fuel1 → n ≤ fuel2 → merges_loop fuel1 n count = merges_loop fuel2 n count.
Proof.
  revert fuel2 n count; induction fuel1 as [|fuel1 IH]; intros [|fuel2] n count H1 H2;
    cbn [merges_loop]; try done.
  - by replace n with 0 by lia.
  - by replace n with 0 by lia.
  - destruct (Nat.ltb_spec 0 n); [|done]. destruct (n mod 3 =? 0)%nat; [|done]. cbn [andb].
    pose proof (Nat.div_lt n 3). apply IH; lia.
Qed.

Lemma merges_needed_step n :
  0 < n → merges_needed n = if (n mod 3 =? 0)%nat then S (merges_needed (n `div` 3)) else 0.
Proof.
  intros Hn. unfold merges_needed. destruct n as [|n]; [lia|]. cbn [merges_loop].
  destruct (Nat.ltb_spec 0 (S n)); [|lia]. destruct (S n mod 3 =? 0)%nat; [|done]. cbn [andb].
  rewrite merges_loop_count. pose proof (Nat.div_lt (S n) 3).
  rewrite (merges_loop_fuel n (S n `div` 3)) by lia. lia.
Qed.

(** [merges_needed] is the exponent of 3 in the delta count. *)
Theorem merges_needed_spec n :
  0 < n → ∃ q, n = 3 ^ merges_needed n * q ∧ q mod 3 ≠ 0.
Proof.
  induction (lt_wf n) as [n _ IH]. intros Hn. rewrite (merges_needed_step n) by done.
  destruct (Nat.eqb_spec (n mod 3) 0) as [E|E].
  - pose proof (Nat.div_mod n 3 ltac:(lia)) as Hd. pose proof (Nat.div_lt n 3).
    destruct (IH (n `div` 3)) as (q & Hq & Hm); [lia|lia|].
    exists q. split; [|done]. rewrite Nat.pow_succ_r'. lia.
  - exists n. split; [cbn; lia|done].
Qed.

Lemma merges_needed_spec_witness : ∃ q, 54 = 3 ^ merges_needed 54 * q ∧ q mod 3 ≠ 0.
Proof. apply (merges_needed_spec 54). lia. Defined.

(** A concrete index list to run the batch roll-up on: how many deltas each index
    holds, the newest last. *)
Definition demo_merge (n : nat) (ds : list nat) : result string (list nat) :=
  Ok (take (length ds - n) ds ++ [sum_list (drop (length ds - n) ds)]).

(** The batch roll-up: each merge joins the [size] newest of what the previous
    merges left, so the sizes are used smallest first. *)
Example exponential_rollup_13 :
  io_exponential_rollup (λ ds : list nat, Ok ds) demo_merge (replicate 13 1) 3
    = Some (Ok ([1; 1; 11], (13, 3))).
Proof. vm_compute. reflexivity. Qed.
