(* ===== verification/Dedup.v ===== *)
(** * Document-level results (src/src/store/lance/dedup.rs)

    Chunk-level hits and nearest-neighbour observations reduced to documents:
    near-duplicate pairs, the best chunk per document, and reciprocal rank
    fusion.  Each builds a [HashMap], iterates it in its unspecified order and
    sorts; the theorems show that the order does not matter. *)

From S2P Require Import Prelude F32 RustStr Model Distance Chunk Schema.

(** ** Near-duplicate pairs *)

Record CanonicalObservation := mkCanonical {
  co_pair : string * string;
  co_distance : f32;
  co_snippet_lo : option string;
  co_snippet_hi : option string;
}.

(** [candidate.distance < best.distance]. *)
Definition closer_pair (candidate best : CanonicalObservation) : bool :=
  F32.lt (co_distance candidate) (co_distance best).

#[export] Instance closer_pair_better : Better closer_pair.
Proof. apply (lt_better _). Qed.

Definition string_le (a b : string) : bool :=
  match String.compare a b with Gt => false | _ => true end.

(** [canonical_observation]. *)
Definition canonical_observation (obs : NeighbourObservation) : CanonicalObservation :=
  if string_le (doc_a obs) (doc_b obs) then
    mkCanonical (doc_a obs, doc_b obs) (normalized_distance obs) (content_a obs) (content_b obs)
  else
    mkCanonical (doc_b obs, doc_a obs) (normalized_distance obs) (content_b obs) (content_a obs).

(** The id of a group's member; the two indices of the comparator always exist. *)
Definition member_id (g : DuplicateGroup) (i : nat) : string :=
  match dg_group g !! i with Some m => dm_id m | None => "" end.

Definition group_cmp (a b : DuplicateGroup) : comparison :=
  then_with
    (then_with (F32.cmp_or_eq (dg_distance a) (dg_distance b))
       (String.compare (member_id a 0) (member_id b 0)))
    (String.compare (member_id a 1) (member_id b 1)).

Definition group_of (obs : CanonicalObservation) : DuplicateGroup :=
  mkDuplicateGroup [mkDuplicateMember (co_pair obs).1 (co_snippet_lo obs);
                    mkDuplicateMember (co_pair obs).2 (co_snippet_hi obs)]
    (co_distance obs).

(** The filters and the canonical form of [pairs_from_neighbours]. *)
Definition qualifying (observations : list NeighbourObservation) (threshold : f32)
    : list CanonicalObservation :=
  map canonical_observation
    (filter (λ obs, doc_a obs ≠ doc_b obs)
       (filter (λ obs, F32.le (normalized_distance obs) threshold = true) observations)).

Definition pairs_from_neighbours {HI : HashIter (string * string) CanonicalObservation}
    (observations : list NeighbourObservation) (threshold : f32) (max_pairs : nat)
    : list DuplicateGroup :=
  let best_per_pair := keep_best co_pair closer_pair (qualifying observations threshold) in
  let groups := map group_of (into_values best_per_pair) in
  take max_pairs (sort_by group_cmp groups).

Definition group_num (g : DuplicateGroup) : Prop := F32.num (dg_distance g).

#[export] Instance group_cmp_order : CmpOrder group_num group_cmp.
Proof.
  unfold group_cmp.
  apply (then_with_order _ (λ a b, then_with _ _)); [apply then_with_order|].
  - apply (on_key_order _ F32.num dg_distance); [apply _|done].
  - apply (on_key_order _ (λ _, True) (λ g, member_id g 0)); [apply _|done].
  - apply (on_key_order _ (λ _, True) (λ g, member_id g 1)); [apply _|done].
Qed.

Lemma qualifying_elem observations threshold c :
  c ∈ qualifying observations threshold ↔
  ∃ obs, obs ∈ observations ∧ F32.le (normalized_distance obs) threshold = true ∧
         doc_a obs ≠ doc_b obs ∧ c = canonical_observation obs.
Proof.
  unfold qualifying. rewrite list_elem_of_fmap. setoid_rewrite list_elem_of_filter.
  setoid_rewrite list_elem_of_filter. split.
  - intros (obs & -> & ? & ? & ?). by exists obs.
  - intros (obs & ? & ? & ? & ->). by exists obs.
Qed.

Lemma canonical_distance obs : co_distance (canonical_observation obs) = normalized_distance obs.
Proof. unfold canonical_observation. by destruct (string_le _ _). Qed.

Lemma canonical_pair_lt obs :
  doc_a obs ≠ doc_b obs →
  let '(lo, hi) := co_pair (canonical_observation obs) in
  String.compare lo hi = Lt ∧
  (lo = doc_a obs ∧ hi = doc_b obs ∨ lo = doc_b obs ∧ hi = doc_a obs).
Proof.
  intros Hne. unfold canonical_observation, string_le.
  destruct (String.compare (doc_a obs) (doc_b obs)) eqn:E; cbn.
  - by apply String.compare_eq_iff in E.
  - auto.
  - rewrite String.compare_antisym, E. auto.
Qed.

Lemma group_cmp_of c c' :
  group_cmp (group_of c) (group_of c') =
    then_with (then_with (F32.cmp_or_eq (co_distance c) (co_distance c'))
                 (String.compare (co_pair c).1 (co_pair c').1))
      (String.compare (co_pair c).2 (co_pair c').2).
Proof. done. Qed.

Section pairs.
Context (observations : list NeighbourObservation) (threshold : f32).

Local Abbreviation best := (keep_best co_pair closer_pair (qualifying observations threshold)).

Lemma best_num c : c ∈ qualifying observations threshold → F32.num (co_distance c).
Proof.
  intros (obs & _ & Hle & _ & ->)%qualifying_elem. rewrite canonical_distance.
  by destruct (le_num _ _ Hle).
Qed.

Lemma groups_num {HI : HashIter (string * string) CanonicalObservation} :
  Forall group_num (map group_of (into_values best)).
Proof.
  apply Forall_forall. intros g (c & -> & Hc)%list_elem_of_fmap.
  apply into_values_elem in Hc as [k Hk]. apply (keep_best_lookup co_pair closer_pair) in Hk as [Hin _].
  by apply best_num in Hin.
Qed.

Lemma groups_eq {HI : HashIter (string * string) CanonicalObservation} g g' :
  g ∈ map group_of (into_values best) → g' ∈ map group_of (into_values best) →
  group_cmp g g' = Eq → g = g'.
Proof.
  intros (c & -> & [k Hk]%into_values_elem)%list_elem_of_fmap
         (c' & -> & [k' Hk']%into_values_elem)%list_elem_of_fmap Heq.
  rewrite group_cmp_of in Heq.
  destruct (F32.cmp_or_eq _ _); [|done..]. cbn [then_with] in Heq.
  destruct (String.compare (co_pair c).1 _) eqn:E1; [|done..]. cbn [then_with] in Heq.
  apply String.compare_eq_iff in E1, Heq.
  apply (keep_best_lookup co_pair closer_pair) in Hk as Hb. apply (keep_best_lookup co_pair closer_pair) in Hk' as Hb'.
  destruct Hb as (_ & <- & _), Hb' as (_ & <- & _).
  assert (co_pair c = co_pair c') as E by (destruct (co_pair c), (co_pair c'); cbn in *; congruence).
  rewrite E in Hk. by simplify_eq.
Qed.
End pairs.

(** The near-duplicate report does not depend on the iteration order of
    the hash map it is built from: the same observations always give the same
    pairs in the same order, the same ones surviving the cap. *)
Theorem pairs_deterministic (H1 H2 : HashIter (string * string) CanonicalObservation)
    observations threshold max_pairs :
  pairs_from_neighbours (HI:=H1) observations threshold max_pairs =
  pairs_from_neighbours (HI:=H2) observations threshold max_pairs.
Proof.
  unfold pairs_from_neighbours. f_equal. apply (sort_by_unique _ group_num).
  - apply groups_eq.
  - apply groups_num.
  - by rewrite (into_values_indep H1 H2).
Qed.

Lemma pairs_deterministic_example :
  pairs_from_neighbours (HI:=map_order)
    [mkNeighbourObservation "b" "a" F32.zero None None; mkNeighbourObservation "a" "b" F32.one None None;
     mkNeighbourObservation "c" "c" F32.zero None None] F32.one 10
  = [mkDuplicateGroup [mkDuplicateMember "a" None; mkDuplicateMember "b" None] F32.zero].
Proof. vm_compute. reflexivity. Qed.

Section pairs_spec.
Context {HI : HashIter (string * string) CanonicalObservation}.
Context (observations : list NeighbourObservation) (threshold : f32) (max_pairs : nat).

Local Abbreviation groups :=
  (map group_of (into_values (keep_best co_pair closer_pair (qualifying observations threshold)))).

Lemma pairs_sorted : StronglySorted (cmp_le group_cmp) (sort_by group_cmp groups).
Proof. eapply (sort_by_sorted group_cmp group_num), groups_num. Qed.

(** What the near-duplicate report says.  Every reported pair comes from
    an observation within the threshold between two different documents, lower
    id first, and carries the smallest distance observed for that pair; the
    report is nearest first, lists each pair once, and a qualifying pair is
    missing only when the cap was reached by pairs that are not farther. *)
Theorem pairs_from_neighbours_spec :
  let result := pairs_from_neighbours observations threshold max_pairs in
  StronglySorted (cmp_le group_cmp) result ∧
  length result ≤ max_pairs ∧
  (∀ g, g ∈ result → ∃ c, g = group_of c ∧
     best_of co_pair closer_pair (qualifying observations threshold) (co_pair c) c ∧
     String.compare (co_pair c).1 (co_pair c).2 = Lt) ∧
  (∀ obs, obs ∈ observations → F32.le (normalized_distance obs) threshold = true →
     doc_a obs ≠ doc_b obs →
     ∃ c, best_of co_pair closer_pair (qualifying observations threshold)
            (co_pair (canonical_observation obs)) c ∧
       (group_of c ∈ result ∨
        length result = max_pairs ∧ ∀ g, g ∈ result → cmp_le group_cmp g (group_of c))).
Proof.
  cbn zeta. unfold pairs_from_neighbours. split_and!.
  - apply StronglySorted_take, pairs_sorted.
  - rewrite length_take. lia.
  - intros g Hg%elem_of_take_in. rewrite sort_by_perm in Hg.
    apply list_elem_of_fmap in Hg as (c & -> & [k Hk]%into_values_elem).
    apply (keep_best_lookup co_pair closer_pair) in Hk as Hb. destruct Hb as (Hin & Hkey & Hmin).
    exists c. split; [done|]. split; [by rewrite Hkey|].
    apply qualifying_elem in Hin as (obs & _ & _ & Hne & ->).
    pose proof (canonical_pair_lt obs Hne) as Hlt.
    destruct (co_pair (canonical_observation obs)). apply Hlt.
  - intros obs Hobs Hle Hne.
    assert (canonical_observation obs ∈ qualifying observations threshold) as Hq.
    { apply qualifying_elem. eauto. }
    destruct (keep_best_complete co_pair closer_pair _ _ Hq) as [c Hc].
    exists c. split; [by apply (keep_best_lookup co_pair closer_pair)|].
    assert (group_of c ∈ sort_by group_cmp groups) as Hin.
    { rewrite sort_by_perm. apply list_elem_of_fmap. exists c. split; [done|].
      apply into_values_elem. eauto. }
    set (l := sort_by group_cmp groups) in *.
    rewrite <-(take_drop max_pairs l), elem_of_app in Hin.
    destruct Hin as [Hin|Hin]; [by left|right]. split.
    + rewrite length_take. apply Nat.min_l.
      destruct (decide (max_pairs ≤ length l)); [done|].
      rewrite drop_ge in Hin by lia. by apply elem_of_nil in Hin.
    + intros g Hg. eapply StronglySorted_take_drop; [apply pairs_sorted|exact Hg|exact Hin].
Qed.
End pairs_spec.

(** ** Best chunk per document *)

(** [display_distance]. *)
Definition display_distance (hit : ChunkHit) : f32 :=
  match h_distance_kind hit with
  | RawCosine => normalized_cosine_from_lance (h_distance hit)
  | Normalised => h_distance hit
  end.

(** [chunk_info]. *)
Definition chunk_info (hit : ChunkHit) (snippet : bool) (location : f32) : ChunkInfo :=
  mkChunkInfo (i32_as_u32 (h_chunk_index hit)) (i32_as_u32 (h_chunk_count hit))
    (i32_as_u32 (h_chunk_token_start hit)) (i32_as_u32 (h_doc_token_len hit))
    location (if snippet then Some (h_content hit) else None).

Definition hit_location (hit : ChunkHit) : f32 :=
  chunk_location (Z.to_N (i32_as_u32 (h_chunk_token_start hit)))
    (Z.to_N (i32_as_u32 (h_doc_token_len hit))).

Definition closer_hit (hit entry : ChunkHit) : bool := F32.lt (h_distance hit) (h_distance entry).

#[export] Instance closer_hit_better : Better closer_hit.
Proof. apply (lt_better _). Qed.

(** The loop body of [dedup_chunks_to_documents]: insert the hit when the
    document is new, then replace a farther entry. *)
Definition dedup_step (best_per_doc : gmap string ChunkHit) (hit : ChunkHit) : gmap string ChunkHit :=
  let entry := default hit (best_per_doc !! h_doc_id hit) in
  let best_per_doc := <[h_doc_id hit := entry]> best_per_doc in
  if closer_hit hit entry
  then <[h_doc_id hit := hit]> best_per_doc else best_per_doc.

Definition search_cmp (a b : SearchHit) : comparison :=
  then_with (F32.cmp_or_eq (sh_distance a) (sh_distance b)) (String.compare (sh_id a) (sh_id b)).

Definition document_hit (snippet : bool) (hit : ChunkHit) : SearchHit :=
  mkSearchHit (h_doc_id hit) (display_distance hit) (chunk_info hit snippet (hit_location hit))
    None None None.

Definition dedup_chunks_to_documents {HI : HashIter string ChunkHit}
    (hits : list ChunkHit) (snippet : bool) : list SearchHit :=
  let best_per_doc := foldl dedup_step ∅ hits in
  sort_by search_cmp (map (document_hit snippet) (into_values best_per_doc)).

Lemma dedup_step_keep_best m h : dedup_step m h = keep_best_step h_doc_id closer_hit m h.
Proof.
  unfold dedup_step, keep_best_step. destruct (m !! h_doc_id h) as [b|] eqn:E; cbn.
  - by rewrite (insert_id m) by done.
  - by rewrite better_irrefl.
Qed.

Lemma dedup_fold_keep_best hits : foldl dedup_step ∅ hits = keep_best h_doc_id closer_hit hits.
Proof.
  unfold keep_best. generalize (∅ : gmap string ChunkHit) as m.
  induction hits as [|h hits IH]; intros m; cbn [foldl]; [done|].
  by rewrite dedup_step_keep_best.
Qed.

Definition search_num (h : SearchHit) : Prop := F32.num (sh_distance h).

#[export] Instance search_cmp_order : CmpOrder search_num search_cmp.
Proof.
  unfold search_cmp. apply then_with_order.
  - apply (on_key_order _ F32.num sh_distance); [apply _|done].
  - apply (on_key_order _ (λ _, True) sh_id); [apply _|done].
Qed.

Section dedup.
Context (hits : list ChunkHit) (snippet : bool).
Context (Hnum : Forall (λ h, F32.num (display_distance h)) hits).

Local Abbreviation best := (keep_best h_doc_id closer_hit hits).

Lemma document_hits_num {HI : HashIter string ChunkHit} :
  Forall search_num (map (document_hit snippet) (into_values best)).
Proof using Hnum.
  apply Forall_forall. intros s (h & -> & [k Hk]%into_values_elem)%list_elem_of_fmap.
  apply (keep_best_lookup h_doc_id closer_hit) in Hk as [Hin _].
  rewrite Forall_forall in Hnum. by apply Hnum.
Qed.

Lemma document_hits_eq {HI : HashIter string ChunkHit} s s' :
  s ∈ map (document_hit snippet) (into_values best) →
  s' ∈ map (document_hit snippet) (into_values best) →
  sh_id s = sh_id s' → s = s'.
Proof using Type.
  intros (h & -> & [k Hk]%into_values_elem)%list_elem_of_fmap
         (h' & -> & [k' Hk']%into_values_elem)%list_elem_of_fmap Heq. cbn in Heq.
  apply (keep_best_lookup h_doc_id closer_hit) in Hk as Hb. apply (keep_best_lookup h_doc_id closer_hit) in Hk' as Hb'.
  destruct Hb as (_ & <- & _), Hb' as (_ & <- & _). rewrite Heq in Hk. by simplify_eq.
Qed.
End dedup.

(** Collapsing chunk hits to documents does not depend on the hash map's
    iteration order, provided no distance shown is a [NaN]: one hit per
    document, nearest first, the document's closest chunk representing it. *)
Theorem dedup_deterministic_best (H1 H2 : HashIter string ChunkHit) hits snippet :
  Forall (λ h, F32.num (display_distance h)) hits →
  dedup_chunks_to_documents (HI:=H1) hits snippet = dedup_chunks_to_documents (HI:=H2) hits snippet ∧
  StronglySorted (cmp_le search_cmp) (dedup_chunks_to_documents (HI:=H1) hits snippet) ∧
  (∀ s, s ∈ dedup_chunks_to_documents (HI:=H1) hits snippet ↔
     ∃ h, s = document_hit snippet h ∧ keep_best h_doc_id closer_hit hits !! h_doc_id h = Some h) ∧
  (∀ h, keep_best h_doc_id closer_hit hits !! h_doc_id h = Some h →
     best_of h_doc_id closer_hit hits (h_doc_id h) h).
Proof.
  intros Hnum. unfold dedup_chunks_to_documents. rewrite dedup_fold_keep_best. split_and!.
  - apply (sort_by_unique _ search_num).
    + intros s s' Hs Hs' Heq. eapply (@document_hits_eq hits snippet H1); [exact Hs|exact Hs'|].
      unfold search_cmp in Heq. destruct (F32.cmp_or_eq _ _); [|done..].
      by apply String.compare_eq_iff.
    + by apply document_hits_num.
    + by rewrite (into_values_indep H1 H2).
  - apply (sort_by_sorted _ search_num). by apply document_hits_num.
  - intros s. rewrite sort_by_perm, list_elem_of_fmap. setoid_rewrite into_values_elem. split.
    + intros (h & -> & [k Hk]). exists h. split; [done|].
      by destruct (keep_best_lookup _ _ _ _ _ Hk) as (_ & -> & _).
    + intros (h & -> & Hk). eauto.
  - intros h Hk. by apply (keep_best_lookup h_doc_id closer_hit).
Qed.

Definition example_hit (id : string) (d : f32) : ChunkHit :=
  mkChunkHit id d RawCosine 0 1 0 10 "text" [] [].

Lemma dedup_deterministic_best_witness :
  dedup_chunks_to_documents (HI:=map_order)
    [example_hit "a" F32.one; example_hit "b" F32.two; example_hit "a" F32.zero] false =
  dedup_chunks_to_documents (HI:=rev_order)
    [example_hit "a" F32.one; example_hit "b" F32.two; example_hit "a" F32.zero] false.
Proof.
  apply (dedup_deterministic_best map_order rev_order). by repeat constructor.
Defined.

Example dedup_example :
  map (λ s, (sh_id s, sh_distance s)) (dedup_chunks_to_documents (HI:=rev_order)
    [example_hit "a" F32.one; example_hit "b" F32.two; example_hit "a" F32.zero] false)
  = [("a", F32.zero); ("b", F32.one)].
Proof. vm_compute. reflexivity. Qed.

(** ** Reciprocal rank fusion *)

Record FusedDoc := mkFusedDoc {
  fd_score : f32;
  fd_vector : option (N * ChunkHit);
  fd_fts : option (N * ChunkHit);
}.

Definition RRF_K : f32 := F32.of_Z 60.

(** [1.0 / (K + rank as f32 + 1.0)]. *)
Definition rrf_contribution (rank : N) : f32 :=
  F32.div F32.one (F32.add (F32.add RRF_K (F32.of_Z (Z.of_N rank))) F32.one).

Definition fd_slot (is_vector : bool) (d : FusedDoc) : option (N * ChunkHit) :=
  if is_vector then fd_vector d else fd_fts d.

Definition set_slot (is_vector : bool) (score : f32) (s : N * ChunkHit) (d : FusedDoc) : FusedDoc :=
  if is_vector then mkFusedDoc score (Some s) (fd_fts d) else mkFusedDoc score (fd_vector d) (Some s).

(** One iteration of the [absorb] closure; the state is the rank ([u32], it
    wraps) and the map. *)
Definition absorb_step (is_vector : bool) (st : N * gmap string FusedDoc) (hit : ChunkHit)
    : N * gmap string FusedDoc :=
  let '(rank, docs) := st in
  let entry := default (mkFusedDoc F32.zero None None) (docs !! h_doc_id hit) in
  let docs := <[h_doc_id hit := entry]> docs in
  match fd_slot is_vector entry with
  | Some _ => (rank, docs)
  | None =>
      let entry := set_slot is_vector (F32.add (fd_score entry) (rrf_contribution rank)) (rank, hit) entry in
      (((rank + 1) mod 2 ^ 32)%N, <[h_doc_id hit := entry]> docs)
  end.

Definition absorb (docs : gmap string FusedDoc) (hits : list ChunkHit) (is_vector : bool)
    : gmap string FusedDoc :=
  (foldl (absorb_step is_vector) (0%N, docs) hits).2.

(** [fused_distance]. *)
Definition fused_distance (score : f32) : f32 :=
  let score_max := F32.div F32.two (F32.add RRF_K F32.one) in
  F32.max (F32.sub F32.one (F32.div score score_max)) F32.zero.

(** [leg_score]. *)
Definition leg_score (p : N * ChunkHit) : LegScore := mkLegScore (Z.of_N p.1) (display_distance p.2).

(** The hit of one fused document; [None] is the [expect] panic. *)
Definition fused_hit (snippet : bool) (p : string * FusedDoc) : option SearchHit :=
  let '(doc_id, fused) := p in
  rep ← match fd_vector fused with
        | Some (_, h) => Some h
        | None => snd <$> fd_fts fused
        end;
  Some (mkSearchHit doc_id (fused_distance (fd_score fused))
          (chunk_info rep snippet (hit_location rep)) (Some (fd_score fused))
          (leg_score <$> fd_vector fused) (leg_score <$> fd_fts fused)).

(** [PartialOrd] of [Option<f32>]: [None] is smaller than any [Some]. *)
Definition opt_partial_cmp (a b : option f32) : option comparison :=
  match a, b with
  | Some x, Some y => F32.partial_cmp x y
  | None, None => Some Eq
  | None, Some _ => Some Lt
  | Some _, None => Some Gt
  end.

Definition rrf_cmp (a b : SearchHit) : comparison :=
  then_with (default Eq (opt_partial_cmp (sh_rrf_score b) (sh_rrf_score a)))
    (String.compare (sh_id a) (sh_id b)).

(** The map after both legs. *)
Definition fuse_map (vector_hits fts_hits : list ChunkHit) : gmap string FusedDoc :=
  absorb (absorb ∅ vector_hits true) fts_hits false.

(** [rrf_fuse_documents]. *)
Definition rrf_fuse_documents {HI : HashIter string FusedDoc}
    (vector_hits fts_hits : list ChunkHit) (snippet : bool) : option (list SearchHit) :=
  results ← mapM (fused_hit snippet) (hash_iter (fuse_map vector_hits fts_hits));
  Some (sort_by rrf_cmp results).

(** *** What a leg contributes *)

Definition distinct (l : list string) : nat := size (list_to_set l : gset string).

Lemma distinct_snoc l x : distinct (l ++ [x]) = if decide (x ∈ l) then distinct l else S (distinct l).
Proof.
  unfold distinct. rewrite list_to_set_app_L, list_to_set_cons, list_to_set_nil, union_empty_r_L.
  destruct (decide (x ∈ l)) as [Hx|Hx].
  - assert (list_to_set l ∪ {[x]} = (list_to_set l : gset string)) as ->; [|done].
    apply set_eq. intros y. rewrite elem_of_union, elem_of_list_to_set, elem_of_singleton.
    split; [intros [?| ->]; done|auto].
  - rewrite size_union, size_singleton; [lia|]. apply disjoint_singleton_r.
    by rewrite elem_of_list_to_set.
Qed.

(** A document's rank in a leg: the number of other documents that appear
    before its first chunk; with it, that chunk. *)
Definition leg_spec (hits : list ChunkHit) (id : string) : option (N * ChunkHit) :=
  match list_find (λ h, h_doc_id h = id) hits with
  | Some (i, h) => Some ((N.of_nat (distinct (map h_doc_id (take i hits))) mod 2 ^ 32)%N, h)
  | None => None
  end.

Lemma leg_spec_none hits id : leg_spec hits id = None ↔ id ∉ map h_doc_id hits.
Proof.
  unfold leg_spec. split.
  - destruct (list_find _ _) as [[i h]|] eqn:E; [done|]. intros _ Hin.
    apply list_find_None in E. rewrite Forall_forall in E.
    apply list_elem_of_fmap in Hin as (h & -> & Hh). by apply (E h Hh).
  - intros Hn. destruct (list_find _ _) as [[i h]|] eqn:E; [|done].
    apply list_find_Some in E as (Hi & <- & _). destruct Hn.
    apply list_elem_of_fmap. exists h. split; [done|]. by eapply list_elem_of_lookup_2.
Qed.

Lemma leg_spec_snoc hits h id :
  leg_spec (hits ++ [h]) id =
    match leg_spec hits id with
    | Some s => Some s
    | None => if decide (h_doc_id h = id)
              then Some ((N.of_nat (distinct (map h_doc_id hits)) mod 2 ^ 32)%N, h) else None
    end.
Proof.
  unfold leg_spec. destruct (list_find (λ h, h_doc_id h = id) hits) as [[i h']|] eqn:E.
  - rewrite (list_find_app_l _ _ _ i h') by done.
    apply list_find_Some in E as (Hi & _ & _). apply lookup_lt_Some in Hi.
    by rewrite take_app_le by lia.
  - rewrite list_find_app_r by done. cbn. destruct (decide (h_doc_id h = id)); cbn; [|done].
    by rewrite take_app_length.
Qed.

(** A document after a leg that contributes [s] to it. *)
Definition merge_leg (is_vector : bool) (d : option FusedDoc) (s : option (N * ChunkHit)) : option FusedDoc :=
  match s with
  | None => d
  | Some s =>
      let entry := default (mkFusedDoc F32.zero None None) d in
      Some (set_slot is_vector (F32.add (fd_score entry) (rrf_contribution s.1)) s entry)
  end.

Lemma fd_slot_set v score s d : fd_slot v (set_slot v score s d) = Some s.
Proof. by destruct v. Qed.

Lemma absorb_spec v docs hits :
  (∀ id d, docs !! id = Some d → fd_slot v d = None) →
  let st := foldl (absorb_step v) (0%N, docs) hits in
  st.1 = (N.of_nat (distinct (map h_doc_id hits)) mod 2 ^ 32)%N ∧
  ∀ id, st.2 !! id = merge_leg v (docs !! id) (leg_spec hits id).
Proof.
  intros Hdocs. cbn zeta. induction hits as [|h hits IH] using rev_ind; [done|].
  rewrite foldl_app. destruct (foldl (absorb_step v) (0%N, docs) hits) as [rank m].
  cbn [fst snd] in IH. destruct IH as [Hrank Hm]. cbn [foldl absorb_step].
  rewrite map_app. cbn [map]. rewrite distinct_snoc. rewrite (Hm (h_doc_id h)).
  destruct (leg_spec hits (h_doc_id h)) as [s|] eqn:Hs.
  - cbn [merge_leg default]. cbn [from_option id]. rewrite fd_slot_set. cbn [fst snd]. split.
    + rewrite decide_True; [done|]. destruct (decide (h_doc_id h ∈ map h_doc_id hits)) as [|Hn]; [done|].
      apply leg_spec_none in Hn. congruence.
    + intros id. rewrite leg_spec_snoc. destruct (decide (id = h_doc_id h)) as [->|Hne].
      * by rewrite lookup_insert_eq, Hs.
      * rewrite lookup_insert_ne, Hm by done. destruct (leg_spec hits id); [done|].
        by rewrite decide_False by done.
  - cbn [merge_leg].
    assert (fd_slot v (default (mkFusedDoc F32.zero None None) (docs !! h_doc_id h)) = None) as ->.
    { destruct (docs !! h_doc_id h) as [d|] eqn:Hd; cbn; [by eapply Hdocs|by destruct v]. }
    cbn [fst snd]. split.
    + rewrite decide_False by (by apply leg_spec_none). rewrite Hrank, Nat2N.inj_succ, <-N.add_1_r.
      by rewrite N.Div0.add_mod_idemp_l.
    + intros id. rewrite leg_spec_snoc. destruct (decide (id = h_doc_id h)) as [->|Hne].
      * rewrite lookup_insert_eq, Hs, decide_True by done. cbn [merge_leg fst]. by rewrite Hrank.
      * rewrite !lookup_insert_ne, Hm by done. destruct (leg_spec hits id); [done|].
        by rewrite decide_False by done.
Qed.

Lemma fuse_map_spec vs fs id :
  fuse_map vs fs !! id = merge_leg false (merge_leg true None (leg_spec vs id)) (leg_spec fs id).
Proof.
  assert (∀ id, absorb ∅ vs true !! id = merge_leg true None (leg_spec vs id)) as Hv.
  { intros id'. unfold absorb.
    destruct (absorb_spec true ∅ vs) as [_ ->]; [intros ? ?; by rewrite lookup_empty|].
    by rewrite lookup_empty. }
  unfold fuse_map. unfold absorb at 1.
  destruct (absorb_spec false (absorb ∅ vs true) fs) as [_ ->]; [|by rewrite Hv].
  intros id' d. rewrite Hv. destruct (leg_spec vs id'); [|done]. by intros [= <-].
Qed.

(** The fused score of a document: the sum of its legs' contributions. *)
Definition fused_score (v f : option (N * ChunkHit)) : f32 :=
  let s := match v with Some p => F32.add F32.zero (rrf_contribution p.1) | None => F32.zero end in
  match f with Some p => F32.add s (rrf_contribution p.1) | None => s end.

Lemma fuse_map_entry vs fs id d :
  fuse_map vs fs !! id = Some d ↔
  d = mkFusedDoc (fused_score (leg_spec vs id) (leg_spec fs id)) (leg_spec vs id) (leg_spec fs id) ∧
  (leg_spec vs id ≠ None ∨ leg_spec fs id ≠ None).
Proof.
  rewrite fuse_map_spec.
  destruct (leg_spec vs id) as [p|], (leg_spec fs id) as [q|]; cbn; split;
    try (intros [= <-]; split; [done|by (left + right)]); try (by intros [-> _]); try done.
  by intros [_ [?|?]].
Qed.

Lemma rrf_contribution_nn rank : F32_nn (rrf_contribution rank).
Proof.
  unfold rrf_contribution. change F32.one with (S754_finite false 8388608 (-23)).
  apply div_finite_nn, add_nn; [apply add_nn|done]; apply of_Z_nn; lia.
Qed.

Lemma fused_score_nn v f : F32_nn (fused_score v f).
Proof.
  unfold fused_score. destruct v, f; repeat apply add_nn; (done || apply rrf_contribution_nn).
Qed.

Lemma fused_hit_some snippet vs fs id d :
  fuse_map vs fs !! id = Some d →
  ∃ s, fused_hit snippet (id, d) = Some s ∧ sh_id s = id ∧
    sh_rrf_score s = Some (fused_score (leg_spec vs id) (leg_spec fs id)) ∧
    sh_distance s = fused_distance (fused_score (leg_spec vs id) (leg_spec fs id)) ∧
    sh_vector s = leg_score <$> leg_spec vs id ∧ sh_fts s = leg_score <$> leg_spec fs id.
Proof.
  intros (-> & Hlegs)%fuse_map_entry. unfold fused_hit; cbn [fd_vector fd_fts fd_score].
  destruct (leg_spec vs id) as [[r h]|], (leg_spec fs id) as [[r' h']|]; cbn;
    try (eexists; split; [reflexivity|done]). by destruct Hlegs.
Qed.

(** Hits whose fused score is a number. *)
Definition rrf_num (s : SearchHit) : Prop := ∃ x, sh_rrf_score s = Some x ∧ F32.num x.

#[export] Instance rrf_cmp_order : CmpOrder rrf_num rrf_cmp.
Proof.
  assert (∀ s t, rrf_num s → rrf_num t →
            rrf_cmp s t = then_with (F32.cmp_or_eq (default F32.zero (sh_rrf_score t))
                                       (default F32.zero (sh_rrf_score s)))
                            (String.compare (sh_id s) (sh_id t))) as Heq.
  { intros s t (x & Hx & _) (y & Hy & _). unfold rrf_cmp. by rewrite Hx, Hy. }
  assert (CmpOrder rrf_num (λ s t, then_with (F32.cmp_or_eq (default F32.zero (sh_rrf_score t))
                              (default F32.zero (sh_rrf_score s)))
                            (String.compare (sh_id s) (sh_id t)))) as Ho.
  { apply (then_with_order _ (λ s t, F32.cmp_or_eq (default F32.zero (sh_rrf_score t))
                              (default F32.zero (sh_rrf_score s)))).
    - apply (flip_order _ (λ s t, F32.cmp_or_eq (default F32.zero (sh_rrf_score s))
                              (default F32.zero (sh_rrf_score t)))).
      apply (on_key_order _ F32.num (λ s, default F32.zero (sh_rrf_score s))); [apply _|].
      intros s (x & -> & Hx). done.
    - apply (on_key_order _ (λ _, True) sh_id); [apply _|done]. }
  split.
  - intros s t Hs Ht. rewrite !Heq by done. by apply (cmp_antisym (CmpOrder:=Ho)).
  - intros s t u Hs Ht Hu. rewrite !Heq by done. by apply (cmp_trans (CmpOrder:=Ho)).
Qed.

Section rrf.
Context (vs fs : list ChunkHit) (snippet : bool).

Lemma rrf_results {HI : HashIter string FusedDoc} :
  ∃ results, mapM (fused_hit snippet) (hash_iter (fuse_map vs fs)) = Some results ∧
    map sh_id results = (hash_iter (fuse_map vs fs)).*1 ∧
    Forall rrf_num results ∧
    ∀ s, s ∈ results ↔ ∃ id d, fuse_map vs fs !! id = Some d ∧ fused_hit snippet (id, d) = Some s.
Proof.
  assert (∀ p, p ∈ hash_iter (fuse_map vs fs) → fuse_map vs fs !! p.1 = Some p.2) as Hl.
  { intros [id d] Hp. by apply hash_iter_elem in Hp. }
  assert (is_Some (mapM (fused_hit snippet) (hash_iter (fuse_map vs fs)))) as [results Hr].
  { apply mapM_is_Some, Forall_forall. intros [id d] Hp. unfold compose.
    destruct (fused_hit_some snippet vs fs id d (Hl _ Hp)) as (s & -> & _). eauto. }
  exists results. split; [done|]. apply mapM_Some in Hr. split_and!.
  - clear -Hr Hl. induction Hr as [|[id d] s ps ss Hs Hps IH]; cbn; [done|]. f_equal.
    + destruct (fused_hit_some snippet vs fs id d (Hl (id, d) (list_elem_of_here _ _))) as (s' & Hs' & Hid & _).
      congruence.
    + apply IH. intros p Hp. apply Hl. by right.
  - apply Forall_forall. intros s Hs. apply list_elem_of_lookup in Hs as [i Hi].
    destruct (Forall2_lookup_r _ _ _ _ _ Hr Hi) as ([id d] & Hp & Hf).
    destruct (fused_hit_some snippet vs fs id d (Hl _ (list_elem_of_lookup_2 _ _ _ Hp))) as (s' & Hs' & _ & Hsc & _).
    assert (s' = s) as -> by congruence. eexists. split; [done|]. apply nn_num, fused_score_nn.
  - intros s. split.
    + intros [i Hi]%list_elem_of_lookup. destruct (Forall2_lookup_r _ _ _ _ _ Hr Hi) as ([id d] & Hp & Hf).
      exists id, d. split; [|done]. apply (Hl (id, d)). by eapply list_elem_of_lookup_2.
    + intros (id & d & Hd & Hf). apply hash_iter_elem in Hd as [i Hi]%list_elem_of_lookup.
      destruct (Forall2_lookup_l _ _ _ _ _ Hr Hi) as (s' & Hs' & Hf').
      assert (s' = s) as -> by congruence. by eapply list_elem_of_lookup_2.
Qed.
End rrf.

(** What fusion returns. *)
Lemma rrf_fuse_facts {HI : HashIter string FusedDoc} vs fs snippet :
  ∃ hits, rrf_fuse_documents vs fs snippet = Some hits ∧
    StronglySorted (cmp_le rrf_cmp) hits ∧
    NoDup (map sh_id hits) ∧
    (∀ id, id ∈ map sh_id hits ↔ id ∈ map h_doc_id vs ∨ id ∈ map h_doc_id fs) ∧
    Forall (λ s,
      sh_vector s = leg_score <$> leg_spec vs (sh_id s) ∧
      sh_fts s = leg_score <$> leg_spec fs (sh_id s) ∧
      sh_rrf_score s = Some (fused_score (leg_spec vs (sh_id s)) (leg_spec fs (sh_id s)))) hits.
Proof.
  destruct (rrf_results vs fs snippet) as (results & Hr & Hids & Hnum & Helem).
  unfold rrf_fuse_documents. rewrite Hr. eexists. split; [reflexivity|]. split_and!.
  - by apply (sort_by_sorted _ rrf_num).
  - rewrite sort_by_perm, Hids. apply hash_iter_nodup.
  - intros id. rewrite sort_by_perm, Hids, list_elem_of_fmap. split.
    + intros ([id' d] & -> & Hd%hash_iter_elem). apply fuse_map_entry in Hd as [_ Hl]. cbn in *.
      destruct Hl as [Hl|Hl]; [left|right];
        match goal with |- ?P => destruct (decide P); [done|] end; destruct Hl; by apply leg_spec_none.
    + intros Hin. destruct (fuse_map vs fs !! id) as [d|] eqn:Hd.
      * exists (id, d). split; [done|]. by apply hash_iter_elem.
      * assert (leg_spec vs id ≠ None ∨ leg_spec fs id ≠ None) as Hl.
        { rewrite !leg_spec_none. destruct Hin; [left|right]; tauto. }
        rewrite (proj2 (fuse_map_entry vs fs id _) (conj eq_refl Hl)) in Hd. done.
  - rewrite sort_by_perm. apply Forall_forall. intros s (id & d & Hd & Hf)%Helem.
    destruct (fused_hit_some snippet vs fs id d Hd) as (s' & Hs' & Hid & H1 & H2 & H3 & H4).
    assert (s' = s) as -> by congruence. by rewrite Hid.
Qed.

(** C38: hybrid fusion always returns; every document of either leg yields
    exactly one hit, whose rank in a leg is the number of distinct documents
    before its first chunk there (so a document's many chunks cannot buy it
    rank), whose score is the sum of its legs' reciprocal ranks, and the hits
    are by descending score, ties by id. *)
Theorem rrf_fuse_spec {HI : HashIter string FusedDoc} vs fs snippet :
  ∃ hits, rrf_fuse_documents vs fs snippet = Some hits ∧
    StronglySorted (cmp_le rrf_cmp) hits ∧
    NoDup (map sh_id hits) ∧
    (∀ id, id ∈ map sh_id hits ↔ id ∈ map h_doc_id vs ∨ id ∈ map h_doc_id fs) ∧
    Forall (λ s,
      sh_vector s = leg_score <$> leg_spec vs (sh_id s) ∧
      sh_fts s = leg_score <$> leg_spec fs (sh_id s) ∧
      sh_rrf_score s = Some (fused_score (leg_spec vs (sh_id s)) (leg_spec fs (sh_id s)))) hits.
Proof. apply rrf_fuse_facts. Qed.

(** Hybrid results do not depend on the hash map's iteration order: fused
    scores are never [NaN] and ties are broken by document id. *)
Theorem rrf_deterministic (H1 H2 : HashIter string FusedDoc) vs fs snippet :
  rrf_fuse_documents (HI:=H1) vs fs snippet = rrf_fuse_documents (HI:=H2) vs fs snippet.
Proof.
  destruct (rrf_results (HI:=H1) vs fs snippet) as (r1 & E1 & Hid1 & Hn1 & He1).
  destruct (rrf_results (HI:=H2) vs fs snippet) as (r2 & E2 & _).
  unfold rrf_fuse_documents. rewrite E1, E2. cbn. f_equal. apply (sort_by_unique _ rrf_num).
  - intros s t (id & d & Hd & Hf)%He1 (id' & d' & Hd' & Hf')%He1 Heq.
    destruct (fused_hit_some snippet vs fs id d Hd) as (s' & Hs' & Hid & _).
    destruct (fused_hit_some snippet vs fs id' d' Hd') as (t' & Ht' & Hid' & _).
    assert (id = id') as ->; [|congruence].
    unfold rrf_cmp in Heq. destruct (default Eq _); [|done..]. cbn in Heq.
    apply String.compare_eq_iff in Heq. congruence.
  - done.
  - apply Permutation_fst_mapM with (f := fused_hit snippet) (l1 := hash_iter (HashIter:=H1) (fuse_map vs fs))
      (l2 := hash_iter (HashIter:=H2) (fuse_map vs fs)); [apply hash_iter_indep|done|done].
Qed.

Example rrf_example :
  (map (λ s, (sh_id s, leg_rank <$> sh_vector s, leg_rank <$> sh_fts s))) <$>
    rrf_fuse_documents (HI:=rev_order)
      [example_hit "a" F32.zero; example_hit "a" F32.one; example_hit "b" F32.one]
      [example_hit "c" F32.zero; example_hit "b" F32.one] false
  = Some [("b", Some 1, Some 1); ("a", Some 0, None); ("c", None, Some 0)]%Z.
Proof. vm_compute. reflexivity. Qed.
