(* ===== verification/Search.v ===== *)
(** * Search (src/src/store/lance/search.rs)

    Reading Arrow result batches into hits, the filters, the three search modes
    and the chunk-level fusion.  Running a scan is Lance's: [run] takes the
    configured request and returns the collected batches or the stage that
    failed.  DataFusion expressions are kept as the trees the code builds. *)

From S2P Require Import Prelude F32 RustStr Model Distance Chunk Schema Dedup.

(** ** Arrow batches

    The columns the program reads, [None] when a column is missing or has
    another type.  Arrow columns have [num_rows] entries, so that [value] never
    leaves its column. *)

Inductive EmbeddingRow : Type :=
| NullRow
| FloatRow (v : list f32)
| OtherRow.

Record RecordBatch := mkRecordBatch {
  num_rows : nat;
  col_doc_id : option (list string);
  col_chunk_index : option (list Z);
  col_chunk_count : option (list Z);
  col_chunk_token_start : option (list Z);
  col_doc_token_len : option (list Z);
  col_content : option (list string);
  col_distance : option (list f32);
  col_score : option (list f32);
  col_embedding : option (list EmbeddingRow);
  col_clustering_embedding : option (list EmbeddingRow);
}.

Definition value {A} (d : A) (col : list A) (i : nat) : A := nth i col d.

(** [extract_embedding_row]. *)
Definition extract_embedding_row (embeddings : list EmbeddingRow) (row : nat) (doc_id : string)
    : result StoreError (list f32) :=
  match value NullRow embeddings row with
  | NullRow => Err (StoreInternal ("embedding extraction: null embedding for doc " +:+ doc_id))
  | OtherRow => Err (StoreInternal ("embedding extraction: embedding is not Float32 for doc " +:+ doc_id))
  | FloatRow v => Ok v
  end.

(** The six columns every hit needs, when all are present. *)
Definition hit_columns (b : RecordBatch)
    : option (list string * list Z * list Z * list Z * list Z * list string) :=
  ids ← col_doc_id b; ci ← col_chunk_index b; cc ← col_chunk_count b;
  cts ← col_chunk_token_start b; dtl ← col_doc_token_len b; cnt ← col_content b;
  Some (ids, ci, cc, cts, dtl, cnt).

Definition optional_embedding (col : option (list EmbeddingRow)) (i : nat) (doc_id : string)
    : result StoreError (list f32) :=
  match col with Some arr => extract_embedding_row arr i doc_id | None => Ok [] end.

(** One batch of [batches_to_vector_hits]. *)
Definition batch_to_vector_hits (require_distance : bool) (b : RecordBatch)
    : result StoreError (list ChunkHit) :=
  if require_distance && negb (is_ok (ok_or tt (col_distance b))) && (0 <? num_rows b)%nat then
    Err (StoreInternal ("vector search result is missing the `_distance` column — "
      +:+ "refusing to default distances to 0.0 (would corrupt ranking)"))
  else match hit_columns b with
       | None => Ok []
       | Some (ids, ci, cc, cts, dtl, cnt) =>
           res_map (λ i,
             let distance := match col_distance b with
                             | Some d => value F32.zero d i | None => F32.zero end in
             embedding ← optional_embedding (col_embedding b) i (value "" ids i);
             clustering_embedding ← optional_embedding (col_clustering_embedding b) i (value "" ids i);
             Ok (mkChunkHit (value "" ids i) distance RawCosine (value 0%Z ci i) (value 0%Z cc i)
                   (value 0%Z cts i) (value 0%Z dtl i) (value "" cnt i) embedding clustering_embedding))
             (seq 0 (num_rows b))
       end.

(** [batches_to_vector_hits]. *)
Definition batches_to_vector_hits (batches : list RecordBatch) (require_distance : bool)
    : result StoreError (list ChunkHit) :=
  hs ← res_map (batch_to_vector_hits require_distance) batches; Ok (concat hs).

(** One batch of [batches_to_fts_hits]: BM25 score to distance. *)
Definition batch_to_fts_hits (b : RecordBatch) : list ChunkHit :=
  match hit_columns b with
  | None => []
  | Some (ids, ci, cc, cts, dtl, cnt) =>
      map (λ i,
        let score := match col_score b with Some s => value F32.zero s i | None => F32.zero end in
        let distance := F32.div F32.one (F32.add F32.one score) in
        mkChunkHit (value "" ids i) distance Normalised (value 0%Z ci i) (value 0%Z cc i)
          (value 0%Z cts i) (value 0%Z dtl i) (value "" cnt i) [] [])
        (seq 0 (num_rows b))
  end.

(** [batches_to_fts_hits]. *)
Definition batches_to_fts_hits (batches : list RecordBatch) : list ChunkHit :=
  concat (map batch_to_fts_hits batches).

(** ** Filters *)

Inductive Expr : Type :=
| InList (column : string) (values : list string)
| EqLit (column value : string)
| NotEqLit (column value : string)
| And (a b : Expr).

(** [build_filter_expr]. *)
Definition build_filter_expr (doc_types doc_ids : list string) : option Expr :=
  let parts := (if is_empty doc_types then [] else [InList "doc_type" doc_types])
            ++ (if is_empty doc_ids then [] else [InList "doc_id" doc_ids]) in
  match parts with
  | [] => None
  | e :: es => Some (foldl And e es)
  end.

(** [doc_id_eq_expr]. *)
Definition doc_id_eq_expr (doc_id : string) : Expr := EqLit "doc_id" doc_id.

(** [build_neighbour_filter] of store/lance/resolve.rs; [None] is the [expect]
    panic. *)
Definition build_neighbour_filter (self_doc_id : string) (scope : DuplicateScope) : option Expr :=
  let exclude_self := NotEqLit "doc_id" self_doc_id in
  if has_target scope then
    target ← build_filter_expr (target_doc_types scope) (target_doc_ids scope);
    Some (And exclude_self target)
  else Some exclude_self.

(** What such an expression selects, on a row given by its columns. *)
Fixpoint selects (e : Expr) (row : string → string) : bool :=
  match e with
  | InList c vs => bool_decide (row c ∈ vs)
  | EqLit c v => String.eqb (row c) v
  | NotEqLit c v => negb (String.eqb (row c) v)
  | And a b => selects a row && selects b row
  end.

(** ** Scans *)

Inductive ScanKind : Type :=
| Nearest (column : string) (probe : list f32) (k : Z)
| FullText (text : string) (limit : Z)
| Plain
| PlainLimit (limit : Z).

Record ScanRequest := mkScanRequest {
  sr_kind : ScanKind;
  sr_filter : option Expr;
  sr_projection : list string;
}.

(** Where a scan can fail: configuring it, opening its stream, reading it. *)
Inductive ScanFailure : Type :=
| SetupFailed (e : string)
| LimitFailed (e : string)
| ProjectFailed (e : string)
| StreamFailed (e : string)
| CollectFailed (e : string).

Definition usize_max : Z := 2 ^ 64 - 1.
Definition saturating_add (a b : Z) : Z := Z.min usize_max (a + b).
Definition saturating_mul (a b : Z) : Z := Z.min usize_max (a * b).

(** [as i64]: two's complement. *)
Definition as_i64 (z : Z) : Z := ((z + 2 ^ 63) mod 2 ^ 64 - 2 ^ 63)%Z.

Definition search_projection : list string :=
  ["doc_id"; "chunk_index"; "chunk_count"; "chunk_token_start"; "doc_token_len"; "content"].

(** The over-fetch: three chunks per requested document. *)
Definition over_fetch (q : SearchQuery) : Z :=
  saturating_mul (saturating_add (Z.of_nat (sq_start q)) (Z.of_nat (sq_count q))) 3.

(** The test for a missing full-text index. *)
Definition fts_index_missing (msg : string) : bool :=
  contains "INVERTED index" msg || contains "full text search" msg.

Section search.
Context {HI : HashIter string ChunkHit} {HF : HashIter string FusedDoc}
        {HM : HashIter (string * Z) (f32 * ChunkHit)}.
Context {Ds : Type} (run : Ds → ScanRequest → result ScanFailure (list RecordBatch)).

(** [vector_search]. *)
Definition vector_search (ds : Ds) (q : SearchQuery) : result StoreError (list ChunkHit) :=
  let req := mkScanRequest (Nearest "embedding" (sq_query_embedding q) (over_fetch q))
               (build_filter_expr (sq_doc_type_filter q) (sq_doc_id_filter q)) search_projection in
  batches ← map_err (λ f, StoreInternal
              match f with
              | SetupFailed e | LimitFailed e => "vector search setup failed: " +:+ e
              | ProjectFailed e => "project failed: " +:+ e
              | StreamFailed e => "scan stream failed: " +:+ e
              | CollectFailed e => "batch collect failed: " +:+ e
              end) (run ds req);
  batches_to_vector_hits batches true.

(** [fts_search]: no full-text index means no hits, not an error. *)
Definition fts_search (ds : Ds) (q : SearchQuery) : result StoreError (list ChunkHit) :=
  let req := mkScanRequest (FullText (sq_query_text q) (as_i64 (over_fetch q)))
               (build_filter_expr (sq_doc_type_filter q) (sq_doc_id_filter q)) search_projection in
  match run ds req with
  | Ok batches => Ok (batches_to_fts_hits batches)
  | Err (SetupFailed e) => Err (StoreInternal ("FTS search setup failed: " +:+ e))
  | Err (LimitFailed e) => Err (StoreInternal ("limit failed: " +:+ e))
  | Err (ProjectFailed e) => Err (StoreInternal ("project failed: " +:+ e))
  | Err (StreamFailed msg) =>
      if fts_index_missing msg then Ok [] else Err (StoreInternal ("FTS stream failed: " +:+ msg))
  | Err (CollectFailed msg) =>
      if fts_index_missing msg then Ok [] else Err (StoreInternal ("FTS collect failed: " +:+ msg))
  end.

(** The two loops of [rrf_merge]; [rank as f32] is the index in the leg. *)
Definition rrf_step (is_vector : bool) (scores : gmap (string * Z) (f32 * ChunkHit))
    (p : nat * ChunkHit) : gmap (string * Z) (f32 * ChunkHit) :=
  let '(rank, hit) := p in
  let key := (h_doc_id hit, h_chunk_index hit) in
  let rrf_score := rrf_contribution (N.of_nat rank) in
  let entry := default (F32.zero, hit) (scores !! key) in
  let keep := if is_vector then hit
              else match h_distance_kind entry.2 with RawCosine => entry.2 | Normalised => hit end in
  <[key := (F32.add entry.1 rrf_score, keep)]> scores.

Definition enumerate {A} (l : list A) : list (nat * A) := zip (seq 0 (length l)) l.

Definition rrf_scores (vector_hits fts_hits : list ChunkHit) : gmap (string * Z) (f32 * ChunkHit) :=
  foldl (rrf_step false) (foldl (rrf_step true) ∅ (enumerate vector_hits)) (enumerate fts_hits).

Definition rrf_chunk_cmp (a b : f32 * ChunkHit) : comparison :=
  then_with (then_with (F32.cmp_or_eq b.1 a.1) (String.compare (h_doc_id a.2) (h_doc_id b.2)))
    (Z.compare (h_chunk_index a.2) (h_chunk_index b.2)).

(** [rrf_merge]. *)
Definition rrf_merge (vector_hits fts_hits : list ChunkHit) : list ChunkHit :=
  map snd (sort_by rrf_chunk_cmp (into_values (rrf_scores vector_hits fts_hits))).

(** [hybrid_search]. *)
Definition hybrid_search (ds : Ds) (q : SearchQuery) : result StoreError (list ChunkHit) :=
  let v := vector_search ds q in
  let f := fts_search ds q in
  vector_hits ← v; fts_hits ← f; Ok (rrf_merge vector_hits fts_hits).

(** [io_search]; [snapshot] is [io_snapshot_from_cache]. *)
Definition io_search (snapshot : result StoreError Ds) (q : SearchQuery) : result StoreError (list ChunkHit) :=
  ds ← snapshot;
  match sq_mode q with
  | Vector => vector_search ds q
  | Fts => fts_search ds q
  | Hybrid => hybrid_search ds q
  end.

(** [io_search_documents]; the inner [None] is the panic of the fusion. *)
Definition io_search_documents (snapshot : result StoreError Ds) (q : SearchQuery)
    : result StoreError (option (list SearchHit)) :=
  match sq_mode q with
  | Hybrid =>
      ds ← snapshot;
      let v := vector_search ds q in
      let f := fts_search ds q in
      vector_hits ← v; fts_hits ← f;
      Ok (rrf_fuse_documents vector_hits fts_hits (sq_snippet q))
  | _ => hits ← io_search snapshot q; Ok (Some (dedup_chunks_to_documents hits (sq_snippet q)))
  end.
End search.

(** ** Filters: properties *)

Lemma is_empty_nil {A} (l : list A) : is_empty l = true ↔ l = [].
Proof. by destruct l. Qed.

(** The filter of a search selects exactly the rows whose type and id are
    in the requested lists, an empty list meaning no constraint; there is no
    filter exactly when both lists are empty. *)
Theorem build_filter_expr_selects doc_types doc_ids :
  (build_filter_expr doc_types doc_ids = None ↔ doc_types = [] ∧ doc_ids = []) ∧
  ∀ e row, build_filter_expr doc_types doc_ids = Some e →
    (selects e row = true ↔
       (doc_types = [] ∨ row "doc_type" ∈ doc_types) ∧ (doc_ids = [] ∨ row "doc_id" ∈ doc_ids)).
Proof.
  unfold build_filter_expr.
  destruct doc_types as [|t ts], doc_ids as [|i ids]; cbn [is_empty app foldl]; split; try done;
    try (split; [done|by intros [??]]); intros e row [= <-]; cbn [selects];
    rewrite ?andb_true_iff, ?bool_decide_eq_true; split.
  - intros ?. split; [by left|by right].
  - intros [_ [?|?]]; done.
  - intros ?. split; [by right|by left].
  - intros [[?|?] _]; done.
  - intros [? ?]. split; by right.
  - intros [[?|?] [?|?]]; done.
Qed.

Lemma build_filter_expr_selects_witness :
  selects (And (InList "doc_type" ["People"]) (InList "doc_id" ["p1"; "p2"]))
    (λ c, if String.eqb c "doc_id" then "p2" else "People") = true.
Proof.
  apply (proj2 (build_filter_expr_selects ["People"] ["p1"; "p2"])).
  - reflexivity.
  - split; right; by apply (bool_decide_unpack _).
Defined.

(** The neighbour query of the near-duplicate scan always has a filter
    (the [expect] cannot fail), the filter never admits a chunk of the probe's
    own document, and in cross-set mode it admits target rows only. *)
Theorem neighbour_filter_spec self_doc_id scope :
  ∃ e, build_neighbour_filter self_doc_id scope = Some e ∧
    ∀ row, selects e row = true ↔
      row "doc_id" ≠ self_doc_id ∧
      (has_target scope = true →
         (target_doc_types scope = [] ∨ row "doc_type" ∈ target_doc_types scope) ∧
         (target_doc_ids scope = [] ∨ row "doc_id" ∈ target_doc_ids scope)).
Proof.
  destruct (build_filter_expr_selects (target_doc_types scope) (target_doc_ids scope)) as [Hnone Hsel].
  unfold build_neighbour_filter. destruct (has_target scope) eqn:Ht.
  - destruct (build_filter_expr _ _) as [e|] eqn:He.
    + cbn. eexists. split; [done|]. intros row. cbn [selects].
      rewrite andb_true_iff, negb_true_iff, String.eqb_neq, (Hsel e row eq_refl). tauto.
    + destruct Hnone as [Hnone _]. destruct (Hnone eq_refl) as [H1 H2].
      unfold has_target in Ht. by rewrite H1, H2 in Ht.
  - eexists. split; [done|]. intros row. cbn [selects].
    rewrite negb_true_iff, String.eqb_neq. intuition done.
Qed.

(** ** Chunk-level fusion: properties *)

Definition chunk_key (h : ChunkHit) : string * Z := (h_doc_id h, h_chunk_index h).

Definition rrf_inv (vs fs : list ChunkHit) (scores : gmap (string * Z) (f32 * ChunkHit)) : Prop :=
  ∀ key, match scores !! key with
         | Some (s, h) => chunk_key h = key ∧ F32_nn s ∧
             (h ∈ vs ∨ h ∈ fs ∧ key ∉ map chunk_key vs)
         | None => key ∉ map chunk_key (vs ++ fs)
         end.

Lemma rrf_inv_vector vs scores rank h :
  rrf_inv vs [] scores → rrf_inv (vs ++ [h]) [] (rrf_step true scores (rank, h)).
Proof.
  intros Hinv key. unfold rrf_step. fold (chunk_key h).
  destruct (decide (key = chunk_key h)) as [->|Hne].
  - rewrite lookup_insert_eq. split; [done|]. split.
    + apply add_nn; [|apply rrf_contribution_nn]. specialize (Hinv (chunk_key h)).
      destruct (scores !! chunk_key h) as [[s h']|]; [apply Hinv|done].
    + left. apply elem_of_app. right. by apply list_elem_of_singleton.
  - rewrite lookup_insert_ne by done. specialize (Hinv key).
    destruct (scores !! key) as [[s h']|].
    + destruct Hinv as (H1 & H2 & [H3|[H3 _]]); [|by apply elem_of_nil in H3].
      split_and!; [done..|]. left. apply elem_of_app. by left.
    + rewrite app_nil_r in *. rewrite map_app, elem_of_app. cbn.
      rewrite list_elem_of_singleton. by intros [?|?].
Qed.

Lemma rrf_inv_fts vs fs scores rank h :
  Forall (λ h, h_distance_kind h = RawCosine) vs → Forall (λ h, h_distance_kind h = Normalised) fs →
  rrf_inv vs fs scores → rrf_inv vs (fs ++ [h]) (rrf_step false scores (rank, h)).
Proof.
  intros Hvs Hfs Hinv key. unfold rrf_step. fold (chunk_key h).
  destruct (decide (key = chunk_key h)) as [->|Hne].
  - rewrite lookup_insert_eq. specialize (Hinv (chunk_key h)).
    destruct (scores !! chunk_key h) as [[s h']|] eqn:E; cbn [default from_option id fst snd].
    + destruct Hinv as (H1 & H2 & H3). destruct H3 as [H3|[H3 H4]].
      * rewrite Forall_forall in Hvs. rewrite (Hvs h' H3).
        split_and!; [done|by apply add_nn, rrf_contribution_nn|by left].
      * rewrite Forall_forall in Hfs. rewrite (Hfs h' H3).
        split_and!; [done|by apply add_nn, rrf_contribution_nn|right]. split; [|done].
        apply elem_of_app. right. by apply list_elem_of_singleton.
    + split; [by destruct (h_distance_kind h)|]. split.
      * apply add_nn; [done|apply rrf_contribution_nn].
      * right. rewrite map_app, elem_of_app in Hinv. split; [|tauto].
        apply elem_of_app. right. apply list_elem_of_singleton. by destruct (h_distance_kind h).
  - rewrite lookup_insert_ne by done. specialize (Hinv key).
    destruct (scores !! key) as [[s h']|].
    + destruct Hinv as (H1 & H2 & H3). split_and!; [done..|].
      destruct H3 as [?|[? ?]]; [by left|right]. split; [|done]. apply elem_of_app. by left.
    + rewrite app_assoc, map_app, elem_of_app. cbn. rewrite list_elem_of_singleton.
      by intros [?|?].
Qed.

Lemma foldl_enum_inv {A S} (step : S → nat * A → S) (I : list A → S → Prop) l s n :
  I [] s → (∀ done st i x, I done st → x ∈ l → I (done ++ [x]) (step st (i, x))) →
  I l (foldl step s (zip (seq n (length l)) l)).
Proof.
  intros H0 Hstep. rewrite <-(app_nil_l l) at 1. revert H0. generalize (@nil A) as pre. revert s n.
  induction l as [|x l IH]; intros s n pre Hpre; cbn [length seq zip zip_with foldl].
  { by rewrite app_nil_r. }
  rewrite (cons_middle x pre l), app_assoc. apply IH.
  - intros. apply Hstep; [done|by right].
  - apply Hstep; [done|by left].
Qed.

Lemma rrf_scores_inv vs fs :
  Forall (λ h, h_distance_kind h = RawCosine) vs → Forall (λ h, h_distance_kind h = Normalised) fs →
  rrf_inv vs fs (rrf_scores vs fs).
Proof.
  intros Hvs Hfs. unfold rrf_scores, enumerate.
  apply (foldl_enum_inv _ (λ done st, Forall (λ h, h_distance_kind h = Normalised) done ∧ rrf_inv vs done st)).
  - split; [constructor|].
    apply (foldl_enum_inv _ (λ done st, rrf_inv done [] st)).
    + intros key. rewrite lookup_empty. apply not_elem_of_nil.
    + intros. by apply rrf_inv_vector.
  - intros done st i x [Hd Hi] Hx. split.
    + apply Forall_app. split; [done|]. rewrite Forall_forall in Hfs. by repeat constructor; apply Hfs.
    + by apply rrf_inv_fts.
Qed.

Definition scored_num (p : f32 * ChunkHit) : Prop := F32.num p.1.

#[export] Instance rrf_chunk_cmp_order : CmpOrder scored_num rrf_chunk_cmp.
Proof.
  unfold rrf_chunk_cmp.
  apply (then_with_order _ (λ a b, then_with _ _)); [apply then_with_order|].
  - apply (flip_order _ (λ a b : f32 * ChunkHit, F32.cmp_or_eq a.1 b.1)).
    apply (on_key_order _ F32.num (λ p : f32 * ChunkHit, p.1)); [apply _|done].
  - apply (on_key_order _ (λ _, True) (λ p : f32 * ChunkHit, h_doc_id p.2)); [apply _|done].
  - apply (on_key_order _ (λ _, True) (λ p : f32 * ChunkHit, h_chunk_index p.2)); [apply _|done].
Qed.

(** Chunk-level fusion of a vector leg (raw distances) and a full-text leg
    (normalised ones) lists every chunk of either leg exactly once; a chunk the
    vector leg found keeps a hit of that leg, hence a real cosine distance;
    and the order does not depend on the hash map. *)
Theorem rrf_merge_spec (H1 H2 : HashIter (string * Z) (f32 * ChunkHit)) vs fs :
  Forall (λ h, h_distance_kind h = RawCosine) vs → Forall (λ h, h_distance_kind h = Normalised) fs →
  let merged := rrf_merge (HM:=H1) vs fs in
  merged = rrf_merge (HM:=H2) vs fs ∧
  (∀ key, key ∈ map chunk_key merged ↔ key ∈ map chunk_key (vs ++ fs)) ∧
  Forall (λ h, h ∈ vs ∨ h ∈ fs ∧ chunk_key h ∉ map chunk_key vs) merged.
Proof.
  intros Hvs Hfs. pose proof (rrf_scores_inv vs fs Hvs Hfs) as Hinv. cbn zeta. unfold rrf_merge.
  assert (∀ s h, (s, h) ∈ into_values (H0:=H1) (rrf_scores vs fs) →
            rrf_scores vs fs !! chunk_key h = Some (s, h) ∧ F32_nn s ∧
            (h ∈ vs ∨ h ∈ fs ∧ chunk_key h ∉ map chunk_key vs)) as Hin.
  { intros s h [key Hk]%into_values_elem. specialize (Hinv key) as Hi. rewrite Hk in Hi.
    destruct Hi as (<- & ? & ?). done. }
  split_and!.
  - f_equal. apply (sort_by_unique _ scored_num).
    + intros [s h] [s' h'] (Hk & _)%Hin (Hk' & _)%Hin Heq.
      assert (chunk_key h = chunk_key h') as E; [|rewrite E in Hk; congruence].
      unfold rrf_chunk_cmp in Heq; cbn [fst snd] in Heq.
      destruct (F32.cmp_or_eq s' s); [|done..]. cbn [then_with] in Heq.
      destruct (String.compare (h_doc_id h) (h_doc_id h')) eqn:E1; [|done..]. cbn [then_with] in Heq.
      apply String.compare_eq_iff in E1. apply Z.compare_eq_iff in Heq. unfold chunk_key. congruence.
    + apply Forall_forall. intros [s h] (_ & Hs & _)%Hin. by apply nn_num.
    + by rewrite (into_values_indep H1 H2).
  - intros key. rewrite list_elem_of_fmap. specialize (Hinv key) as Hi. split.
    + intros (h & -> & ([s h'] & -> & Hp)%list_elem_of_fmap). rewrite sort_by_perm in Hp. cbn.
      destruct (Hin s h' Hp) as (_ & _ & [Hv|[Hf _]]); apply list_elem_of_fmap; exists h';
        (split; [done|]); apply elem_of_app; auto.
    + intros Hkey. destruct (rrf_scores vs fs !! key) as [[s h]|] eqn:E; [|done].
      exists h. destruct Hi as (<- & _). split; [done|].
      apply list_elem_of_fmap. exists (s, h). split; [done|]. rewrite sort_by_perm.
      apply into_values_elem. eauto.
  - apply Forall_forall. intros h ([s h'] & -> & Hp)%list_elem_of_fmap.
    rewrite sort_by_perm in Hp. by destruct (Hin s h' Hp) as (_ & _ & ?).
Qed.

Definition example_fts_hit (id : string) (d : f32) : ChunkHit :=
  mkChunkHit id d Normalised 0 1 0 10 "text" [] [].

Lemma rrf_merge_spec_witness :
  rrf_merge (HM:=map_order) [example_hit "a" F32.one] [example_fts_hit "a" F32.zero; example_fts_hit "b" F32.one]
  = rrf_merge (HM:=rev_order) [example_hit "a" F32.one] [example_fts_hit "a" F32.zero; example_fts_hit "b" F32.one].
Proof. apply (rrf_merge_spec map_order rev_order); by repeat constructor. Defined.

(** ** Degradation *)

Lemma batch_to_vector_hits_raw r b hs :
  batch_to_vector_hits r b = Ok hs → Forall (λ h, h_distance_kind h = RawCosine) hs.
Proof.
  unfold batch_to_vector_hits. destruct (_ && _ && _); [done|].
  destruct (hit_columns b) as [[[[[[ids ci] cc] cts] dtl] cnt]|]; [|by intros [= <-]; constructor].
  intros H%res_map_ok. induction H as [|i h is' hs' Hh _ IH]; constructor; [|done].
  apply result_bind_ok in Hh as (e & _ & Hh). by apply result_bind_ok in Hh as (ce & _ & [= <-]).
Qed.

Lemma vector_hits_raw batches r hs :
  batches_to_vector_hits batches r = Ok hs → Forall (λ h, h_distance_kind h = RawCosine) hs.
Proof.
  unfold batches_to_vector_hits. intros (hss & H & [= <-])%result_bind_ok.
  apply res_map_ok in H. apply Forall_concat.
  induction H as [|b h bs hs' Hb _ IH]; constructor; [by eapply batch_to_vector_hits_raw|done].
Qed.

(** A ranked result without its distance column is an error, never a list
    of hits at distance 0, whatever the other batches hold. *)
Theorem vector_hits_fail_loud batches b :
  b ∈ batches → col_distance b = None → 0 < num_rows b →
  ∃ e, batches_to_vector_hits batches true = Err e.
Proof.
  intros Hb Hd Hn. unfold batches_to_vector_hits.
  destruct (res_map (batch_to_vector_hits true) batches) as [hs|e] eqn:E; [|by exists e].
  exfalso. apply res_map_ok in E. apply list_elem_of_lookup in Hb as [i Hi].
  destruct (Forall2_lookup_l _ _ _ _ _ E Hi) as (h & _ & Hh).
  unfold batch_to_vector_hits in Hh. rewrite Hd in Hh. cbn [is_ok ok_or negb andb] in Hh.
  destruct (Nat.ltb_spec 0 (num_rows b)); [done|lia].
Qed.

Definition example_batch (d : option (list f32)) : RecordBatch :=
  mkRecordBatch 1 (Some ["a"]) (Some [0%Z]) (Some [1%Z]) (Some [0%Z]) (Some [5%Z]) (Some ["text"])
    d None None None.

Lemma vector_hits_fail_loud_witness :
  ∃ e, batches_to_vector_hits [example_batch (Some [F32.zero]); example_batch None] true = Err e.
Proof.
  apply (vector_hits_fail_loud _ (example_batch None)); [right; left|reflexivity|].
  cbn. lia.
Defined.

(** When the searched version predates its full-text index, a hybrid
    search still answers, with exactly the documents of its vector leg. *)
Theorem hybrid_degrades_to_vector {HI : HashIter string ChunkHit} {HF : HashIter string FusedDoc} {Ds}
    (run : Ds → ScanRequest → result ScanFailure (list RecordBatch)) ds q vs msg :
  sq_mode q = Hybrid → fts_index_missing msg = true →
  (∀ text limit f p, run ds (mkScanRequest (FullText text limit) f p) = Err (StreamFailed msg)) →
  vector_search run ds q = Ok vs →
  ∃ hits, io_search_documents (HM:=map_order) run (Ok ds) q = Ok (Some hits) ∧
    (∀ id, id ∈ map sh_id hits ↔ id ∈ map h_doc_id vs) ∧
    Forall (λ s, sh_fts s = None) hits.
Proof.
  intros Hmode Hmiss Hfts Hv. unfold io_search_documents. rewrite Hmode. cbn.
  unfold fts_search. rewrite Hv, Hfts, Hmiss. cbn.
  destruct (rrf_fuse_facts vs [] (sq_snippet q)) as (hits & -> & _ & _ & Hids & Hlegs).
  exists hits. split; [done|]. split.
  - intros id. rewrite Hids. cbn. split; [intros [?|?%elem_of_nil]; done|by left].
  - eapply Forall_impl; [exact Hlegs|]. by intros s (_ & -> & _).
Qed.

Definition example_query : SearchQuery := mkSearchQuery [F32.one] "text" Hybrid 0 5 [] [] false.

Definition example_run (_ : unit) (r : ScanRequest) : result ScanFailure (list RecordBatch) :=
  match sr_kind r with
  | FullText _ _ => Err (StreamFailed "no INVERTED index")
  | _ => Ok [example_batch (Some [F32.zero])]
  end.

Lemma hybrid_degrades_to_vector_witness :
  ∃ hits, io_search_documents (HI:=map_order) (HF:=map_order) (HM:=map_order) example_run (Ok tt) example_query
            = Ok (Some hits) ∧
    (∀ id, id ∈ map sh_id hits ↔ id ∈ ["a"]) ∧ Forall (λ s, sh_fts s = None) hits.
Proof.
  apply (hybrid_degrades_to_vector (HI:=map_order) (HF:=map_order) example_run tt example_query
           [mkChunkHit "a" F32.zero RawCosine 0 1 0 5 "text" [] []] "no INVERTED index");
    [reflexivity|vm_compute; reflexivity|reflexivity|vm_compute; reflexivity].
Defined.
