(* ===== verification/Resolve.v ===== *)
(** * Entity resolution (src/src/resolve/mod.rs)

    The matching core: from the two directional top-[k] neighbour lists to a
    three-way partition into matched pairs, set-only and target-only records.
    The hash maps of the source are [gmap]s visited in an arbitrary order
    ([StrHash]); the order of the three output vectors is that order. *)

From S2P Require Import Prelude F32 RustStr Distance.

Record Neighbour := mkNeighbour { nb_id : string; nb_distance : f32 }.

Inductive MatchStage : Type := Core | SetExtra | TargetExtra.
#[export] Instance MatchStage_eq_dec : EqDecision MatchStage. Proof. solve_decision. Defined.

Record ResolvedMatch := mkResolvedMatch {
  rm_set_id : string;
  rm_target_id : string;
  rm_distance : f32;
  rm_stage : MatchStage;
}.

Record ResolveStats := mkResolveStats {
  st_k : nat;
  st_threshold : f32;
  st_tau_one_to_one : f32;
  st_tau_one_to_many : option f32;
  st_tau_many_to_one : option f32;
  st_edge_count : nat;
  st_core_count : nat;
  st_set_extra_count : nat;
  st_target_extra_count : nat;
  st_matched_count : nat;
  st_set_only_count : nat;
  st_target_only_count : nat;
  st_set_points : nat;
  st_target_points : nat;
  st_elapsed_ms : N;
}.

Record ResolveResult := mkResolveResult {
  rr_matched : list ResolvedMatch;
  rr_set_only : list string;
  rr_target_only : list string;
  rr_stats : ResolveStats;
}.

Record ResolveOptions := mkResolveOptions {
  o_k : nat;
  o_threshold : f32;
  tau_one_to_one : f32;
  tau_one_to_many : option f32;
  tau_many_to_one : option f32;
}.

Record Edge := mkEdge { e_set_id : string; e_target_id : string; e_distance : f32 }.

Record CandidateGraph := mkCandidateGraph {
  edges : gmap string Edge;
  set_top_k : gmap string (gset string);
  target_top_k : gmap string (gset string);
}.

(** ** The algorithm *)

Definition max_tau_step (max : f32) (tau : option f32) : f32 :=
  match tau with Some tau => if F32.gt tau max then tau else max | None => max end.

(** [max_active_tau]. *)
Definition max_active_tau (o : ResolveOptions) : f32 :=
  max_tau_step (max_tau_step (tau_one_to_one o) (tau_one_to_many o)) (tau_many_to_one o).

(** [edge_key]. *)
Definition edge_key (set_id target_id : string) : string := set_id +:+ "::" +:+ target_id.

(** The body of the two edge loops: insert when the key is new, then lower the
    distance of the entry. *)
Definition add_edge (edges : gmap string Edge) (e : Edge) : gmap string Edge :=
  let key := edge_key (e_set_id e) (e_target_id e) in
  let entry := default e (edges !! key) in
  let entry := if F32.lt (e_distance e) (e_distance entry)
               then mkEdge (e_set_id entry) (e_target_id entry) (e_distance e) else entry in
  <[key := entry]> edges.

(** The edges one direction offers, in the order of the loops; [mk] puts the
    two ids of an entry in place. *)
Definition direction_edges (mk : string → Neighbour → Edge) (k : nat) (graph_tau : f32)
    (entries : list (string * list Neighbour)) : list Edge :=
  concat (map (λ p, map (mk p.1) (filter (λ n, F32.gt (nb_distance n) graph_tau = false) (take k p.2)))
            entries).

Definition set_edge (set_id : string) (n : Neighbour) : Edge := mkEdge set_id (nb_id n) (nb_distance n).
Definition target_edge (target_id : string) (n : Neighbour) : Edge := mkEdge (nb_id n) target_id (nb_distance n).

(** The members of each record's top [k]. *)
Definition members (k : nat) (m : gmap string (list Neighbour)) : gmap string (gset string) :=
  (λ ns, list_to_set (map nb_id (take k ns))) <$> m.

Section resolve.
Context `{HO : StrHash}.

(** [build_candidate_graph]. *)
Definition build_candidate_graph (set_to_target target_to_set : gmap string (list Neighbour))
    (k : nat) (graph_tau : f32) : CandidateGraph :=
  let edges := foldl add_edge ∅ (direction_edges set_edge k graph_tau (hash_iter set_to_target)) in
  let edges := foldl add_edge edges (direction_edges target_edge k graph_tau (hash_iter target_to_set)) in
  mkCandidateGraph edges (members k set_to_target) (members k target_to_set).

Definition top_k_contains (m : gmap string (gset string)) (a b : string) : bool :=
  match m !! a with Some s => bool_decide (b ∈ s) | None => false end.

Definition in_set_top_k (g : CandidateGraph) (e : Edge) : bool :=
  top_k_contains (set_top_k g) (e_set_id e) (e_target_id e).
Definition in_target_top_k (g : CandidateGraph) (e : Edge) : bool :=
  top_k_contains (target_top_k g) (e_target_id e) (e_set_id e).

(** The replacement test of [ground_core]: nearer, or as near with a smaller
    target id. *)
Definition core_better (edge existing : Edge) : bool :=
  F32.lt (e_distance edge) (e_distance existing)
  || (F32.eqb (e_distance edge) (e_distance existing)
      && String.ltb (e_target_id edge) (e_target_id existing)).

Definition core_step (g : CandidateGraph) (tau : f32) (best_by_set : gmap string Edge) (edge : Edge)
    : gmap string Edge :=
  if F32.gt (e_distance edge) tau then best_by_set
  else if in_set_top_k g edge && in_target_top_k g edge then
    let replace := match best_by_set !! e_set_id edge with
                   | None => true
                   | Some existing => core_better edge existing
                   end in
    if replace then <[e_set_id edge := edge]> best_by_set else best_by_set
  else best_by_set.

Definition as_match (stage : MatchStage) (e : Edge) : ResolvedMatch :=
  mkResolvedMatch (e_set_id e) (e_target_id e) (e_distance e) stage.

(** [ground_core]. *)
Definition ground_core (g : CandidateGraph) (tau : f32) : list ResolvedMatch :=
  map (as_match Core) (into_values (foldl (core_step g tau) ∅ (into_values (edges g)))).

Definition core_keys (core_pairs : list ResolvedMatch) : gset string :=
  list_to_set (map (λ p, edge_key (rm_set_id p) (rm_target_id p)) core_pairs).

(** The common shape of the two extras: edges within [tau], not in the core,
    with the directional constraint [dir]. *)
Definition extras (dir : CandidateGraph → Edge → bool) (stage : MatchStage) (g : CandidateGraph)
    (core_pairs : list ResolvedMatch) (tau : f32) : list ResolvedMatch :=
  map (as_match stage)
    (filter (λ e, F32.gt (e_distance e) tau = false ∧
                  (edge_key (e_set_id e) (e_target_id e) ∉ core_keys core_pairs) ∧
                  dir g e = true)
       (into_values (edges g))).

(** [set_extras]. *)
Definition set_extras (g : CandidateGraph) (core_pairs : list ResolvedMatch) (tau : option f32)
    : list ResolvedMatch :=
  match tau with None => [] | Some tau => extras in_set_top_k SetExtra g core_pairs tau end.

(** [target_extras]. *)
Definition target_extras (g : CandidateGraph) (core_pairs : list ResolvedMatch) (tau : option f32)
    : list ResolvedMatch :=
  match tau with None => [] | Some tau => extras in_target_top_k TargetExtra g core_pairs tau end.

Definition stage_rank (s : MatchStage) : nat :=
  match s with Core => 0 | SetExtra => 1 | TargetExtra => 2 end.

(** The replacement test of [dedup_matches]. *)
Definition match_better (pair existing : ResolvedMatch) : bool :=
  (stage_rank (rm_stage pair) <? stage_rank (rm_stage existing))%nat
  || ((stage_rank (rm_stage pair) =? stage_rank (rm_stage existing))%nat
      && F32.lt (rm_distance pair) (rm_distance existing)).

Definition match_key (p : ResolvedMatch) : string := edge_key (rm_set_id p) (rm_target_id p).

(** [dedup_matches]: the three loops run over one map. *)
Definition dedup_matches (core set_extra target_extra : list ResolvedMatch) : list ResolvedMatch :=
  into_values (foldl (keep_best_step match_key match_better) ∅ (core ++ set_extra ++ target_extra)).

Definition count_stage (s : MatchStage) (l : list ResolvedMatch) : nat :=
  length (filter (λ m, rm_stage m = s) l).

Definition unmatched {V} (m : gmap string V) (ids : gset string) : list string :=
  filter (λ id, id ∉ ids) (hash_iter m).*1.

(** [resolve]. *)
Definition resolve (set_to_target target_to_set : gmap string (list Neighbour))
    (o : ResolveOptions) (elapsed_ms : N) : ResolveResult :=
  let graph_tau := max_active_tau o in
  let graph := build_candidate_graph set_to_target target_to_set (o_k o) graph_tau in
  let core_pairs := ground_core graph (tau_one_to_one o) in
  let set_extra_pairs := set_extras graph core_pairs (tau_one_to_many o) in
  let target_extra_pairs := target_extras graph core_pairs (tau_many_to_one o) in
  let matched := dedup_matches core_pairs set_extra_pairs target_extra_pairs in
  let set_only := unmatched set_to_target (list_to_set (map rm_set_id matched)) in
  let target_only := unmatched target_to_set (list_to_set (map rm_target_id matched)) in
  mkResolveResult matched set_only target_only
    (mkResolveStats (o_k o) (o_threshold o) (tau_one_to_one o) (tau_one_to_many o) (tau_many_to_one o)
       (size (edges graph)) (count_stage Core matched) (count_stage SetExtra matched)
       (count_stage TargetExtra matched) (length matched) (length set_only) (length target_only)
       (size set_to_target) (size target_to_set) elapsed_ms).
End resolve.

(** ** The folds as selections *)

Definition e_key (e : Edge) : string := edge_key (e_set_id e) (e_target_id e).
Definition edge_closer (a b : Edge) : bool := F32.lt (e_distance a) (e_distance b).

#[export] Instance edge_closer_better : Better edge_closer.
Proof. apply (lt_better _). Qed.

Lemma lt_eqb_trans x y z : F32.lt x y = true → F32.eqb y z = true → F32.lt x z = true.
Proof.
  intros H1 H2. destruct (lt_num _ _ H1) as [Hx Hy].
  assert (F32.num z) as Hz by (by destruct y, z).
  rewrite lt_cmp_iff in * by done. unfold F32.eqb, SFeqb in H2.
  change (SFcompare y z) with (F32.partial_cmp y z) in H2. rewrite partial_cmp_cmp in H2 by done.
  apply (cmp_lt_le_trans F32.num F32.cmp_or_eq x y z); [done..|]. by destruct (F32.cmp_or_eq y z).
Qed.

Lemma eqb_lt_trans x y z : F32.eqb x y = true → F32.lt y z = true → F32.lt x z = true.
Proof.
  intros H1 H2. destruct (lt_num _ _ H2) as [Hy Hz].
  assert (F32.num x) as Hx by (by destruct x, y).
  rewrite lt_cmp_iff in * by done. unfold F32.eqb, SFeqb in H1.
  change (SFcompare x y) with (F32.partial_cmp x y) in H1. rewrite partial_cmp_cmp in H1 by done.
  apply (cmp_le_lt_trans F32.num F32.cmp_or_eq x y z); [done..| |done]. by destruct (F32.cmp_or_eq x y).
Qed.

Lemma string_ltb_trans s t u : String.ltb s t = true → String.ltb t u = true → String.ltb s u = true.
Proof.
  unfold String.ltb. intros H1 H2. destruct (String.compare s t) eqn:E1; try done.
  destruct (String.compare t u) eqn:E2; try done. by rewrite (string_compare_lt_trans s t u).
Qed.

#[export] Instance core_better_better : Better core_better.
Proof.
  unfold core_better. split.
  - intros x. rewrite lt_irrefl_f32. unfold String.ltb. by rewrite string_compare_refl, andb_false_r.
  - intros x y z. rewrite !orb_true_iff, !andb_true_iff.
    intros [H1|[H1 H1']] [H2|[H2 H2']].
    + left. by eapply lt_trans_f32.
    + left. by eapply lt_eqb_trans.
    + left. by eapply eqb_lt_trans.
    + right. split; [by eapply f32_eqb_trans|by eapply string_ltb_trans].
Qed.

#[export] Instance match_better_better : Better match_better.
Proof.
  unfold match_better. split.
  - intros x. by rewrite Nat.ltb_irrefl, lt_irrefl_f32, andb_false_r.
  - intros x y z. rewrite !orb_true_iff, !andb_true_iff, !Nat.ltb_lt, !Nat.eqb_eq.
    intros [H1|[H1 H1']] [H2|[H2 H2']]; try (left; lia).
    right. split; [lia|by eapply lt_trans_f32].
Qed.

(** Edges of which no two different pairs share a key. *)
Definition keys_distinct (l : list Edge) : Prop :=
  ∀ e e', e ∈ l → e' ∈ l → e_key e = e_key e' →
    e_set_id e = e_set_id e' ∧ e_target_id e = e_target_id e'.

Lemma add_edges_keep_best l :
  keys_distinct l → foldl add_edge ∅ l = keep_best e_key edge_closer l.
Proof.
  induction l as [|x l IH] using rev_ind; intros Hk; [done|].
  unfold keep_best. rewrite !foldl_app. cbn [foldl]. fold (keep_best e_key edge_closer l).
  rewrite IH.
  2: { intros e e' He He'. apply Hk; apply elem_of_app; by left. }
  unfold add_edge, keep_best_step. fold (e_key x).
  destruct (keep_best e_key edge_closer l !! e_key x) as [b|] eqn:Hb; cbn [default from_option id].
  - apply (keep_best_lookup e_key edge_closer) in Hb as Hbest. destruct Hbest as (Hin & Hkey & _).
    destruct (Hk b x) as [H1 H2]; [apply elem_of_app; by left| |done|].
    { apply elem_of_app. right. by apply list_elem_of_singleton. }
    unfold edge_closer. destruct (F32.lt _ _).
    + f_equal. rewrite H1, H2. by destruct x.
    + by apply insert_id.
  - by rewrite lt_irrefl_f32.
Qed.

Lemma foldl_filter {A B} (P : A → Prop) `{∀ x, Decision (P x)} (f : B → A → B) b l :
  foldl (λ b x, if decide (P x) then f b x else b) b l = foldl f b (filter P l).
Proof.
  revert b; induction l as [|x l IH]; intros b; [done|]. cbn [foldl]. rewrite filter_cons.
  destruct (decide (P x)); [cbn [foldl]|]; apply IH.
Qed.

Section spec.
Context `{HO : StrHash}.
Context (set_to_target target_to_set : gmap string (list Neighbour)) (o : ResolveOptions).

Local Abbreviation tau := (max_active_tau o).
Local Abbreviation k := (o_k o).

(** The candidate edges: one per entry of a top-[k] list that is not farther
    than the loosest threshold. *)
Definition candidate (e : Edge) : Prop :=
  F32.gt (e_distance e) tau = false ∧
  ((∃ ns, set_to_target !! e_set_id e = Some ns ∧
      mkNeighbour (e_target_id e) (e_distance e) ∈ take k ns) ∨
   (∃ ns, target_to_set !! e_target_id e = Some ns ∧
      mkNeighbour (e_set_id e) (e_distance e) ∈ take k ns)).

Definition candidates : list Edge :=
  direction_edges set_edge k tau (hash_iter set_to_target) ++
  direction_edges target_edge k tau (hash_iter target_to_set).

Lemma direction_edges_elem mk (m : gmap string (list Neighbour)) e :
  e ∈ direction_edges mk k tau (hash_iter m) ↔
  ∃ a ns n, m !! a = Some ns ∧ n ∈ take k ns ∧ F32.gt (nb_distance n) tau = false ∧ e = mk a n.
Proof.
  unfold direction_edges. rewrite list_elem_of_In, in_concat. setoid_rewrite <-list_elem_of_In. split.
  - intros (l & Hl & He). apply list_elem_of_fmap in Hl as ([a ns] & -> & Ha).
    apply list_elem_of_fmap in He as (n & -> & Hn). apply list_elem_of_filter in Hn as [? ?].
    exists a, ns, n. split_and!; [by apply hash_iter_elem|done..].
  - intros (a & ns & n & Ha & Hn & Ht & ->). eexists. split.
    + apply list_elem_of_fmap. exists (a, ns). split; [done|]. by apply hash_iter_elem.
    + apply list_elem_of_fmap. exists n. split; [done|]. by apply list_elem_of_filter.
Qed.

Lemma candidates_elem e : e ∈ candidates ↔ candidate e.
Proof.
  unfold candidates, candidate. rewrite elem_of_app, !direction_edges_elem. split.
  - intros [(a & ns & [i d] & Ha & Hn & Ht & ->)|(a & ns & [i d] & Ha & Hn & Ht & ->)]; cbn in *; eauto 6.
  - destruct e as [a b d]; cbn. intros [Ht [(ns & Hns & Hn)|(ns & Hns & Hn)]]; [left|right].
    + by exists a, ns, (mkNeighbour b d).
    + by exists b, ns, (mkNeighbour a d).
Qed.

Local Abbreviation graph := (build_candidate_graph set_to_target target_to_set k tau).

Lemma graph_edges : edges graph = foldl add_edge ∅ candidates.
Proof. cbn. unfold candidates. by rewrite foldl_app. Qed.

(** The edge kept for a pair: a nearest candidate of the pair. *)
Definition graph_edge (e : Edge) : Prop :=
  candidate e ∧
  ∀ e', candidate e' → e_set_id e' = e_set_id e → e_target_id e' = e_target_id e →
    F32.lt (e_distance e') (e_distance e) = false.

Definition listed (m : gmap string (list Neighbour)) (a b : string) : Prop :=
  ∃ ns, m !! a = Some ns ∧ b ∈ map nb_id (take k ns).

Lemma members_spec m a b : top_k_contains (members k m) a b = true ↔ listed m a b.
Proof.
  unfold top_k_contains, members, listed. rewrite lookup_fmap.
  destruct (m !! a) as [ns|]; cbn.
  - rewrite bool_decide_eq_true, elem_of_list_to_set. split; [by exists ns|].
    by intros (ns' & [= <-] & ?).
  - split; [done|]. by intros (ns' & ? & ?).
Qed.

Context (Hkeys : keys_distinct candidates).
Context (Hnum : ∀ e, candidate e → F32.num (e_distance e)).

Lemma edges_keep_best : edges graph = keep_best e_key edge_closer candidates.
Proof using Hkeys. rewrite graph_edges. by apply add_edges_keep_best. Qed.

Lemma edges_values e : e ∈ into_values (edges graph) → graph_edge e.
Proof using Hkeys.
  rewrite edges_keep_best. intros [key He]%into_values_elem.
  apply (keep_best_lookup e_key edge_closer) in He as (Hin & Hkey & Hmin).
  split; [by apply candidates_elem|]. intros e' He' H1 H2. apply Hmin.
  - by apply candidates_elem.
  - rewrite <-Hkey. unfold e_key. by rewrite H1, H2.
Qed.

Lemma edges_complete e :
  candidate e →
  ∃ e0, e0 ∈ into_values (edges graph) ∧ e_set_id e0 = e_set_id e ∧ e_target_id e0 = e_target_id e ∧
        F32.le (e_distance e0) (e_distance e) = true.
Proof using Hkeys Hnum.
  intros He. apply candidates_elem in He as Hin.
  destruct (keep_best_complete e_key edge_closer _ _ Hin) as [e0 He0].
  apply (keep_best_lookup e_key edge_closer) in He0 as Hb. destruct Hb as (Hin0 & Hkey & Hmin).
  destruct (Hkeys e0 e Hin0 Hin Hkey) as [H1 H2].
  exists e0. split_and!; [|done..|].
  - rewrite edges_keep_best. apply into_values_elem. eauto.
  - apply gt_false_le; [by apply Hnum, candidates_elem|by apply Hnum|]. by apply Hmin.
Qed.

Lemma edges_unique e e' :
  e ∈ into_values (edges graph) → e' ∈ into_values (edges graph) →
  e_set_id e = e_set_id e' → e_target_id e = e_target_id e' → e = e'.
Proof using Hkeys.
  rewrite edges_keep_best. intros [x Hx]%into_values_elem [y Hy]%into_values_elem H1 H2.
  apply (keep_best_lookup e_key edge_closer) in Hx as Hbx.
  apply (keep_best_lookup e_key edge_closer) in Hy as Hby.
  destruct Hbx as (_ & <- & _), Hby as (_ & <- & _).
  assert (e_key e = e_key e') as Heq by (unfold e_key; by rewrite H1, H2).
  rewrite Heq in Hx. by simplify_eq.
Qed.

Definition mutual (e : Edge) : Prop :=
  listed set_to_target (e_set_id e) (e_target_id e) ∧ listed target_to_set (e_target_id e) (e_set_id e).

Lemma in_set_spec e : in_set_top_k graph e = true ↔ listed set_to_target (e_set_id e) (e_target_id e).
Proof using Type. apply members_spec. Qed.
Lemma in_target_spec e : in_target_top_k graph e = true ↔ listed target_to_set (e_target_id e) (e_set_id e).
Proof using Type. apply members_spec. Qed.

Definition core_ok (e : Edge) : Prop :=
  F32.gt (e_distance e) (tau_one_to_one o) = false ∧
  in_set_top_k graph e && in_target_top_k graph e = true.

Local Abbreviation core_edges :=
  (keep_best e_set_id core_better (filter core_ok (into_values (edges graph)))).

Lemma ground_core_keep_best :
  ground_core graph (tau_one_to_one o) = map (as_match Core) (into_values core_edges).
Proof using Type.
  unfold ground_core, keep_best. do 2 f_equal. rewrite <-foldl_filter.
  generalize (∅ : gmap string Edge) as m. induction (into_values (edges graph)) as [|e l IH]; intros m; [done|].
  cbn [foldl]. rewrite <-IH. f_equal. unfold core_step, keep_best_step.
  destruct (decide (core_ok e)) as [[-> ->]|Hno].
  - by destruct (m !! e_set_id e).
  - destruct (F32.gt _ _) eqn:E1; [done|]. destruct (_ && _) eqn:E2; [|done]. by destruct Hno.
Qed.

(** A core match of the graph: within the 1:1 threshold, mutual, and beaten
    by no other mutual candidate of its set record. *)
Definition is_core (e : Edge) : Prop :=
  graph_edge e ∧ F32.gt (e_distance e) (tau_one_to_one o) = false ∧ mutual e ∧
  ∀ e', candidate e' → e_set_id e' = e_set_id e → mutual e' → core_better e' e = false.

Lemma le_lt_or_eqb x y : F32.le x y = true → F32.lt x y = true ∨ F32.eqb x y = true.
Proof using Type.
  intros H. destruct (le_num _ _ H). destruct (F32.lt x y) eqn:E; [auto|right]. by apply le_eqb_f32.
Qed.

Lemma core_better_le e0 e' e :
  F32.le (e_distance e0) (e_distance e') = true → e_target_id e0 = e_target_id e' →
  core_better e' e = true → core_better e0 e = true.
Proof using Type.
  unfold core_better. rewrite !orb_true_iff, !andb_true_iff. intros Hle -> [Hlt|[Heq Ht]].
  - left. apply le_lt_or_eqb in Hle as [H|H]; [by eapply lt_trans_f32|by eapply eqb_lt_trans].
  - apply le_lt_or_eqb in Hle as [H|H]; [left; by eapply lt_eqb_trans|].
    right. split; [by eapply f32_eqb_trans|done].
Qed.

Lemma core_better_within e' e t :
  core_better e' e = true → F32.gt (e_distance e) t = false → F32.gt (e_distance e') t = false.
Proof using Type.
  unfold core_better, F32.gt. fold (F32.lt t (e_distance e)). fold (F32.lt t (e_distance e')).
  rewrite !orb_true_iff, !andb_true_iff. intros Hb Ht.
  destruct (F32.lt t (e_distance e')) eqn:E; [|done].
  assert (F32.lt t (e_distance e) = true); [|congruence].
  destruct Hb as [H|[H _]]; [by eapply lt_trans_f32|by eapply lt_eqb_trans].
Qed.

Lemma core_edges_spec e : e ∈ into_values core_edges → is_core e ∧ e ∈ into_values (edges graph).
Proof using Hkeys Hnum.
  intros [key He]%into_values_elem.
  apply (keep_best_lookup e_set_id core_better) in He as (Hin & <- & Hmin).
  apply list_elem_of_filter in Hin as [[Ht Hm] Hin]. split; [|done].
  apply andb_true_iff in Hm as [Hs Ht']. apply in_set_spec in Hs. apply in_target_spec in Ht'.
  split; [by apply edges_values|]. split; [done|]. split; [done|].
  intros e' He' Hid [Hms Hmt]. destruct (edges_complete e' He') as (e0 & Hin0 & Hs0 & Ht0 & Hle).
  destruct (core_better e' e) eqn:Hb; [|done].
  pose proof (core_better_le e0 e' e Hle Ht0 Hb) as Hb0.
  rewrite <-(Hmin e0); [by rewrite Hb0| |congruence].
  apply list_elem_of_filter. split; [|done]. split.
  - by eapply core_better_within.
  - apply andb_true_iff. rewrite in_set_spec, in_target_spec. by rewrite Hs0, Ht0.
Qed.

Lemma core_edges_complete e :
  e ∈ into_values (edges graph) → core_ok e → ∃ e', e' ∈ into_values core_edges ∧ e_set_id e' = e_set_id e.
Proof using Type.
  intros He Hok.
  assert (e ∈ filter core_ok (into_values (edges graph))) as Hin by by apply list_elem_of_filter.
  destruct (keep_best_complete e_set_id core_better _ _ Hin) as [e' He'].
  exists e'. split; [apply into_values_elem; eauto|].
  by apply (keep_best_lookup e_set_id core_better) in He' as (_ & ? & _).
Qed.

(** *** The three lists together *)

Local Abbreviation core := (ground_core graph (tau_one_to_one o)).
Local Abbreviation set_extra := (set_extras graph core (tau_one_to_many o)).
Local Abbreviation target_extra := (target_extras graph core (tau_many_to_one o)).

Lemma core_elem m : m ∈ core ↔ ∃ e, e ∈ into_values core_edges ∧ m = as_match Core e.
Proof using Type. rewrite ground_core_keep_best, list_elem_of_fmap. split; intros (e & ? & ?); by exists e. Qed.

Lemma core_keys_elem key : key ∈ core_keys core ↔ ∃ m, m ∈ core ∧ match_key m = key.
Proof using Type.
  unfold core_keys. rewrite elem_of_list_to_set, list_elem_of_fmap. split; intros (m & ? & ?); by exists m.
Qed.

Lemma extras_elem dir stage t m :
  m ∈ extras dir stage graph core t ↔
  ∃ e, e ∈ into_values (edges graph) ∧ m = as_match stage e ∧ F32.gt (e_distance e) t = false ∧
       (e_key e ∉ core_keys core) ∧ dir graph e = true.
Proof using Type.
  unfold extras. rewrite list_elem_of_fmap. setoid_rewrite list_elem_of_filter. split.
  - intros (e & -> & (? & ? & ?) & ?). by exists e.
  - intros (e & ? & -> & ? & ? & ?). by exists e.
Qed.

(** The condition a stage puts on an edge. *)
Definition stage_condition (s : MatchStage) (e : Edge) : Prop :=
  match s with
  | Core => is_core e
  | SetExtra => ∃ t, tau_one_to_many o = Some t ∧ F32.gt (e_distance e) t = false ∧
                     listed set_to_target (e_set_id e) (e_target_id e)
  | TargetExtra => ∃ t, tau_many_to_one o = Some t ∧ F32.gt (e_distance e) t = false ∧
                        listed target_to_set (e_target_id e) (e_set_id e)
  end.

Lemma all_matches_elem m :
  m ∈ core ++ set_extra ++ target_extra →
  ∃ e, e ∈ into_values (edges graph) ∧ m = as_match (rm_stage m) e ∧ stage_condition (rm_stage m) e.
Proof using Hkeys Hnum.
  rewrite !elem_of_app. intros [Hm|[Hm|Hm]].
  - apply core_elem in Hm as (e & He & ->). apply core_edges_spec in He as [He Hin]. eauto.
  - unfold set_extras in Hm. destruct (tau_one_to_many o) as [t|] eqn:Ht; [|by apply elem_of_nil in Hm].
    apply extras_elem in Hm as (e & He & -> & Hd & _ & Hdir). apply in_set_spec in Hdir.
    exists e. cbn. eauto 6.
  - unfold target_extras in Hm. destruct (tau_many_to_one o) as [t|] eqn:Ht; [|by apply elem_of_nil in Hm].
    apply extras_elem in Hm as (e & He & -> & Hd & _ & Hdir). apply in_target_spec in Hdir.
    exists e. cbn. eauto 6.
Qed.

Local Abbreviation matched := (dedup_matches core set_extra target_extra).

Lemma matched_best m :
  m ∈ matched → best_of match_key match_better (core ++ set_extra ++ target_extra) (match_key m) m.
Proof using Type.
  unfold dedup_matches. intros [key Hm]%into_values_elem.
  apply (keep_best_lookup match_key match_better) in Hm as (H1 & <- & H2). done.
Qed.

Lemma matched_complete m :
  m ∈ core ++ set_extra ++ target_extra →
  ∃ m', m' ∈ matched ∧ match_key m' = match_key m ∧ match_better m m' = false.
Proof using Type.
  intros Hm. destruct (keep_best_complete match_key match_better _ _ Hm) as [m' Hm'].
  exists m'. split; [apply into_values_elem; eauto|].
  apply (keep_best_lookup match_key match_better) in Hm' as (_ & Hk & Hmin).
  split; [done|]. by apply Hmin.
Qed.

Lemma matched_unique m m' : m ∈ matched → m' ∈ matched → match_key m = match_key m' → m = m'.
Proof using Type.
  unfold dedup_matches. intros [x Hx]%into_values_elem [y Hy]%into_values_elem Heq.
  apply (keep_best_lookup match_key match_better) in Hx as Hbx.
  apply (keep_best_lookup match_key match_better) in Hy as Hby.
  destruct Hbx as (_ & <- & _), Hby as (_ & <- & _). rewrite Heq in Hx. 
  unfold keep_best in *. by simplify_eq.
Qed.

Lemma core_unique m m' : m ∈ core → m' ∈ core → rm_set_id m = rm_set_id m' → m = m'.
Proof using Type.
  intros (e & [x Hx]%into_values_elem & ->)%core_elem (e' & [y Hy]%into_values_elem & ->)%core_elem Heq.
  apply (keep_best_lookup e_set_id core_better) in Hx as Hbx.
  apply (keep_best_lookup e_set_id core_better) in Hy as Hby. cbn in Heq.
  destruct Hbx as (_ & <- & _), Hby as (_ & <- & _). rewrite Heq in Hx. by simplify_eq.
Qed.

Lemma stage_core m : m ∈ core ++ set_extra ++ target_extra → rm_stage m = Core → m ∈ core.
Proof using Type.
  rewrite !elem_of_app. intros [Hm|[Hm|Hm]] Hs; [done| |].
  - unfold set_extras in Hm. destruct (tau_one_to_many o); [|by apply elem_of_nil in Hm].
    by apply extras_elem in Hm as (e & _ & -> & _).
  - unfold target_extras in Hm. destruct (tau_many_to_one o); [|by apply elem_of_nil in Hm].
    by apply extras_elem in Hm as (e & _ & -> & _).
Qed.

Lemma match_key_edge m e : m = as_match (rm_stage m) e → match_key m = e_key e.
Proof using Type. by intros ->. Qed.

Lemma same_key_ids e e' :
  e ∈ into_values (edges graph) → e' ∈ into_values (edges graph) → e_key e = e_key e' → e = e'.
Proof using Hkeys.
  intros He He' Heq. destruct (Hkeys e e') as [H1 H2]; [| |done|by apply edges_unique];
    apply candidates_elem; by apply edges_values.
Qed.

Lemma matched_core m : m ∈ core → m ∈ matched.
Proof using Hkeys Hnum.
  intros Hm. assert (m ∈ core ++ set_extra ++ target_extra) as Hall by (apply elem_of_app; by left).
  destruct (matched_complete m Hall) as (m' & Hm' & Hk & Hb).
  destruct (matched_best m' Hm') as (Hin' & _ & _).
  destruct (all_matches_elem m Hall) as (e & He & Hme & _).
  destruct (all_matches_elem m' Hin') as (e' & He' & Hme' & _).
  assert (e' = e) as ->.
  { apply same_key_ids; [done..|]. by rewrite <-(match_key_edge m e), <-(match_key_edge m' e'). }
  assert (rm_stage m = Core) as Hc by (by apply core_elem in Hm as (e1 & _ & ->)).
  assert (rm_stage m' = Core) as Hc'.
  { unfold match_better in Hb. rewrite Hc in Hb. by destruct (rm_stage m'). }
  rewrite Hc in Hme. rewrite Hc' in Hme'. by rewrite Hme, <-Hme'.
Qed.

(** A pair that a stage's condition admits is matched, at that stage or a
    better one. *)
Lemma extra_matched dir stage t (e : Edge) :
  (∀ m, m ∈ extras dir stage graph core t → m ∈ core ++ set_extra ++ target_extra) →
  e ∈ into_values (edges graph) → F32.gt (e_distance e) t = false → dir graph e = true →
  ∃ m, m ∈ matched ∧ match_key m = e_key e.
Proof using Type.
  intros Hsub He Ht Hdir. destruct (decide (e_key e ∈ core_keys core)) as [Hin|Hno].
  - apply core_keys_elem in Hin as (m & Hm & Hk).
    destruct (matched_complete m) as (m' & ? & Hk' & _); [apply elem_of_app; by left|].
    exists m'. split; [done|congruence].
  - destruct (matched_complete (as_match stage e)) as (m' & ? & Hk' & _).
    { apply Hsub, extras_elem. eauto 6. }
    by exists m'.
Qed.
End spec.

(** The hypotheses under which the results are stated: no two candidate pairs
    collide on the textual key, and no candidate distance is a [NaN]. *)
Definition resolvable `{HO : StrHash} (s2t t2s : gmap string (list Neighbour)) (o : ResolveOptions) : Prop :=
  keys_distinct (candidates s2t t2s o) ∧ ∀ e, candidate s2t t2s o e → F32.num (e_distance e).

(** C36: soundness of entity resolution.  Every match is an edge that one of
    the two top-[k] lists offers, carries the smallest distance offered for its
    pair, and satisfies the condition of the stage it reports: a core match is
    mutual, within the 1:1 threshold, and no other mutual candidate of its set
    record is better; an extra is within its own threshold and listed by its
    own side.  No pair is reported twice, and no set record has two core
    matches. *)
Theorem resolve_sound `{HO : StrHash} s2t t2s o ms :
  resolvable s2t t2s o →
  let matched := rr_matched (resolve s2t t2s o ms) in
  (∀ m, m ∈ matched → ∃ e, m = as_match (rm_stage m) e ∧ graph_edge s2t t2s o e ∧
     stage_condition s2t t2s o (rm_stage m) e) ∧
  (∀ m m', m ∈ matched → m' ∈ matched → rm_set_id m = rm_set_id m' →
     rm_target_id m = rm_target_id m' ∨ rm_stage m = Core ∧ rm_stage m' = Core → m = m').
Proof.
  intros [Hkeys Hnum] matched. split.
  - intros m Hm. destruct (matched_best _ _ _ m Hm) as (Hin & _ & _).
    destruct (all_matches_elem _ _ _ Hkeys Hnum m Hin) as (e & He & Hme & Hc).
    exists e. split_and!; [done|by apply edges_values|done].
  - intros m m' Hm Hm' Hs [Ht|[Hc Hc']].
    + eapply matched_unique; [exact Hm|exact Hm'|]. unfold match_key. by rewrite Hs, Ht.
    + destruct (matched_best _ _ _ m Hm) as (Hin & _ & _), (matched_best _ _ _ m' Hm') as (Hin' & _ & _).
      eapply core_unique; [by eapply stage_core|by eapply stage_core|done].
Qed.

(** C37: completeness of entity resolution, on an input that is [resolvable]: no
    two candidate pairs share an edge key (ids with colons can make them, and
    [edge_key_collision] shows what is lost then), and no candidate distance is
    a NaN.  There, a set record with a mutual
    candidate within the 1:1 threshold gets a core match; a pair listed by the
    set side within the 1:n threshold, or by the target side within the n:1
    threshold, is reported. *)
Theorem resolve_complete `{HO : StrHash} s2t t2s o ms e :
  resolvable s2t t2s o → candidate s2t t2s o e →
  let matched := rr_matched (resolve s2t t2s o ms) in
  (F32.le (e_distance e) (tau_one_to_one o) = true → mutual s2t t2s o e →
     ∃ m, m ∈ matched ∧ rm_set_id m = e_set_id e ∧ rm_stage m = Core) ∧
  (∀ t, tau_one_to_many o = Some t → F32.le (e_distance e) t = true →
     listed o s2t (e_set_id e) (e_target_id e) →
     ∃ m, m ∈ matched ∧ rm_set_id m = e_set_id e ∧ rm_target_id m = e_target_id e) ∧
  (∀ t, tau_many_to_one o = Some t → F32.le (e_distance e) t = true →
     listed o t2s (e_target_id e) (e_set_id e) →
     ∃ m, m ∈ matched ∧ rm_set_id m = e_set_id e ∧ rm_target_id m = e_target_id e).
Proof.
  intros [Hkeys Hnum] He matched.
  destruct (edges_complete _ _ _ Hkeys Hnum e He) as (e0 & Hin & Hs & Ht & Hle).
  assert (∀ t, F32.le (e_distance e) t = true → F32.gt (e_distance e0) t = false) as Hgt.
  { intros t H. pose proof (le_trans_f32 _ _ _ Hle H) as Hl. destruct (le_num _ _ Hl).
    rewrite le_not_lt in Hl by done. apply negb_true_iff in Hl. exact Hl. }
  assert (∀ m, m ∈ matched → match_key m = e_key e0 →
            rm_set_id m = e_set_id e ∧ rm_target_id m = e_target_id e) as Hids.
  { intros m Hm Hk. destruct (matched_best _ _ _ m Hm) as (Hin' & _ & _).
    destruct (all_matches_elem _ _ _ Hkeys Hnum m Hin') as (e1 & He1 & Hme & _).
    rewrite (match_key_edge m e1 Hme) in Hk.
    rewrite (same_key_ids _ _ _ Hkeys e1 e0 He1 Hin Hk) in Hme.
    rewrite Hme. by rewrite <-Hs, <-Ht. }
  split_and!.
  - intros Htau [Hm1 Hm2].
    destruct (core_edges_complete s2t t2s o e0 Hin) as (e1 & He1 & Hs1).
    { split; [by apply Hgt|]. apply andb_true_iff. rewrite in_set_spec, in_target_spec. by rewrite Hs, Ht. }
    exists (as_match Core e1). split; [|split; [cbn; congruence|done]].
    apply (matched_core _ _ _ Hkeys Hnum). apply core_elem. eauto.
  - intros t Htau Hd Hl.
    destruct (extra_matched s2t t2s o in_set_top_k SetExtra t e0) as (m & Hm & Hk).
    + intros m Hm. rewrite !elem_of_app. right; left. unfold set_extras. by rewrite Htau.
    + done.
    + by apply Hgt.
    + apply in_set_spec. by rewrite Hs, Ht.
    + exists m. destruct (Hids m Hm Hk). done.
  - intros t Htau Hd Hl.
    destruct (extra_matched s2t t2s o in_target_top_k TargetExtra t e0) as (m & Hm & Hk).
    + intros m Hm. rewrite !elem_of_app. right; right. unfold target_extras. by rewrite Htau.
    + done.
    + by apply Hgt.
    + apply in_target_spec. by rewrite Hs, Ht.
    + exists m. destruct (Hids m Hm Hk). done.
Qed.

Lemma count_stages l : count_stage Core l + count_stage SetExtra l + count_stage TargetExtra l = length l.
Proof.
  unfold count_stage. induction l as [|m l IH]; [done|]. rewrite !filter_cons.
  destruct m as [a b d []]; repeat case_decide; cbn in *; (lia || done).
Qed.

Lemma unmatched_elem `{HO : StrHash} {V} (m : gmap string V) ids id :
  id ∈ unmatched m ids ↔ is_Some (m !! id) ∧ id ∉ ids.
Proof.
  unfold unmatched. rewrite list_elem_of_filter, list_elem_of_fmap. split.
  - intros [Hn ([id' v] & -> & Hv%hash_iter_elem)]. eauto.
  - intros [[v Hv] Hn]. split; [done|]. exists (id, v). split; [done|]. by apply hash_iter_elem.
Qed.

(** The output is a partition, for any input whatever: every set record is
    either in a match or set-only, never both, and likewise every target
    record; nothing is listed twice, and the counts in the statistics add up. *)
Theorem resolve_partition `{HO : StrHash} s2t t2s o ms :
  let r := resolve s2t t2s o ms in
  (∀ id, id ∈ rr_set_only r ↔ is_Some (s2t !! id) ∧ (id ∉ map rm_set_id (rr_matched r))) ∧
  (∀ id, id ∈ rr_target_only r ↔ is_Some (t2s !! id) ∧ (id ∉ map rm_target_id (rr_matched r))) ∧
  NoDup (rr_set_only r) ∧ NoDup (rr_target_only r) ∧
  st_core_count (rr_stats r) + st_set_extra_count (rr_stats r) + st_target_extra_count (rr_stats r)
    = st_matched_count (rr_stats r) ∧
  st_matched_count (rr_stats r) = length (rr_matched r).
Proof.
  cbn zeta. split_and!.
  - intros id. cbn. by rewrite unmatched_elem, elem_of_list_to_set.
  - intros id. cbn. by rewrite unmatched_elem, elem_of_list_to_set.
  - apply NoDup_filter, hash_iter_nodup.
  - apply NoDup_filter, hash_iter_nodup.
  - apply count_stages.
  - done.
Qed.

(** Two records, each with a mutual candidate of its own, for the examples. *)
Definition demo_options : ResolveOptions := mkResolveOptions 5 F32.one F32.one None None.

Definition demo_neighbours (a b c d : string) : gmap string (list Neighbour) :=
  {[ a := [mkNeighbour b F32.zero] ]} ∪ {[ c := [mkNeighbour d F32.one] ]}.

Definition demo_s2t := demo_neighbours "s1" "t1" "s2" "t2".
Definition demo_t2s := demo_neighbours "t1" "s1" "t2" "s2".

Lemma demo_candidates HO :
  Forall (λ e, e = mkEdge "s1" "t1" F32.zero ∨ e = mkEdge "s2" "t2" F32.one)
    (candidates (HO:=HO) demo_s2t demo_t2s demo_options).
Proof.
  apply Forall_forall. intros [a b d] [_ He]%candidates_elem. cbn in He.
  destruct He as [(ns & Hns & Hn)|(ns & Hns & Hn)]; unfold demo_s2t, demo_t2s, demo_neighbours in Hns;
    apply lookup_union_Some_raw in Hns as [H|[_ H]];
    apply lookup_singleton_Some in H as [<- <-]; cbn in Hn;
    apply list_elem_of_singleton in Hn; simplify_eq; auto.
Qed.

Lemma demo_resolvable HO : resolvable (HO:=HO) demo_s2t demo_t2s demo_options.
Proof.
  pose proof (demo_candidates HO) as Hall. rewrite Forall_forall in Hall. split.
  - intros e e' He He'. destruct (Hall e He) as [-> | ->], (Hall e' He') as [-> | ->]; done.
  - intros e He%(candidates_elem (HO:=HO)). by destruct (Hall e He) as [-> | ->].
Qed.

Lemma resolve_sound_witness :
  Forall (λ m, ∃ e, m = as_match (rm_stage m) e ∧ graph_edge demo_s2t demo_t2s demo_options e)
    (rr_matched (resolve (HO:=str_map_order) demo_s2t demo_t2s demo_options 0)).
Proof.
  apply Forall_forall. intros m Hm.
  destruct (proj1 (resolve_sound (HO:=str_map_order) demo_s2t demo_t2s demo_options 0
                     (demo_resolvable _)) m Hm) as (e & H1 & H2 & _).
  exists e. split; [exact H1|exact H2].
Defined.

Lemma resolve_complete_witness :
  ∃ m, m ∈ rr_matched (resolve (HO:=str_map_order) demo_s2t demo_t2s demo_options 0) ∧
       rm_set_id m = "s2" ∧ rm_stage m = Core.
Proof.
  refine (proj1 (resolve_complete (HO:=str_map_order) demo_s2t demo_t2s demo_options 0
                   (mkEdge "s2" "t2" F32.one) (demo_resolvable _) _) _ _).
  - split; [reflexivity|]. left. eexists. split; [reflexivity|]. by apply list_elem_of_singleton.
  - reflexivity.
  - split; (eexists; split; [reflexivity|]; by apply list_elem_of_singleton).
Defined.

(** When an id contains ["::"], two different pairs can share a key: the pair
    [("a", "b::c")] is swallowed by [("a::b", "c")], and a record with a mutual
    candidate within the threshold ends up unmatched. *)
Theorem edge_key_collision :
  edge_key "a::b" "c" = edge_key "a" "b::c" ∧
  ∃ s2t t2s, candidate s2t t2s demo_options (mkEdge "a" "b::c" F32.one) ∧
    mutual s2t t2s demo_options (mkEdge "a" "b::c" F32.one) ∧
    "a" ∈ rr_set_only (resolve (HO:=str_map_order) s2t t2s demo_options 0).
Proof.
  split; [done|].
  exists (demo_neighbours "a::b" "c" "a" "b::c"), (demo_neighbours "c" "a::b" "b::c" "a").
  split_and!.
  - split; [reflexivity|]. left. eexists. split; [reflexivity|]. by apply list_elem_of_singleton.
  - split; (eexists; split; [reflexivity|]; by apply list_elem_of_singleton).
  - apply (bool_decide_unpack _). vm_compute. exact I.
Qed.
