(* ===== verification/Knn.v ===== *)
(** * Nearest-neighbour collection (src/src/store/lance/resolve.rs)

    The in-memory parts of the near-duplicate scan and of the cross-population
    neighbour lists: reading Arrow batches, the exact (flat) top-[k], the
    reduction of index results, and merging the lists of one document's chunks.
    The index itself is Lance's; a query's result batches are arguments. *)

From S2P Require Import Prelude F32 RustStr Model Distance Schema Dedup Search Resolve.

Record MaterialisedCandidate := mkMaterialisedCandidate {
  mc_doc_id : string;
  mc_embedding : list f32;
}.

Record IndexedPoint := mkIndexedPoint {
  ip_doc_id : string;
  ip_embedding : list f32;
  ip_content : option string;
}.

(** ** The best distance per document *)

(** [entry(id).and_modify(lower).or_insert(dist)]. *)
Definition best_step (best_per_doc : gmap string f32) (p : string * f32) : gmap string f32 :=
  match best_per_doc !! p.1 with
  | Some best => if F32.lt p.2 best then <[p.1 := p.2]> best_per_doc else best_per_doc
  | None => <[p.1 := p.2]> best_per_doc
  end.

(** The comparator of both sorts: the distance alone. *)
Definition dist_cmp (a b : string * f32) : comparison := F32.cmp_or_eq a.2 b.2.

Definition to_neighbour (p : string * f32) : Neighbour := mkNeighbour p.1 p.2.

Section knn.
Context {HI : HashIter string f32}.
Context (cosine_distance : list f32 → list f32 → f32).

(** Sort the map's entries, truncate, convert. *)
Definition sorted_top_k (best_per_doc : gmap string f32) (k : nat) : list Neighbour :=
  map to_neighbour (take k (sort_by dist_cmp (hash_iter best_per_doc))).

(** The loop body of [flat_knn_top_k]. *)
Definition flat_step (probe : list f32) (self_doc_id : string) (threshold : f32)
    (best_per_doc : gmap string f32) (candidate : MaterialisedCandidate) : gmap string f32 :=
  if String.eqb (mc_doc_id candidate) self_doc_id then best_per_doc
  else
    let dist := cosine_distance_normalized cosine_distance probe (mc_embedding candidate) in
    if F32.gt dist threshold then best_per_doc
    else best_step best_per_doc (mc_doc_id candidate, dist).

(** [flat_knn_top_k]. *)
Definition flat_knn_top_k (probe : list f32) (self_doc_id : string)
    (candidates : list MaterialisedCandidate) (k : nat) (threshold : f32) : list Neighbour :=
  sorted_top_k (foldl (flat_step probe self_doc_id threshold) ∅ candidates) k.

(** The rows of one batch in [extract_top_k_neighbours]. *)
Definition extract_rows (threshold : f32) (doc_ids : list string) (distances : list f32)
    (best_per_doc : gmap string f32) (i : nat) : gmap string f32 :=
  let norm_dist := normalized_cosine_from_lance (value F32.zero distances i) in
  if F32.gt norm_dist threshold then best_per_doc
  else best_step best_per_doc (value "" doc_ids i, norm_dist).

Fixpoint extract_batches (threshold : f32) (batches : list RecordBatch)
    (best_per_doc : gmap string f32) : result StoreError (gmap string f32) :=
  match batches with
  | [] => Ok best_per_doc
  | batch :: batches =>
      if (num_rows batch =? 0)%nat then extract_batches threshold batches best_per_doc
      else
        doc_ids ← ok_or (StoreInternal
          "ANN result batch missing `doc_id` column — Lance contract violated") (col_doc_id batch);
        distances ← ok_or (StoreInternal
          "ANN result batch missing `_distance` column — Lance nearest() contract violated")
          (col_distance batch);
        extract_batches threshold batches
          (foldl (extract_rows threshold doc_ids distances) best_per_doc (seq 0 (num_rows batch)))
  end.

(** [extract_top_k_neighbours]. *)
Definition extract_top_k_neighbours (batches : list RecordBatch) (k : nat) (threshold : f32)
    : result StoreError (list Neighbour) :=
  best_per_doc ← extract_batches threshold batches ∅;
  Ok (sorted_top_k best_per_doc k).
End knn.

(** [merge_neighbours]: the first entry of the id is lowered, a new id is
    pushed at the end. *)
Fixpoint merge_one (existing : list Neighbour) (n : Neighbour) : list Neighbour :=
  match existing with
  | [] => [n]
  | e :: rest =>
      if String.eqb (nb_id e) (nb_id n)
      then (if F32.lt (nb_distance n) (nb_distance e) then mkNeighbour (nb_id e) (nb_distance n) else e) :: rest
      else e :: merge_one rest n
  end.

Definition merge_neighbours (existing new : list Neighbour) : list Neighbour :=
  foldl merge_one existing new.

(** The accumulation of [io_collect_top_k_cross_flat] over the probe points
    (the batching only yields to the scheduler). *)
Definition collect_flat_step {HI : HashIter string f32} (cosine_distance : list f32 → list f32 → f32)
    (candidates : list MaterialisedCandidate) (k : nat) (threshold : f32)
    (acc : gmap string (list Neighbour)) (point : IndexedPoint) : gmap string (list Neighbour) :=
  let neighbours := flat_knn_top_k cosine_distance (ip_embedding point) (ip_doc_id point) candidates k threshold in
  if is_empty neighbours then acc
  else match acc !! ip_doc_id point with
       | Some existing => <[ip_doc_id point := merge_neighbours existing neighbours]> acc
       | None => <[ip_doc_id point := neighbours]> acc
       end.

Definition io_collect_top_k_cross_flat {HI : HashIter string f32} (cosine_distance : list f32 → list f32 → f32)
    (candidates : list MaterialisedCandidate) (points : list IndexedPoint) (k : nat) (threshold : f32)
    : gmap string (list Neighbour) :=
  if is_empty candidates then ∅
  else foldl (collect_flat_step cosine_distance candidates k threshold) ∅ points.

(** The accumulation of [io_collect_top_k_cross_ann]; [nearest point fetch_k]
    is the filtered index query. *)
Fixpoint io_collect_top_k_cross_ann {HI : HashIter string f32}
    (nearest : IndexedPoint → nat → result StoreError (list RecordBatch))
    (points : list IndexedPoint) (k : nat) (threshold : f32) (acc : gmap string (list Neighbour))
    : result StoreError (gmap string (list Neighbour)) :=
  match points with
  | [] => Ok acc
  | point :: points =>
      batches ← nearest point (k * 2);
      neighbours ← extract_top_k_neighbours batches k threshold;
      let acc := match acc !! ip_doc_id point with
                 | Some existing => <[ip_doc_id point := merge_neighbours existing neighbours]> acc
                 | None => <[ip_doc_id point := neighbours]> acc
                 end in
      io_collect_top_k_cross_ann nearest points k threshold acc
  end.

Definition ADAPTIVE_ANN_CANDIDATE_THRESHOLD : nat := 30 * 1000.

(** [io_collect_top_k_cross]: the exact path for small populations.
    [materialise] is the scan of the candidates' stored embeddings. *)
Definition io_collect_top_k_cross {HI : HashIter string f32} (cosine_distance : list f32 → list f32 → f32)
    (materialise : list string → result StoreError (list MaterialisedCandidate))
    (nearest : list string → IndexedPoint → nat → result StoreError (list RecordBatch))
    (points : list IndexedPoint) (candidate_doc_ids : list string) (k : nat) (threshold : f32)
    : result StoreError (gmap string (list Neighbour)) :=
  if (length candidate_doc_ids <=? ADAPTIVE_ANN_CANDIDATE_THRESHOLD)%nat then
    candidates ← materialise candidate_doc_ids;
    Ok (io_collect_top_k_cross_flat cosine_distance candidates points k threshold)
  else io_collect_top_k_cross_ann (nearest candidate_doc_ids) points k threshold ∅.

(** One batch of [batches_to_points]. *)
Definition batch_to_points (snippet : bool) (batch : RecordBatch) : result StoreError (list IndexedPoint) :=
  if (num_rows batch =? 0)%nat then Ok []
  else
    doc_ids ← ok_or (StoreInternal "duplicates scan: missing `doc_id` column") (col_doc_id batch);
    embeddings ← ok_or (StoreInternal "duplicates scan: missing `embedding` column") (col_embedding batch);
    contents ← (if snippet then
                  Some <$> ok_or (StoreInternal "duplicates scan: missing `content` column") (col_content batch)
                else Ok None);
    res_map (λ i,
      embedding ← extract_embedding_row embeddings i (value "" doc_ids i);
      Ok (mkIndexedPoint (value "" doc_ids i) embedding ((λ c, value "" c i) <$> contents)))
      (seq 0 (num_rows batch)).

(** [batches_to_points]. *)
Definition batches_to_points (batches : list RecordBatch) (snippet : bool)
    : result StoreError (list IndexedPoint) :=
  pss ← res_map (batch_to_points snippet) batches; Ok (concat pss).

(** [nearest_observation]. *)
Fixpoint nearest_observation (batches : list RecordBatch) (point : IndexedPoint) (snippet : bool)
    : option NeighbourObservation :=
  match batches with
  | [] => None
  | batch :: batches =>
      if (num_rows batch =? 0)%nat then nearest_observation batches point snippet
      else
        let contents := if snippet then col_content batch else None in
        match col_doc_id batch, col_distance batch with
        | Some ids, Some dists =>
            Some (mkNeighbourObservation (ip_doc_id point) (value "" ids 0)
                    (normalized_cosine_from_lance (value F32.zero dists 0))
                    (ip_content point) ((λ c, value "" c 0) <$> contents))
        | _, _ => nearest_observation batches point snippet
        end
  end.

(** [io_collect_neighbours]; [nearest] is the filtered index query of one
    point. *)
Fixpoint io_collect_neighbours (nearest : IndexedPoint → result StoreError (list RecordBatch))
    (points : list IndexedPoint) (snippet : bool) : result StoreError (list NeighbourObservation) :=
  match points with
  | [] => Ok []
  | point :: points =>
      batches ← nearest point;
      rest ← io_collect_neighbours nearest points snippet;
      Ok (match nearest_observation batches point snippet with
          | Some obs => obs :: rest
          | None => rest
          end)
  end.

(** [io_duplicate_groups], over a snapshot's row count, scan and index. *)
Definition io_duplicate_groups {HI : HashIter (string * string) CanonicalObservation}
    (count_rows : result StoreError nat) (scan : result StoreError (list RecordBatch))
    (nearest : IndexedPoint → result StoreError (list RecordBatch))
    (threshold : f32) (snippet : bool) (max_points : nat) : result StoreError (list DuplicateGroup) :=
  set_point_count ← count_rows;
  if (max_points <? set_point_count)%nat then
    Err (StoreInternal ("near-duplicate scan refused: set population has "
      +:+ pretty (N.of_nat set_point_count) +:+ " points, exceeds the bound of "
      +:+ pretty (N.of_nat max_points)
      +:+ " (would not be a safely bounded run) — narrow the `set` scope or chunk the request"))
  else
    batches ← scan;
    points ← batches_to_points batches snippet;
    observations ← io_collect_neighbours nearest points snippet;
    Ok (pairs_from_neighbours observations threshold DEFAULT_DUPLICATE_MAX_PAIRS).

(** ** Properties *)

Lemma best_fold_lookup l id :
  foldl best_step ∅ l !! id = snd <$> (keep_best fst (λ a b, F32.lt a.2 b.2) l !! id).
Proof.
  unfold keep_best.
  assert (∀ m m', (∀ id, m !! id = snd <$> (m' !! id : option (string * f32))) →
    foldl best_step m l !! id =
      snd <$> (foldl (keep_best_step fst (λ a b, F32.lt a.2 b.2)) m' l !! id)) as H.
  2: { apply H. intros id'. by rewrite !lookup_empty. }
  induction l as [|[i d] l IH]; intros m m' Hm; cbn [foldl]; [apply Hm|]. apply IH.
  intros id'. unfold best_step, keep_best_step. cbn [fst snd]. rewrite Hm.
  destruct (m' !! i) as [b|]; cbn.
  - destruct (F32.lt d b.2); [|apply Hm].
    destruct (decide (i = id')) as [->|]; [by rewrite !lookup_insert_eq|by rewrite !lookup_insert_ne].
  - destruct (decide (i = id')) as [->|]; [by rewrite !lookup_insert_eq|by rewrite !lookup_insert_ne].
Qed.

#[export] Instance snd_lt_better : Better (λ a b : string * f32, F32.lt a.2 b.2).
Proof. apply (lt_better _). Qed.

(** What a ranked list of neighbours says about the candidates [l], given as
    document and distance. *)
Record top_k_of (l : list (string * f32)) (k : nat) (ns : list Neighbour) : Prop := {
  top_k_sorted : StronglySorted (λ a b, F32.le (nb_distance a) (nb_distance b) = true) ns;
  top_k_length : length ns ≤ k;
  top_k_nodup : NoDup (map nb_id ns);
  top_k_best n : n ∈ ns → (nb_id n, nb_distance n) ∈ l ∧
    ∀ d, (nb_id n, d) ∈ l → F32.le (nb_distance n) d = true;
  top_k_complete id d : (id, d) ∈ l → id ∉ map nb_id ns →
    length ns = k ∧ ∀ n, n ∈ ns → F32.le (nb_distance n) d = true;
}.

Definition dist_num (p : string * f32) : Prop := F32.num p.2.

#[export] Instance dist_cmp_order : CmpOrder dist_num dist_cmp.
Proof. apply (on_key_order _ F32.num (λ p : string * f32, p.2)); [apply _|done]. Qed.

Lemma StronglySorted_map {A B} (f : A → B) (R : A → A → Prop) (S : B → B → Prop) l :
  (∀ x y, x ∈ l → y ∈ l → R x y → S (f x) (f y)) → StronglySorted R l → StronglySorted S (map f l).
Proof.
  intros H Hs. induction Hs as [|x l Hs IH Hx]; cbn; constructor.
  - apply IH. intros; apply H; [by right|by right|done].
  - apply Forall_fmap, Forall_forall. intros y Hy. rewrite Forall_forall in Hx.
    apply H; [by left|by right|by apply Hx].
Qed.

Section top_k.
Context {HI : HashIter string f32}.

Lemma sorted_top_k_spec l k :
  Forall dist_num l → top_k_of l k (sorted_top_k (foldl best_step ∅ l) k).
Proof.
  intros Hnum. set (m := foldl best_step ∅ l). set (s := sort_by dist_cmp (hash_iter m)).
  assert (∀ id d, (id, d) ∈ s ↔ m !! id = Some d) as Hs.
  { intros id d. unfold s. by rewrite sort_by_perm, hash_iter_elem. }
  assert (∀ id d, m !! id = Some d → (id, d) ∈ l ∧ ∀ d', (id, d') ∈ l → F32.le d d' = true) as Hm.
  { intros id d. unfold m. rewrite best_fold_lookup.
    destruct (keep_best _ _ l !! id) as [[id' d']|] eqn:E; cbn; [|done]. intros [= <-].
    apply keep_best_lookup in E as (Hin & <- & Hmin); [|apply _]. split; [done|].
    intros d'' Hd''. rewrite Forall_forall in Hnum.
    apply gt_false_le; [apply (Hnum _ Hin)|apply (Hnum _ Hd'')|]. by apply (Hmin _ Hd''). }
  assert (Forall dist_num s) as Hsn.
  { apply Forall_forall. intros [id d] H. apply Hs, Hm in H as [H _].
    rewrite Forall_forall in Hnum. by apply Hnum. }
  assert (StronglySorted (cmp_le dist_cmp) s) as Hsort.
  { apply (sort_by_sorted _ dist_num). by rewrite <-(sort_by_perm dist_cmp). }
  assert (∀ a b, a ∈ s → b ∈ s → cmp_le dist_cmp a b → F32.le a.2 b.2 = true) as Hle.
  { intros a b Ha Hb. rewrite Forall_forall in Hsn. unfold cmp_le, dist_cmp.
    rewrite le_cmp_iff; [done|by apply (Hsn a)|by apply (Hsn b)]. }
  unfold sorted_top_k. fold m. fold s. split.
  - eapply StronglySorted_map; [|by apply StronglySorted_take].
    intros a b Ha Hb. apply Hle; by eapply elem_of_take_in.
  - rewrite length_map, length_take. lia.
  - rewrite map_map. change (λ p, nb_id (to_neighbour p)) with (fst : string * f32 → string).
    apply (NoDup_app (take k s).*1 (drop k s).*1). rewrite <-fmap_app, take_drop.
    unfold s. rewrite sort_by_perm. apply hash_iter_nodup.
  - intros n ([id d] & -> & Hn)%list_elem_of_fmap. apply elem_of_take_in, Hs in Hn. by apply Hm.
  - intros id d Hin Hno.
    destruct (keep_best_complete fst (λ a b : string * f32, F32.lt a.2 b.2) l (id, d) Hin) as [[i d'] Hd'].
    cbn [fst] in Hd'.
    assert (m !! id = Some d') as Hmd by (unfold m; by rewrite best_fold_lookup, Hd').
    pose proof (proj2 (Hs id d') Hmd) as Hsd. rewrite <-(take_drop k s), elem_of_app in Hsd.
    destruct Hsd as [Hsd|Hsd].
    { destruct Hno. apply list_elem_of_fmap. exists (to_neighbour (id, d')). split; [done|].
      apply list_elem_of_fmap. by exists (id, d'). }
    rewrite length_map, length_take. split.
    + destruct (decide (k ≤ length s)); [lia|]. rewrite drop_ge in Hsd by lia. by apply elem_of_nil in Hsd.
    + intros n ([id1 d1] & -> & Hn)%list_elem_of_fmap. cbn.
      apply (le_trans_f32 _ d'); [|by apply (Hm id d' Hmd)].
      apply (Hle (id1, d1) (id, d')); [by eapply elem_of_take_in|by eapply elem_of_drop_in|].
      by eapply StronglySorted_take_drop.
Qed.

(** The candidates a flat search admits. *)
Definition flat_candidates (cosine_distance : list f32 → list f32 → f32) (probe : list f32)
    (self_doc_id : string) (threshold : f32) (candidates : list MaterialisedCandidate)
    : list (string * f32) :=
  filter (λ p, p.1 ≠ self_doc_id ∧ F32.gt p.2 threshold = false)
    (map (λ c, (mc_doc_id c, cosine_distance_normalized cosine_distance probe (mc_embedding c)))
       candidates).

Lemma flat_fold cd probe self t cs m :
  foldl (flat_step cd probe self t) m cs = foldl best_step m (flat_candidates cd probe self t cs).
Proof.
  unfold flat_candidates. revert m; induction cs as [|c cs IH]; intros m; [done|].
  cbn [foldl map]. rewrite filter_cons, IH. unfold flat_step.
  destruct (String.eqb_spec (mc_doc_id c) self) as [->|Hne].
  - rewrite decide_False; [done|]. by intros [H _].
  - destruct (F32.gt _ t) eqn:E.
    + rewrite decide_False; [done|]. intros [_ H]. cbn [snd] in H. congruence.
    + rewrite decide_True by done. done.
Qed.

(** C39: the exact neighbour search returns the true top [k] documents within
    the threshold: nearest first, at most [k], never the probe's own
    document, one entry per document at the distance of its nearest chunk,
    and a document left out is no nearer than any document returned. *)
Theorem flat_knn_top_k_exact cd probe self cs k t :
  Forall dist_num (flat_candidates cd probe self t cs) →
  top_k_of (flat_candidates cd probe self t cs) k (flat_knn_top_k cd probe self cs k t) ∧
  self ∉ map nb_id (flat_knn_top_k cd probe self cs k t).
Proof.
  intros Hnum. unfold flat_knn_top_k. rewrite flat_fold.
  pose proof (sorted_top_k_spec _ k Hnum) as Htop. split; [done|].
  intros (n & Hn & Hin)%list_elem_of_fmap. apply (top_k_best _ _ _ Htop) in Hin as [Hin _].
  unfold flat_candidates in Hin. apply list_elem_of_filter in Hin as [[H _] _]. by rewrite <-Hn in H.
Qed.
End top_k.

(** A kernel for the examples: the distance of the first components. *)
Definition example_cosine (a b : list f32) : f32 :=
  match a, b with x :: _, y :: _ => if F32.lt x y then F32.sub y x else F32.sub x y | _, _ => F32.zero end.

Definition example_candidates : list MaterialisedCandidate :=
  [mkMaterialisedCandidate "a" [F32.one]; mkMaterialisedCandidate "b" [F32.zero];
   mkMaterialisedCandidate "c" [F32.zero]; mkMaterialisedCandidate "p" [F32.one]].

Lemma flat_knn_top_k_exact_witness :
  "p" ∉ map nb_id (flat_knn_top_k (HI:=map_order) example_cosine [F32.one] "p" example_candidates 2 F32.one).
Proof.
  apply (flat_knn_top_k_exact (HI:=map_order) example_cosine [F32.one] "p" example_candidates 2 F32.one).
  by repeat constructor.
Defined.

(** Ties at the cut are broken by the hash map's order alone: the same request
    can return different neighbours. *)
Theorem flat_knn_ties_unstable :
  flat_knn_top_k (HI:=map_order) example_cosine [F32.one] "p" example_candidates 2 F32.one ≠
  flat_knn_top_k (HI:=rev_order) example_cosine [F32.one] "p" example_candidates 2 F32.one.
Proof. vm_compute. discriminate. Qed.

(** *** Merging the lists of a document's chunks *)

Lemma merge_one_ids existing n id :
  id ∈ map nb_id (merge_one existing n) ↔ id ∈ map nb_id existing ∨ id = nb_id n.
Proof.
  induction existing as [|e rest IH]; cbn [merge_one map].
  { rewrite list_elem_of_singleton. split; [auto|intros [?%elem_of_nil|?]; done]. }
  destruct (String.eqb_spec (nb_id e) (nb_id n)) as [E|E]; cbn [map].
  - assert (nb_id (if F32.lt (nb_distance n) (nb_distance e)
                   then mkNeighbour (nb_id e) (nb_distance n) else e) = nb_id e) as -> by (by case_match).
    rewrite elem_of_cons. rewrite <-E. tauto.
  - rewrite !elem_of_cons, IH. tauto.
Qed.

(** Merging two chunks' neighbour lists keeps every neighbour of either
    list and invents none. *)
Theorem merge_neighbours_ids existing new id :
  id ∈ map nb_id (merge_neighbours existing new) ↔ id ∈ map nb_id existing ∨ id ∈ map nb_id new.
Proof.
  unfold merge_neighbours. revert existing; induction new as [|n new IH]; intros existing; cbn [foldl map].
  - split; [by left|intros [?|?%elem_of_nil]; done].
  - rewrite IH, merge_one_ids, elem_of_cons. tauto.
Qed.

(** The merged list is neither sorted nor capped: two chunks with one
    neighbour each, requested with [k = 1], give two neighbours, the nearer one
    last. *)
Theorem merged_neighbours_unsorted_uncapped :
  let eighth := F32.div F32.one (F32.of_Z 8) in
  io_collect_top_k_cross_flat (HI:=map_order) example_cosine
    [mkMaterialisedCandidate "a" [F32.zero]; mkMaterialisedCandidate "b" [F32.one]]
    [mkIndexedPoint "p" [F32.div F32.one (F32.of_Z 4)] None; mkIndexedPoint "p" [F32.one] None] 1 F32.one
    !! "p" = Some [mkNeighbour "a" eighth; mkNeighbour "b" F32.zero].
Proof. vm_compute. reflexivity. Qed.

(** A missing distance column is skipped by the near-duplicate scan, where the
    comment announces an error. *)
Lemma nearest_observation_skips point b :
  col_distance b = None → nearest_observation [b] point false = None.
Proof.
  intros H. cbn. rewrite H. destruct (num_rows b =? 0)%nat; [done|]. by destruct (col_doc_id b).
Qed.

(** The near-duplicate scan is refused, before a single index query, when
    the population exceeds the bound; otherwise each point contributes at most
    one observation, made from the first row of its own query. *)
Theorem duplicate_scan_bounded {HI : HashIter (string * string) CanonicalObservation}
    count scan nearest t snippet max_points :
  (max_points < count → ∃ e, io_duplicate_groups (Ok count) scan nearest t snippet max_points = Err e) ∧
  (∀ points obs, io_collect_neighbours nearest points snippet = Ok obs →
     length obs ≤ length points ∧
     ∀ o, o ∈ obs → ∃ p batches, p ∈ points ∧ nearest p = Ok batches ∧
       nearest_observation batches p snippet = Some o).
Proof.
  split.
  - intros Hlt. unfold io_duplicate_groups. cbn [mbind result_mbind].
    destruct (Nat.ltb_spec max_points count); [by eexists|lia].
  - induction points as [|p points IH]; intros obs; cbn [io_collect_neighbours].
    { intros [= <-]. split; [done|]. intros o Ho. by apply elem_of_nil in Ho. }
    intros (batches & Hb & (rest & Hr & [= <-])%result_bind_ok)%result_bind_ok.
    destruct (IH rest Hr) as [Hlen Hin]. destruct (nearest_observation batches p snippet) as [o|] eqn:E.
    + split; [cbn; lia|]. intros o' [->|Ho]%elem_of_cons.
      * exists p, batches. split; [by left|done].
      * destruct (Hin o' Ho) as (p' & b' & ? & ? & ?). exists p', b'. split; [by right|done].
    + split; [cbn; lia|]. intros o' Ho.
      destruct (Hin o' Ho) as (p' & b' & ? & ? & ?). exists p', b'. split; [by right|done].
Qed.

Lemma duplicate_scan_bounded_witness :
  ∃ e, io_duplicate_groups (HI:=map_order) (Ok 3) (Ok []) (λ _, Ok []) F32.one false 2 = Err e.
Proof. apply (duplicate_scan_bounded (HI:=map_order) 3 (Ok []) (λ _, Ok []) F32.one false 2). lia. Defined.
