(* ===== verification/Files.v ===== *)
(** * Directory trees (the std::fs calls of src/src/store/lance)

    The store looks into a dataset directory, and rearranges it, beside what the
    Lance library does there.  A tree of files and directories, and the calls
    the store makes on it: existence and type of a path, listing, renaming,
    removal.  Any call may fail: [FsFaults] says which do, and with what
    message; a removal that fails may have removed a part. *)

From S2P Require Import Prelude.

#[warnings="-register-all"] Inductive node : Type :=
| File (contents : string)
| Dir (entries : gmap string node).

(** The entries of a directory, and a path relative to it. *)
Abbreviation tree := (gmap string node).
Abbreviation fpath := (list string).

(** What goes wrong: on a listing, on one of its entries, on a renaming, on the
    removal of an empty directory, and on a recursive removal (with what is
    left of it). *)
Record FsFaults := mkFsFaults {
  ff_read_dir : fpath → option string;
  ff_entry : fpath → string → bool;
  ff_rename : fpath → fpath → option string;
  ff_remove_dir : fpath → option string;
  ff_remove_dir_all : fpath → node → option (string * option node);
}.

Definition no_faults : FsFaults :=
  mkFsFaults (λ _, None) (λ _ _, false) (λ _ _, None) (λ _, None) (λ _ _, None).

Definition is_dir (n : node) : bool := match n with Dir _ => true | File _ => false end.
Definition is_file (n : node) : bool := match n with File _ => true | Dir _ => false end.
Definition entries_of (n : node) : tree := match n with Dir es => es | File _ => ∅ end.

(** The node at a path below a node. *)
Fixpoint node_at (n : node) (p : fpath) : option node :=
  match p with
  | [] => Some n
  | x :: p => match n with Dir es => es !! x ≫= λ m, node_at m p | File _ => None end
  end.

(** The tree with the node at a path set, or removed. *)
Fixpoint set_at (o : option node) (p : fpath) (n : node) : node :=
  match p with
  | [] => default n o
  | x :: p =>
      match n with
      | File c => File c
      | Dir es =>
          match p with
          | [] => Dir (partial_alter (λ _, o) x es)
          | _ => Dir (alter (set_at o p) x es)
          end
      end
  end.

Definition lookup_path (t : tree) (p : fpath) : option node := node_at (Dir t) p.
Definition set_path (o : option node) (p : fpath) (t : tree) : tree := entries_of (set_at o p (Dir t)).

(** [Path::exists], [Path::is_dir]. *)
Definition fs_exists (t : tree) (p : fpath) : bool := bool_decide (is_Some (lookup_path t p)).
Definition fs_is_dir (t : tree) (p : fpath) : bool :=
  match lookup_path t p with Some n => is_dir n | None => false end.

(** The directory a path is an entry of. *)
Definition parent (p : fpath) : fpath := take (length p - 1) p.

Section calls.
Context (ff : FsFaults).

(** [std::fs::read_dir]: the names and nodes of the entries that can be read,
    in no particular order (the callers' results do not depend on it). *)
Definition fs_read_dir (t : tree) (p : fpath) : result string (list (string * node)) :=
  match ff_read_dir ff p with
  | Some e => Err e
  | None =>
      match lookup_path t p with
      | None => Err "No such file or directory"
      | Some (File _) => Err "Not a directory"
      | Some (Dir es) => Ok (filter (λ '(x, _), ff_entry ff p x = false) (map_to_list es))
      end
  end.

(** What a renaming may replace: a file by a file, an empty directory by a
    directory. *)
Definition replaceable (n : node) (target : option node) : result string unit :=
  match target, n with
  | None, _ => Ok tt
  | Some (File _), File _ => Ok tt
  | Some (File _), Dir _ => Err "Not a directory"
  | Some (Dir _), File _ => Err "Is a directory"
  | Some (Dir es), Dir _ => if decide (es = ∅) then Ok tt else Err "Directory not empty"
  end.

(** [std::fs::rename], of two paths neither of which is inside the other. *)
Definition fs_rename (t : tree) (p q : fpath) : tree * result string unit :=
  match ff_rename ff p q with
  | Some e => (t, Err e)
  | None =>
      match lookup_path t p with
      | None => (t, Err "No such file or directory")
      | Some n =>
          if fs_is_dir t (parent q) then
            match replaceable n (lookup_path t q) with
            | Err e => (t, Err e)
            | Ok _ => (set_path (Some n) q (set_path None p t), Ok tt)
            end
          else (t, Err "No such file or directory")
      end
  end.

(** [std::fs::remove_dir]: of an empty directory only. *)
Definition fs_remove_dir (t : tree) (p : fpath) : tree * result string unit :=
  match ff_remove_dir ff p with
  | Some e => (t, Err e)
  | None =>
      match lookup_path t p with
      | None => (t, Err "No such file or directory")
      | Some (File _) => (t, Err "Not a directory")
      | Some (Dir es) => if decide (es = ∅) then (set_path None p t, Ok tt) else (t, Err "Directory not empty")
      end
  end.

(** [std::fs::remove_dir_all]. *)
Definition fs_remove_dir_all (t : tree) (p : fpath) : tree * result string unit :=
  match lookup_path t p with
  | None => (t, Err "No such file or directory")
  | Some (File _) => (t, Err "Not a directory")
  | Some n =>
      match ff_remove_dir_all ff p n with
      | Some (e, rest) => (set_path rest p t, Err e)
      | None => (set_path None p t, Ok tt)
      end
  end.

(** [dir_has_files_recursive]: whether there is a file at any depth that the
    listings show. *)
Fixpoint has_files (p : fpath) (n : node) : bool :=
  match n with
  | File _ => false
  | Dir es =>
      match ff_read_dir ff p with
      | Some _ => false
      | None => map_fold (λ x m acc, (negb (ff_entry ff p x) && (is_file m || has_files (p ++ [x]) m)) || acc) false es
      end
  end.
End calls.

(** ** Paths of one and two components *)

Lemma lookup_path_1 t x : lookup_path t [x] = t !! x.
Proof. unfold lookup_path. cbn. by destruct (t !! x). Qed.

Lemma lookup_path_2 t x y :
  lookup_path t [x; y] = match t !! x with Some (Dir es) => es !! y | _ => None end.
Proof. unfold lookup_path. cbn. destruct (t !! x) as [[c|es]|]; cbn; [done| |done]. by destruct (es !! y). Qed.

Lemma set_path_1 o x t : set_path o [x] t = partial_alter (λ _, o) x t.
Proof. done. Qed.

Lemma set_path_2 o x y t es :
  t !! x = Some (Dir es) → set_path o [x; y] t = <[x := Dir (partial_alter (λ _, o) y es)]> t.
Proof.
  intros Hx. unfold set_path. cbn. apply map_eq. intros z. destruct (decide (z = x)) as [->|Hne].
  - by rewrite lookup_alter_eq, lookup_insert_eq, Hx.
  - by rewrite lookup_alter_ne, lookup_insert_ne.
Qed.

(** Nothing outside the directory entries named. *)
Definition same_outside (names : list string) (t t' : tree) : Prop := ∀ x, x ∉ names → t' !! x = t !! x.

#[export] Instance same_outside_preorder names : PreOrder (same_outside names).
Proof. split; [by intros t x _|]. intros t1 t2 t3 H1 H2 x Hx. by rewrite H2, H1. Qed.

Lemma set_path_outside names o x p t : x ∈ names → same_outside names t (set_path o (x :: p) t).
Proof.
  intros Hx y Hy. assert (y ≠ x) by set_solver. unfold set_path. cbn. destruct p; cbn.
  - by rewrite lookup_partial_alter_ne.
  - by rewrite lookup_alter_ne.
Qed.

Section outside.
Context (ff : FsFaults) (names : list string).
Implicit Types t : tree.

Lemma fs_rename_outside t x p y q :
  x ∈ names → y ∈ names → same_outside names t (fs_rename ff t (x :: p) (y :: q)).1.
Proof.
  intros Hx Hy. unfold fs_rename. repeat case_match; try done.
  etrans; [by apply (set_path_outside _ None x p)|by apply set_path_outside].
Qed.

Lemma fs_remove_dir_outside t x p : x ∈ names → same_outside names t (fs_remove_dir ff t (x :: p)).1.
Proof. intros Hx. unfold fs_remove_dir. repeat case_match; try done. by apply set_path_outside. Qed.

Lemma fs_remove_dir_all_outside t x p : x ∈ names → same_outside names t (fs_remove_dir_all ff t (x :: p)).1.
Proof. intros Hx. unfold fs_remove_dir_all. repeat case_match; try done; by apply set_path_outside. Qed.
End outside.

(** A recursive removal of an entry of a directory leaves the other entries. *)
Lemma set_path_2_other o x y z t : z ≠ y → lookup_path (set_path o [x; y] t) [x; z] = lookup_path t [x; z].
Proof.
  intros Hz. rewrite !lookup_path_2. destruct (t !! x) as [[c|es]|] eqn:Ex.
  - unfold set_path. cbn. by rewrite lookup_alter_eq, Ex.
  - rewrite (set_path_2 _ _ _ _ es), lookup_insert_eq by done. by rewrite lookup_partial_alter_ne.
  - unfold set_path. cbn. by rewrite lookup_alter_eq, Ex.
Qed.

Lemma set_path_2_same o x y t es : t !! x = Some (Dir es) → lookup_path (set_path o [x; y] t) [x; y] = o.
Proof.
  intros Hx. rewrite (set_path_2 _ _ _ _ es), lookup_path_2, lookup_insert_eq by done. by rewrite lookup_partial_alter_eq.
Qed.

Lemma fs_remove_dir_all_other ff t x y z :
  z ≠ y → lookup_path (fs_remove_dir_all ff t [x; y]).1 [x; z] = lookup_path t [x; z].
Proof. intros Hz. unfold fs_remove_dir_all. repeat case_match; try done; by apply set_path_2_other. Qed.

(** What is left of an entry after its removal, and whether that succeeded. *)
Definition removal_left (ff : FsFaults) (p : fpath) (n : node) : option node :=
  match ff_remove_dir_all ff p n with Some (_, rest) => rest | None => None end.
Definition removal_ok (ff : FsFaults) (p : fpath) (n : node) : bool :=
  match ff_remove_dir_all ff p n with Some _ => false | None => true end.

Lemma fs_remove_dir_all_at ff t x y n :
  lookup_path t [x; y] = Some n → is_dir n = true →
  lookup_path (fs_remove_dir_all ff t [x; y]).1 [x; y] = removal_left ff [x; y] n ∧
  is_ok (fs_remove_dir_all ff t [x; y]).2 = removal_ok ff [x; y] n.
Proof.
  intros Hn Hd. unfold fs_remove_dir_all, removal_left, removal_ok. rewrite Hn. destruct n as [c|es]; [done|].
  rewrite lookup_path_2 in Hn. destruct (t !! x) as [[c|es']|] eqn:Ex; try done.
  destruct (ff_remove_dir_all ff [x; y] (Dir es)) as [[e rest]|]; (split; [by eapply set_path_2_same|done]).
Qed.

(** What a listing shows is there. *)
Lemma fs_read_dir_entries ff t x entries :
  fs_read_dir ff t [x] = Ok entries →
  NoDup entries.*1 ∧ ∀ y n, (y, n) ∈ entries ↔ lookup_path t [x; y] = Some n ∧ ff_entry ff [x] y = false.
Proof.
  unfold fs_read_dir. destruct (ff_read_dir ff [x]); [done|]. rewrite lookup_path_1.
  destruct (t !! x) as [[c|es]|] eqn:Ex; [done| |done]. intros [= <-]. split.
  - eapply sublist_NoDup; [apply (NoDup_fst_map_to_list es)|]. apply fmap_sublist, sublist_filter.
  - intros y n. rewrite list_elem_of_filter, elem_of_map_to_list, lookup_path_2, Ex. tauto.
Qed.

(** Renaming a directory within its parent. *)
Lemma rename_entry x y t n :
  t !! x = Some n → t !! y = None → x ≠ y → fs_rename no_faults t [x] [y] = (<[y := n]> (delete x t), Ok tt).
Proof.
  intros Hx Hy Hne. unfold fs_rename. cbn [ff_rename no_faults]. rewrite !lookup_path_1, Hx, Hy. cbn.
  done.
Qed.
