(* ===== verification/Lance.v ===== *)
(** * The versioned dataset library the store is written against

    LanceDB is a third-party crate: its operations are the class [LanceOps],
    over a type [W] of states of a dataset directory (absent, or holding a
    dataset) and a type [H] of dataset handles,
    and what the store relies on is the class [LanceLaws] (tags are global to
    the dataset and read live, a version never changes, an append or a delete
    advances the head of the branch of its handle and of no other).  An
    operation returns the directory it leaves even when it fails.

    [RefLance] is a small dataset that satisfies the laws; the witnesses of the
    store's theorems run on it. *)

From S2P Require Import Prelude F32 RustStr Model Schema Search Files.

(** [TagContents]: [None] is the default branch.  [created_at] is only ever
    compared. *)
Record TagContents := mkTagContents {
  tc_branch : option string;
  tc_version : N;
  tc_created_at : Z;
}.
#[export] Instance TagContents_eq_dec : EqDecision TagContents. Proof. solve_decision. Defined.

(** [lance::dataset::refs::Ref]. *)
Inductive LanceRef : Type :=
| RefVersion (v : N)
| RefTag (t : string).

(** The columns handed to [RecordBatch::try_new]: both embedding columns are
    flat arrays cut in lists of [dim]. *)
Record ChunkColumns := mkChunkColumns {
  col_doc_id : list string;
  col_doc_type : list string;
  col_chunk_index : list Z;
  col_chunk_count : list Z;
  col_chunk_token_start : list Z;
  col_doc_token_len : list Z;
  col_embedding : list f32;
  col_clustering_embedding : list f32;
  col_content : list string;
}.

(** The column array of [rows_to_batch] and [empty_batch]. *)
Definition rows_columns (rows : list ChunkRow) : ChunkColumns := {|
  col_doc_id := map cr_doc_id rows;
  col_doc_type := map cr_doc_type rows;
  col_chunk_index := map cr_chunk_index rows;
  col_chunk_count := map cr_chunk_count rows;
  col_chunk_token_start := map cr_chunk_token_start rows;
  col_doc_token_len := map cr_doc_token_len rows;
  col_embedding := concat (map cr_embedding rows);
  col_clustering_embedding := concat (map cr_clustering_embedding rows);
  col_content := map cr_content rows;
|}.

(** What a filter expression reads of a chunk row. *)
Definition row_column (r : ChunkRow) (c : string) : string :=
  if String.eqb c "doc_id" then cr_doc_id r
  else if String.eqb c "doc_type" then cr_doc_type r
  else if String.eqb c "content" then cr_content r else "".

Definition row_selected (e : Expr) (r : ChunkRow) : bool := selects e (row_column r).

(** What a scan with an optional filter keeps. *)
Definition scan_keeps (f : option Expr) (r : ChunkRow) : bool :=
  match f with None => true | Some e => row_selected e r end.

(** Rows whose embeddings have the store's dimension. *)
Definition row_width (dim : nat) (r : ChunkRow) : Prop :=
  length (cr_embedding r) = dim ∧ length (cr_clustering_embedding r) = dim.

Class LanceOps (W H : Type) := {
  l_try_new : nat → ChunkColumns → result string (list ChunkRow);
  l_absent : W;
  l_exists : W → bool;
  l_remove : W → W * result string unit;
  l_create : W → W * result string H;
  l_load : W → result string H;
  l_version : H → N;
  l_checkout_branch : W → H → string → result string H;
  l_checkout_version : W → H → N → result string H;
  l_list_branches : W → H → result string (list string);
  l_create_branch : W → H → string → LanceRef → W * result string H;
  l_delete_branch : W → H → string → W * result string unit;
  l_list_tags : W → H → result string (gmap string TagContents);
  l_create_tag : W → H → string → N → W * result string unit;
  l_delete_tag : W → H → string → W * result string unit;
  l_append : W → H → list ChunkRow → W * result string H;
  l_delete_rows : W → H → Expr → W * result string H;
  l_scan : W → H → option Expr → result string (list ChunkRow);
}.

(** What a directory holds, as far as the store can observe it: the tags, the
    handle at the head of each branch ([None] is main), and the rows of a
    handle. *)
Class LanceView (W H : Type) := {
  v_tags : W → gmap string TagContents;
  v_head : W → option string → option H;
  v_rows : H → list ChunkRow;
  v_branch : H → option string;
}.

(** [w'] has the same rows and heads as [w]. *)
Definition same_heads {W H} `{LanceOps W H, LanceView W H} (w w' : W) : Prop :=
  l_exists w' = l_exists w ∧ ∀ b, v_head w' b = v_head w b.

(** [w'] is [w] with the head of the branch of [h] moved to [h']. *)
Definition head_moved {W H} `{LanceOps W H, LanceView W H} (w w' : W) (h h' : H) : Prop :=
  l_exists w' = l_exists w ∧
  v_branch h' = v_branch h ∧
  v_head w' (v_branch h) = Some h' ∧
  (∀ b, b ≠ v_branch h → v_head w' b = v_head w b).

Class LanceLaws (W H : Type) `{LanceOps W H, LanceView W H} : Prop := {
  law_try_new dim rows : Forall (row_width dim) rows → l_try_new dim (rows_columns rows) = Ok rows;
  law_absent : l_exists l_absent = false;
  law_not_exists w : l_exists w = false → v_tags w = ∅ ∧ ∀ b, v_head w b = None;
  law_remove_ok w w' : l_remove w = (w', Ok tt) → w' = l_absent;
  law_create w0 w h : l_create w0 = (w, Ok h) →
    l_exists w = true ∧ v_tags w = ∅ ∧ v_head w None = Some h ∧ v_rows h = [] ∧ v_branch h = None
    ∧ (∀ b, v_head w (Some b) = None);
  law_load w h : l_load w = Ok h → l_exists w = true ∧ v_head w None = Some h ∧ v_branch h = None;
  law_checkout_branch w h b h' : l_checkout_branch w h b = Ok h' →
    v_head w (Some b) = Some h' ∧ v_branch h' = Some b;
  law_list_branches w h bs : l_list_branches w h = Ok bs →
    ∀ b, b ∈ bs ↔ is_Some (v_head w (Some b));
  law_create_branch_ok w h b r w' h' : l_create_branch w h b r = (w', Ok h') →
    l_exists w' = l_exists w ∧ v_tags w' = v_tags w ∧ v_head w (Some b) = None ∧ v_head w' (Some b) = Some h' ∧ v_branch h' = Some b
    ∧ (∀ c, c ≠ Some b → v_head w' c = v_head w c)
    ∧ match r with
      | RefVersion v => l_version h' = v
      | RefTag t => ∃ c, v_tags w !! t = Some c ∧ l_version h' = tc_version c
      end;
  law_create_branch_err w h b r w' e : l_create_branch w h b r = (w', Err e) →
    v_tags w' = v_tags w ∧ same_heads w w';
  law_list_tags w h m : l_list_tags w h = Ok m → m = v_tags w;
  law_create_tag_ok w h t v w' : l_create_tag w h t v = (w', Ok tt) →
    v_tags w !! t = None ∧ same_heads w w'
    ∧ ∃ at_, v_tags w' = <[t := mkTagContents (v_branch h) v at_]> (v_tags w);
  law_create_tag_err w h t v w' e : l_create_tag w h t v = (w', Err e) →
    v_tags w' = v_tags w ∧ same_heads w w';
  law_delete_tag_ok w h t w' : l_delete_tag w h t = (w', Ok tt) →
    v_tags w' = delete t (v_tags w) ∧ same_heads w w';
  law_delete_tag_err w h t w' e : l_delete_tag w h t = (w', Err e) →
    v_tags w' = v_tags w ∧ same_heads w w';
  law_append_ok w h rows w' h' : l_append w h rows = (w', Ok h') →
    v_tags w' = v_tags w ∧ head_moved w w' h h' ∧ v_rows h' = v_rows h ++ rows
    ∧ (l_version h < l_version h')%N;
  law_append_err w h rows w' e : l_append w h rows = (w', Err e) →
    v_tags w' = v_tags w ∧ same_heads w w';
  law_delete_rows_ok w h e w' h' : l_delete_rows w h e = (w', Ok h') →
    v_tags w' = v_tags w ∧ head_moved w w' h h'
    ∧ v_rows h' = filter (λ r, row_selected e r = false) (v_rows h)
    ∧ (l_version h ≤ l_version h')%N;
  law_delete_rows_err w h e w' er : l_delete_rows w h e = (w', Err er) →
    v_tags w' = v_tags w ∧ same_heads w w';
  law_scan w h f rows : l_scan w h f = Ok rows →
    rows ≡ₚ filter (λ r, scan_keeps f r = true) (v_rows h);
}.

(** What a dataset holds of its past: the handle of each version, by branch.
    The operations of the write path only add versions and tags. *)
Class LanceVersions (W H : Type) := v_version : W → option string → N → option H.

Definition grows {W H} `{LanceView W H, LanceVersions W H} (w w' : W) : Prop :=
  v_tags w ⊆ v_tags w' ∧ ∀ b v h, v_version w b v = Some h → v_version w' b v = Some h.

#[export] Instance grows_preorder {W H} `{LanceView W H, LanceVersions W H} : PreOrder grows.
Proof.
  split.
  - intros w. by split.
  - intros w1 w2 w3 [T1 V1] [T2 V2]. split; [by etrans|eauto].
Qed.

(** What a cleanup may cost: versions that no tag stands for. *)
Definition keeps {W H} `{LanceView W H, LanceVersions W H} (w w' : W) : Prop :=
  v_tags w ⊆ v_tags w' ∧
  ∀ t c h, v_tags w !! t = Some c → v_version w (tc_branch c) (tc_version c) = Some h →
    v_version w' (tc_branch c) (tc_version c) = Some h.

#[export] Instance keeps_preorder {W H} `{LanceView W H, LanceVersions W H} : PreOrder keeps.
Proof.
  split; [by intros w; split|]. intros w1 w2 w3 [T1 V1] [T2 V2]. split; [by etrans|].
  intros t c h Ht Hv. eapply V2; [by eapply lookup_weaken|by eapply V1].
Qed.

Lemma grows_keeps {W H} `{LanceView W H, LanceVersions W H} (w w' : W) : grows w w' → keeps w w'.
Proof. intros [Ht Hv]. split; [done|]. eauto. Qed.

Class LanceVersionLaws (W H : Type) `{LanceOps W H, LanceView W H, LanceVersions W H} : Prop := {
  law_head_version w b h : v_head w b = Some h → v_version w b (l_version h) = Some h;
  law_checkout_version w h v h' : l_checkout_version w h v = Ok h' → v_version w (v_branch h) v = Some h';
  law_create_grows w w' r : l_create w = (w', r) → grows w w';
  law_append_grows w h rows w' r : l_append w h rows = (w', r) → grows w w';
  law_delete_rows_grows w h e w' r : l_delete_rows w h e = (w', r) → grows w w';
  law_create_branch_grows w h b f w' r : l_create_branch w h b f = (w', r) → grows w w';
  law_create_tag_grows w h t v w' r : l_create_tag w h t v = (w', r) → grows w w';
}.

(** ** A small dataset *)

Module RefLance.

Record handle := mkHandle {
  rh_branch : option string;
  rh_version : N;
  rh_rows : list ChunkRow;
}.

(** The version main and each branch are at, the rows of every version, tags,
    the wall clock, and the files the store can see. *)
Record dir := mkDir {
  rd_main : N;
  rd_heads : gmap string N;
  rd_versions : gmap (option string * N) (list ChunkRow);
  rd_tags : gmap string TagContents;
  rd_clock : Z;
  rd_entries : tree;
}.

(** A flat array cut in lists of [dim]. *)
Fixpoint unflatten (n dim : nat) (flat : list f32) : list (list f32) :=
  match n with
  | 0 => []
  | S n => take dim flat :: unflatten n dim (drop dim flat)
  end.

Fixpoint zip_rows (ids tys : list string) (is_ cs ts ls : list Z) (es ks : list (list f32))
    (txt : list string) : list ChunkRow :=
  match ids, tys, is_, cs, ts, ls, es, ks, txt with
  | i :: ids, ty :: tys, ix :: is_, c :: cs, t :: ts, l :: ls, e :: es, k :: ks, x :: txt =>
      mkChunkRow i ty ix c t l e k x :: zip_rows ids tys is_ cs ts ls es ks txt
  | _, _, _, _, _, _, _, _, _ => []
  end.

Definition try_new (dim : nat) (c : ChunkColumns) : result string (list ChunkRow) :=
  let n := length (col_doc_id c) in
  if (length (col_embedding c) =? n * dim)%nat && (length (col_clustering_embedding c) =? n * dim)%nat then
    Ok (zip_rows (col_doc_id c) (col_doc_type c) (col_chunk_index c) (col_chunk_count c)
          (col_chunk_token_start c) (col_doc_token_len c) (unflatten n dim (col_embedding c))
          (unflatten n dim (col_clustering_embedding c)) (col_content c))
  else Err "all columns in a record batch must have the same length".

(** A handle made the head of its branch, and a version. *)
Definition put_head (w : dir) (h : handle) : dir :=
  mkDir (match rh_branch h with None => rh_version h | Some _ => rd_main w end)
        (match rh_branch h with None => rd_heads w | Some b => <[b := rh_version h]> (rd_heads w) end)
        (<[(rh_branch h, rh_version h) := rh_rows h]> (rd_versions w)) (rd_tags w) (rd_clock w) (rd_entries w).

Definition exists_ (w : option dir) : bool := match w with Some _ => true | None => false end.

Definition create (w : option dir) : option dir * result string handle :=
  match w with
  | Some _ => (w, Err "dataset already exists")
  | None => (Some (mkDir 1 ∅ {[(None, 1%N) := []]} ∅ 0 ∅), Ok (mkHandle None 1 []))
  end.

Definition version (w : dir) (b : option string) (v : N) : option handle :=
  mkHandle b v <$> rd_versions w !! (b, v).

Definition dir_head (w : dir) (b : option string) : option handle :=
  v ← match b with None => Some (rd_main w) | Some b => rd_heads w !! b end; version w b v.
Definition head (w : option dir) (b : option string) : option handle := d ← w; dir_head d b.

Definition tags (w : option dir) : gmap string TagContents :=
  match w with Some d => rd_tags d | None => ∅ end.

Definition load (w : option dir) : result string handle := ok_or "not found" (head w None).

Definition checkout_branch (w : option dir) (h : handle) (b : string) : result string handle :=
  ok_or "branch not found" (head w (Some b)).

Definition checkout_version (w : option dir) (h : handle) (v : N) : result string handle :=
  ok_or "version not found" (d ← w; version d (rh_branch h) v).

Definition list_branches (w : option dir) (h : handle) : result string (list string) :=
  match w with
  | Some d => Ok (filter (λ b, is_Some (dir_head d (Some b))) (map fst (map_to_list (rd_heads d))))
  | None => Err "not found"
  end.

(** An operation on a dataset that is there. *)
Definition on_dir {A} (w : option dir) (f : dir → dir * result string A) : option dir * result string A :=
  match w with
  | None => (None, Err "dataset not found")
  | Some d => let '(d', r) := f d in (Some d', r)
  end.

Definition resolve_ref (w : dir) (h : handle) (r : LanceRef) : result string (N * list ChunkRow) :=
  match r with
  | RefVersion v => (λ rows, (v, rows)) <$> ok_or "version not found" (rd_versions w !! (rh_branch h, v))
  | RefTag t =>
      match rd_tags w !! t with
      | None => Err ("Ref not found: tag " +:+ t +:+ " does not exist")
      | Some c => (λ rows, (tc_version c, rows)) <$>
                    ok_or "version not found" (rd_versions w !! (tc_branch c, tc_version c))
      end
  end.

(** A branch starts at the version it is forked from. *)
Definition create_branch (w : option dir) (h : handle) (b : string) (r : LanceRef) : option dir * result string handle :=
  on_dir w (λ d,
    match rd_heads d !! b, resolve_ref d h r with
    | Some _, _ => (d, Err ("branch " +:+ b +:+ " already exists"))
    | None, Err e => (d, Err e)
    | None, Ok (v, rows) =>
        let h' := mkHandle (Some b) v rows in
        match rd_versions d !! (Some b, v) with
        | Some _ => (d, Err "version already exists")
        | None => (put_head d h', Ok h')
        end
    end).

Definition delete_branch (w : option dir) (h : handle) (b : string) : option dir * result string unit :=
  on_dir w (λ d,
    match rd_heads d !! b with
    | None => (d, Err "branch not found")
    | Some _ => (mkDir (rd_main d) (delete b (rd_heads d)) (rd_versions d) (rd_tags d) (rd_clock d) (rd_entries d), Ok tt)
    end).

Definition set_tags (d : dir) (ts : gmap string TagContents) : dir :=
  mkDir (rd_main d) (rd_heads d) (rd_versions d) ts (rd_clock d + 1) (rd_entries d).

Definition create_tag (w : option dir) (h : handle) (t : string) (v : N) : option dir * result string unit :=
  on_dir w (λ d,
    match rd_tags d !! t, rd_versions d !! (rh_branch h, v) with
    | Some _, _ => (d, Err "tag already exists")
    | None, None => (d, Err "version does not exist")
    | None, Some _ => (set_tags d (<[t := mkTagContents (rh_branch h) v (rd_clock d)]> (rd_tags d)), Ok tt)
    end).

Definition delete_tag (w : option dir) (h : handle) (t : string) : option dir * result string unit :=
  on_dir w (λ d,
    match rd_tags d !! t with
    | None => (d, Err "tag not found")
    | Some _ => (set_tags d (delete t (rd_tags d)), Ok tt)
    end).

(** A new version at the head of the branch of [h]; a version that is there is
    a conflict. *)
Definition commit_version (w : option dir) (h : handle) (rows : list ChunkRow) : option dir * result string handle :=
  on_dir w (λ d,
    let h' := mkHandle (rh_branch h) (rh_version h + 1) rows in
    match rd_versions d !! (rh_branch h, rh_version h + 1)%N with
    | Some _ => (d, Err "commit conflict")
    | None => (put_head d h', Ok h')
    end).

Definition append (w : option dir) (h : handle) (rows : list ChunkRow) : option dir * result string handle :=
  commit_version w h (rh_rows h ++ rows).

Definition delete_rows (w : option dir) (h : handle) (e : Expr) : option dir * result string handle :=
  commit_version w h (filter (λ r, row_selected e r = false) (rh_rows h)).

Definition scan (w : option dir) (h : handle) (f : option Expr) : result string (list ChunkRow) :=
  Ok (filter (λ r, scan_keeps f r = true) (rh_rows h)).

#[export] Instance ops : LanceOps (option dir) handle := {|
  l_try_new := try_new; l_absent := None; l_exists := exists_; l_remove _ := (None, Ok tt);
  l_create := create; l_load := load; l_version := rh_version;
  l_checkout_branch := checkout_branch; l_checkout_version := checkout_version;
  l_list_branches := list_branches; l_create_branch := create_branch;
  l_delete_branch := delete_branch; l_list_tags w _ := Ok (tags w);
  l_create_tag := create_tag; l_delete_tag := delete_tag; l_append := append;
  l_delete_rows := delete_rows; l_scan := scan |}.

#[export] Instance view : LanceView (option dir) handle := {|
  v_tags := tags; v_head := head; v_rows := rh_rows; v_branch := rh_branch |}.

Lemma unflatten_concat dim l :
  Forall (λ x, length x = dim) l → unflatten (length l) dim (concat l) = l.
Proof.
  induction 1 as [|x l Hx Hl IH]; [done|]. cbn.
  by rewrite take_app_length', drop_app_length', IH by done.
Qed.

Lemma length_concat_width dim (l : list (list f32)) :
  Forall (λ x, length x = dim) l → length (concat l) = length l * dim.
Proof. induction 1 as [|x l Hx Hl IH]; cbn; [done|]. rewrite length_app. lia. Qed.

Lemma zip_rows_columns rows :
  zip_rows (map cr_doc_id rows) (map cr_doc_type rows) (map cr_chunk_index rows)
    (map cr_chunk_count rows) (map cr_chunk_token_start rows) (map cr_doc_token_len rows)
    (map cr_embedding rows) (map cr_clustering_embedding rows) (map cr_content rows) = rows.
Proof. induction rows as [|[] rows IH]; cbn; [done|]. by rewrite IH. Qed.

Lemma try_new_columns dim rows :
  Forall (row_width dim) rows → try_new dim (rows_columns rows) = Ok rows.
Proof.
  intros Hw.
  assert (He : Forall (λ x, length x = dim) (map cr_embedding rows)).
  { apply Forall_map. eapply Forall_impl; [done|]. by intros r []. }
  assert (Hc : Forall (λ x, length x = dim) (map cr_clustering_embedding rows)).
  { apply Forall_map. eapply Forall_impl; [done|]. by intros r []. }
  unfold try_new. cbn [rows_columns col_doc_id col_embedding col_clustering_embedding
    col_doc_type col_chunk_index col_chunk_count col_chunk_token_start col_doc_token_len col_content].
  rewrite (length_concat_width dim _ He), (length_concat_width dim _ Hc), !length_map.
  rewrite Nat.eqb_refl. cbn [andb].
  rewrite <-(length_map cr_embedding rows) at 1. rewrite (unflatten_concat dim _ He).
  rewrite <-(length_map cr_clustering_embedding rows). rewrite (unflatten_concat dim _ Hc).
  by rewrite zip_rows_columns.
Qed.

Lemma head_put_same d h : head (Some (put_head d h)) (rh_branch h) = Some h.
Proof.
  cbn. unfold dir_head, version. destruct h as [[b|] v r]; cbn; rewrite ?lookup_insert_eq; cbn; by rewrite ?lookup_insert_eq.
Qed.

Lemma head_put_other d h b : b ≠ rh_branch h → head (Some (put_head d h)) b = head (Some d) b.
Proof.
  intros Hb. cbn. unfold dir_head, version. destruct h as [[c|] v r], b as [b|]; cbn in *; try done.
  - rewrite lookup_insert_ne by congruence. destruct (rd_heads d !! b); [|done]. cbn. by rewrite lookup_insert_ne by congruence.
  - by rewrite lookup_insert_ne by congruence.
  - destruct (rd_heads d !! b); [|done]. cbn. by rewrite lookup_insert_ne by congruence.
Qed.

Lemma head_version d b h : dir_head d b = Some h → version d b (rh_version h) = Some h ∧ rh_branch h = b.
Proof.
  unfold dir_head. intros (v & _ & Hh)%bind_Some. assert (rh_version h = v ∧ rh_branch h = b) as [-> ->]; [|done].
  unfold version in Hh. by apply fmap_Some in Hh as (rows & _ & ->).
Qed.

Lemma head_bound w b h : head w b = Some h → rh_branch h = b.
Proof. destruct w as [d|]; [|done]. by intros [_ Hb]%head_version. Qed.

Lemma commit_version_ok w h rows w' h' :
  commit_version w h rows = (w', Ok h') →
  tags w' = tags w ∧ head_moved w w' h h' ∧ h' = mkHandle (rh_branch h) (rh_version h + 1) rows.
Proof.
  unfold commit_version. destruct w as [d|]; [|done]. cbn [on_dir]. cbv zeta.
  destruct (rd_versions d !! _) eqn:Ev; [done|]. intros [= <- <-].
  split; [done|]. split; [|done]. split; [done|]. split; [done|]. split.
  - apply (head_put_same d (mkHandle (rh_branch h) _ _)).
  - intros b Hne. by apply (head_put_other d (mkHandle _ _ _)).
Qed.

Lemma commit_version_err w h rows w' e : commit_version w h rows = (w', Err e) → w' = w.
Proof. destruct w as [d|]; cbn; [|congruence]. destruct (rd_versions d !! _); congruence. Qed.

Lemma same_heads_refl (w : option dir) : same_heads w w.
Proof. by split. Qed.

Lemma same_heads_tags d ts : same_heads (Some d) (Some (set_tags d ts)).
Proof. by split. Qed.

Lemma list_branches_spec w h bs :
  list_branches w h = Ok bs → ∀ b, b ∈ bs ↔ is_Some (head w (Some b)).
Proof.
  destruct w as [d|]; [|done]. intros [= <-] b. rewrite list_elem_of_filter. split; [by intros [? _]|].
  intros Hs. split; [done|]. destruct Hs as [h0 Hh]. cbn in Hh. unfold dir_head in Hh.
  apply bind_Some in Hh as (v & Hv & _). apply list_elem_of_fmap. exists (b, v). split; [done|]. by apply elem_of_map_to_list.
Qed.

Lemma resolve_ref_ok d h r v rows :
  resolve_ref d h r = Ok (v, rows) →
  match r with
  | RefVersion v0 => v = v0
  | RefTag t => ∃ c, rd_tags d !! t = Some c ∧ v = tc_version c
  end.
Proof.
  destruct r as [v0|t]; cbn.
  - by destruct (rd_versions d !! _); cbn; intros [= <- _].
  - destruct (rd_tags d !! t) as [c|]; [|done]. destruct (rd_versions d !! _); cbn; [|done].
    intros [= <- _]. by exists c.
Qed.

Lemma create_branch_spec w h b r w' h' :
  create_branch w h b r = (w', Ok h') →
  exists_ w' = exists_ w ∧ tags w' = tags w ∧ head w (Some b) = None ∧ head w' (Some b) = Some h'
  ∧ rh_branch h' = Some b ∧ (∀ c, c ≠ Some b → head w' c = head w c)
  ∧ match r with
    | RefVersion v => rh_version h' = v
    | RefTag t => ∃ c, tags w !! t = Some c ∧ rh_version h' = tc_version c
    end.
Proof.
  unfold create_branch. destruct w as [d|]; [|done]. cbn [on_dir].
  destruct (rd_heads d !! b) eqn:E; [done|].
  destruct (resolve_ref d h r) as [[v rows]|] eqn:Er; [|done]. cbv zeta.
  destruct (rd_versions d !! (Some b, v)); [done|]. intros [= <- <-].
  apply resolve_ref_ok in Er. split; [done|]. split; [done|].
  split; [cbn; unfold dir_head; by rewrite E|].
  split; [apply (head_put_same d (mkHandle (Some b) _ _))|]. split; [done|].
  split; [intros c Hc; by apply (head_put_other d (mkHandle _ _ _))|]. by destruct r.
Qed.

Lemma create_branch_err w h b r w' e : create_branch w h b r = (w', Err e) → w' = w.
Proof.
  unfold create_branch. destruct w as [d|]; cbn [on_dir]; [|congruence].
  destruct (rd_heads d !! b); [congruence|]. destruct (resolve_ref d h r) as [[v rows]|]; cbv zeta; [|congruence].
  destruct (rd_versions d !! (Some b, v)); congruence.
Qed.

#[export] Instance laws : LanceLaws (option dir) handle.
Proof.
  split.
  - apply try_new_columns.
  - done.
  - by intros [].
  - by intros w w' [= <-].
  - intros [d|] w h; [done|]. cbn. intros [= <- <-]. done.
  - intros [d|] h; [|done]. cbn -[head]. unfold load. destruct (head (Some d) None) as [h0|] eqn:Eh; [|done].
    intros [= <-]. split; [done|]. split; [done|]. by apply head_bound in Eh.
  - intros w h b h'. cbn. unfold checkout_branch. destruct (head w (Some b)) as [h0|] eqn:E; [|done].
    intros [= <-]. by apply head_bound in E as ?.
  - apply list_branches_spec.
  - apply create_branch_spec.
  - intros w h b r w' e ->%create_branch_err. split; [done|apply same_heads_refl].
  - by intros w h m [= <-].
  - intros [d|] h t v w'; [|done]. cbn. destruct (rd_tags d !! t); [done|].
    destruct (rd_versions d !! _); [|done]. intros [= <-]. split; [done|].
    split; [apply same_heads_tags|]. by exists (rd_clock d).
  - intros [d|] h t v w' e; cbn; [|intros [= <- _]; split; [done|apply same_heads_refl]].
    destruct (rd_tags d !! t); [|destruct (rd_versions d !! _)]; intros [= <- _];
      (split; [done|apply same_heads_refl]).
  - intros [d|] h t w'; [|done]. cbn. destruct (rd_tags d !! t); [|done]. intros [= <-].
    split; [done|apply same_heads_tags].
  - intros [d|] h t w' e; cbn; [|intros [= <- _]; split; [done|apply same_heads_refl]].
    destruct (rd_tags d !! t); [done|]. intros [= <- _]. split; [done|apply same_heads_refl].
  - intros w h rows w' h' (? & ? & ->)%commit_version_ok. split; [done|]. split; [done|]. split; [done|].
    cbn. lia.
  - intros w h rows w' e ->%commit_version_err. split; [done|apply same_heads_refl].
  - intros w h e w' h' (? & ? & ->)%commit_version_ok. split; [done|]. split; [done|]. split; [done|].
    cbn. lia.
  - intros w h e w' er ->%commit_version_err. split; [done|apply same_heads_refl].
  - by intros w h f rows [= <-].
Qed.

#[export] Instance versions : LanceVersions (option dir) handle := λ w b v, d ← w; version d b v.

Lemma put_head_grows d h :
  rd_versions d !! (rh_branch h, rh_version h) = None → grows (Some d) (Some (put_head d h)).
Proof.
  intros Hn. split; [done|]. intros b v h0. unfold v_version, versions. cbn. unfold version. intros (rows & Hv & ->)%fmap_Some.
  cbn. rewrite lookup_insert_ne; [by rewrite Hv|]. congruence.
Qed.

Lemma commit_version_grows w h rows w' r : commit_version w h rows = (w', r) → grows w w'.
Proof.
  unfold commit_version. destruct w as [d|]; cbn [on_dir]; [|by intros [= <- _]]. cbv zeta.
  destruct (rd_versions d !! _) eqn:Ev; intros [= <- _]; [done|]. by apply put_head_grows.
Qed.

#[export] Instance version_laws : LanceVersionLaws (option dir) handle.
Proof.
  split.
  - intros [d|] b h; [|done]. by intros [Hv _]%head_version.
  - intros [d|] h v h'; unfold v_version, versions; cbn; unfold checkout_version; cbn; [|done].
    destruct (version d _ _); cbn; congruence.
  - intros [d|] w' r; cbn; intros [= <- _]; [done|]. split; [apply map_empty_subseteq|done].
  - intros w h rows w' r. apply commit_version_grows.
  - intros w h e w' r. apply commit_version_grows.
  - intros [d|] h b f w' r; cbn; unfold create_branch; cbn [on_dir]; [|by intros [= <- _]].
    destruct (rd_heads d !! b); [by intros [= <- _]|]. destruct (resolve_ref d h f) as [[v rows]|]; cbv zeta; [|by intros [= <- _]].
    destruct (rd_versions d !! (Some b, v)) eqn:Ev; intros [= <- _]; [done|]. by apply put_head_grows.
  - intros [d|] h t v w' r; cbn; [|by intros [= <- _]]. destruct (rd_tags d !! t) eqn:Et; [by intros [= <- _]|].
    destruct (rd_versions d !! (rh_branch h, v)); intros [= <- _]; [|done]. split; [|done]. by apply insert_subseteq.
Qed.

End RefLance.
