(* ===== verification/DatasetCache.v ===== *)
(** * The cache of dataset handles (src/src/store/lance/mod.rs)

    The LRU-bounded map of open dataset handles: a hit bumps the entry's stamp,
    an insertion or a replacement evicts the entries with the smallest stamps
    while the map is over its bound. *)

From S2P Require Import Prelude.

Definition DEFAULT_DATASET_CACHE_MAX : nat := 128.

Record DatasetCacheEntry (H : Type) := mkEntry { ce_ds : H; ce_last_access : N }.
Arguments mkEntry {H}. Arguments ce_ds {H}. Arguments ce_last_access {H}.

(** The three fields of the store the cache is made of. *)
Record DatasetCache (H : Type) := mkCache {
  dc_datasets : gmap string (DatasetCacheEntry H);
  dc_max : nat;
  dc_seq : N;
}.
Arguments mkCache {H}. Arguments dc_datasets {H}. Arguments dc_max {H}. Arguments dc_seq {H}.

Definition empty_cache {H} : DatasetCache H := mkCache ∅ DEFAULT_DATASET_CACHE_MAX 0.

(** [set_dataset_cache_max]. *)
Definition set_dataset_cache_max {H} (c : DatasetCache H) (max : nat) : DatasetCache H :=
  mkCache (dc_datasets c) (Nat.max max 1) (dc_seq c).

(** [fetch_add(1)] on an [AtomicU64] wraps. *)
Definition next_seq (seq : N) : N := ((seq + 1) mod 2 ^ 64)%N.

Section cache.
Context {H : Type} {HI : HashIter string (DatasetCacheEntry H)}.

(** An entry stored with the next stamp: what [touch_entry] does to the entry
    of a hit and [upsert_entry] to a new handle. *)
Definition stamp_entry (c : DatasetCache H) (domain : string) (ds : H) : DatasetCache H :=
  mkCache (<[domain := mkEntry ds (dc_seq c)]> (dc_datasets c)) (dc_max c) (next_seq (dc_seq c)).

Definition touch_entry (c : DatasetCache H) (domain : string) (e : DatasetCacheEntry H) : DatasetCache H :=
  stamp_entry c domain (ce_ds e).

Definition upsert_entry (c : DatasetCache H) (domain : string) (ds : H) : DatasetCache H :=
  stamp_entry c domain ds.

(** [Iterator::min_by_key]: the first of the entries with the least stamp. *)
Definition oldest_step (acc : option (string * DatasetCacheEntry H)) (kv : string * DatasetCacheEntry H) :=
  match acc with
  | None => Some kv
  | Some best => if (ce_last_access kv.2 <? ce_last_access best.2)%N then Some kv else Some best
  end.

Definition oldest (m : gmap string (DatasetCacheEntry H)) : option string :=
  fst <$> foldl oldest_step None (hash_iter m).

(** The [while] loop of [evict_lru_if_over]: each round removes an entry, so
    the size of the map is fuel enough. *)
Fixpoint evict_loop (fuel max : nat) (m : gmap string (DatasetCacheEntry H)) :=
  match fuel with
  | 0 => m
  | S fuel =>
      if (max <? size m)%nat then
        match oldest m with
        | Some domain => evict_loop fuel max (delete domain m)
        | None => m
        end
      else m
  end.

Definition evict_lru_if_over (c : DatasetCache H) : DatasetCache H :=
  mkCache (evict_loop (size (dc_datasets c)) (dc_max c) (dc_datasets c)) (dc_max c) (dc_seq c).

(** The cache part of [io_open_dataset]: a hit. *)
Definition cache_hit (c : DatasetCache H) (domain : string) : option (H * DatasetCache H) :=
  e ← dc_datasets c !! domain; Some (ce_ds e, touch_entry c domain e).

Definition insert_cached_dataset (c : DatasetCache H) (domain : string) (ds : H) : H * DatasetCache H :=
  match dc_datasets c !! domain with
  | Some existing => (ce_ds existing, touch_entry c domain existing)
  | None => (ds, evict_lru_if_over (upsert_entry c domain ds))
  end.

Definition replace_cached_dataset (c : DatasetCache H) (domain : string) (ds : H) : DatasetCache H :=
  evict_lru_if_over (upsert_entry c domain ds).

(** ** Well-formed caches

    Stamps are handed out in increasing order, so they are distinct and below
    the counter; the map is within its bound. *)
Record cache_wf (c : DatasetCache H) : Prop := {
  wf_max : 1 ≤ dc_max c;
  wf_size : size (dc_datasets c) ≤ dc_max c;
  wf_fresh d e : dc_datasets c !! d = Some e → (ce_last_access e < dc_seq c)%N;
  wf_distinct d1 d2 e1 e2 : dc_datasets c !! d1 = Some e1 → dc_datasets c !! d2 = Some e2 →
    ce_last_access e1 = ce_last_access e2 → d1 = d2;
}.

Lemma empty_cache_wf : cache_wf empty_cache.
Proof.
  split; cbn; [unfold DEFAULT_DATASET_CACHE_MAX; lia|rewrite map_size_empty; lia|..];
    intros *; rewrite lookup_empty; done.
Qed.

Lemma foldl_oldest l acc r :
  foldl oldest_step acc l = Some r →
  (r ∈ l ∨ acc = Some r) ∧
  (∀ x, x ∈ l ∨ acc = Some x → (ce_last_access r.2 ≤ ce_last_access x.2)%N).
Proof.
  revert acc; induction l as [|y l IH]; intros acc Hr; cbn in Hr.
  { subst acc. split; [by right|]. intros x [[]%elem_of_nil|[= ->]]; done. }
  destruct (IH _ Hr) as [Hin Hmin]. split.
  - destruct Hin as [?|Hacc]; [left; by right|].
    destruct acc as [b|]; cbn in Hacc; [|injection Hacc as ->; left; by left].
    destruct (_ <? _)%N; injection Hacc as ->; [left; by left|by right].
  - intros x Hx. destruct acc as [b|]; cbn in Hmin.
    + destruct (ce_last_access y.2 <? ce_last_access b.2)%N eqn:E;
        [apply N.ltb_lt in E|apply N.ltb_ge in E].
      * destruct Hx as [[->|Hx]%elem_of_cons|[= <-]]; [apply Hmin; by right|apply Hmin; by left|].
        specialize (Hmin y (or_intror eq_refl)). lia.
      * destruct Hx as [[->|Hx]%elem_of_cons|[= <-]]; [|apply Hmin; by left|apply Hmin; by right].
        specialize (Hmin b (or_intror eq_refl)). lia.
    + destruct Hx as [[->|Hx]%elem_of_cons|]; [apply Hmin; by right|apply Hmin; by left|done].
Qed.

Lemma foldl_oldest_some l a : is_Some (foldl oldest_step (Some a) l).
Proof. revert a; induction l as [|y l IH]; intros a; cbn; [eauto|]. case_match; apply IH. Qed.

(** The entry to evict is present and no entry is older. *)
Lemma oldest_spec m d :
  oldest m = Some d → ∃ e, m !! d = Some e ∧ ∀ d' e', m !! d' = Some e' →
    (ce_last_access e ≤ ce_last_access e')%N.
Proof.
  unfold oldest. intros ([d0 e] & Hf & ->)%fmap_Some. apply foldl_oldest in Hf as [Hin Hmin].
  destruct Hin as [Hin|]; [|done]. apply hash_iter_elem in Hin.
  exists e. split; [done|]. intros d' e' He'. apply (Hmin (d', e')). left. by apply hash_iter_elem.
Qed.

Lemma oldest_some m : m ≠ ∅ → is_Some (oldest m).
Proof.
  intros Hm. unfold oldest. apply fmap_is_Some.
  destruct (map_choose m Hm) as (d & e & He). apply (hash_iter_elem m) in He.
  destruct (hash_iter m) as [|x l]; [by apply elem_of_nil in He|]. apply foldl_oldest_some.
Qed.

(** With one entry too many, exactly one entry is evicted. *)
Lemma evict_one c d :
  size (dc_datasets c) = S (dc_max c) → oldest (dc_datasets c) = Some d →
  evict_lru_if_over c = mkCache (delete d (dc_datasets c)) (dc_max c) (dc_seq c).
Proof.
  intros Hs Hd. unfold evict_lru_if_over. rewrite Hs. cbn [evict_loop].
  rewrite (proj2 (Nat.ltb_lt _ _)) by lia. rewrite Hd. f_equal.
  destruct (oldest_spec _ _ Hd) as (e & He & _).
  destruct (dc_max c) as [|n]; [done|]. cbn [evict_loop].
  rewrite (map_size_delete_Some _ _ (mk_is_Some _ e He)), Hs. cbn [Nat.pred].
  by rewrite (proj2 (Nat.ltb_ge _ _)) by lia.
Qed.

Lemma evict_none c : size (dc_datasets c) ≤ dc_max c → evict_lru_if_over c = c.
Proof.
  intros Hs. destruct c as [m mx sq]. unfold evict_lru_if_over. cbn in *. f_equal.
  destruct (size m) eqn:E; cbn [evict_loop]; [done|].
  by rewrite (proj2 (Nat.ltb_ge _ _)) by lia.
Qed.

(** Eviction only removes. *)
Lemma evict_subset c d e :
  dc_datasets (evict_lru_if_over c) !! d = Some e → dc_datasets c !! d = Some e.
Proof.
  cbn. generalize (size (dc_datasets c)) as fuel. generalize (dc_datasets c) as m.
  intros m fuel; revert m; induction fuel as [|fuel IH]; intros m; cbn [evict_loop]; [done|].
  destruct (_ <? _)%nat; [|done]. destruct (oldest m); [|done].
  by intros [_ ?]%IH%lookup_delete_Some.
Qed.

Lemma next_seq_small s : (s + 1 < 2 ^ 64)%N → next_seq s = (s + 1)%N.
Proof. intros Hs. unfold next_seq. by rewrite N.mod_small. Qed.

(** What storing an entry under a fresh stamp preserves. *)
Lemma stamp_entry_stamps c d ds :
  cache_wf c → (dc_seq c + 1 < 2 ^ 64)%N →
  let c' := stamp_entry c d ds in
  (∀ k e, dc_datasets c' !! k = Some e → (ce_last_access e < dc_seq c')%N) ∧
  (∀ k1 k2 e1 e2, dc_datasets c' !! k1 = Some e1 → dc_datasets c' !! k2 = Some e2 →
    ce_last_access e1 = ce_last_access e2 → k1 = k2).
Proof.
  intros Hwf Hs. cbn. rewrite next_seq_small by done.
  pose proof (wf_fresh _ Hwf) as Hf. split.
  - intros k e [[<- <-]|[Hk He]]%lookup_insert_Some; cbn; [lia|]. specialize (Hf _ _ He). lia.
  - intros k1 k2 e1 e2 [[<- <-]|[Hk1 He1]]%lookup_insert_Some [[<- <-]|[Hk2 He2]]%lookup_insert_Some;
      cbn; intros Heq.
    + done.
    + specialize (Hf _ _ He2). lia.
    + specialize (Hf _ _ He1). lia.
    + by apply (wf_distinct _ Hwf k1 k2 e1 e2).
Qed.

Lemma evict_wf c d :
  1 ≤ dc_max c →
  (∀ k e, dc_datasets c !! k = Some e → (ce_last_access e < dc_seq c)%N) →
  (∀ k1 k2 e1 e2, dc_datasets c !! k1 = Some e1 → dc_datasets c !! k2 = Some e2 →
    ce_last_access e1 = ce_last_access e2 → k1 = k2) →
  size (dc_datasets c) = S (dc_max c) → oldest (dc_datasets c) = Some d →
  cache_wf (evict_lru_if_over c).
Proof.
  intros Hm Hf Hd Hs Ho. rewrite (evict_one c d Hs Ho).
  destruct (oldest_spec _ _ Ho) as (e & He & _). split; cbn.
  - done.
  - rewrite (map_size_delete_Some _ _ (mk_is_Some _ e He)). lia.
  - intros k e' [_ He']%lookup_delete_Some. eauto.
  - intros k1 k2 e1 e2 [_ H1]%lookup_delete_Some [_ H2]%lookup_delete_Some. eauto.
Qed.

Lemma touch_wf c d e :
  cache_wf c → (dc_seq c + 1 < 2 ^ 64)%N → dc_datasets c !! d = Some e → cache_wf (touch_entry c d e).
Proof.
  intros Hwf Hs He. destruct (stamp_entry_stamps c d (ce_ds e) Hwf Hs) as [Hf Hd].
  split; [apply (wf_max _ Hwf)| |done|done].
  cbn. rewrite map_size_insert_Some by eauto. apply (wf_size _ Hwf).
Qed.

(** What an upsert followed by an eviction does to a well-formed cache. *)
Lemma upsert_evict c d ds :
  cache_wf c → (dc_seq c + 1 < 2 ^ 64)%N →
  let c' := evict_lru_if_over (upsert_entry c d ds) in
  cache_wf c' ∧
  dc_datasets c' !! d = Some (mkEntry ds (dc_seq c)) ∧
  ((is_Some (dc_datasets c !! d) ∨ size (dc_datasets c) < dc_max c) ∧
     (∀ k, k ≠ d → dc_datasets c' !! k = dc_datasets c !! k)
   ∨ dc_datasets c !! d = None ∧ size (dc_datasets c) = dc_max c ∧
     ∃ v ev, v ≠ d ∧ dc_datasets c !! v = Some ev ∧ dc_datasets c' !! v = None ∧
       (∀ k, k ≠ d → k ≠ v → dc_datasets c' !! k = dc_datasets c !! k) ∧
       (∀ k e, dc_datasets c !! k = Some e → k ≠ v → (ce_last_access ev < ce_last_access e)%N)).
Proof.
  intros Hwf Hs. cbn zeta. destruct (stamp_entry_stamps c d ds Hwf Hs) as [Hf Hd].
  pose proof (wf_size _ Hwf) as Hsz. pose proof (wf_max _ Hwf) as Hmx.
  destruct (decide (size (dc_datasets (upsert_entry c d ds)) ≤ dc_max c)) as [Hle|Hgt].
  - rewrite evict_none by done. split; [by split|]. split; [cbn; by rewrite lookup_insert_eq|].
    left. split.
    + destruct (dc_datasets c !! d) eqn:E; [left; eauto|right].
      cbn in Hle. rewrite map_size_insert_None in Hle by done. lia.
    + intros k Hk. cbn. by rewrite lookup_insert_ne.
  - assert (dc_datasets c !! d = None) as Hnone.
    { destruct (dc_datasets c !! d) eqn:E; [|done]. cbn in Hgt.
      rewrite map_size_insert_Some in Hgt by eauto. lia. }
    assert (size (dc_datasets (upsert_entry c d ds)) = S (dc_max c)) as Hsize.
    { cbn in *. rewrite map_size_insert_None in * by done. lia. }
    destruct (oldest_some (dc_datasets (upsert_entry c d ds))) as [v Hv].
    { intros Hemp. rewrite Hemp, map_size_empty in Hsize. lia. }
    split; [by eapply evict_wf|].
    rewrite (evict_one (upsert_entry c d ds) v Hsize Hv). cbn.
    destruct (oldest_spec _ _ Hv) as (ev & Hev & Hmin). cbn in Hev, Hmin.
    assert (v ≠ d) as Hvd.
    { intros ->. rewrite lookup_insert_eq in Hev. injection Hev as <-. cbn in Hmin.
      destruct (map_choose (dc_datasets c)) as (k & e & He).
      { intros Hemp. cbn in Hsize. rewrite map_size_insert_None, Hemp, map_size_empty in Hsize by done.
        lia. }
      pose proof (wf_fresh _ Hwf _ _ He). specialize (Hmin k e).
      rewrite lookup_insert_ne in Hmin by congruence. specialize (Hmin He). lia. }
    rewrite lookup_insert_ne in Hev by done.
    split; [by rewrite lookup_delete_ne, lookup_insert_eq by done|].
    right. split; [done|]. split.
    { cbn in Hsize. rewrite map_size_insert_None in Hsize by done. lia. }
    exists v, ev. split; [done|]. split; [done|]. split; [by rewrite lookup_delete_eq|]. split.
    + intros k Hkd Hkv. by rewrite lookup_delete_ne, lookup_insert_ne by done.
    + intros k e He Hkv. assert (k ≠ d) by congruence.
      specialize (Hmin k e). rewrite lookup_insert_ne in Hmin by done. specialize (Hmin He).
      assert (ce_last_access ev ≠ ce_last_access e); [|lia].
      intros Heq. apply Hkv. symmetry. by apply (wf_distinct _ Hwf v k ev e).
Qed.

(** Inserting a freshly opened handle: a concurrent opener's entry wins (and is
    stamped); otherwise the new handle is cached with the latest stamp, every
    other entry is kept while there is room, and the one entry evicted from a
    full cache is the one used least recently.  The bound always holds. *)
Theorem insert_cached_lru c d ds :
  cache_wf c → (dc_seq c + 1 < 2 ^ 64)%N →
  let '(h, c') := insert_cached_dataset c d ds in
  cache_wf c' ∧ dc_max c' = dc_max c ∧
  dc_datasets c' !! d = Some (mkEntry h (dc_seq c)) ∧
  match dc_datasets c !! d with
  | Some e => h = ce_ds e ∧ ∀ k, k ≠ d → dc_datasets c' !! k = dc_datasets c !! k
  | None => h = ds ∧
      if decide (size (dc_datasets c) < dc_max c)
      then ∀ k, k ≠ d → dc_datasets c' !! k = dc_datasets c !! k
      else ∃ v ev, dc_datasets c !! v = Some ev ∧ dc_datasets c' !! v = None ∧
             (∀ k, k ≠ d → k ≠ v → dc_datasets c' !! k = dc_datasets c !! k) ∧
             (∀ k e, dc_datasets c !! k = Some e → k ≠ v → (ce_last_access ev < ce_last_access e)%N)
  end.
Proof.
  intros Hwf Hs. unfold insert_cached_dataset. destruct (dc_datasets c !! d) as [e|] eqn:Ed.
  - split; [by apply touch_wf|]. split; [done|]. split; [cbn; by rewrite lookup_insert_eq|].
    split; [done|]. intros k Hk. cbn. by rewrite lookup_insert_ne.
  - destruct (upsert_evict c d ds Hwf Hs) as (Hwf' & Hin & Hcases). rewrite Ed in Hcases.
    split; [done|]. split; [done|]. split; [done|]. split; [done|].
    destruct Hcases as [[[[? [=]]|Hlt] Hk]|(_ & Hfull & v & ev & _ & Hv & Hv' & Hk & Hmin)].
    + by rewrite decide_True by done.
    + rewrite decide_False by lia. by exists v, ev.
Qed.
End cache.

(** A full cache of two handles: the one not touched since goes. *)
Lemma insert_cached_lru_witness :
  let c := mkCache {["a" := mkEntry 1 0%N; "b" := mkEntry 2 1%N]} 2 2 in
  let c1 := touch_entry c "a" (mkEntry 1 0%N) in
  cache_wf c1 ∧
  dc_datasets (insert_cached_dataset (HI:=map_order) c1 "z" 3).2
    = {["a" := mkEntry 1 2%N; "z" := mkEntry 3 3%N]} ∧
  let '(h, c') := insert_cached_dataset (HI:=map_order) c1 "z" 3 in cache_wf c'.
Proof.
  cbn zeta. assert (Hwf : cache_wf (touch_entry (mkCache {["a" := mkEntry 1 0%N; "b" := mkEntry 2 1%N]} 2 2) "a" (mkEntry 1 0%N))).
  { apply touch_wf; [|done|done]. split; cbn; [lia|done| |].
    - intros d e [[<- <-]|[? [<- <-]%lookup_singleton_Some]]%lookup_insert_Some; done.
    - intros d1 d2 e1 e2 [[<- <-]|[? [<- <-]%lookup_singleton_Some]]%lookup_insert_Some
        [[<- <-]|[? [<- <-]%lookup_singleton_Some]]%lookup_insert_Some; done. }
  split; [done|]. split; [by vm_compute|].
  pose proof (insert_cached_lru (HI:=map_order) _ "z" 3 Hwf eq_refl) as Ht.
  destruct (insert_cached_dataset _ _ _) as [h c']. exact (proj1 Ht).
Defined.
