(* ===== verification/Store.v ===== *)
(** * The store: state, datasets and branches
      (src/src/store/lance/mod.rs, src/src/store/branch.rs)

    [LanceStore] is the state the process keeps beside the datasets on disk,
    and the disk itself: one dataset directory per domain, by directory name.
    The operations are functions of a state-and-error monad; each is one atomic
    step here (the locks they take are the subject of Locks and Push).  The
    Lance library is the class parameter of Lance. *)

From S2P Require Import Prelude F32 RustStr Model LayerIdx Schema Search Lance DatasetCache.

Definition BranchKey : Type := string * string.
Definition CommitKey : Type := string * string * string.

(** [BranchIndex] of layeridx. *)
Record BranchIndex := mkBranchIndex { bi_commit : option string; bi_version : N }.
#[export] Instance BranchIndex_eq_dec : EqDecision BranchIndex. Proof. solve_decision. Defined.

Inductive CleanupMode : Type := CurrentCode | TargetNoPatch | TargetWithPatch.
#[export] Instance CleanupMode_eq_dec : EqDecision CleanupMode. Proof. solve_decision. Defined.

Definition hide_indices (m : CleanupMode) : bool :=
  match m with CurrentCode => true | _ => false end.

Definition disable_clean_referenced_branches (m : CleanupMode) : bool :=
  match m with TargetNoPatch | TargetWithPatch => true | _ => false end.

(** The [repr(u8)] of a mode, and the mode a stored byte is read as. *)
Definition cleanup_mode_as_u8 (m : CleanupMode) : Z :=
  match m with CurrentCode => 0 | TargetNoPatch => 1 | TargetWithPatch => 2 end.

Definition cleanup_mode_of_u8 (raw : Z) : CleanupMode :=
  if (raw =? 0)%Z then CurrentCode
  else if (raw =? 1)%Z then TargetNoPatch
  else if (raw =? 2)%Z then TargetWithPatch else CurrentCode.

(** The paths of the data files of a handle's fragments. *)
Class LanceFiles (H : Type) := l_data_files : H → list (list string).

Record LanceStore (W H : Type) := mkStore {
  st_base_dir : string;
  st_dim : nat;
  st_cache : DatasetCache H;
  st_branch_indexes : gmap BranchKey BranchIndex;
  st_cancel_tokens : gmap BranchKey nat;
  st_cancelled : gset nat;
  st_inflight : gset CommitKey;
  st_fresh_open_count : N;
  st_delta_counts : gmap BranchKey N;
  st_cleanup_mode : Z;
  st_read_only : bool;
  st_disk : gmap string W;
}.
Arguments mkStore {W H}.
Arguments st_base_dir {W H}. Arguments st_dim {W H}. Arguments st_cache {W H}.
Arguments st_branch_indexes {W H}. Arguments st_cancel_tokens {W H}. Arguments st_cancelled {W H}.
Arguments st_inflight {W H}. Arguments st_fresh_open_count {W H}. Arguments st_delta_counts {W H}.
Arguments st_cleanup_mode {W H}. Arguments st_read_only {W H}. Arguments st_disk {W H}.

(** [LanceStore::new]: empty maps over what is on disk. *)
Definition new_store {W H} (base_dir : string) (dim : nat) (disk : gmap string W) : LanceStore W H :=
  mkStore base_dir dim empty_cache ∅ ∅ ∅ ∅ 0 ∅ (cleanup_mode_as_u8 CurrentCode) false disk.

(** The two fields of the store that no operation changes, with their setters:
    the index parameters of the two embedding columns, which the pipelines take
    as arguments; [None] is the assertion of [default_for_dim]. *)
Record IndexConfigs := mkIndexConfigs {
  vector_index_config : VectorIndexConfig;
  clustering_index_config : option VectorIndexConfig;
}.
Definition new_index_configs (dim : nat) : option IndexConfigs :=
  vector_index_config ← default_for_dim dim;
  clustering ← default_for_dim dim;
  Some (mkIndexConfigs vector_index_config (Some clustering)).
Definition set_vector_index_config (c : IndexConfigs) (config : VectorIndexConfig) : IndexConfigs :=
  mkIndexConfigs config (clustering_index_config c).
Definition set_clustering_index_config (c : IndexConfigs) (config : option VectorIndexConfig) : IndexConfigs :=
  mkIndexConfigs (vector_index_config c) config.

Section setters.
Context {W H : Type} (s : LanceStore W H).
Definition set_cache (c : DatasetCache H) : LanceStore W H :=
  mkStore (st_base_dir s) (st_dim s) c (st_branch_indexes s) (st_cancel_tokens s) (st_cancelled s)
    (st_inflight s) (st_fresh_open_count s) (st_delta_counts s) (st_cleanup_mode s) (st_read_only s) (st_disk s).
Definition set_branch_indexes (m : gmap BranchKey BranchIndex) : LanceStore W H :=
  mkStore (st_base_dir s) (st_dim s) (st_cache s) m (st_cancel_tokens s) (st_cancelled s)
    (st_inflight s) (st_fresh_open_count s) (st_delta_counts s) (st_cleanup_mode s) (st_read_only s) (st_disk s).
Definition set_tokens (t : gmap BranchKey nat) (c : gset nat) : LanceStore W H :=
  mkStore (st_base_dir s) (st_dim s) (st_cache s) (st_branch_indexes s) t c
    (st_inflight s) (st_fresh_open_count s) (st_delta_counts s) (st_cleanup_mode s) (st_read_only s) (st_disk s).
Definition set_inflight (i : gset CommitKey) : LanceStore W H :=
  mkStore (st_base_dir s) (st_dim s) (st_cache s) (st_branch_indexes s) (st_cancel_tokens s) (st_cancelled s)
    i (st_fresh_open_count s) (st_delta_counts s) (st_cleanup_mode s) (st_read_only s) (st_disk s).
Definition set_fresh_open_count (n : N) : LanceStore W H :=
  mkStore (st_base_dir s) (st_dim s) (st_cache s) (st_branch_indexes s) (st_cancel_tokens s) (st_cancelled s)
    (st_inflight s) n (st_delta_counts s) (st_cleanup_mode s) (st_read_only s) (st_disk s).
Definition set_delta_counts (m : gmap BranchKey N) : LanceStore W H :=
  mkStore (st_base_dir s) (st_dim s) (st_cache s) (st_branch_indexes s) (st_cancel_tokens s) (st_cancelled s)
    (st_inflight s) (st_fresh_open_count s) m (st_cleanup_mode s) (st_read_only s) (st_disk s).
Definition set_read_only (b : bool) : LanceStore W H :=
  mkStore (st_base_dir s) (st_dim s) (st_cache s) (st_branch_indexes s) (st_cancel_tokens s) (st_cancelled s)
    (st_inflight s) (st_fresh_open_count s) (st_delta_counts s) (st_cleanup_mode s) b (st_disk s).
Definition set_cleanup_mode (m : CleanupMode) : LanceStore W H :=
  mkStore (st_base_dir s) (st_dim s) (st_cache s) (st_branch_indexes s) (st_cancel_tokens s) (st_cancelled s)
    (st_inflight s) (st_fresh_open_count s) (st_delta_counts s) (cleanup_mode_as_u8 m) (st_read_only s) (st_disk s).
Definition set_disk (d : gmap string W) : LanceStore W H :=
  mkStore (st_base_dir s) (st_dim s) (st_cache s) (st_branch_indexes s) (st_cancel_tokens s) (st_cancelled s)
    (st_inflight s) (st_fresh_open_count s) (st_delta_counts s) (st_cleanup_mode s) (st_read_only s) d.
End setters.

Definition cleanup_mode {W H} (s : LanceStore W H) : CleanupMode := cleanup_mode_of_u8 (st_cleanup_mode s).

(** ** The monad

    A step returns the state it leaves also when it fails. *)

Definition io (W H A : Type) : Type := LanceStore W H → LanceStore W H * result StoreError A.

Definition io_ret {W H A} (a : A) : io W H A := λ s, (s, Ok a).
Definition io_bind {W H A B} (c : io W H A) (k : A → io W H B) : io W H B := λ s,
  match c s with (s', Ok a) => k a s' | (s', Err e) => (s', Err e) end.
Definition io_throw {W H A} (e : StoreError) : io W H A := λ s, (s, Err e).
Definition io_get {W H} : io W H (LanceStore W H) := λ s, (s, Ok s).
Definition io_modify {W H} (f : LanceStore W H → LanceStore W H) : io W H unit := λ s, (f s, Ok tt).
(** [map_err(|e| StoreError::Internal(format!("<prefix>{}", e)))?]. *)
Definition io_lift {W H A} (prefix : string) (r : result string A) : io W H A := λ s,
  (s, map_err (λ e, StoreInternal (prefix +:+ e)) r).

(** [map_err(|e| format!("<prefix>{}", e))?] of a [StoreError]. *)
Definition io_ctx {W H A} (prefix : string) (c : io W H A) : io W H A := λ s,
  match c s with
  | (s, Err e) => (s, Err (StoreInternal (prefix +:+ store_error_to_string e)))
  | r => r
  end.

(** [unwrap_or], and an [if let Err(e)] that only logs. *)
Definition io_or {W H A} (a : A) (c : io W H A) : io W H A := λ s,
  match c s with (s, Err _) => (s, Ok a) | r => r end.

Declare Scope io_scope.
Delimit Scope io_scope with io.
Notation "'let!' x ':=' c 'in' k" := (io_bind c (λ x, k))
  (at level 10, x binder, c at level 100, k at level 200) : io_scope.
Notation "c ';!' k" := (io_bind c (λ _, k)) (at level 100, k at level 200, right associativity) : io_scope.
Open Scope io_scope.

Lemma io_bind_ok {W H A B} (c : io W H A) (k : A → io W H B) s s' b :
  io_bind c k s = (s', Ok b) ↔ ∃ s1 a, c s = (s1, Ok a) ∧ k a s1 = (s', Ok b).
Proof.
  unfold io_bind. destruct (c s) as [s1 [a|e]]; split.
  - intros Hk. by exists s1, a.
  - intros (? & ? & [= <- <-] & Hk). done.
  - done.
  - by intros (? & ? & ? & _).
Qed.

Lemma io_bind_err {W H A B} (c : io W H A) (k : A → io W H B) s s' e :
  io_bind c k s = (s', Err e) ↔
    c s = (s', Err e) ∨ ∃ s1 a, c s = (s1, Ok a) ∧ k a s1 = (s', Err e).
Proof.
  unfold io_bind. destruct (c s) as [s1 [a|e1]]; split.
  - intros Hk. right. by exists s1, a.
  - intros [?|(? & ? & [= <- <-] & Hk)]; done.
  - intros [= <- <-]. by left.
  - intros [[= <- <-]|(? & ? & ? & _)]; done.
Qed.

Lemma io_ctx_ok {W H A} p (c : io W H A) s s' a : io_ctx p c s = (s', Ok a) → c s = (s', Ok a).
Proof. unfold io_ctx. destruct (c s) as [s1 [x|e]]; [done|]. intros [=]. Qed.

Lemma io_or_ok {W H A} (a : A) (c : io W H A) s s' x :
  io_or a c s = (s', Ok x) → ∃ r, c s = (s', r) ∧ (r = Ok x ∨ x = a ∧ ∃ e, r = Err e).
Proof. unfold io_or. destruct (c s) as [s1 [y|e]]; intros [= <- <-]; eexists; split; eauto. Qed.

(** ** Paths *)

(** [form_urlencoded::byte_serialize], collected. *)
Class ByteSerialize := byte_serialize : string → string.

Definition encode_domain_path `{ByteSerialize} (domain : string) : string :=
  join "__" (map byte_serialize (split_char slash domain)).

(** The directory name; [base_dir] is the same for every dataset. *)
Definition dataset_path `{ByteSerialize} (domain : string) : string :=
  encode_domain_path domain +:+ ".lance".

(** [str::to_lowercase], on the ASCII letters: all that the two tests below
    can see, since no other character lowers to a letter of their patterns
    followed by the next one. *)
Definition ascii_lower (c : ascii) : ascii :=
  if in_range 65 90 c then ascii_of_N (byte_of c + 32) else c.
Definition to_lowercase (s : string) : string := str_of_bytes (map ascii_lower (str_bytes s)).

Definition is_already_exists (e : StoreError) : bool :=
  contains "already exists" (to_lowercase (store_error_to_string e)).

Definition is_ref_not_found (e : StoreError) : bool :=
  let msg := to_lowercase (store_error_to_string e) in
  contains "ref not found" msg || contains "does not exist" msg.

(** ** Opening datasets *)

Section store.
Context {W H : Type} `{LanceOps W H} `{ByteSerialize} {HD : HashIter string (DatasetCacheEntry H)}.


Definition dir_of (s : LanceStore W H) (path : string) : W := default l_absent (st_disk s !! path).
Definition put_dir (path : string) (w : W) (s : LanceStore W H) : LanceStore W H :=
  set_disk s (<[path := w]> (st_disk s)).
Definition path_exists (s : LanceStore W H) (path : string) : bool := l_exists (dir_of s path).

(** A Lance call that reads, and one that writes, the directory at [path]. *)
Definition io_read {A} (path prefix : string) (f : W → result string A) : io W H A := λ s,
  io_lift prefix (f (dir_of s path)) s.
Definition io_write {A} (path prefix : string) (f : W → W * result string A) : io W H A := λ s,
  let '(w, r) := f (dir_of s path) in io_lift prefix r (put_dir path w s).

Definition ensure_writable : io W H unit := λ s,
  if st_read_only s
  then (s, Err (ReadOnly ("data dir " +:+ st_base_dir s +:+ " is write-locked by another process — writes refused")))
  else (s, Ok tt).

Definition io_open_fresh (path : string) : io W H H :=
  io_modify (λ s, set_fresh_open_count s (st_fresh_open_count s + 1));!
  io_read path "dataset open failed: " l_load.

(** The cache operations on the store. *)
Definition io_insert_cached (domain : string) (ds : H) : io W H H := λ s,
  let '(h, c) := insert_cached_dataset (st_cache s) domain ds in (set_cache s c, Ok h).

Definition io_cache_hit (domain : string) : io W H (option H) := λ s,
  match cache_hit (st_cache s) domain with
  | Some (h, c) => (set_cache s c, Ok (Some h))
  | None => (s, Ok None)
  end.

(** [empty_batch]; the panic of its [expect] is an error here, which
    [law_try_new] rules out ([empty_batch_ok]). *)
Definition empty_batch : io W H (list ChunkRow) := λ s,
  io_lift "empty batch construction must not fail: " (l_try_new (st_dim s) (rows_columns [])) s.

Definition io_open_dataset (domain branch : string) : io W H H :=
  let! hit := io_cache_hit domain in
  match hit with
  | Some h => io_ret h
  | None =>
      let path := dataset_path domain in
      let! s := io_get in
      let! ds := if path_exists s path then io_open_fresh path
                 else ensure_writable;!
                      empty_batch;!
                      io_write path "failed to create dataset: " l_create in
      io_insert_cached domain ds
  end.

Definition io_open_dataset_readonly (domain : string) : io W H (option H) :=
  let! hit := io_cache_hit domain in
  match hit with
  | Some h => io_ret (Some h)
  | None =>
      let path := dataset_path domain in
      let! s := io_get in
      if path_exists s path then
        let! ds := io_open_fresh path in
        let! h := io_insert_cached domain ds in
        io_ret (Some h)
      else io_ret None
  end.

Definition io_open_branch_for_write (domain branch : string) : io W H H :=
  ensure_writable;!
  let path := dataset_path domain in
  let! ds := io_open_fresh path in
  if String.eqb branch MAIN_BRANCH then io_ret ds
  else io_read path ("failed to checkout branch '" +:+ branch +:+ "' for write (does it exist?): ")
         (λ w, l_checkout_branch w ds branch).

Definition io_open_dataset_uncached (domain branch : string) : io W H (option H) :=
  let path := dataset_path domain in
  let! s := io_get in
  if path_exists s path then
    let! ds := io_open_fresh path in
    if String.eqb branch MAIN_BRANCH then io_ret (Some ds)
    else
      let! b := io_read path ("uncached checkout branch '" +:+ branch +:+ "' failed: ")
                  (λ w, l_checkout_branch w ds branch) in
      io_ret (Some b)
  else io_ret None.

Definition io_refresh_cached_dataset (domain branch : string) : io W H unit :=
  let path := dataset_path domain in
  let! s := io_get in
  if path_exists s path then
    let! ds := io_open_fresh path in
    io_modify (λ s, set_cache s (replace_cached_dataset (st_cache s) domain ds))
  else io_ret tt.

(** The data files of the fragments of the branch's head; [l_data_files]: those
    of each fragment of a handle. *)
Definition io_branch_data_file_paths {HFs : LanceFiles H} (domain branch : string) : io W H (gset string) :=
  let path := dataset_path domain in
  let! s := io_get in
  if negb (path_exists s path) then io_ret ∅
  else
    let! ds := io_open_fresh path in
    let! ds := if String.eqb branch MAIN_BRANCH then io_ret ds
               else io_read path ("checkout '" +:+ branch +:+ "' for data-file paths failed: ") (λ w, l_checkout_branch w ds branch) in
    io_ret (list_to_set (concat (l_data_files ds))).

(** ** Branches *)

Definition io_branch_head_version (domain branch : string) : io W H N :=
  if String.eqb branch MAIN_BRANCH then
    let! ds := io_open_dataset domain branch in io_ret (l_version ds)
  else
    let! ds := io_open_branch_for_write domain branch in io_ret (l_version ds).

Definition io_list_branches (domain : string) : io W H (list string) :=
  let path := dataset_path domain in
  let! s := io_get in
  if path_exists s path then
    let! ds := io_open_fresh path in
    io_read path "list_branches failed: " (λ w, l_list_branches w ds)
  else io_ret [].

Definition cannot_create_main : StoreError :=
  StoreInternal "cannot create the default 'main' branch — it always exists".

Definition cannot_branch (domain : string) : StoreError :=
  StoreInternal ("cannot branch domain '" +:+ domain +:+ "': dataset does not exist (index the parent first)").

Definition io_create_branch (domain branch : string) (from_version : N) : io W H unit :=
  ensure_writable;!
  if String.eqb branch MAIN_BRANCH then io_throw cannot_create_main
  else
    let path := dataset_path domain in
    let! s := io_get in
    if path_exists s path then
      let! ds := io_open_fresh path in
      io_write path ("create_branch '" +:+ branch +:+ "' from version " +:+ pretty from_version +:+ " failed: ")
        (λ w, l_create_branch w ds branch (RefVersion from_version));!
      io_ret tt
    else io_throw (cannot_branch domain).

Definition io_create_branch_from_tag (domain branch commit : string) : io W H N :=
  ensure_writable;!
  if String.eqb branch MAIN_BRANCH then io_throw cannot_create_main
  else
    let path := dataset_path domain in
    let! s := io_get in
    if path_exists s path then
      let tag := encode_commit_tag commit in
      let! ds := io_open_fresh path in
      let! created := io_write path ("create_branch '" +:+ branch +:+ "' from tag '" +:+ tag +:+ "' failed: ")
                        (λ w, l_create_branch w ds branch (RefTag tag)) in
      io_ret (l_version created)
    else io_throw (cannot_branch domain).

Inductive BranchOutcome : Type :=
| AlreadyExists
| Created (parent_version : N).

(** [io_ensure_branch_forked] of store/branch.rs. *)
Definition io_ensure_branch_forked (domain branch parent_commit : string) : io W H BranchOutcome :=
  if String.eqb branch MAIN_BRANCH then io_ret AlreadyExists
  else
    let! existing := io_list_branches domain in
    if bool_decide (branch ∈ existing) then io_ret AlreadyExists
    else λ s,
      match io_create_branch_from_tag domain branch parent_commit s with
      | (s, Ok parent_version) => (s, Ok (Created parent_version))
      | (s, Err e) =>
          if is_already_exists e then (s, Ok AlreadyExists)
          else if is_ref_not_found e then
            if path_exists s (dataset_path domain) then
              (let! main_version := io_branch_head_version domain MAIN_BRANCH in
               io_create_branch domain branch main_version;!
               io_ret (Created main_version)) s
            else (s, Err e)
          else (s, Err e)
      end.

(** ** Index delta counts *)

Definition io_get_delta_count (s : LanceStore W H) (domain branch : string) : N :=
  default 0%N (st_delta_counts s !! (domain, branch)).

(** [+= 1] on a [u64] in a release build wraps. *)
Definition io_increment_delta_count (domain branch : string) : io W H unit :=
  io_modify (λ s, set_delta_counts s
    (<[(domain, branch) := ((io_get_delta_count s domain branch + 1) mod 2 ^ 64)%N]> (st_delta_counts s))).

Definition io_reset_delta_count (domain branch : string) : io W H unit :=
  io_modify (λ s, set_delta_counts s (<[(domain, branch) := 0%N]> (st_delta_counts s))).

(** ** Writing *)

(** [rows_to_batch]. *)
Definition rows_to_batch (rows : list ChunkRow) : io W H (list ChunkRow) := λ s,
  io_lift "batch construction failed: " (l_try_new (st_dim s) (rows_columns rows)) s.

(** [io_microbatch_append] and [io_microbatch_delete] advance the handle [ds],
    whose dataset is the directory [path]. *)
Definition io_microbatch_append (path : string) (ds : H) (rows : list ChunkRow) : io W H H :=
  ensure_writable;!
  if is_empty rows then io_ret ds
  else
    let! batch := rows_to_batch rows in
    io_write path "microbatch append failed: " (λ w, l_append w ds batch).

Definition io_microbatch_delete (path : string) (ds : H) (delete_ids : list string) : io W H H :=
  ensure_writable;!
  if is_empty delete_ids then io_ret ds
  else io_write path "microbatch delete failed: " (λ w, l_delete_rows w ds (InList "doc_id" delete_ids)).

Definition io_upsert_chunks (domain branch doc_id : string) (rows : list ChunkRow) : io W H N :=
  ensure_writable;!
  if is_empty rows then io_ret 0%N
  else
    io_open_dataset domain branch;!
    let path := dataset_path domain in
    let! ds := io_open_branch_for_write domain branch in
    let! ds := io_write path "delete failed: " (λ w, l_delete_rows w ds (EqLit "doc_id" doc_id)) in
    let! batch := rows_to_batch rows in
    let! ds := io_write path "append failed: " (λ w, l_append w ds batch) in
    io_refresh_cached_dataset domain branch;!
    io_ret (l_version ds).

Definition io_batch_delete_append (domain branch : string) (delete_ids : list string)
    (rows : list ChunkRow) : io W H N :=
  ensure_writable;!
  io_open_dataset domain branch;!
  let path := dataset_path domain in
  let! ds := io_open_branch_for_write domain branch in
  let! ds := if is_empty delete_ids then io_ret ds
             else io_write path "batch delete failed: "
                    (λ w, l_delete_rows w ds (InList "doc_id" delete_ids)) in
  let! ds := if is_empty rows then io_ret ds
             else let! batch := rows_to_batch rows in
                  io_write path "batch append failed: " (λ w, l_append w ds batch) in
  io_refresh_cached_dataset domain branch;!
  io_ret (l_version ds).

Definition io_delete_doc (domain branch doc_id : string) : io W H N :=
  ensure_writable;!
  let! opened := io_open_dataset_readonly domain in
  match opened with
  | None => io_ret 0%N
  | Some _ =>
      let! ds := io_open_branch_for_write domain branch in
      let! ds := io_write (dataset_path domain) "delete failed: "
                   (λ w, l_delete_rows w ds (EqLit "doc_id" doc_id)) in
      io_refresh_cached_dataset domain branch;!
      io_ret (l_version ds)
  end.
End store.

(** The branch a Lance handle or tag of [branch] records: [None] for main. *)
Definition want_branch (branch : string) : option string :=
  if String.eqb branch MAIN_BRANCH then None else Some branch.

(** ** What a step may change

    [quiet]: only the handle cache and the open counter.  [touches path]: also
    the directory at [path]. *)

Section frame.
Context {W H : Type} `{LanceOps W H}.

(** A handle of the main branch: loaded or created. *)
Definition main_handle (h : H) : Prop :=
  (∃ w, l_load w = Ok h) ∨ ∃ w w', l_create w = (w', Ok h).

(** The cache [c'] holds handles of [c] and main handles. *)
Definition cache_from (c c' : DatasetCache H) : Prop :=
  ∀ d e, dc_datasets c' !! d = Some e →
    (∃ e0, dc_datasets c !! d = Some e0 ∧ ce_ds e = ce_ds e0) ∨ main_handle (ce_ds e).

Definition quiet (s s' : LanceStore W H) : Prop :=
  ∃ n c, s' = set_cache (set_fresh_open_count s n) c ∧ cache_from (st_cache s) c.

Definition touches (path : string) (s s' : LanceStore W H) : Prop :=
  ∃ n c d, s' = set_disk (set_cache (set_fresh_open_count s n) c) d ∧
    (∀ p, p ≠ path → d !! p = st_disk s !! p) ∧ cache_from (st_cache s) c.

Lemma cache_from_refl c : cache_from c c.
Proof. intros d e He. left. eauto. Qed.

Lemma cache_from_trans c1 c2 c3 : cache_from c1 c2 → cache_from c2 c3 → cache_from c1 c3.
Proof.
  intros H1 H2 d e He. destruct (H2 d e He) as [(e2 & He2 & ->)|]; [|by right].
  destruct (H1 d e2 He2) as [|]; [by left|by right].
Qed.

Lemma cache_from_stamp {HD : HashIter string (DatasetCacheEntry H)} c d h :
  (∃ e0, dc_datasets c !! d = Some e0 ∧ h = ce_ds e0) ∨ main_handle h →
  cache_from c (stamp_entry c d h).
Proof.
  intros Hh k e. cbn. intros [[<- <-]|[_ He]]%lookup_insert_Some; [by cbn|]. left. eauto.
Qed.

Lemma cache_from_evict {HD : HashIter string (DatasetCacheEntry H)} c1 c2 :
  cache_from c1 c2 → cache_from c1 (evict_lru_if_over c2).
Proof. intros Hc d e He%evict_subset. by apply Hc. Qed.

#[export] Instance quiet_refl : Reflexive quiet.
Proof. intros []. eexists _, _. split; [done|apply cache_from_refl]. Qed.
#[export] Instance quiet_trans : Transitive quiet.
Proof.
  intros s1 s2 s3 (n & c & -> & Hc) (n' & c' & -> & Hc'). exists n', c'.
  split; [done|]. by eapply cache_from_trans.
Qed.

#[export] Instance touches_refl path : Reflexive (touches path).
Proof. intros []. eexists _, _, _. split; [done|]. split; [done|apply cache_from_refl]. Qed.
#[export] Instance touches_trans path : Transitive (touches path).
Proof.
  intros s1 s2 s3 (n & c & d & -> & Hd & Hc) (n' & c' & d' & -> & Hd' & Hc'). exists n', c', d'.
  split; [done|]. split; [|by eapply cache_from_trans]. intros p Hp. rewrite Hd' by done. by apply Hd.
Qed.

Lemma quiet_touches path s s' : quiet s s' → touches path s s'.
Proof. intros (n & c & -> & Hc). by exists n, c, (st_disk s). Qed.

Lemma touches_cache path s s' : touches path s s' → cache_from (st_cache s) (st_cache s').
Proof. by intros (n & c & d & -> & _ & Hc). Qed.

Lemma quiet_disk s s' : quiet s s' → st_disk s' = st_disk s.
Proof. by intros (n & c & -> & _). Qed.
Lemma quiet_inflight s s' : quiet s s' → st_inflight s' = st_inflight s.
Proof. by intros (n & c & -> & _). Qed.
Lemma quiet_branch_indexes s s' : quiet s s' → st_branch_indexes s' = st_branch_indexes s.
Proof. by intros (n & c & -> & _). Qed.
Lemma quiet_read_only s s' : quiet s s' → st_read_only s' = st_read_only s.
Proof. by intros (n & c & -> & _). Qed.
Lemma touches_inflight p s s' : touches p s s' → st_inflight s' = st_inflight s.
Proof. by intros (n & c & d & -> & _). Qed.
Lemma touches_branch_indexes p s s' : touches p s s' → st_branch_indexes s' = st_branch_indexes s.
Proof. by intros (n & c & d & -> & _). Qed.
Lemma touches_read_only p s s' : touches p s s' → st_read_only s' = st_read_only s.
Proof. by intros (n & c & d & -> & _). Qed.
Lemma touches_dim p s s' : touches p s s' → st_dim s' = st_dim s.
Proof. by intros (n & c & d & -> & _). Qed.
Lemma quiet_dim s s' : quiet s s' → st_dim s' = st_dim s.
Proof. by intros (n & c & -> & _). Qed.
End frame.

Create HintDb frame.
#[export] Hint Resolve quiet_touches : frame.
#[export] Hint Extern 1 (quiet ?s ?s) => reflexivity : frame.
#[export] Hint Extern 1 (touches _ ?s ?s) => reflexivity : frame.

(** Taking a run of the monad apart: [io_inv H] splits the binds of [H]. *)
Ltac io_inv H :=
  lazymatch type of H with
  | io_bind _ _ _ = (_, Ok _) =>
      let s := fresh "s" in let a := fresh "a" in let H1 := fresh H in
      apply io_bind_ok in H as (s & a & H1 & H); io_inv H1; io_inv H
  | io_ret _ _ = (_, Ok _) => injection H as <- <-
  | io_get _ = (_, Ok _) => injection H as <- <-
  | io_modify _ _ = (_, Ok _) => injection H as <- <-
  | io_throw _ _ = (_, Ok _) => discriminate H
  | io_ret _ _ = (_, Err _) => discriminate H
  | io_get _ = (_, Err _) => discriminate H
  | io_modify _ _ = (_, Err _) => discriminate H
  | io_throw _ _ = (_, Err _) => injection H as <- <-
  | _ => idtac
  end.

Section store_lemmas.
Context {W H : Type} `{LanceOps W H} `{ByteSerialize} {HD : HashIter string (DatasetCacheEntry H)}.
Implicit Types s : LanceStore W H.

Lemma quiet_dir s s' p : quiet s s' → dir_of s' p = dir_of s p.
Proof. by intros (n & c & -> & _). Qed.

Lemma touches_dir s s' p q : touches p s s' → q ≠ p → dir_of s' q = dir_of s q.
Proof. intros (n & c & d & -> & Hd & _) Hq. unfold dir_of. cbn. by rewrite Hd. Qed.

Lemma dir_put s p w : dir_of (put_dir p w s) p = w.
Proof. unfold dir_of, put_dir. cbn. by rewrite lookup_insert_eq. Qed.

Lemma put_dir_touches p w s : touches p s (put_dir p w s).
Proof.
  exists (st_fresh_open_count s), (st_cache s), (<[p:=w]> (st_disk s)). split; [by destruct s|].
  split; [|apply cache_from_refl]. intros q Hq. by rewrite lookup_insert_ne.
Qed.

(** A run of the reading combinator. *)
Lemma io_read_inv {A} p m (f : W → result string A) s s' r :
  io_read p m f s = (s', r) → s' = s ∧ r = map_err (λ e, StoreInternal (m +:+ e)) (f (dir_of s p)).
Proof. unfold io_read, io_lift. by intros [= <- <-]. Qed.

Lemma io_read_ok {A} p m (f : W → result string A) s s' a :
  io_read p m f s = (s', Ok a) → s' = s ∧ f (dir_of s p) = Ok a.
Proof. intros [-> Hr]%io_read_inv. split; [done|]. by destruct (f (dir_of s p)); simplify_eq/=. Qed.

(** A run of the writing combinator. *)
Lemma io_write_inv {A} p m (f : W → W * result string A) s s' r :
  io_write p m f s = (s', r) →
  ∃ w r0, f (dir_of s p) = (w, r0) ∧ s' = put_dir p w s ∧ r = map_err (λ e, StoreInternal (m +:+ e)) r0.
Proof.
  unfold io_write, io_lift. destruct (f (dir_of s p)) as [w r0] eqn:E. intros [= <- <-]. by exists w, r0.
Qed.

Lemma io_write_ok {A} p m (f : W → W * result string A) s s' a :
  io_write p m f s = (s', Ok a) →
  ∃ w, f (dir_of s p) = (w, Ok a) ∧ s' = put_dir p w s.
Proof.
  intros (w & r0 & Hf & -> & Hr)%io_write_inv. exists w. split; [|done].
  destruct r0; simplify_eq/=. done.
Qed.

Lemma io_write_touches {A} p m (f : W → W * result string A) s s' r :
  io_write p m f s = (s', r) → touches p s s'.
Proof. intros (w & r0 & _ & -> & _)%io_write_inv. apply put_dir_touches. Qed.

Lemma ensure_writable_inv s s' r :
  ensure_writable s = (s', r) → s' = s ∧ (st_read_only s = false ∧ r = Ok tt ∨
    st_read_only s = true ∧ ∃ m, r = Err (ReadOnly m)).
Proof.
  unfold ensure_writable. destruct (st_read_only s); intros [= <- <-]; (split; [done|]).
  - right. split; [done|]. by eexists.
  - by left.
Qed.

Lemma ensure_writable_ok s s' a : ensure_writable s = (s', Ok a) → s' = s ∧ st_read_only s = false.
Proof. intros [-> [[? _]|[_ [? [=]]]]]%ensure_writable_inv. done. Qed.

Lemma io_open_fresh_inv p s s' r :
  io_open_fresh p s = (s', r) → quiet s s' ∧
    (∀ h, r = Ok h → l_load (dir_of s p) = Ok h).
Proof.
  unfold io_open_fresh, io_bind, io_modify. intros [-> ->]%io_read_inv. split.
  - exists (st_fresh_open_count s + 1)%N, (st_cache s). split; [by destruct s|apply cache_from_refl].
  - intros h. unfold dir_of. cbn. by destruct (l_load _); cbn; intros; simplify_eq.
Qed.

Lemma io_open_fresh_main p s s' h : io_open_fresh p s = (s', Ok h) → main_handle h.
Proof. intros [_ Hl]%io_open_fresh_inv. left. eauto. Qed.

Lemma io_insert_cached_inv d h s s' r :
  main_handle h → io_insert_cached d h s = (s', r) → quiet s s' ∧
    ∃ h0, r = Ok h0 ∧ (h0 = h ∨ ∃ e, dc_datasets (st_cache s) !! d = Some e ∧ h0 = ce_ds e).
Proof.
  intros Hm. unfold io_insert_cached, insert_cached_dataset.
  destruct (dc_datasets (st_cache s) !! d) as [e|] eqn:E; intros [= <- <-]; split.
  - eexists (st_fresh_open_count s), _. split; [by destruct s|]. apply cache_from_stamp. left. eauto.
  - eexists. split; [done|]. right. eauto.
  - eexists (st_fresh_open_count s), _. split; [by destruct s|].
    apply cache_from_evict, cache_from_stamp. by right.
  - eexists. split; [done|]. by left.
Qed.

Lemma io_cache_hit_inv d s s' r :
  io_cache_hit d s = (s', r) → quiet s s' ∧
    match dc_datasets (st_cache s) !! d with
    | Some e => r = Ok (Some (ce_ds e))
    | None => r = Ok None ∧ s' = s
    end.
Proof.
  unfold io_cache_hit, cache_hit. destruct (dc_datasets (st_cache s) !! d) as [e|] eqn:E; cbn;
    intros [= <- <-]; (split; [|done]).
  - eexists (st_fresh_open_count s), _. split; [by destruct s|]. apply cache_from_stamp. left. eauto.
  - reflexivity.
Qed.

(** A read-only open never writes, and finds nothing only when there is no
    directory. *)
Lemma io_open_dataset_readonly_inv d s s' r :
  io_open_dataset_readonly d s = (s', r) → quiet s s' ∧
    (r = Ok None → path_exists s (dataset_path d) = false ∧ dc_datasets (st_cache s) !! d = None ∧ s' = s).
Proof.
  unfold io_open_dataset_readonly. unfold io_bind at 1.
  destruct (io_cache_hit d s) as [s1 r1] eqn:E. apply io_cache_hit_inv in E as [Hq Hr].
  destruct (dc_datasets (st_cache s) !! d) as [e|] eqn:Ee.
  { rewrite Hr. intros [= <- <-]. split; [done|]. done. }
  destruct Hr as [-> ->]. unfold io_bind at 1, io_get.
  destruct (path_exists s (dataset_path d)) eqn:Ex.
  - unfold io_bind. destruct (io_open_fresh _ s) as [s2 [h|e]] eqn:E2;
      pose proof E2 as Hm; apply io_open_fresh_inv in E2 as [Hq2 _].
    + apply io_open_fresh_main in Hm. destruct (io_insert_cached d h s2) as [s3 r3] eqn:E3.
      apply io_insert_cached_inv in E3 as [Hq3 (h0 & -> & _)]; [|done]. intros [= <- <-].
      split; [by etrans|done].
    + intros [= <- <-]. by split.
  - intros [= <- <-]. by split.
Qed.

Lemma io_open_dataset_touches d b s s' r :
  io_open_dataset d b s = (s', r) → touches (dataset_path d) s s'.
Proof.
  unfold io_open_dataset. unfold io_bind at 1.
  destruct (io_cache_hit d s) as [s1 r1] eqn:E. apply io_cache_hit_inv in E as [Hq Hr].
  destruct (dc_datasets (st_cache s) !! d) as [e|] eqn:Ee.
  { rewrite Hr. intros [= <- <-]. by apply quiet_touches. }
  destruct Hr as [-> ->]. unfold io_bind at 1, io_get. unfold io_bind at 1.
  destruct (path_exists s (dataset_path d)).
  - destruct (io_open_fresh _ s) as [s2 [h|e]] eqn:E2; pose proof E2 as Hm;
      apply io_open_fresh_inv in E2 as [Hq2 _].
    + apply io_open_fresh_main in Hm. intros [Hq3 _]%io_insert_cached_inv; [|done].
      etrans; by apply quiet_touches.
    + intros [= <- <-]. by apply quiet_touches.
  - unfold io_bind at 1. destruct (ensure_writable s) as [s2 [[]|e]] eqn:E2;
      apply ensure_writable_inv in E2 as [-> _]; [|by intros [= <- <-]].
    unfold io_bind at 1, empty_batch, io_lift. destruct (map_err _ _); [|by intros [= <- <-]].
    destruct (io_write _ _ _ s) as [s3 [h|e]] eqn:E3; pose proof E3 as Hm; apply io_write_touches in E3.
    + apply io_write_ok in Hm as (w & Hm & _). intros [Hq3 _]%io_insert_cached_inv; [|right; eauto].
      etrans; [done|]. by apply quiet_touches.
    + by intros [= <- <-].
Qed.

Lemma io_refresh_inv d b s s' r : io_refresh_cached_dataset d b s = (s', r) → quiet s s'.
Proof.
  unfold io_refresh_cached_dataset, io_get, io_bind. destruct (path_exists _ _).
  - destruct (io_open_fresh _ s) as [s1 [h|e]] eqn:E1; pose proof E1 as Hm;
      apply io_open_fresh_inv in E1 as [Hq _].
    + apply io_open_fresh_main in Hm. intros [= <- <-]. etrans; [done|].
      eexists (st_fresh_open_count s1), _. split; [by destruct s1|].
      apply cache_from_evict, cache_from_stamp. by right.
    + by intros [= <- <-].
  - by intros [= <- <-].
Qed.

Lemma io_open_branch_for_write_inv d b s s' r :
  io_open_branch_for_write d b s = (s', r) → quiet s s' ∧
    (st_read_only s = true → s' = s ∧ ∃ m, r = Err (ReadOnly m)) ∧
    (∀ h, r = Ok h → if String.eqb b MAIN_BRANCH then l_load (dir_of s (dataset_path d)) = Ok h
       else ∃ base, l_load (dir_of s (dataset_path d)) = Ok base ∧
              l_checkout_branch (dir_of s (dataset_path d)) base b = Ok h).
Proof.
  unfold io_open_branch_for_write. unfold io_bind at 1.
  destruct (ensure_writable s) as [s1 [[]|e]] eqn:E; apply ensure_writable_inv in E as [-> Hw].
  2: { intros [= <- <-]. split; [done|]. destruct Hw as [[_ ?]|[_ [m ?]]]; simplify_eq. split; eauto. done. }
  destruct Hw as [[Hro _]|[_ [m [=]]]]. unfold io_bind at 1.
  destruct (io_open_fresh _ s) as [s2 [h|e]] eqn:E2; apply io_open_fresh_inv in E2 as [Hq Hl].
  2: { intros [= <- <-]. split; [done|]. rewrite Hro. done. }
  specialize (Hl h eq_refl). rewrite Hro. destruct (String.eqb b MAIN_BRANCH).
  - intros [= <- <-]. split; [done|]. split; [done|]. by intros ? [= <-].
  - intros [-> ->]%io_read_inv. split; [done|]. split; [done|]. intros h'. rewrite (quiet_dir s s2) by done.
    destruct (l_checkout_branch _ _ _) eqn:Ec; cbn; intros [= <-]. eauto.
Qed.

Lemma io_list_branches_inv d s s' r :
  io_list_branches d s = (s', r) → quiet s s' ∧
    (∀ bs, r = Ok bs → if path_exists s (dataset_path d)
       then ∃ h, l_load (dir_of s (dataset_path d)) = Ok h ∧ l_list_branches (dir_of s (dataset_path d)) h = Ok bs
       else bs = []).
Proof.
  unfold io_list_branches, io_get. unfold io_bind at 1. destruct (path_exists _ _).
  - unfold io_bind. destruct (io_open_fresh _ s) as [s2 [h|e]] eqn:E2; apply io_open_fresh_inv in E2 as [Hq Hl].
    + intros [-> ->]%io_read_inv. split; [done|]. intros bs. rewrite (quiet_dir s s2) by done.
      destruct (l_list_branches _ _) eqn:Ec; cbn; intros [= <-]. eauto.
    + intros [= <- <-]. done.
  - intros [= <- <-]. split; [done|]. by intros bs [= <-].
Qed.

Lemma rows_to_batch_inv rows s s' r : rows_to_batch rows s = (s', r) → s' = s.
Proof. unfold rows_to_batch, io_lift. by intros [= <- _]. Qed.
End store_lemmas.

(** ** What the writers do to the rows of a branch *)

Section writers.
Context {W H : Type} `{LanceLaws W H} `{ByteSerialize} {HD : HashIter string (DatasetCacheEntry H)}.
Implicit Types s : LanceStore W H.

(** The rows at the head of a branch of a domain; none when the domain has no
    dataset. *)
Definition head_rows (s : LanceStore W H) (domain branch : string) : list ChunkRow :=
  match v_head (dir_of s (dataset_path domain)) (want_branch branch) with
  | Some h => v_rows h
  | None => []
  end.

(** [s'] differs from [s] at most in the directory of [domain] (and the handle
    cache), where tags and branches other than [branch] are the same; the head
    of [branch] is [h], with [rows]. *)
Record moved_to (domain branch : string) (s s' : LanceStore W H) (h : H) (rows : list ChunkRow) : Prop := {
  mv_head : v_head (dir_of s' (dataset_path domain)) (want_branch branch) = Some h;
  mv_rows : v_rows h = rows;
  mv_branch : v_branch h = want_branch branch;
  mv_tags : v_tags (dir_of s' (dataset_path domain)) = v_tags (dir_of s (dataset_path domain));
  mv_others b : b ≠ want_branch branch →
    v_head (dir_of s' (dataset_path domain)) b = v_head (dir_of s (dataset_path domain)) b;
  mv_touches : touches (dataset_path domain) s s';
}.

Lemma moved_quiet d b s s1 s2 h rows : moved_to d b s s1 h rows → quiet s1 s2 → moved_to d b s s2 h rows.
Proof.
  intros [] Hq. split; try (rewrite (quiet_dir s1 s2) by done); auto.
  etrans; [done|]. by apply quiet_touches.
Qed.

Lemma moved_head_rows d b s s' h rows : moved_to d b s s' h rows → head_rows s' d b = rows.
Proof. intros []. unfold head_rows. by rewrite mv_head0. Qed.

(** A writer that moves the head of its handle's branch. *)
Lemma moved_write d b m (f : W → W * result string H) s s1 s2 h h' rows rows' :
  moved_to d b s s1 h rows → io_write (dataset_path d) m f s1 = (s2, Ok h') →
  (∀ w, f (dir_of s1 (dataset_path d)) = (w, Ok h') →
    v_tags w = v_tags (dir_of s1 (dataset_path d)) ∧
    head_moved (dir_of s1 (dataset_path d)) w h h' ∧ v_rows h' = rows') →
  moved_to d b s s2 h' rows'.
Proof.
  intros [Hh Hr Hb Ht Ho Htc] Hw Hlaw. pose proof (io_write_touches _ _ _ _ _ _ Hw).
  apply io_write_ok in Hw as (w & Hf & ->).
  destruct (Hlaw w Hf) as (Et & (_ & Ebr & Ehd & Eot) & Er).
  rewrite Hb in Ebr, Ehd, Eot. split; rewrite ?dir_put; [done|done|done|congruence| |by etrans].
  intros c Hc. rewrite Eot by done. auto.
Qed.

Lemma open_for_write_head d b s s' h :
  io_open_branch_for_write d b s = (s', Ok h) →
  quiet s s' ∧ st_read_only s = false ∧
  v_head (dir_of s (dataset_path d)) (want_branch b) = Some h ∧ v_branch h = want_branch b.
Proof.
  intros (Hq & Hro & Hh)%io_open_branch_for_write_inv. split; [done|]. split.
  { destruct (st_read_only s); [|done]. destruct (Hro eq_refl) as [_ [m [=]]]. }
  specialize (Hh h eq_refl). unfold want_branch. destruct (String.eqb b MAIN_BRANCH).
  - by apply law_load in Hh as (_ & ? & ?).
  - destruct Hh as (base & _ & Hc). by apply law_checkout_branch in Hc.
Qed.

(** Ensuring that the dataset exists: it is created empty on first use. *)
Lemma open_dataset_dir d b s s' h :
  io_open_dataset d b s = (s', Ok h) →
  dir_of s' (dataset_path d) = dir_of s (dataset_path d) ∧ quiet s s'
  ∨ path_exists s (dataset_path d) = false ∧ dc_datasets (st_cache s) !! d = None ∧ st_read_only s = false
    ∧ v_tags (dir_of s' (dataset_path d)) = ∅
    ∧ (∃ h0, v_head (dir_of s' (dataset_path d)) None = Some h0 ∧ v_rows h0 = [])
    ∧ (∀ b, v_head (dir_of s' (dataset_path d)) (Some b) = None).
Proof.
  unfold io_open_dataset. intros (s1 & hit & Hc & Hrun)%io_bind_ok.
  apply io_cache_hit_inv in Hc as [Hq Hr].
  destruct (dc_datasets (st_cache s) !! d) as [e|] eqn:Ee.
  { injection Hr as ->. injection Hrun as <- <-. left. split; [by apply quiet_dir|done]. }
  destruct Hr as [[= ->] ->]. apply io_bind_ok in Hrun as (s2 & s0 & [= <- <-] & Hrun).
  apply io_bind_ok in Hrun as (s3 & ds & Hds & Hins).
  destruct (path_exists s (dataset_path d)) eqn:Ex.
  - apply io_insert_cached_inv in Hins as [Hqi _]; [|by eapply io_open_fresh_main].
    apply io_open_fresh_inv in Hds as [Hqf _]. left.
    assert (quiet s s') by (by etrans). split; [by apply quiet_dir|done].
  - right. apply io_bind_ok in Hds as (s4 & [] & Hw & Hds). apply ensure_writable_ok in Hw as [-> Hro].
    apply io_bind_ok in Hds as (s5 & b0 & Hb & Hds).
    assert (s5 = s) as -> by (by injection Hb).
    apply io_write_ok in Hds as (w & Hcr & ->).
    apply io_insert_cached_inv in Hins as [Hqi _]; [|right; eauto].
    apply law_create in Hcr as (_ & Ht & Hh & Hrow & _ & Hbr).
    rewrite (quiet_dir _ s') by done. rewrite dir_put. repeat split; eauto.
Qed.

(** The rows left by a delete of [delete_ids]. *)
Definition without_docs (delete_ids : list string) (rows : list ChunkRow) : list ChunkRow :=
  filter (λ r, cr_doc_id r ∉ delete_ids) rows.

Lemma without_docs_nil rows : without_docs [] rows = rows.
Proof.
  unfold without_docs. induction rows as [|r rows IH]; [done|].
  rewrite filter_cons_True by apply not_elem_of_nil. by rewrite IH.
Qed.

Lemma delete_in_list_rows ids (rows : list ChunkRow) :
  filter (λ r, row_selected (InList "doc_id" ids) r = false) rows = without_docs ids rows.
Proof.
  apply list_filter_iff. intros r. unfold row_selected. cbn.
  by rewrite bool_decide_eq_false.
Qed.

Lemma delete_eq_rows id (rows : list ChunkRow) :
  filter (λ r, row_selected (EqLit "doc_id" id) r = false) rows = without_docs [id] rows.
Proof.
  apply list_filter_iff. intros r. unfold row_selected. cbn.
  rewrite String.eqb_neq, list_elem_of_singleton. done.
Qed.

Lemma try_new_rows dim rows (batch : list ChunkRow) s s' :
  rows_to_batch rows s = (s', Ok batch) → st_dim s = dim → Forall (row_width dim) rows →
  s' = s ∧ batch = rows.
Proof.
  unfold rows_to_batch, io_lift. intros [= <- Hb] <- Hw. split; [done|].
  rewrite law_try_new in Hb by done. by injection Hb as <-.
Qed.
Lemma moved_delete d b m e s s1 s2 h h' rows :
  moved_to d b s s1 h rows → io_write (dataset_path d) m (λ w, l_delete_rows w h e) s1 = (s2, Ok h') →
  moved_to d b s s2 h' (filter (λ r, row_selected e r = false) rows).
Proof.
  intros Hmv Hw. eapply moved_write; [done..|]. intros w (? & ? & Hr & _)%law_delete_rows_ok.
  by rewrite Hr, (mv_rows _ _ _ _ _ _ Hmv).
Qed.

(** The optional delete of a list of documents. *)
Lemma moved_delete_ids d b m ids s s1 s2 h h' rows :
  moved_to d b s s1 h rows →
  (if is_empty ids then io_ret h
   else io_write (dataset_path d) m (λ w, l_delete_rows w h (InList "doc_id" ids))) s1 = (s2, Ok h') →
  moved_to d b s s2 h' (without_docs ids rows).
Proof.
  intros Hmv Hw. destruct ids as [|i ids]; cbn [is_empty] in Hw.
  - injection Hw as <- <-. by rewrite without_docs_nil.
  - rewrite <-delete_in_list_rows. by eapply moved_delete.
Qed.

(** Appending a batch of rows of the store's width. *)
Lemma moved_append d b m new s s1 s2 h h' rows :
  Forall (row_width (st_dim s)) new → moved_to d b s s1 h rows →
  (let! batch := rows_to_batch new in io_write (dataset_path d) m (λ w, l_append w h batch)) s1 = (s2, Ok h') →
  moved_to d b s s2 h' (rows ++ new).
Proof.
  intros Hwd Hmv (s3 & batch & Hbt & Hw)%io_bind_ok.
  apply (try_new_rows (st_dim s)) in Hbt as [-> ->]; [|by apply (touches_dim (dataset_path d)), Hmv|done].
  eapply moved_write; [done..|]. intros w (? & ? & Hr & _)%law_append_ok.
  by rewrite Hr, (mv_rows _ _ _ _ _ _ Hmv).
Qed.

(** The optional append. *)
Lemma moved_append_rows d b m new s s1 s2 h h' rows :
  Forall (row_width (st_dim s)) new → moved_to d b s s1 h rows →
  (if is_empty new then io_ret h
   else let! batch := rows_to_batch new in io_write (dataset_path d) m (λ w, l_append w h batch)) s1
    = (s2, Ok h') →
  moved_to d b s s2 h' (rows ++ new).
Proof.
  intros Hwd Hmv Hw. destruct new as [|r new]; cbn [is_empty] in Hw.
  - injection Hw as <- <-. by rewrite app_nil_r.
  - by eapply moved_append.
Qed.

(** Opening for write after ensuring that the dataset exists: the handle holds
    the rows of the branch, nothing that can be observed has changed but the
    creation of an empty main branch. *)
Lemma open_ensured d b s s1 s2 h0 h :
  io_open_dataset d b s = (s1, Ok h0) → io_open_branch_for_write d b s1 = (s2, Ok h) →
  moved_to d b s s2 h (head_rows s d b).
Proof.
  intros Ho Hw. pose proof (io_open_dataset_touches _ _ _ _ _ Ho) as Ht.
  apply open_for_write_head in Hw as (Hq & _ & Hh & Hb). apply moved_quiet with s1; [|done].
  unfold head_rows. apply open_dataset_dir in Ho as [[Hd Hq1]|(Hx & _ & _ & Hts & (h1 & Hh1 & Hr1) & Hbr)].
  - rewrite Hd in Hh. by split; rewrite ?Hd, ?Hh.
  - apply law_not_exists in Hx as [Ht0 Hh0]. split; [done| |done|congruence| |done].
    + rewrite Hh0. destruct (want_branch b); [by rewrite Hbr in Hh|]. congruence.
    + intros c Hc. rewrite Hh0. destruct c as [c|]; [by rewrite Hbr|].
      destruct (want_branch b); [by rewrite Hbr in Hh|done].
Qed.

(** One commit's batch: on the branch written, the rows of the replaced and
    removed documents are gone and the new rows are there, all of them and
    nothing else; the branch's version is the one returned; no tag and no other
    branch of the domain changes, and no other directory. *)
Theorem batch_delete_append_spec domain branch delete_ids rows s s' version :
  Forall (row_width (st_dim s)) rows →
  io_batch_delete_append domain branch delete_ids rows s = (s', Ok version) →
  ∃ h, moved_to domain branch s s' h (without_docs delete_ids (head_rows s domain branch) ++ rows) ∧
    l_version h = version ∧ st_read_only s = false.
Proof.
  intros Hwd (s0 & [] & [-> Hro]%ensure_writable_ok & Hrun)%io_bind_ok.
  apply io_bind_ok in Hrun as (s1 & h0 & Ho & Hrun). apply io_bind_ok in Hrun as (s2 & h & Hw & Hrun).
  pose proof (open_ensured _ _ _ _ _ _ _ Ho Hw) as Hmv.
  apply io_bind_ok in Hrun as (s3 & hd & Hdel & Hrun). apply (moved_delete_ids _ _ _ _ _ _ _ _ _ _ Hmv) in Hdel.
  apply io_bind_ok in Hrun as (s4 & ha & Happ & Hrun).
  apply (moved_append_rows _ _ _ _ _ _ _ _ _ _ Hwd Hdel) in Happ.
  apply io_bind_ok in Hrun as (s6 & [] & Hrf & [= <- <-]). exists ha.
  split; [|done]. by apply (moved_quiet _ _ _ _ _ _ _ Happ), (io_refresh_inv domain branch s4 s6 (Ok tt)).
Qed.

(** Replacing one document: as a batch that deletes it and appends its rows. *)
Theorem upsert_chunks_spec domain branch doc_id rows s s' version :
  rows ≠ [] → Forall (row_width (st_dim s)) rows →
  io_upsert_chunks domain branch doc_id rows s = (s', Ok version) →
  ∃ h, moved_to domain branch s s' h (without_docs [doc_id] (head_rows s domain branch) ++ rows) ∧
    l_version h = version.
Proof.
  intros Hne Hwd (s0 & [] & [-> Hro]%ensure_writable_ok & Hrun)%io_bind_ok.
  destruct rows as [|r rows]; [done|]. cbn [is_empty] in Hrun.
  apply io_bind_ok in Hrun as (s1 & h0 & Ho & Hrun). apply io_bind_ok in Hrun as (s2 & h & Hw & Hrun).
  pose proof (open_ensured _ _ _ _ _ _ _ Ho Hw) as Hmv.
  apply io_bind_ok in Hrun as (s3 & hd & Hdel & Hrun). apply (moved_delete _ _ _ _ _ _ _ _ _ _ Hmv) in Hdel.
  rewrite delete_eq_rows in Hdel.
  apply io_bind_ok in Hrun as (s4 & batch & Hbt & Hrun). apply io_bind_ok in Hrun as (s5 & ha & Happ & Hrun).
  assert (Hboth : (let! batch := rows_to_batch (r :: rows) in
    io_write (dataset_path domain) "append failed: " (λ w, l_append w hd batch)) s3 = (s5, Ok ha)).
  { apply io_bind_ok. eauto. }
  apply (moved_append _ _ _ _ _ _ _ _ _ _ Hwd Hdel) in Hboth.
  apply io_bind_ok in Hrun as (s6 & [] & Hrf & [= <- <-]). exists ha.
  split; [|done]. by apply (moved_quiet _ _ _ _ _ _ _ Hboth), (io_refresh_inv domain branch s5 s6 (Ok tt)).
Qed.
(** Deleting a document of a domain that has no dataset does nothing, and in
    particular creates none; otherwise its rows are gone and the rest stays. *)
Theorem delete_doc_spec domain branch doc_id s s' version :
  io_delete_doc domain branch doc_id s = (s', Ok version) →
  path_exists s (dataset_path domain) = false ∧ version = 0%N ∧ s' = s
  ∨ ∃ h, moved_to domain branch s s' h (without_docs [doc_id] (head_rows s domain branch)) ∧
      l_version h = version.
Proof.
  intros (s0 & [] & [-> Hro]%ensure_writable_ok & Hrun)%io_bind_ok.
  apply io_bind_ok in Hrun as (s1 & opened & Ho & Hrun).
  apply io_open_dataset_readonly_inv in Ho as [Hq Hn]. destruct opened as [h0|].
  2: { injection Hrun as <- <-. destruct (Hn eq_refl) as (Hx & _ & Hs). by left. }
  right. apply io_bind_ok in Hrun as (s2 & h & Hw & Hrun).
  apply open_for_write_head in Hw as (Hq2 & _ & Hh & Hb).
  assert (Hmv : moved_to domain branch s s2 h (head_rows s domain branch)).
  { rewrite (quiet_dir s s1) in Hh by done. apply moved_quiet with s; [|by etrans].
    unfold head_rows. by split; rewrite ?Hh. }
  apply io_bind_ok in Hrun as (s3 & hd & Hdel & Hrun). apply (moved_delete _ _ _ _ _ _ _ _ _ _ Hmv) in Hdel.
  rewrite delete_eq_rows in Hdel.
  apply io_bind_ok in Hrun as (s6 & [] & Hrf & [= <- <-]). exists hd.
  split; [|done]. by apply (moved_quiet _ _ _ _ _ _ _ Hdel), (io_refresh_inv domain branch s3 s6 (Ok tt)).
Qed.

(** ** Branch-out *)

(** The directory of [domain] in [s'] has a new branch [branch] at [version],
    and is otherwise that of [s]. *)
Definition forked (domain branch : string) (s s' : LanceStore W H) (version : N) : Prop :=
  let w := dir_of s (dataset_path domain) in
  let w' := dir_of s' (dataset_path domain) in
  v_head w (Some branch) = None ∧
  (∃ h, v_head w' (Some branch) = Some h ∧ l_version h = version) ∧
  v_tags w' = v_tags w ∧ (∀ b, b ≠ Some branch → v_head w' b = v_head w b).

(** The directory of [domain] as it can be observed is the same. *)
Definition same_dir (domain : string) (s s' : LanceStore W H) : Prop :=
  let w := dir_of s (dataset_path domain) in
  let w' := dir_of s' (dataset_path domain) in
  v_tags w' = v_tags w ∧ same_heads w w'.

Lemma same_dir_quiet d s s' : quiet s s' → same_dir d s s'.
Proof. intros Hq. unfold same_dir. rewrite (quiet_dir s s') by done. by split. Qed.

Lemma forked_same d b s1 s2 s3 v : same_dir d s1 s2 → forked d b s2 s3 v → forked d b s1 s3 v.
Proof.
  intros [Ht [_ Hh]] (Hn & Hex & Ht' & Ho). split; [by rewrite <-Hh|]. split; [done|].
  split; [congruence|]. intros c Hc. by rewrite Ho, Hh.
Qed.

Lemma create_branch_from_tag_inv d b c s s' r :
  io_create_branch_from_tag d b c s = (s', r) →
  match r with
  | Ok v => forked d b s s' v ∧
      ∃ k, v_tags (dir_of s (dataset_path d)) !! encode_commit_tag c = Some k ∧ tc_version k = v
  | Err _ => same_dir d s s'
  end.
Proof.
  unfold io_create_branch_from_tag. unfold io_bind at 1.
  destruct (ensure_writable s) as [s0 [[]|e]] eqn:Ew; apply ensure_writable_inv in Ew as [-> _].
  2: { intros [= <- <-]. by apply same_dir_quiet. }
  destruct (String.eqb b MAIN_BRANCH); [intros [= <- <-]; by apply same_dir_quiet|].
  unfold io_bind at 1, io_get. destruct (path_exists s (dataset_path d));
    [|intros [= <- <-]; by apply same_dir_quiet].
  unfold io_bind at 1. destruct (io_open_fresh _ s) as [s1 [ds|e]] eqn:Ef;
    apply io_open_fresh_inv in Ef as [Hq _].
  2: { intros [= <- <-]. by apply same_dir_quiet. }
  unfold io_bind at 1. destruct (io_write _ _ _ s1) as [s2 r2] eqn:E2.
  apply io_write_inv in E2 as (w & r0 & Hl & -> & ->). rewrite (quiet_dir s s1) in Hl by done.
  destruct r0 as [h'|e]; cbn; intros [= <- <-].
  - apply law_create_branch_ok in Hl as (_ & Ht & Hn & Hh & _ & Ho & k & Hk & Hv).
    split; [|by exists k]. unfold forked. cbn zeta. rewrite dir_put. split; [done|].
    split; [by exists h'|]. by split.
  - apply law_create_branch_err in Hl as [Ht Hs]. unfold same_dir. by rewrite dir_put.
Qed.

Lemma io_create_branch_ok d b v s s' :
  io_create_branch d b v s = (s', Ok tt) → forked d b s s' v.
Proof.
  intros (s0 & [] & [-> _]%ensure_writable_ok & Hrun)%io_bind_ok.
  destruct (String.eqb b MAIN_BRANCH); [done|].
  apply io_bind_ok in Hrun as (s0 & s1 & [= <- <-] & Hrun). destruct (path_exists s _); [|done].
  apply io_bind_ok in Hrun as (s1 & ds & Hf & Hrun). apply io_open_fresh_inv in Hf as [Hq _].
  apply io_bind_ok in Hrun as (s2 & h & Hw & [= <-]).
  apply io_write_ok in Hw as (w & Hl & ->). rewrite (quiet_dir s s1) in Hl by done.
  apply law_create_branch_ok in Hl as (_ & Ht & Hn & Hh & _ & Ho & Hv).
  unfold forked. cbn zeta. rewrite dir_put. split; [done|]. split; [by exists h|]. by split.
Qed.

Lemma same_dir_trans d s1 s2 s3 : same_dir d s1 s2 → same_dir d s2 s3 → same_dir d s1 s3.
Proof.
  intros [Ht [He Hh]] [Ht' [He' Hh']]. split; [congruence|]. split; [congruence|].
  intros b. by rewrite Hh', Hh.
Qed.

Lemma open_dataset_existing d b s s' h :
  io_open_dataset d b s = (s', Ok h) → path_exists s (dataset_path d) = true → quiet s s'.
Proof. intros [[_ ?]|(Hx & _)]%open_dataset_dir He; [done|]. congruence. Qed.

Lemma empty_batch_ok s s' r : empty_batch s = (s', r) → s' = s ∧ r = Ok [].
Proof. unfold empty_batch, io_lift. rewrite law_try_new by constructor. by intros [= <- <-]. Qed.

(** The data files listed for a branch are those of its head, none when the
    dataset is not there; nothing is created to list them. *)
Theorem branch_data_file_paths_spec {HFs : LanceFiles H} domain branch s s' files :
  io_branch_data_file_paths domain branch s = (s', Ok files) →
  quiet s s' ∧
  if path_exists s (dataset_path domain)
  then ∃ h, v_head (dir_of s (dataset_path domain)) (if String.eqb branch MAIN_BRANCH then None else Some branch) = Some h ∧
         ∀ f, f ∈ files ↔ ∃ fragment, fragment ∈ l_data_files h ∧ f ∈ fragment
  else files = ∅.
Proof.
  unfold io_branch_data_file_paths. cbv zeta. intros (s0 & s1 & [= <- <-] & Hr)%io_bind_ok.
  destruct (path_exists s (dataset_path domain)); cbn [negb] in Hr; [|by injection Hr as <- <-].
  apply io_bind_ok in Hr as (s1 & base & Hf & Hr). pose proof Hf as Hf'. apply io_open_fresh_inv in Hf as [Hq _].
  assert (Hfiles : ∀ h f, f ∈ list_to_set (C:=gset string) (concat (l_data_files h)) ↔ ∃ fragment, fragment ∈ l_data_files h ∧ f ∈ fragment).
  { intros h f. rewrite elem_of_list_to_set, list_elem_of_In, in_concat. split; intros (x & Hx & Hy); exists x; by rewrite !list_elem_of_In in *. }
  apply io_bind_ok in Hr as (s2 & h & Hco & [= <- <-]). destruct (String.eqb branch MAIN_BRANCH).
  - injection Hco as <- <-. split; [done|]. unfold io_open_fresh in Hf'. apply io_bind_ok in Hf' as (s3 & [] & [= <-] & Hl).
    apply io_read_ok in Hl as [_ (_ & Hh & _)%law_load]. exists base. by split.
  - apply io_read_ok in Hco as [-> (Hh & _)%law_checkout_branch]. split; [done|]. exists h. split; [|done]. by rewrite (quiet_dir s s1) in Hh.
Qed.
End writers.

(** ** Directory names *)

Section paths.
Context `{ByteSerialize}.

Definition underscore : ascii := "_"%char.

(** The characters a segment may hold that are never encoded. *)
Definition plain_char (c : ascii) : bool := is_ascii_alphanumeric c || Ascii.eqb c underscore.

(** The documented behaviour of [byte_serialize] on such a segment. *)
Definition serialize_plain : Prop :=
  ∀ s, forallb plain_char (str_bytes s) = true → byte_serialize s = s.

(** Two domains of two segments each that share one dataset directory: the
    separator [__] is also what an underscore at the end or at the start of a
    segment leaves. *)
Theorem dataset_path_collision :
  serialize_plain → dataset_path "a__b/c" = dataset_path "a/b__c" ∧ ("a__b/c" : string) ≠ "a/b__c".
Proof.
  intros Hp. split; [|done]. unfold dataset_path, encode_domain_path.
  change (split_char slash "a__b/c") with ["a__b"; "c"]. change (split_char slash "a/b__c") with ["a"; "b__c"].
  cbn [map]. by rewrite !Hp.
Qed.

Fixpoint interspersed (segs : list string) : list string :=
  match segs with
  | [] => []
  | [x] => [x]
  | x :: segs => x :: "" :: interspersed segs
  end.

Lemma join_interspersed segs : join "__" segs = join "_" (interspersed segs).
Proof.
  induction segs as [|x [|y segs] IH]; [done|done|].
  change (x +:+ "__" +:+ join "__" (y :: segs) = join "_" (x :: "" :: interspersed (y :: segs))).
  rewrite IH. destruct (interspersed (y :: segs)) as [|z zs] eqn:E; [by destruct segs|]. done.
Qed.

Lemma cons_inj {A} (x y : A) l k : x :: l = y :: k → x = y ∧ l = k.
Proof. by intros [= -> ->]. Qed.

Lemma interspersed_inj l1 l2 : interspersed l1 = interspersed l2 → l1 = l2.
Proof.
  revert l2; induction l1 as [|x [|y l1] IH]; intros [|x' [|y' l2]] Heq; try discriminate Heq.
  - done.
  - exact Heq.
  - change (x :: "" :: interspersed (y :: l1) = x' :: "" :: interspersed (y' :: l2)) in Heq.
    apply cons_inj in Heq as [-> Heq]. apply cons_inj in Heq as [_ Heq].
    apply IH in Heq. by rewrite Heq.
Qed.

Lemma no_char_interspersed c segs : Forall (no_char c) segs → Forall (no_char c) (interspersed segs).
Proof.
  assert (no_char c "") by (intros []%elem_of_nil).
  induction segs as [|x [|y segs] IH]; intros Hs; [done|done|].
  inversion Hs; subst. constructor; [done|]. constructor; [done|]. by apply IH.
Qed.

Lemma interspersed_ne segs : segs ≠ [] → interspersed segs ≠ [].
Proof. by destruct segs as [|x [|y segs]]. Qed.

(** Domains whose encoded segments hold no underscore have directories of
    their own. *)
Theorem dataset_path_injective d1 d2 :
  (∀ x y, byte_serialize x = byte_serialize y → x = y) →
  Forall (λ seg, no_char underscore (byte_serialize seg)) (split_char slash d1) →
  Forall (λ seg, no_char underscore (byte_serialize seg)) (split_char slash d2) →
  dataset_path d1 = dataset_path d2 → d1 = d2.
Proof.
  intros Hinj H1 H2 Heq. unfold dataset_path, encode_domain_path in Heq.
  apply (f_equal str_bytes) in Heq. rewrite !str_bytes_app in Heq. apply app_inv_tail, str_bytes_inj in Heq.
  rewrite !join_interspersed in Heq.
  assert (Hne : ∀ d, map byte_serialize (split_char slash d) ≠ []).
  { intros d. destruct (split_char_cons slash d) as (x & xs & ->). done. }
  apply (f_equal (split_char underscore)) in Heq.
  rewrite !(split_join underscore) in Heq
    by (apply interspersed_ne, Hne || (apply no_char_interspersed, Forall_map; done)).
  apply interspersed_inj in Heq.
  rewrite <-(join_split slash d1), <-(join_split slash d2). f_equal.
  clear -Hinj Heq. revert Heq. generalize (split_char slash d2). induction (split_char slash d1) as [|x xs IH];
    intros [|y ys]; cbn; intros [=]; [done|]. f_equal; auto.
Qed.
End paths.

(** ** A run on the small dataset *)

Module StoreExample.
#[export] Existing Instances RefLance.ops RefLance.view RefLance.laws.
#[export] Instance ident_serialize : ByteSerialize := λ s, s.
#[export] Instance cache_order : HashIter string (DatasetCacheEntry RefLance.handle) := map_order.

Definition row (id content : string) : ChunkRow :=
  mkChunkRow id "Doc" 0 1 0 1 [F32.zero] [F32.zero] content.

Definition store0 : LanceStore (option RefLance.dir) RefLance.handle := new_store "/data" 1 ∅.

(** Documents [A] and [B] on main, at version 2. *)
Definition store1 := fst (io_batch_delete_append "o/t" "main" [] [row "A" "a"; row "B" "b"] store0).

Lemma width id content : row_width 1 (row id content).
Proof. by split. Qed.
End StoreExample.

#[local] Existing Instances RefLance.ops RefLance.view RefLance.laws
  StoreExample.ident_serialize StoreExample.cache_order.

(** Replacing [A], removing [B] and adding [C] on main. *)
Lemma batch_delete_append_spec_witness :
  let '(s', r) := io_batch_delete_append "o/t" "main" ["A"; "B"]
      [StoreExample.row "A" "a2"; StoreExample.row "C" "c"] StoreExample.store1 in
  r = Ok 4%N ∧ head_rows s' "o/t" "main" = [StoreExample.row "A" "a2"; StoreExample.row "C" "c"].
Proof.
  destruct (io_batch_delete_append _ _ _ _ _) as [s' r] eqn:E.
  assert (r = Ok 4%N) as -> by (by apply (f_equal snd) in E; vm_compute in E).
  split; [done|]. apply batch_delete_append_spec in E as (h & Hmv & _).
  - rewrite (moved_head_rows _ _ _ _ _ _ Hmv). by vm_compute.
  - repeat constructor.
Defined.

Lemma upsert_chunks_spec_witness :
  let '(s', r) := io_upsert_chunks "o/t" "main" "A" [StoreExample.row "A" "a2"] StoreExample.store1 in
  r = Ok 4%N ∧ head_rows s' "o/t" "main" = [StoreExample.row "B" "b"; StoreExample.row "A" "a2"].
Proof.
  destruct (io_upsert_chunks _ _ _ _ _) as [s' r] eqn:E.
  assert (r = Ok 4%N) as -> by (by apply (f_equal snd) in E; vm_compute in E).
  split; [done|]. apply upsert_chunks_spec in E as (h & Hmv & _); [|done|repeat constructor].
  rewrite (moved_head_rows _ _ _ _ _ _ Hmv). by vm_compute.
Defined.

Lemma delete_doc_spec_witness :
  let '(s', r) := io_delete_doc "o/t" "main" "A" StoreExample.store1 in
  r = Ok 3%N ∧ head_rows s' "o/t" "main" = [StoreExample.row "B" "b"].
Proof.
  destruct (io_delete_doc _ _ _ _) as [s' r] eqn:E.
  assert (r = Ok 3%N) as -> by (by apply (f_equal snd) in E; vm_compute in E).
  split; [done|]. apply delete_doc_spec in E as [(_ & [=] & _)|(h & Hmv & _)].
  rewrite (moved_head_rows _ _ _ _ _ _ Hmv). by vm_compute.
Defined.

Lemma dataset_path_injective_witness :
  (dataset_path "admin/x" : string) ≠ dataset_path "admin/y".
Proof.
  intros Heq. assert (Hd : ("admin/x" : string) = "admin/y"); [|done].
  apply dataset_path_injective; [done| | |done];
    (repeat constructor; apply (bool_decide_unpack _); by vm_compute).
Defined.

Lemma dataset_path_collision_witness : (dataset_path "a__b/c" : string) = dataset_path "a/b__c".
Proof. by apply dataset_path_collision. Defined.
