(* ===== verification/Commit.v ===== *)
(** * Commits: reservation, tags, last-indexed, deltas
      (src/src/store/lance/commit.rs, the deletions of stats.rs)

    A commit is bound to a dataset version by a Lance tag; the tag is the
    durable record the 409 guard and last-indexed are derived from, the maps of
    the store are caches of it. *)

From S2P Require Import Prelude F32 RustStr Model LayerIdx Schema Search Lance DatasetCache Store.

(** [decode_commit_tag(..).ok()]: the text of the error is not looked at. *)
Definition decode_ok (tag : string) : option string :=
  match decode_commit_tag (λ _, "") tag with Ok c => Some c | Err _ => None end.

(** The filter of [io_derive_last_indexed] and [io_count_branch_commits]:
    rebuild branches count as main. *)
Definition tag_of_branch (branch : string) (contents : TagContents) : bool :=
  if bool_decide (tc_branch contents = want_branch branch) then true
  else if String.eqb branch MAIN_BRANCH then
    match tc_branch contents with Some b => is_compact_rebuild_branch b | None => false end
  else false.

(** [a.version.cmp(&b.version).then(a.created_at.cmp(&b.created_at))]. *)
Definition last_cmp (a b : string * TagContents) : comparison :=
  then_with (N.compare (tc_version a.2) (tc_version b.2))
            (Z.compare (tc_created_at a.2) (tc_created_at b.2)).

(** [Iterator::max_by]: the last of the greatest. *)
Definition max_step {A} (cmp : A → A → comparison) (acc : option A) (x : A) : option A :=
  match acc with
  | None => Some x
  | Some a => match cmp a x with Gt => Some a | _ => Some x end
  end.
Definition max_by {A} (cmp : A → A → comparison) (l : list A) : option A := foldl (max_step cmp) None l.

(** The commits of a branch among the tags, in iteration order. *)
Definition branch_tags {HT : HashIter string TagContents} (branch : string)
    (tags : gmap string TagContents) : list (string * TagContents) :=
  omap (λ '(tag_name, contents),
    commit ← decode_ok tag_name;
    if tag_of_branch branch contents then Some (commit, contents) else None) (hash_iter tags).

(** The map built by [io_list_commit_versions]: a later tag that decodes to the
    same commit overwrites. *)
Definition commit_versions {HT : HashIter string TagContents}
    (tags : gmap string TagContents) : gmap string N :=
  foldl (λ out '(tag_name, contents),
    match decode_ok tag_name with
    | Some commit => <[commit := tc_version contents]> out
    | None => out
    end) ∅ (hash_iter tags).

Record VersionDelta := mkVersionDelta {
  rows_to_append : list ChunkRow;
  doc_ids_to_delete : list string;
}.

(** Documents by id: the set of their (chunk index, content) pairs. *)
Abbreviation DocContents := (gmap string (gset (Z * string))).

(** One row of the loop of [scan_doc_id_content]. *)
Definition scan_row (out : DocContents) (r : ChunkRow) : DocContents :=
  <[cr_doc_id r := {[(cr_chunk_index r, cr_content r)]} ∪ default ∅ (out !! cr_doc_id r)]> out.
Definition doc_id_contents (rows : list ChunkRow) : DocContents := foldl scan_row ∅ rows.

(** [rows.sort_by] of [scan_full_rows]. *)
Definition row_cmp (a b : ChunkRow) : comparison :=
  then_with (String.compare (cr_doc_id a) (cr_doc_id b)) (Z.compare (cr_chunk_index a) (cr_chunk_index b)).

Section commit.
Context {W H : Type} `{LanceOps W H} `{ByteSerialize} {HD : HashIter string (DatasetCacheEntry H)}
        {HT : HashIter string TagContents}.

(** The tag listing every reader starts from. *)
Definition list_tags (domain : string) (ds : H) : io W H (gmap string TagContents) :=
  io_read (dataset_path domain) "tag list failed: " (λ w, l_list_tags w ds).

Definition io_resolve_commit (domain branch commit : string) : io W H (option N) :=
  let! cached := io_open_dataset_readonly domain in
  match cached with
  | None => io_ret None
  | Some ds =>
      let tag := encode_commit_tag commit in
      let! tags := list_tags domain ds in
      io_ret (tc_version <$> tags !! tag)
  end.

Definition io_list_commit_versions (domain : string) : io W H (gmap string N) :=
  let! cached := io_open_dataset_readonly domain in
  match cached with
  | None => io_ret ∅
  | Some ds => let! tags := list_tags domain ds in io_ret (commit_versions tags)
  end.

Definition io_derive_last_indexed (domain branch : string) : io W H (option (string * N)) :=
  let! cached := io_open_dataset_readonly domain in
  match cached with
  | None => io_ret None
  | Some ds =>
      let! tags := list_tags domain ds in
      io_ret ((λ best, (best.1, tc_version best.2)) <$> max_by last_cmp (branch_tags branch tags))
  end.

Definition io_count_branch_commits (domain branch : string) : io W H nat :=
  let! cached := io_open_dataset_readonly domain in
  match cached with
  | None => io_ret 0
  | Some ds => let! tags := list_tags domain ds in io_ret (length (branch_tags branch tags))
  end.

(** ** The reservation set *)

Definition io_try_reserve_commit (domain branch commit : string) : io W H bool :=
  let key := (domain, branch, commit) in
  let! s := io_get in
  if bool_decide (key ∈ st_inflight s) then io_ret false
  else
    let! version := io_resolve_commit domain branch commit in
    match version with
    | Some _ => io_ret false
    | None => io_modify (λ s, set_inflight s ({[key]} ∪ st_inflight s));! io_ret true
    end.

Definition io_release_commit_reservation (domain branch commit : string) : io W H unit :=
  io_modify (λ s, set_inflight s (st_inflight s ∖ {[(domain, branch, commit)]})).

(** ** Tagging *)

Definition cache_last_indexed (domain branch commit : string) (version : N) : io W H unit :=
  io_modify (λ s, set_branch_indexes s
    (<[(domain, branch) := mkBranchIndex (Some commit) version]> (st_branch_indexes s))).

Definition update_last_indexed (domain branch commit : string) (version : N) : io W H unit :=
  cache_last_indexed domain branch commit version.

Definition io_tag_commit (domain branch commit : string) (version : N) : io W H unit :=
  ensure_writable;!
  let tag := encode_commit_tag commit in
  let path := dataset_path domain in
  (if String.eqb branch MAIN_BRANCH then
     let! ds := io_open_dataset domain branch in
     io_write path "tag creation failed: " (λ w, l_create_tag w ds tag version)
   else
     let! base := io_open_fresh path in
     let! branch_ds := io_read path ("checkout '" +:+ branch +:+ "' for tag failed: ")
                         (λ w, l_checkout_branch w base branch) in
     io_write path "tag creation failed: " (λ w, l_create_tag w branch_ds tag version));!
  io_refresh_cached_dataset domain branch;!
  cache_last_indexed domain branch commit version.

Definition io_assign_commit (domain branch source_commit target_commit : string) : io W H N :=
  ensure_writable;!
  let! resolved := io_resolve_commit domain branch source_commit in
  match resolved with
  | None => io_throw (StoreInternal
      ("cannot assign: source commit '" +:+ source_commit +:+ "' is not indexed"))
  | Some source_version =>
      io_tag_commit domain branch target_commit source_version;!
      io_ret source_version
  end.

Definition last_indexed (domain : Domain) (branch : BranchName) : io W H LastIndexed :=
  let d := domain_str domain in
  let b := branch_str branch in
  let! s := io_get in
  match st_branch_indexes s !! (d, b) with
  | Some bi => io_ret (mkLastIndexed b (bi_commit bi) (bi_version bi))
  | None =>
      let! derived := io_derive_last_indexed d b in
      match derived with
      | Some (commit, version) =>
          io_modify (λ s, match st_branch_indexes s !! (d, b) with
                          | Some _ => s
                          | None => set_branch_indexes s
                              (<[(d, b) := mkBranchIndex (Some commit) version]> (st_branch_indexes s))
                          end);!
          io_ret (mkLastIndexed b (Some commit) version)
      | None => io_ret (mkLastIndexed b None 0)
      end
  end.

(** ** Cancellation tokens *)

Definition cancel_previous_pipeline_and_register (domain branch : string) (new_token : nat) : io W H unit :=
  io_modify (λ s, set_tokens s (<[(domain, branch) := new_token]> (st_cancel_tokens s))
    (match st_cancel_tokens s !! (domain, branch) with
     | Some old => {[old]} ∪ st_cancelled s
     | None => st_cancelled s
     end)).

Definition unregister_pipeline_cancel_token (domain branch : string) : io W H unit :=
  io_modify (λ s, set_tokens s (delete (domain, branch) (st_cancel_tokens s)) (st_cancelled s)).

(** ** Deletion *)

(** The maps keyed by domain and branch, less the entries of [domain]. *)
Definition other_domain {A} (domain : string) (m : gmap BranchKey A) : gmap BranchKey A :=
  filter (λ kv, kv.1.1 ≠ domain) m.

(** Cancelling the tokens of the entries that a map loses. *)
Definition cancel_of (domain : string) (m : gmap BranchKey nat) : gset nat :=
  list_to_set (omap (λ kv, if bool_decide (kv.1.1 = domain) then Some kv.2 else None) (map_to_list m)).

Definition purge_domain (domain : string) (s : LanceStore W H) : LanceStore W H :=
  let s := set_cache s (mkCache (delete domain (dc_datasets (st_cache s))) (dc_max (st_cache s)) (dc_seq (st_cache s))) in
  let s := set_branch_indexes s (other_domain domain (st_branch_indexes s)) in
  let s := set_tokens s (other_domain domain (st_cancel_tokens s))
             (cancel_of domain (st_cancel_tokens s) ∪ st_cancelled s) in
  let s := set_inflight s (filter (λ k, k.1.1 ≠ domain) (st_inflight s)) in
  set_delta_counts s (other_domain domain (st_delta_counts s)).

(** [io_delete_domain]; the lock maps it purges are those of Locks. *)
Definition io_delete_domain (domain : string) : io W H unit :=
  ensure_writable;!
  let path := dataset_path domain in
  let! s := io_get in
  (if path_exists s path
   then io_write path ("failed to remove dataset directory " +:+ st_base_dir s +:+ "/" +:+ path +:+ ": ") l_remove
   else io_ret tt);!
  io_modify (purge_domain domain).

(** The deletion loop of [io_delete_branch_index]: it stops at an error. *)
Fixpoint delete_tags (path : string) (ds : H) (names : list string) : io W H unit :=
  match names with
  | [] => io_ret tt
  | n :: names => io_write path "tag delete failed: " (λ w, l_delete_tag w ds n);! delete_tags path ds names
  end.

Definition io_delete_branch_index (domain branch : string) : io W H unit :=
  ensure_writable;!
  io_modify (λ s, set_tokens s (delete (domain, branch) (st_cancel_tokens s))
    (match st_cancel_tokens s !! (domain, branch) with
     | Some token => {[token]} ∪ st_cancelled s
     | None => st_cancelled s
     end));!
  let! opened := io_open_dataset_readonly domain in
  match opened with
  | None => io_ret tt
  | Some ds =>
      let! tags := list_tags domain ds in
      delete_tags (dataset_path domain) ds
        (filter (λ kv, tc_branch kv.2 = want_branch branch) (hash_iter tags)).*1
  end;!
  io_modify (λ s,
    let s := set_branch_indexes s (delete (domain, branch) (st_branch_indexes s)) in
    let s := set_inflight s (filter (λ k, k.1 ≠ (domain, branch)) (st_inflight s)) in
    set_delta_counts s (delete (domain, branch) (st_delta_counts s))).

(** ** Version deltas *)

Definition scan_doc_id_content (path : string) (ds : H) : io W H DocContents :=
  let! rows := io_read path "collect failed: " (λ w, l_scan w ds None) in
  io_ret (doc_id_contents rows).

Definition scan_full_rows (path : string) (ds : H) (doc_ids : gset string) : io W H (list ChunkRow) :=
  let! rows := io_read path "collect failed: " (λ w, l_scan w ds (Some (InList "doc_id" (elements doc_ids)))) in
  io_ret (sort_by row_cmp rows).

Definition changed_docs (docs_a docs_b : DocContents) : gset string :=
  filter (λ id, docs_a !! id ≠ docs_b !! id) (dom docs_a ∩ dom docs_b).

Definition compute_delta_from_scans (path : string) (docs_a docs_b : DocContents) (ds_b : H) : io W H VersionDelta :=
  let added := dom docs_b ∖ dom docs_a in
  let removed := dom docs_a ∖ dom docs_b in
  let docs_to_read := added ∪ changed_docs docs_a docs_b in
  let! rows := if decide (docs_to_read = ∅) then io_ret [] else scan_full_rows path ds_b docs_to_read in
  io_ret (mkVersionDelta rows (elements removed)).

Definition io_compute_version_delta (domain : string) (v_a v_b : N) : io W H VersionDelta :=
  let path := dataset_path domain in
  let! base := io_open_fresh path in
  let! ds_a := io_read path ("checkout v_a=" +:+ pretty v_a +:+ " failed: ") (λ w, l_checkout_version w base v_a) in
  let! docs_a := scan_doc_id_content path ds_a in
  let! ds_b := io_read path ("checkout v_b=" +:+ pretty v_b +:+ " failed: ") (λ w, l_checkout_version w base v_b) in
  let! docs_b := scan_doc_id_content path ds_b in
  compute_delta_from_scans path docs_a docs_b ds_b.

Definition io_checkout_commit_snapshot (domain commit : string) : io W H H :=
  let path := dataset_path domain in
  let! base := io_open_fresh path in
  let tag := encode_commit_tag commit in
  let! tags := list_tags domain base in
  match tags !! tag with
  | None => io_throw (StoreInternal ("commit not indexed: tag '" +:+ tag +:+ "' not found"))
  | Some contents =>
      let version := tc_version contents in
      match tc_branch contents with
      | None => io_read path ("checkout version " +:+ pretty version +:+ " failed: ")
                  (λ w, l_checkout_version w base version)
      | Some branch_name =>
          let! ds_branch := io_read path ("checkout branch '" +:+ branch_name +:+ "' for snapshot failed: ")
                              (λ w, l_checkout_branch w base branch_name) in
          io_read path ("checkout version " +:+ pretty version +:+ " on branch '" +:+ branch_name +:+ "' failed: ")
            (λ w, l_checkout_version w ds_branch version)
      end
  end.

Definition io_compute_delta_between_commits (domain commit_a commit_b : string) : io W H VersionDelta :=
  let path := dataset_path domain in
  let! ds_a := io_checkout_commit_snapshot domain commit_a in
  let! docs_a := scan_doc_id_content path ds_a in
  let! ds_b := io_checkout_commit_snapshot domain commit_b in
  let! docs_b := scan_doc_id_content path ds_b in
  compute_delta_from_scans path docs_a docs_b ds_b.

(** The new handle beside the version the source returns. *)
Definition io_apply_delta_on_branch (path : string) (ds : H) (delta : VersionDelta) : io W H (H * N) :=
  ensure_writable;!
  let! ds := if is_empty (doc_ids_to_delete delta) then io_ret ds
             else io_write path "delta delete failed: "
                    (λ w, l_delete_rows w ds (InList "doc_id" (doc_ids_to_delete delta))) in
  let! ds := if is_empty (rows_to_append delta) then io_ret ds
             else let! batch := rows_to_batch (rows_to_append delta) in
                  io_write path "delta append failed: " (λ w, l_append w ds batch) in
  io_ret (ds, l_version ds).
End commit.

(** ** Readers *)

Lemma list_elem_of_branch_tags {HT : HashIter string TagContents} branch tags commit contents :
  (commit, contents) ∈ branch_tags branch tags ↔
  ∃ t, tags !! t = Some contents ∧ decode_ok t = Some commit ∧ tag_of_branch branch contents = true.
Proof.
  unfold branch_tags. rewrite list_elem_of_omap. split.
  - intros ([t k] & Hin%hash_iter_elem & Hk). cbn in Hk.
    destruct (decode_ok t) as [c|] eqn:Ed; [|done]. cbn in Hk.
    destruct (tag_of_branch branch k) eqn:Eb; [|done]. injection Hk as <- <-. eauto.
  - intros (t & Ht%hash_iter_elem & Hd & Hb). exists (t, contents). split; [done|]. cbn.
    rewrite Hd. cbn. by rewrite Hb.
Qed.

Lemma max_by_spec {A} (cmp : A → A → comparison) `{!CmpOrder (λ _, True) cmp} l :
  match max_by cmp l with
  | Some m => m ∈ l ∧ ∀ x, x ∈ l → cmp x m ≠ Gt
  | None => l = []
  end.
Proof.
  unfold max_by.
  assert (Hg : ∀ l acc seen, (match acc with
      | Some m => m ∈ seen ∧ ∀ x, x ∈ seen → cmp x m ≠ Gt | None => seen = [] end) →
      match foldl (max_step cmp) acc l with
      | Some m => m ∈ seen ++ l ∧ ∀ x, x ∈ seen ++ l → cmp x m ≠ Gt | None => seen ++ l = [] end).
  { clear l. induction l as [|y l IH]; intros acc seen Hacc; cbn [foldl].
    { by rewrite app_nil_r. }
    rewrite cons_middle, app_assoc. apply IH. destruct acc as [a|]; cbn [max_step].
    - destruct Hacc as [Hin Hmax]. pose proof (cmp_antisym (P:=λ _, True) (cmp:=cmp) a y I I) as Hanti.
      assert (Hkeep : cmp a y = Gt → a ∈ seen ++ [y] ∧ ∀ x, x ∈ seen ++ [y] → cmp x a ≠ Gt).
      { intros E. split; [apply elem_of_app; by left|].
        intros x [Hx|Hx%list_elem_of_singleton]%elem_of_app; [auto|]. subst x. rewrite Hanti, E. done. }
      assert (Hnew : cmp a y ≠ Gt → y ∈ seen ++ [y] ∧ ∀ x, x ∈ seen ++ [y] → cmp x y ≠ Gt).
      { intros E. split; [apply elem_of_app; right; by apply list_elem_of_singleton|].
        intros x [Hx|Hx%list_elem_of_singleton]%elem_of_app.
        - apply (cmp_trans (P:=λ _, True) (cmp:=cmp) x a y); auto.
        - subst x. by rewrite (cmp_refl (λ _, True) cmp y I). }
      destruct (cmp a y) eqn:E; [by apply Hnew|by apply Hnew|by apply Hkeep].
    - subst seen. cbn. split; [by apply list_elem_of_singleton|].
      intros x Hx%list_elem_of_singleton. subst x. by rewrite (cmp_refl (λ _, True) cmp y I). }
  apply (Hg l None []). done.
Qed.

#[export] Instance N_compare_order : CmpOrder (λ _, True) N.compare.
Proof.
  split.
  - intros x y _ _. apply N.compare_antisym.
  - intros x y z _ _ _. rewrite !N.compare_gt_iff. lia.
Qed.

#[export] Instance last_cmp_order : CmpOrder (λ _, True) last_cmp.
Proof.
  apply then_with_order.
  - apply (on_key_order _ (λ _, True) (λ x : string * TagContents, tc_version x.2)); [apply _|done].
  - apply (on_key_order _ (λ _, True) (λ x : string * TagContents, tc_created_at x.2)); [apply _|done].
Qed.

Lemma last_cmp_version a b : last_cmp a b ≠ Gt → (tc_version a.2 ≤ tc_version b.2)%N.
Proof. unfold last_cmp. destruct (N.compare_spec (tc_version a.2) (tc_version b.2)); cbn; [lia|lia|done]. Qed.

Section readers.
Context {W H : Type} `{LanceLaws W H} `{ByteSerialize} {HD : HashIter string (DatasetCacheEntry H)}
        {HT : HashIter string TagContents}.
Implicit Types s : LanceStore W H.

Lemma list_tags_inv d ds s s' r :
  list_tags d ds s = (s', r) → s' = s ∧ ∀ m, r = Ok m → m = v_tags (dir_of s (dataset_path d)).
Proof.
  intros [-> ->]%io_read_inv. split; [done|]. intros m.
  destruct (l_list_tags _ _) eqn:E; cbn; intros [= <-]. by apply law_list_tags in E.
Qed.

(** The shape every reader of the tags has. *)
Definition read_tags {A} (a : A) (f : gmap string TagContents → A) (domain : string) : io W H A :=
  let! cached := io_open_dataset_readonly domain in
  match cached with
  | None => io_ret a
  | Some ds => let! tags := list_tags domain ds in io_ret (f tags)
  end.

Lemma read_tags_inv {A} (a : A) f d s s' r :
  read_tags a f d s = (s', r) → quiet s s' ∧ ∀ x, r = Ok x →
    path_exists s (dataset_path d) = false ∧ x = a ∨ x = f (v_tags (dir_of s (dataset_path d))).
Proof.
  unfold read_tags. unfold io_bind at 1.
  destruct (io_open_dataset_readonly d s) as [s1 r1] eqn:E.
  apply io_open_dataset_readonly_inv in E as [Hq Hn]. destruct r1 as [[ds|]|e].
  - unfold io_bind. destruct (list_tags d ds s1) as [s2 r2] eqn:E2.
    apply list_tags_inv in E2 as [-> Hm]. destruct r2 as [m|e]; intros [= <- <-]; (split; [done|]); [|done].
    intros x [= <-]. right. rewrite (Hm m eq_refl). by rewrite (quiet_dir s s1).
  - destruct (Hn eq_refl) as (He & _ & ->). intros [= <- <-]. split; [done|]. intros x [= <-]. by left.
  - intros [= <- <-]. by split.
Qed.

Lemma io_resolve_commit_inv d b c s s' r :
  io_resolve_commit d b c s = (s', r) → quiet s s' ∧ ∀ x, r = Ok x →
    path_exists s (dataset_path d) = false ∧ x = None
    ∨ x = tc_version <$> v_tags (dir_of s (dataset_path d)) !! encode_commit_tag c.
Proof. apply (read_tags_inv None (λ tags, tc_version <$> tags !! encode_commit_tag c)). Qed.

Lemma io_derive_last_indexed_inv d b s s' r :
  io_derive_last_indexed d b s = (s', r) → quiet s s' ∧ ∀ x, r = Ok x →
    path_exists s (dataset_path d) = false ∧ x = None
    ∨ x = (λ best, (best.1, tc_version best.2)) <$>
          max_by last_cmp (branch_tags b (v_tags (dir_of s (dataset_path d)))).
Proof. apply (read_tags_inv None (λ tags, _ <$> max_by last_cmp (branch_tags b tags))). Qed.

(** The tags a branch is judged by: its own, and for main those of the rebuild
    branches. *)
Definition tag_on (w : W) (branch t commit : string) (k : TagContents) : Prop :=
  v_tags w !! t = Some k ∧ decode_ok t = Some commit ∧ tag_of_branch branch k = true.

(** Last-indexed as derived from disk is a commit of the branch whose version
    no commit of the branch exceeds, whatever order the tags are listed in;
    there is none exactly when the branch has no tag.  Nothing is written. *)
Theorem derive_last_indexed_spec domain branch s s' r :
  io_derive_last_indexed domain branch s = (s', Ok r) →
  let w := dir_of s (dataset_path domain) in
  st_disk s' = st_disk s ∧
  match r with
  | Some (commit, version) =>
      (∃ t k, tag_on w branch t commit k ∧ tc_version k = version) ∧
      (∀ t c k, tag_on w branch t c k → (tc_version k ≤ version)%N)
  | None => path_exists s (dataset_path domain) = false ∨ ∀ t c k, ¬ tag_on w branch t c k
  end.
Proof.
  intros [Hq Hr]%io_derive_last_indexed_inv w. split; [by apply quiet_disk|].
  specialize (Hr r eq_refl). fold w in Hr. destruct Hr as [[He ->]|Hr]; [by left|].
  pose proof (max_by_spec last_cmp (branch_tags branch (v_tags w))) as Hm.
  destruct (max_by last_cmp (branch_tags branch (v_tags w))) as [[c k]|]; cbn in Hr; subst r.
  - destruct Hm as [Hin Hmax]. apply list_elem_of_branch_tags in Hin as (t & Ht). split.
    + by exists t, k.
    + intros t' c' k' Ht'. apply (last_cmp_version (c', k') (c, k)), Hmax.
      apply list_elem_of_branch_tags. by exists t'.
  - right. intros t c k Ht.
    assert ((c, k) ∈ branch_tags branch (v_tags w)) as Hin by (apply list_elem_of_branch_tags; by exists t).
    rewrite Hm in Hin. by apply elem_of_nil in Hin.
Qed.

(** The 409 guard.  A reservation succeeds exactly for a commit that is neither
    in flight nor tagged, and then the commit is in flight; a refusal means that
    it is one of the two, and reserves nothing; a failing look-up reserves
    nothing either.  The disk is never written. *)
Theorem try_reserve_spec domain branch commit s s' r :
  io_try_reserve_commit domain branch commit s = (s', r) →
  let key := (domain, branch, commit) in
  let tagged := is_Some (v_tags (dir_of s (dataset_path domain)) !! encode_commit_tag commit) in
  st_disk s' = st_disk s ∧
  match r with
  | Ok true => (key ∉ st_inflight s) ∧ (path_exists s (dataset_path domain) = false ∨ (¬ tagged))
               ∧ st_inflight s' = {[key]} ∪ st_inflight s
  | Ok false => (key ∈ st_inflight s ∨ tagged) ∧ st_inflight s' = st_inflight s
  | Err _ => (key ∉ st_inflight s) ∧ st_inflight s' = st_inflight s
  end.
Proof.
  unfold io_try_reserve_commit, io_get. unfold io_bind at 1.
  destruct (bool_decide_reflect ((domain, branch, commit) ∈ st_inflight s)) as [Hin|Hin].
  { intros [= <- <-]. split; [done|]. split; [by left|done]. }
  unfold io_bind at 1. destruct (io_resolve_commit domain branch commit s) as [s1 r1] eqn:E.
  apply io_resolve_commit_inv in E as [Hq Hr]. pose proof (quiet_inflight _ _ Hq) as Hi.
  destruct r1 as [[v|]|e].
  - intros [= <- <-]. split; [by apply quiet_disk|]. split; [|done]. right.
    destruct (Hr _ eq_refl) as [[_ [=]]|Hv]. symmetry in Hv. apply fmap_Some in Hv as (k & -> & _). eauto.
  - unfold io_bind, io_modify. intros [= <- <-]. split; [by apply (quiet_disk s s1)|]. cbn.
    split; [done|]. rewrite Hi. split; [|done].
    destruct (Hr _ eq_refl) as [[He _]|Hv]; [by left|]. right. intros [k Hk]. by rewrite Hk in Hv.
  - intros [= <- <-]. split; [by apply quiet_disk|]. by split.
Qed.
End readers.

(** ** Tags *)

Lemma encode_inj c1 c2 : encode_commit_tag c1 = encode_commit_tag c2 → c1 = c2.
Proof. intros He. by apply tag_name_legal_and_injective in He. Qed.

Section tags.
Context {W H : Type} `{LanceLaws W H} `{ByteSerialize} {HD : HashIter string (DatasetCacheEntry H)}
        {HT : HashIter string TagContents}.
Implicit Types s : LanceStore W H.

(** The tags of a domain. *)
Definition domain_tags (s : LanceStore W H) (domain : string) : gmap string TagContents :=
  v_tags (dir_of s (dataset_path domain)).

(** [s'] is [s] with one more tag, on the head's branch of [branch], and the
    cached last-indexed of the branch: no row, no head and no reservation has
    changed. *)
Record tagged (domain branch commit : string) (version : N) (s s' : LanceStore W H) : Prop := {
  tg_new : domain_tags s domain !! encode_commit_tag commit = None;
  tg_tags : ∃ at_, domain_tags s' domain =
    <[encode_commit_tag commit := mkTagContents (want_branch branch) version at_]> (domain_tags s domain);
  tg_heads b : branch ≠ MAIN_BRANCH ∨ path_exists s (dataset_path domain) = true →
    v_head (dir_of s' (dataset_path domain)) b = v_head (dir_of s (dataset_path domain)) b;
  tg_cached : st_branch_indexes s' =
    <[(domain, branch) := mkBranchIndex (Some commit) version]> (st_branch_indexes s);
  tg_inflight : st_inflight s' = st_inflight s;
  tg_other p : p ≠ dataset_path domain → dir_of s' p = dir_of s p;
}.

(** Where the handles the store hands out for main are bound: a cached handle
    is the main handle of its domain (it came from a load or a create). *)
Definition cache_on_main (s : LanceStore W H) : Prop :=
  ∀ d e, dc_datasets (st_cache s) !! d = Some e → v_branch (ce_ds e) = None.

Lemma main_handle_branch h : main_handle h → v_branch h = None.
Proof. by intros [(w & (_ & _ & ?)%law_load)|(w & w' & (_ & _ & _ & _ & ? & _)%law_create)]. Qed.

Lemma touches_on_main p s s' : touches p s s' → cache_on_main s → cache_on_main s'.
Proof.
  intros Ht%touches_cache Hc d e He. destruct (Ht d e He) as [(e0 & He0 & ->)|]; [eauto|].
  by apply main_handle_branch.
Qed.

Lemma open_dataset_main d b s s' h :
  cache_on_main s → io_open_dataset d b s = (s', Ok h) → v_branch h = None.
Proof.
  intros Hc. unfold io_open_dataset. intros (s1 & hit & Hh & Hrun)%io_bind_ok.
  apply io_cache_hit_inv in Hh as [Hq Hr].
  destruct (dc_datasets (st_cache s) !! d) as [e|] eqn:Ee.
  { injection Hr as ->. injection Hrun as _ <-. eauto. }
  destruct Hr as [[= ->] ->]. apply io_bind_ok in Hrun as (s2 & s0 & [= <- <-] & Hrun).
  apply io_bind_ok in Hrun as (s3 & ds & Hds & Hins).
  assert (Hm : main_handle ds ∧ dc_datasets (st_cache s3) !! d = None).
  { destruct (path_exists s (dataset_path d)).
    - split; [by eapply io_open_fresh_main|].
      unfold io_open_fresh, io_bind, io_modify in Hds. by apply io_read_ok in Hds as [-> _].
    - apply io_bind_ok in Hds as (s4 & [] & Hw & Hds). apply ensure_writable_ok in Hw as [-> _].
      apply io_bind_ok in Hds as (s5 & b0 & Hb & Hds).
      assert (s5 = s) as -> by (by injection Hb).
      apply io_write_ok in Hds as (w & Hcr & ->). split; [right; eauto|done]. }
  destruct Hm as [Hm Hn]. pose proof (main_handle_branch _ Hm).
  apply io_insert_cached_inv in Hins as [_ (h0 & [= ->] & [->|(e & He & _)])]; [done| |done]. congruence.
Qed.

Lemma create_tag_inv p m h t v s s' :
  io_write p m (λ w, l_create_tag w h t v) s = (s', Ok tt) →
  v_tags (dir_of s p) !! t = None ∧
  (∃ at_, v_tags (dir_of s' p) = <[t := mkTagContents (v_branch h) v at_]> (v_tags (dir_of s p))) ∧
  (∀ b, v_head (dir_of s' p) b = v_head (dir_of s p) b) ∧ touches p s s'.
Proof.
  intros Hw. pose proof (io_write_touches _ _ _ _ _ _ Hw) as Ht.
  apply io_write_ok in Hw as (w & Hl & ->). apply law_create_tag_ok in Hl as (Hn & [_ Hh] & Hat).
  rewrite dir_put. by split.
Qed.

(** Binding a commit to a version adds exactly one tag, which must be new, on
    the commit's own branch, and makes the commit the branch's cached
    last-indexed: no data moves. *)
Theorem tag_commit_spec domain branch commit version s s' :
  cache_on_main s →
  io_tag_commit domain branch commit version s = (s', Ok tt) →
  tagged domain branch commit version s s' ∧ st_read_only s = false.
Proof.
  intros Hc (s0 & [] & [-> Hro]%ensure_writable_ok & Hrun)%io_bind_ok. split; [|done].
  apply io_bind_ok in Hrun as (s3 & [] & Htag & Hrun). apply io_bind_ok in Hrun as (s4 & [] & Hrf & [= <-]).
  apply io_refresh_inv in Hrf as Hq.
  assert (Hmain : ∃ s1 h m, io_write (dataset_path domain) m (λ w, l_create_tag w h (encode_commit_tag commit) version) s1
      = (s3, Ok tt) ∧ v_branch h = want_branch branch ∧ touches (dataset_path domain) s s1 ∧
      domain_tags s1 domain = domain_tags s domain ∧
      (∀ b, branch ≠ MAIN_BRANCH ∨ path_exists s (dataset_path domain) = true →
        v_head (dir_of s1 (dataset_path domain)) b = v_head (dir_of s (dataset_path domain)) b)).
  { unfold want_branch. destruct (String.eqb_spec branch MAIN_BRANCH) as [->|Hne].
    - apply io_bind_ok in Htag as (s1 & ds & Ho & Hw). exists s1, ds. eexists. split; [done|].
      split; [by eapply open_dataset_main|]. split; [by eapply io_open_dataset_touches|].
      unfold domain_tags. pose proof Ho as Ho'. apply open_dataset_dir in Ho as [[Hd _]|(Hx & _ & _ & Ht & _ & _)].
      + by rewrite Hd.
      + apply law_not_exists in Hx as Hx'. rewrite Ht, (proj1 Hx'). split; [done|].
        intros b [?|?]; [done|congruence].
    - apply io_bind_ok in Htag as (s1 & base & Hf & Htag). apply io_open_fresh_inv in Hf as [Hq1 _].
      apply io_bind_ok in Htag as (s2 & h & Hco & Hw). apply io_read_ok in Hco as [-> Hco].
      exists s1, h. eexists. split; [done|]. split; [by apply law_checkout_branch in Hco as [_ ?]|].
      split; [by apply quiet_touches|]. unfold domain_tags. by rewrite (quiet_dir s s1). }
  destruct Hmain as (s1 & h & m & Hw & Hb & Htch & Hts & Hh). apply create_tag_inv in Hw as (Hn & Hat & Hhd & Ht3).
  assert (Htch4 : touches (dataset_path domain) s s4).
  { etrans; [done|]. etrans; [done|]. by apply quiet_touches. }
  split; unfold domain_tags in *.
  - by rewrite <-Hts.
  - rewrite <-Hts, <-Hb. change (dir_of (set_branch_indexes _ _) ?p) with (dir_of s4 p).
    by rewrite (quiet_dir s3 s4).
  - intros b Hx. change (dir_of (set_branch_indexes _ _) ?p) with (dir_of s4 p).
    rewrite (quiet_dir s3 s4), Hhd by done. auto.
  - cbn. by rewrite (touches_branch_indexes _ _ _ Htch4).
  - cbn. by rewrite (touches_inflight _ _ _ Htch4).
  - intros p Hp. change (dir_of (set_branch_indexes _ _) p) with (dir_of s4 p). by eapply touches_dir.
Qed.

(** Assigning a commit is a pure tag pointer: the target gets the version of
    the source's tag, and nothing else of what is on disk changes. *)
Theorem assign_commit_spec domain branch source target version s s' :
  cache_on_main s → path_exists s (dataset_path domain) = true →
  io_assign_commit domain branch source target s = (s', Ok version) →
  (∃ k, domain_tags s domain !! encode_commit_tag source = Some k ∧ tc_version k = version) ∧
  domain_tags s domain !! encode_commit_tag target = None ∧
  (∃ at_, domain_tags s' domain =
    <[encode_commit_tag target := mkTagContents (want_branch branch) version at_]> (domain_tags s domain)) ∧
  (∀ b, v_head (dir_of s' (dataset_path domain)) b = v_head (dir_of s (dataset_path domain)) b).
Proof.
  intros Hc Hx (s0 & [] & [-> Hro]%ensure_writable_ok & Hrun)%io_bind_ok.
  apply io_bind_ok in Hrun as (s1 & v & Hr & Hrun).
  apply io_resolve_commit_inv in Hr as [Hq Hr]. specialize (Hr _ eq_refl).
  destruct Hr as [[? ?]|Hv]; [congruence|]. destruct v as [v|]; [|done].
  apply io_bind_ok in Hrun as (s2 & [] & Ht & [= <- <-]).
  assert (Hc1 : cache_on_main s1) by (eapply touches_on_main; [by apply (quiet_touches "")|done]).
  apply (tag_commit_spec _ _ _ _ _ _ Hc1) in Ht as [[Hn Hat Hh _ _ _] _].
  unfold domain_tags, path_exists in *. rewrite (quiet_dir s s1) in * by done.
  split; [by symmetry in Hv; apply fmap_Some in Hv as (k & ? & ?); exists k|].
  split; [done|]. split; [done|]. intros b. apply Hh. by right.
Qed.
(** ** Listing *)

Lemma commit_versions_spec (tags : gmap string TagContents) :
  (∀ c v, commit_versions tags !! c = Some v →
    ∃ t k, tags !! t = Some k ∧ decode_ok t = Some c ∧ v = tc_version k) ∧
  (∀ t k c, tags !! t = Some k → decode_ok t = Some c → is_Some (commit_versions tags !! c)).
Proof.
  unfold commit_versions.
  set (f := λ (out : gmap string N) '(tag_name, contents), _).
  assert (Hg : ∀ l out, 
    (∀ c v, foldl f out l !! c = Some v → out !! c = Some v ∨
      ∃ t k, (t, k) ∈ l ∧ decode_ok t = Some c ∧ v = tc_version k) ∧
    (∀ c, is_Some (out !! c) ∨ (∃ t k, (t, k) ∈ l ∧ decode_ok t = Some c) → is_Some (foldl f out l !! c))).
  { induction l as [|[t k] l IH]; intros out; cbn [foldl].
    { split; [by left|]. intros c [?|(? & ? & []%elem_of_nil & _)]; done. }
    destruct (IH (f out (t, k))) as [IH1 IH2]. split.
    - intros c v [Ho|(t' & k' & Hin & Hd & ->)]%IH1.
      + cbn in Ho. destruct (decode_ok t) as [c'|] eqn:Ed; [|by left].
        apply lookup_insert_Some in Ho as [[<- <-]|[_ ?]]; [|by left].
        right. exists t, k. split; [by left|]. by rewrite Ed.
      + right. exists t', k'. split; [by right|done].
    - intros c Hc. apply IH2. cbn. destruct Hc as [Ho|(t' & k' & [[= <- <-]|Hin]%elem_of_cons & Hd)].
      + left. destruct (decode_ok t); [|done]. rewrite lookup_insert_is_Some'. by right.
      + left. rewrite Hd. by rewrite lookup_insert_eq.
      + right. eauto. }
  destruct (Hg (hash_iter tags) ∅) as [Hs Hc]. split.
  - intros c v [Ho|(t & k & Hin%hash_iter_elem & Hd & ->)]%Hs; [by rewrite lookup_empty in Ho|]. eauto.
  - intros t k c Ht%hash_iter_elem Hd. apply Hc. right. eauto.
Qed.

(** Every tag that decodes is the encoding of what it decodes to: so are the
    tags the store writes. *)
Definition canonical_tags (tags : gmap string TagContents) : Prop :=
  ∀ t c, is_Some (tags !! t) → decode_ok t = Some c → t = encode_commit_tag c.

Lemma decode_encode c : utf8_valid (str_bytes c) = true → decode_ok (encode_commit_tag c) = Some c.
Proof. intros Hc. unfold decode_ok. by rewrite tag_roundtrip. Qed.

(** The listing of a domain's commits and the look-up of one commit agree on
    every commit id. *)
Theorem list_agrees_with_resolve domain branch commit s s1 s2 m r :
  canonical_tags (domain_tags s domain) → utf8_valid (str_bytes commit) = true →
  io_list_commit_versions domain s = (s1, Ok m) →
  io_resolve_commit domain branch commit s = (s2, Ok r) →
  m !! commit = r ∧ r = tc_version <$> domain_tags s domain !! encode_commit_tag commit.
Proof.
  intros Hcan Hu Hl Hr.
  pose proof (λ He, proj1 (law_not_exists (dir_of s (dataset_path domain)) He)) as Hne.
  apply io_resolve_commit_inv in Hr as [_ Hr]. specialize (Hr _ eq_refl).
  apply (read_tags_inv ∅ commit_versions) in Hl as [_ Hl]. specialize (Hl _ eq_refl).
  assert (Hr' : r = tc_version <$> domain_tags s domain !! encode_commit_tag commit).
  { destruct Hr as [[He ->]|]; [|done]. unfold domain_tags. by rewrite Hne, lookup_empty. }
  split; [|done]. rewrite Hr'. destruct Hl as [[He ->]| ->].
  { unfold domain_tags. by rewrite Hne, !lookup_empty. }
  destruct (commit_versions_spec (domain_tags s domain)) as [Hs Hc]. fold (domain_tags s domain).
  destruct (domain_tags s domain !! encode_commit_tag commit) as [k|] eqn:Ek; cbn.
  - destruct (Hc _ _ commit Ek (decode_encode _ Hu)) as [v Hv]. rewrite Hv.
    apply Hs in Hv as (t & k' & Ht & Hd & ->). apply Hcan in Hd as ->; [|by rewrite Ht]. by simplify_eq.
  - destruct (commit_versions _ !! commit) as [v|] eqn:Ev; [|done].
    apply Hs in Ev as (t & k' & Ht & Hd & ->). apply Hcan in Hd as ->; [|by rewrite Ht]. by simplify_eq.
Qed.

(** ** Last-indexed *)

Lemma tag_of_branch_want branch v at_ : tag_of_branch branch (mkTagContents (want_branch branch) v at_) = true.
Proof. unfold tag_of_branch. cbn. by rewrite bool_decide_true. Qed.

(** C21: a commit just indexed at a version above those of its branch is the
    branch's last-indexed, in this process and in any process started on the
    same disk: losing the in-memory map loses nothing. *)
Theorem last_indexed_durable domain branch commit version s s1 s2 s3 li :
  cache_on_main s → utf8_valid (str_bytes commit) = true →
  (∀ t c k, tag_on (dir_of s (dataset_path domain)) branch t c k → (tc_version k < version)%N) →
  io_tag_commit domain branch commit version s = (s1, Ok tt) →
  s2 = s1 ∨ st_disk s2 = st_disk s1 ∧ st_branch_indexes s2 !! (domain, branch) = None →
  last_indexed (mkDomain domain) (mkBranchName branch) s2 = (s3, Ok li) →
  li = mkLastIndexed branch (Some commit) version.
Proof.
  intros Hc Hu Hlt Ht%tag_commit_spec Hs2 Hli; [|done]. destruct Ht as [[Hn (at_ & Hat) _ Hcache _ _] _].
  unfold last_indexed in Hli. cbn [domain_str branch_str] in Hli.
  apply io_bind_ok in Hli as (s4 & s0 & [= <- <-] & Hli).
  destruct Hs2 as [-> | [Hd Hnone]].
  { rewrite Hcache, lookup_insert_eq in Hli. by injection Hli as _ <-. }
  rewrite Hnone in Hli. apply io_bind_ok in Hli as (s5 & derived & Hder & Hli).
  apply derive_last_indexed_spec in Hder as [_ Hder].
  assert (Hdir : dir_of s2 (dataset_path domain) = dir_of s1 (dataset_path domain)).
  { unfold dir_of. by rewrite Hd. }
  unfold domain_tags in *.
  assert (Hon : tag_on (dir_of s2 (dataset_path domain)) branch (encode_commit_tag commit) commit
    (mkTagContents (want_branch branch) version at_)).
  { split; [by rewrite Hdir, Hat, lookup_insert_eq|]. split; [by apply decode_encode|apply tag_of_branch_want]. }
  destruct derived as [[c v]|].
  2: { exfalso. destruct Hder as [He|Hno]; [|by eapply Hno].
    apply law_not_exists in He as [He _]. destruct Hon as [Hon _]. by rewrite He, lookup_empty in Hon. }
  destruct Hder as [(t & k & (Ht & Hd' & Hb) & <-) Hmax]. specialize (Hmax _ _ _ Hon). cbn in Hmax.
  assert (c = commit ∧ tc_version k = version) as [-> Hv].
  { rewrite Hdir, Hat in Ht. apply lookup_insert_Some in Ht as [[<- <-]|[Hne Ht]].
    - rewrite decode_encode in Hd' by done. by injection Hd' as <-.
    - specialize (Hlt t c k). assert (tc_version k < version)%N by (apply Hlt; by split). lia. }
  rewrite Hv in Hli. apply io_bind_ok in Hli as (s6 & [] & _ & [= _ <-]). done.
Qed.

(** ** Deletion *)

(** Deleting a domain leaves no dataset and none of its entries in the maps;
    the entries and directories of the other domains are as they were.
    Deleting it again succeeds and changes nothing more on disk. *)
Theorem delete_domain_spec domain s s' :
  io_delete_domain domain s = (s', Ok tt) →
  st_read_only s = false ∧
  path_exists s' (dataset_path domain) = false ∧
  dc_datasets (st_cache s') !! domain = None ∧
  (∀ d b, st_branch_indexes s' !! (d, b) = if decide (d = domain) then None else st_branch_indexes s !! (d, b)) ∧
  (∀ d b, io_get_delta_count s' d b = if decide (d = domain) then 0%N else io_get_delta_count s d b) ∧
  (∀ d b c, (d, b, c) ∈ st_inflight s' ↔ (d, b, c) ∈ st_inflight s ∧ d ≠ domain) ∧
  (∀ p, p ≠ dataset_path domain → dir_of s' p = dir_of s p).
Proof.
  intros (s0 & [] & [-> Hro]%ensure_writable_ok & Hrun)%io_bind_ok.
  apply io_bind_ok in Hrun as (s1 & s0 & [= <- <-] & Hrun).
  apply io_bind_ok in Hrun as (s2 & [] & Hrm & [= <-]).
  assert (Htd : path_exists s2 (dataset_path domain) = false ∧ touches (dataset_path domain) s s2 ∧
    st_delta_counts s2 = st_delta_counts s).
  { destruct (path_exists s (dataset_path domain)) eqn:Ex.
    - pose proof (io_write_touches _ _ _ _ _ _ Hrm). apply io_write_ok in Hrm as (w & Hl & ->).
      apply law_remove_ok in Hl as ->. unfold path_exists. rewrite dir_put.
      split; [apply law_absent|done].
    - injection Hrm as <-. done. }
  destruct Htd as (Hx & Ht & Hdc). split; [done|]. split; [done|]. split; [cbn; by rewrite lookup_delete_eq|].
  assert (Hfil : ∀ A (m : gmap BranchKey A) d b,
    other_domain domain m !! (d, b) = if decide (d = domain) then None else m !! (d, b)).
  { intros A m d b. unfold other_domain. destruct (decide (d = domain)) as [->|Hne].
    - apply map_lookup_filter_None. right. intros x _ Hn. by cbn in Hn.
    - destruct (m !! (d, b)) as [x|] eqn:E.
      + apply map_lookup_filter_Some. by split.
      + apply map_lookup_filter_None. by left. }
  split; [intros d b; cbn; rewrite Hfil; by rewrite (touches_branch_indexes _ _ _ Ht)|].
  split; [intros d b; unfold io_get_delta_count; cbn; rewrite Hfil, Hdc; by destruct (decide _)|].
  split.
  - intros d b c. cbn. rewrite elem_of_filter, (touches_inflight _ _ _ Ht). cbn. tauto.
  - intros p Hp. change (dir_of (purge_domain domain s2) p) with (dir_of s2 p). by eapply touches_dir.
Qed.
Lemma delete_tags_inv p h names s s' :
  delete_tags p h names s = (s', Ok tt) →
  touches p s s' ∧ (∀ b, v_head (dir_of s' p) b = v_head (dir_of s p) b) ∧
  ∀ t, v_tags (dir_of s' p) !! t = if decide (t ∈ names) then None else v_tags (dir_of s p) !! t.
Proof.
  revert s; induction names as [|n names IH]; intros s; cbn [delete_tags].
  { intros [= <-]. split; [done|]. split; [done|]. intros t. by rewrite decide_False by apply not_elem_of_nil. }
  intros (s1 & [] & Hw & Hrun)%io_bind_ok. pose proof (io_write_touches _ _ _ _ _ _ Hw) as Ht.
  apply io_write_ok in Hw as (w & Hl & ->). apply law_delete_tag_ok in Hl as [Etg [_ Eh]].
  apply IH in Hrun as (Ht' & Hh & Htg). rewrite dir_put in Hh, Htg. split; [by etrans|].
  split; [intros b; by rewrite Hh|]. intros t. rewrite Htg, Etg.
  destruct (decide (t ∈ names)) as [Hin|Hin]; [by rewrite decide_True by by right|].
  destruct (decide (t = n)) as [->|Hne].
  - rewrite decide_True by by left. by rewrite lookup_delete_eq.
  - rewrite decide_False; [by rewrite lookup_delete_ne|]. by intros [?|?]%elem_of_cons.
Qed.

(** Deleting a branch's index removes exactly the tags recorded on that branch,
    and the branch's entries of the maps; data, other branches and other
    domains stay. *)
Theorem delete_branch_index_spec domain branch s s' :
  io_delete_branch_index domain branch s = (s', Ok tt) →
  (∀ t k, domain_tags s' domain !! t = Some k ↔
     domain_tags s domain !! t = Some k ∧ tc_branch k ≠ want_branch branch) ∧
  (∀ b, v_head (dir_of s' (dataset_path domain)) b = v_head (dir_of s (dataset_path domain)) b) ∧
  (∀ p, p ≠ dataset_path domain → dir_of s' p = dir_of s p) ∧
  st_branch_indexes s' = delete (domain, branch) (st_branch_indexes s) ∧
  (∀ d b c, (d, b, c) ∈ st_inflight s' ↔ (d, b, c) ∈ st_inflight s ∧ (d, b) ≠ (domain, branch)).
Proof.
  intros (s0 & [] & [-> Hro]%ensure_writable_ok & Hrun)%io_bind_ok.
  apply io_bind_ok in Hrun as (s1 & [] & [= <-] & Hrun).
  set (s1 := set_tokens s _ _) in Hrun.
  assert (Hd1 : ∀ p, dir_of s1 p = dir_of s p) by done.
  apply io_bind_ok in Hrun as (s2 & opened & Ho & Hrun). apply io_open_dataset_readonly_inv in Ho as [Hq Hn].
  apply io_bind_ok in Hrun as (s4 & [] & Hdel & [= <-]).
  assert (Hmain : touches (dataset_path domain) s1 s4 ∧
    (∀ b, v_head (dir_of s4 (dataset_path domain)) b = v_head (dir_of s (dataset_path domain)) b) ∧
    ∀ t k, v_tags (dir_of s4 (dataset_path domain)) !! t = Some k ↔
     domain_tags s domain !! t = Some k ∧ tc_branch k ≠ want_branch branch).
  { destruct opened as [ds|].
    - apply io_bind_ok in Hdel as (s3 & tags & Ht & Hdel). apply list_tags_inv in Ht as [-> Ht].
      specialize (Ht _ eq_refl). rewrite (quiet_dir s1 s2) in Ht by done. rewrite Hd1 in Ht.
      apply delete_tags_inv in Hdel as (Htc & Hh & Htg).
      split; [etrans; [by apply quiet_touches|done]|].
      split; [intros b; by rewrite Hh, (quiet_dir s1 s2)|]. intros t k.
      rewrite Htg, (quiet_dir s1 s2), Hd1 by done. fold (domain_tags s domain) in Ht |- *. rewrite <-Ht.
      destruct (decide (t ∈ _)) as [Hin|Hin].
      + apply list_elem_of_fmap in Hin as ([t' k'] & -> & [Hb Hk]%list_elem_of_filter).
        apply hash_iter_elem in Hk. cbn. split; [done|]. intros [Hk' Hne]. by simplify_eq.
      + split; [|by intros []]. intros Hk. split; [done|]. intros Hb. apply Hin.
        apply list_elem_of_fmap. exists (t, k). split; [done|]. apply list_elem_of_filter.
        split; [done|]. by apply hash_iter_elem.
    - destruct (Hn eq_refl) as (Hx & _ & ->). injection Hdel as <-. split; [done|]. split; [done|].
      intros t k. unfold domain_tags. apply law_not_exists in Hx as [Hx _]. rewrite Hd1 in *.
      rewrite Hx, lookup_empty. split; [done|by intros []]. }
  destruct Hmain as (Htc & Hh & Htg). split; [done|]. split; [done|]. split.
  - intros p Hp. change (dir_of s4 p = dir_of s p). rewrite <-Hd1. by eapply touches_dir.
  - split; [cbn; by rewrite (touches_branch_indexes _ _ _ Htc)|].
    intros d b c. cbn. rewrite elem_of_filter, (touches_inflight _ _ _ Htc). cbn. tauto.
Qed.
End tags.

(** ** Deltas *)

(** The rows of one document. *)
Definition doc_rows (id : string) (rows : list ChunkRow) : list ChunkRow :=
  filter (λ r, cr_doc_id r = id) rows.

Lemma doc_contents_spec rows id :
  match doc_id_contents rows !! id with
  | Some cs => (∃ r, r ∈ rows ∧ cr_doc_id r = id) ∧
      ∀ x, x ∈ cs ↔ ∃ r, r ∈ rows ∧ cr_doc_id r = id ∧ x = (cr_chunk_index r, cr_content r)
  | None => ∀ r, r ∈ rows → cr_doc_id r ≠ id
  end.
Proof.
  unfold doc_id_contents. induction rows as [|r rows IH] using rev_ind.
  { assert (foldl scan_row ∅ [] !! id = None) as -> by apply lookup_empty. by intros r ?%elem_of_nil. }
  rewrite foldl_app. cbn [foldl]. unfold scan_row at 1. destruct (decide (cr_doc_id r = id)) as [Hid|Hne].
  - rewrite Hid, lookup_insert_eq. split.
    { exists r. split; [apply elem_of_app; right; by apply list_elem_of_singleton|done]. }
    intros x. rewrite elem_of_union, elem_of_singleton. split.
    + intros [->|Hx].
      * exists r. split; [apply elem_of_app; right; by apply list_elem_of_singleton|done].
      * destruct (foldl scan_row ∅ rows !! id) as [cs|]; cbn in Hx; [|by apply elem_of_empty in Hx].
        apply IH in Hx as (r' & ? & ? & ?). exists r'. split; [apply elem_of_app; by left|done].
    + intros (r' & [Hin|Hr%list_elem_of_singleton]%elem_of_app & Hid' & ->); [right|subst r'; by left].
      destruct (foldl scan_row ∅ rows !! id) as [cs|]; cbn; [|by apply IH in Hin].
      apply IH. eauto.
  - rewrite lookup_insert_ne by done. destruct (foldl scan_row ∅ rows !! id) as [cs|].
    + destruct IH as [(r0 & ? & ?) Hx]. split; [exists r0; split; [apply elem_of_app; by left|done]|].
      intros x. rewrite Hx. split; intros (r' & Hin & ? & ?); exists r'.
      * split; [apply elem_of_app; by left|done].
      * apply elem_of_app in Hin as [?|Hr%list_elem_of_singleton]; [done|]. congruence.
    + intros r' [Hin|Hr%list_elem_of_singleton]%elem_of_app; [auto|]. congruence.
Qed.

Lemma dom_contents rows id : id ∈ dom (doc_id_contents rows) ↔ ∃ r, r ∈ rows ∧ cr_doc_id r = id.
Proof.
  rewrite elem_of_dom. pose proof (doc_contents_spec rows id) as Hs.
  destruct (doc_id_contents rows !! id); split.
  - intros _. apply Hs.
  - eauto.
  - by intros [].
  - intros (r & Hr & He). by apply Hs in Hr.
Qed.

Lemma filter_filter_true {A} (P Q : A → Prop) `{∀ x, Decision (P x), ∀ x, Decision (Q x)} (l : list A) :
  (∀ x, P x → Q x) → filter P (filter Q l) = filter P l.
Proof.
  intros HPQ. rewrite list_filter_filter. apply list_filter_iff. intros x. split; [tauto|auto].
Qed.

Lemma filter_filter_false {A} (P Q : A → Prop) `{∀ x, Decision (P x), ∀ x, Decision (Q x)} (l : list A) :
  (∀ x, P x → ¬ Q x) → filter P (filter Q l) = [].
Proof.
  intros HPQ. rewrite list_filter_filter. induction l as [|x l IH]; [done|].
  rewrite filter_cons_False; [done|]. intros [? ?]. by apply (HPQ x).
Qed.

Lemma doc_rows_without id ids rows :
  doc_rows id (without_docs ids rows) = if decide (id ∈ ids) then [] else doc_rows id rows.
Proof.
  unfold doc_rows, without_docs. destruct (decide (id ∈ ids)).
  - apply filter_filter_false. intros r ->. tauto.
  - apply filter_filter_true. by intros r ->.
Qed.

Lemma doc_rows_selected id ids rows :
  doc_rows id (filter (λ r, scan_keeps (Some (InList "doc_id" ids)) r = true) rows)
    = if decide (id ∈ ids) then doc_rows id rows else [].
Proof.
  unfold doc_rows. cbn. unfold row_selected. cbn. destruct (decide (id ∈ ids)).
  - apply filter_filter_true. intros r ->. by apply bool_decide_eq_true.
  - apply filter_filter_false. intros r ->. by rewrite bool_decide_eq_true.
Qed.

#[export] Instance doc_rows_perm id : Proper ((≡ₚ) ==> (≡ₚ)) (doc_rows id).
Proof. intros l1 l2 Hl. unfold doc_rows. by rewrite Hl. Qed.

Section deltas.
Context {W H : Type} `{LanceLaws W H} `{ByteSerialize} {HD : HashIter string (DatasetCacheEntry H)}
        {HT : HashIter string TagContents}.
Implicit Types s : LanceStore W H.

(** What a delta holds: the rows, in the newer version, of the documents that
    are new or whose (chunk index, content) pairs differ; the documents gone. *)
Lemma compute_delta_inv p rows_a rows_b ds_b s s' delta :
  v_rows ds_b ≡ₚ rows_b →
  compute_delta_from_scans p (doc_id_contents rows_a) (doc_id_contents rows_b) ds_b s = (s', Ok delta) →
  s' = s ∧
  (∀ id, id ∈ doc_ids_to_delete delta ↔
    id ∈ dom (doc_id_contents rows_a) ∧ id ∉ dom (doc_id_contents rows_b)) ∧
  (∀ id, doc_rows id (rows_to_append delta) ≡ₚ
    if decide (id ∈ dom (doc_id_contents rows_a) ∧ doc_id_contents rows_a !! id = doc_id_contents rows_b !! id)
    then [] else doc_rows id rows_b) ∧
  (∀ r, r ∈ rows_to_append delta → r ∈ rows_b).
Proof.
  intros Hb. unfold compute_delta_from_scans. set (ids := _ ∪ changed_docs _ _).
  intros (s1 & rows & Hr & [= <- <-])%io_bind_ok. cbn.
  assert (Hrows : s1 = s ∧ rows ≡ₚ filter (λ r, scan_keeps (Some (InList "doc_id" (elements ids))) r = true) rows_b).
  { destruct (decide (ids = ∅)) as [Hemp|_].
    - injection Hr as <- <-. split; [done|]. rewrite Hemp, elements_empty.
      clear. induction rows_b as [|r l IH]; [done|]. by rewrite filter_cons_False.
    - apply io_bind_ok in Hr as (s2 & rows0 & Hs & [= <- <-]). apply io_read_ok in Hs as [-> Hs].
      apply law_scan in Hs. by rewrite sort_by_perm, Hs, Hb. }
  destruct Hrows as [-> Hrows]. split; [done|].
  split; [intros id; by rewrite elem_of_elements, elem_of_difference|]. split.
  - intros id. rewrite (doc_rows_perm id _ _ Hrows), doc_rows_selected.
    assert (Hids : id ∈ elements ids ↔ id ∈ dom (doc_id_contents rows_b) ∧
      ¬ (id ∈ dom (doc_id_contents rows_a) ∧ doc_id_contents rows_a !! id = doc_id_contents rows_b !! id)).
    { rewrite elem_of_elements. unfold ids, changed_docs.
      rewrite elem_of_union, elem_of_difference, elem_of_filter, elem_of_intersection.
      destruct (decide (id ∈ dom (doc_id_contents rows_a))); tauto. }
    destruct (decide (id ∈ elements ids)) as [Hin|Hin]; rewrite Hids in Hin.
    + rewrite decide_False by apply Hin. done.
    + destruct (decide (id ∈ dom (doc_id_contents rows_a) ∧
        doc_id_contents rows_a !! id = doc_id_contents rows_b !! id)) as [|Hn]; [reflexivity|].
      assert (Hnot : id ∉ dom (doc_id_contents rows_b)) by tauto.
      rewrite dom_contents in Hnot. unfold doc_rows. clear -Hnot.
      induction rows_b as [|r l IH]; [done|]. rewrite filter_cons_False.
      * apply IH. intros (r' & ? & ?). apply Hnot. exists r'. split; [by right|done].
      * intros ?. apply Hnot. exists r. split; [by left|done].
  - intros r. rewrite Hrows. by intros [_ ?]%list_elem_of_filter.
Qed.

(** Replaying the delta between two versions on a branch that holds the older
    one, document by document: removed documents go, new ones come, unchanged
    ones stay.  A document whose contents changed keeps its old rows beside the
    new ones, since only removed documents are deleted. *)
Theorem delta_replay_spec domain branch rows_a rows_b ds_b ds s s1 s2 delta h version :
  v_rows ds_b ≡ₚ rows_b → Forall (row_width (st_dim s)) rows_b →
  v_rows ds ≡ₚ rows_a → v_branch ds = want_branch branch →
  v_head (dir_of s (dataset_path domain)) (want_branch branch) = Some ds →
  compute_delta_from_scans (dataset_path domain) (doc_id_contents rows_a) (doc_id_contents rows_b) ds_b s
    = (s1, Ok delta) →
  io_apply_delta_on_branch (dataset_path domain) ds delta s1 = (s2, Ok (h, version)) →
  l_version h = version ∧ head_rows s2 domain branch = v_rows h ∧
  ∀ id, doc_rows id (v_rows h) ≡ₚ
    match doc_id_contents rows_a !! id, doc_id_contents rows_b !! id with
    | _, None => []
    | None, Some _ => doc_rows id rows_b
    | Some ca, Some cb => if decide (ca = cb) then doc_rows id rows_a
                          else doc_rows id rows_a ++ doc_rows id rows_b
    end.
Proof.
  intros Hb Hwd Ha Hbr Hhd (-> & Hdel & Happ & Hsub)%compute_delta_inv Hrun; [|done].
  apply io_bind_ok in Hrun as (s3 & [] & [-> _]%ensure_writable_ok & Hrun).
  apply io_bind_ok in Hrun as (s4 & hd & Hd & Hrun). apply io_bind_ok in Hrun as (s5 & ha & Hap & [= <- <- <-]).
  assert (Hmv : moved_to domain branch s s ds (v_rows ds)) by done.
  apply (moved_delete_ids _ _ _ _ _ _ _ _ _ _ Hmv) in Hd.
  assert (Hwd' : Forall (row_width (st_dim s)) (rows_to_append delta)).
  { apply Forall_forall. intros r Hr. rewrite Forall_forall in Hwd. auto. }
  apply (moved_append_rows _ _ _ _ _ _ _ _ _ _ Hwd' Hd) in Hap.
  split; [done|]. split; [rewrite (moved_head_rows _ _ _ _ _ _ Hap); symmetry; apply (mv_rows _ _ _ _ _ _ Hap)|].
  intros id. rewrite (mv_rows _ _ _ _ _ _ Hap). unfold doc_rows at 1. rewrite filter_app.
  fold (doc_rows id (without_docs (doc_ids_to_delete delta) (v_rows ds))).
  fold (doc_rows id (rows_to_append delta)). rewrite Happ, doc_rows_without.
  pose proof (doc_rows_perm id _ _ Ha) as Hra. specialize (Hdel id).
  pose proof (elem_of_dom (doc_id_contents rows_a) id) as Hda. rewrite !elem_of_dom in Hdel.
  assert (Hnone : ∀ rows, doc_id_contents rows !! id = None → doc_rows id rows = []).
  { intros rows Hn. pose proof (doc_contents_spec rows id) as Hs. rewrite Hn in Hs. unfold doc_rows.
    clear -Hs. induction rows as [|r l IH]; [done|]. rewrite filter_cons_False.
    - apply IH. intros r' ?. apply Hs. by right.
    - apply Hs. by left. }
  destruct (doc_id_contents rows_a !! id) as [ca|] eqn:Ea, (doc_id_contents rows_b !! id) as [cb|] eqn:Eb.
  - assert (id ∉ doc_ids_to_delete delta) by (rewrite Hdel; intros [_ []]; eauto).
    rewrite decide_False by done. rewrite Hra.
    destruct (decide (ca = cb)) as [->|Hne].
    + rewrite decide_True by (split; [apply Hda; eauto|done]). by rewrite app_nil_r.
    + rewrite decide_False by (intros [_ [=]]; done). done.
  - rewrite decide_True by (apply Hdel; split; [eauto|by intros [? [=]]]).
    rewrite decide_False by (by intros [_ ?]). by rewrite Hnone.
  - assert (id ∉ doc_ids_to_delete delta) by (rewrite Hdel; by intros [[? [=]] _]).
    rewrite decide_False by done. rewrite Hra, (Hnone rows_a) by done.
    rewrite decide_False by (rewrite Hda; by intros [[? [=]] _]). done.
  - assert (id ∉ doc_ids_to_delete delta) by (rewrite Hdel; by intros [[? [=]] _]).
    rewrite decide_False by done. rewrite Hra, (Hnone rows_a) by done.
    rewrite decide_False by (rewrite Hda; by intros [[? [=]] _]). by rewrite Hnone.
Qed.
End deltas.

(** ** Runs on the small dataset *)

Module CommitExample.
Import StoreExample.
#[export] Instance tag_order : HashIter string TagContents := map_order.

Abbreviation St := (LanceStore (option RefLance.dir) RefLance.handle).

(** [c1] on main at version 2, then a third document as [c2] at version 3. *)
Definition store2 : St := fst (io_tag_commit "o/t" "main" "c1" 2 store1).
Definition store3 : St := fst (io_batch_delete_append "o/t" "main" [] [row "C" "c"] store2).
Definition store4 : St := fst (io_tag_commit "o/t" "main" "c2" 3 store3).

(** A process started on the same disk. *)
Definition restarted (s : St) : St := new_store "/data" 1 (st_disk s).

Lemma restarted_spec (s : St) k :
  st_disk (restarted s) = st_disk s ∧ st_branch_indexes (restarted s) !! k = None.
Proof. by split. Qed.

(** Two versions: [A] changed, [B] removed, [C] new. *)
Definition rows_a : list ChunkRow := [row "A" "a"; row "B" "b"].
Definition rows_b : list ChunkRow := [row "A" "a2"; row "C" "c"].
Definition ds_a : RefLance.handle := RefLance.mkHandle None 2 rows_a.
Definition ds_b : RefLance.handle := RefLance.mkHandle None 9 rows_b.

(** Checked on the handles the cache holds. *)
Lemma cache_checked (s : St) :
  forallb (λ kv : string * DatasetCacheEntry RefLance.handle,
    bool_decide (RefLance.rh_branch (ce_ds kv.2) = None)) (map_to_list (dc_datasets (st_cache s))) = true →
  cache_on_main s.
Proof.
  rewrite forallb_spec, Forall_forall. intros Hf d e Hd%elem_of_map_to_list.
  specialize (Hf _ Hd). by apply bool_decide_eq_true in Hf.
Qed.

Lemma canonical_checked (tags : gmap string TagContents) :
  forallb (λ kv : string * TagContents,
    match decode_ok kv.1 with Some c => String.eqb kv.1 (encode_commit_tag c) | None => true end)
    (map_to_list tags) = true → canonical_tags tags.
Proof.
  rewrite forallb_spec, Forall_forall. intros Hf t c [k Hk%elem_of_map_to_list] Hd.
  specialize (Hf _ Hk). cbn in Hf. rewrite Hd in Hf. by apply String.eqb_eq in Hf.
Qed.
End CommitExample.

#[local] Existing Instances RefLance.ops RefLance.view RefLance.laws
  StoreExample.ident_serialize StoreExample.cache_order CommitExample.tag_order.

Lemma derive_last_indexed_spec_witness :
  let '(s', r) := io_derive_last_indexed "o/t" "main" CommitExample.store4 in
  r = Ok (Some ("c2", 3%N)) ∧ st_disk s' = st_disk CommitExample.store4.
Proof.
  destruct (io_derive_last_indexed _ _ _) as [s' r] eqn:E.
  assert (r = Ok (Some ("c2", 3%N))) as -> by (by apply (f_equal snd) in E; vm_compute in E).
  split; [done|]. by apply derive_last_indexed_spec in E as [Hd _].
Defined.

(** A new commit is reserved; the reserved and the indexed one are refused. *)
Lemma try_reserve_spec_witness :
  let s1 := fst (io_try_reserve_commit "o/t" "main" "c3" CommitExample.store4) in
  snd (io_try_reserve_commit "o/t" "main" "c3" CommitExample.store4) = Ok true ∧
  snd (io_try_reserve_commit "o/t" "main" "c3" s1) = Ok false ∧
  snd (io_try_reserve_commit "o/t" "main" "c1" s1) = Ok false ∧
  st_inflight s1 = {[("o/t", "main", "c3")]} ∪ st_inflight CommitExample.store4.
Proof.
  cbn zeta. assert (Hr : snd (io_try_reserve_commit "o/t" "main" "c3" CommitExample.store4) = Ok true)
    by by vm_compute.
  split; [done|]. split; [by vm_compute|]. split; [by vm_compute|].
  destruct (io_try_reserve_commit "o/t" "main" "c3" CommitExample.store4) as [s1 r1] eqn:E1.
  cbn in Hr. subst r1. by apply try_reserve_spec in E1 as (_ & _ & _ & ?).
Defined.

Lemma tag_commit_spec_witness :
  let '(s', r) := io_tag_commit "o/t" "main" "c1" 2 StoreExample.store1 in
  r = Ok tt ∧ tagged "o/t" "main" "c1" 2 StoreExample.store1 s'.
Proof.
  destruct (io_tag_commit _ _ _ _ _) as [s' r] eqn:E.
  assert (r = Ok tt) as -> by (by apply (f_equal snd) in E; vm_compute in E).
  split; [done|]. apply tag_commit_spec in E as [Ht _]; [done|].
  apply CommitExample.cache_checked. by vm_compute.
Defined.

Lemma assign_commit_spec_witness :
  let '(s', r) := io_assign_commit "o/t" "main" "c1" "c1b" CommitExample.store4 in
  r = Ok 2%N ∧ ∃ at_, domain_tags s' "o/t" =
    <[encode_commit_tag "c1b" := mkTagContents None 2 at_]> (domain_tags CommitExample.store4 "o/t").
Proof.
  destruct (io_assign_commit _ _ _ _ _) as [s' r] eqn:E.
  assert (r = Ok 2%N) as -> by (by apply (f_equal snd) in E; vm_compute in E).
  split; [done|]. apply assign_commit_spec in E as (_ & _ & Hat & _); [done| |by vm_compute].
  apply CommitExample.cache_checked. by vm_compute.
Defined.

Lemma list_agrees_with_resolve_witness :
  let '(_, r) := io_list_commit_versions "o/t" CommitExample.store4 in
  match r with Ok m => m !! "c2" = Some 3%N | Err _ => False end.
Proof.
  destruct (io_list_commit_versions "o/t" CommitExample.store4) as [s1 r] eqn:E1.
  destruct (io_resolve_commit "o/t" "main" "c2" CommitExample.store4) as [s2 r2] eqn:E2.
  assert (r2 = Ok (Some 3%N)) as -> by (by apply (f_equal snd) in E2; vm_compute in E2).
  destruct r as [m|e]; [|refute_as (λ p, is_ok p.2) in E1].
  apply (list_agrees_with_resolve "o/t" "main" "c2" CommitExample.store4 s1 s2 m (Some 3%N)) in E1 as [Hm _];
    [done| |done|done].
  apply CommitExample.canonical_checked. by vm_compute.
Defined.

(** After a restart the branch's last-indexed is read back from the tags. *)
Lemma last_indexed_durable_witness :
  let s2 := CommitExample.restarted CommitExample.store4 in
  let '(_, r) := last_indexed (mkDomain "o/t") (mkBranchName "main") s2 in
  match r with Ok li => li = mkLastIndexed "main" (Some "c2") 3 | Err _ => False end.
Proof.
  cbn zeta. destruct (last_indexed _ _ _) as [s3 [li|e]] eqn:E.
  2: { refute_as (λ p, is_ok p.2) in E. }
  destruct (io_tag_commit "o/t" "main" "c2" 3 CommitExample.store3) as [s4 r] eqn:Et.
  assert (Hs4 : s4 = CommitExample.store4) by (unfold CommitExample.store4; by rewrite Et).
  assert (r = Ok tt) as -> by (by apply (f_equal snd) in Et; vm_compute in Et).
  apply (last_indexed_durable "o/t" "main" "c2" 3 CommitExample.store3 s4
           (CommitExample.restarted CommitExample.store4) s3 li).
  - apply CommitExample.cache_checked. by vm_compute.
  - done.
  - intros t c k (Ht & _ & _). revert Ht.
    change (v_tags (dir_of CommitExample.store3 (dataset_path "o/t")) !! t = Some k → (tc_version k < 3)%N).
    assert (Hf : map_Forall (λ _ k, (tc_version k < 3)%N)
      (v_tags (dir_of CommitExample.store3 (dataset_path "o/t")))); [|by apply Hf].
    apply map_Forall_to_list. apply (bool_decide_unpack _). by vm_compute.
  - done.
  - right. rewrite Hs4. apply CommitExample.restarted_spec.
  - done.
Defined.

Lemma delete_domain_spec_witness :
  let '(s', r) := io_delete_domain "o/t" CommitExample.store4 in
  r = Ok tt ∧ path_exists s' (dataset_path "o/t") = false.
Proof.
  destruct (io_delete_domain _ _) as [s' r] eqn:E.
  assert (r = Ok tt) as -> by (by apply (f_equal snd) in E; vm_compute in E).
  split; [done|]. by apply delete_domain_spec in E as (_ & Hx & _).
Defined.

Lemma delete_branch_index_spec_witness :
  let '(s', r) := io_delete_branch_index "o/t" "main" CommitExample.store4 in
  r = Ok tt ∧ ∀ t k, domain_tags s' "o/t" !! t = Some k → tc_branch k ≠ None.
Proof.
  destruct (io_delete_branch_index _ _ _) as [s' r] eqn:E.
  assert (r = Ok tt) as -> by (by apply (f_equal snd) in E; vm_compute in E).
  split; [done|]. intros t k Hk. apply delete_branch_index_spec in E as (Ht & _).
  apply Ht in Hk. by destruct Hk.
Defined.

(** Replaying on a branch at [A, B] the delta to [A', C], where [A] has changed:
    the old row of [A] stays. *)
Lemma delta_replay_spec_witness :
  let '(s1, r1) := compute_delta_from_scans (dataset_path "o/t") (doc_id_contents CommitExample.rows_a)
                     (doc_id_contents CommitExample.rows_b) CommitExample.ds_b StoreExample.store1 in
  match r1 with
  | Err _ => False
  | Ok delta =>
      match (io_apply_delta_on_branch (dataset_path "o/t") CommitExample.ds_a delta s1).2 with
      | Err _ => False
      | Ok (h, _) => doc_rows "A" (RefLance.rh_rows h) ≡ₚ [StoreExample.row "A" "a"; StoreExample.row "A" "a2"]
      end
  end.
Proof.
  destruct (compute_delta_from_scans _ _ _ _ _) as [s1 [delta|e]] eqn:E1.
  2: { refute_as (λ p, is_ok p.2) in E1. }
  destruct (io_apply_delta_on_branch _ _ delta s1) as [s2 [[h v]|e]] eqn:E2; cbn [snd].
  - destruct (delta_replay_spec "o/t" "main" CommitExample.rows_a CommitExample.rows_b CommitExample.ds_b
      CommitExample.ds_a StoreExample.store1 s1 s2 delta h v) as (_ & _ & Hd);
      [done|repeat constructor|done|done|by vm_compute|done|done|]. by apply (Hd "A").
  - assert (Hs1 : s1 = StoreExample.store1).
    { apply (compute_delta_inv (dataset_path "o/t") CommitExample.rows_a CommitExample.rows_b) in E1; [by destruct E1|done]. }
    assert (Hdel : delta = mkVersionDelta CommitExample.rows_b ["B"]).
    { apply (f_equal (λ p, match p.2 with Ok d => d | Err _ => delta end)) in E1. by vm_compute in E1. }
    apply (f_equal (λ p, is_ok p.2)) in E2. rewrite Hs1, Hdel in E2. vm_compute in E2. discriminate E2.
Defined.

(** ** Observations *)

(** Assigning a commit to an older one makes the cached last-indexed older than
    what the tags say. *)
Theorem assign_cache_behind :
  let s := fst (io_assign_commit "o/t" "main" "c1" "c1b" CommitExample.store4) in
  st_branch_indexes s !! ("o/t", "main") = Some (mkBranchIndex (Some "c1b") 2) ∧
  snd (io_derive_last_indexed "o/t" "main" s) = Ok (Some ("c2", 3%N)).
Proof. by vm_compute. Qed.

(** The tags of main that a compaction moved to a rebuild branch survive the
    deletion of main's index, and main is still indexed. *)
Theorem delete_main_keeps_rebuild_tags :
  let rebuild := compact_rebuild_branch_name 1 in
  let s0 := fst (io_create_branch "o/t" rebuild 3 CommitExample.store4) in
  let s1 := fst (io_tag_commit "o/t" rebuild "c3" 3 s0) in
  let '(s2, r) := io_delete_branch_index "o/t" "main" s1 in
  r = Ok tt ∧ snd (io_derive_last_indexed "o/t" "main" s2) = Ok (Some ("c3", 3%N)).
Proof. by vm_compute. Qed.
