(* ===== verification/Tasks.v ===== *)
(** * The task table (src/src/store/lance/commit.rs)

    Statuses of push tasks by id, each with the instant it was recorded.  Every
    recording evicts: terminal entries past their time to live, then, over the
    cap, the oldest terminal entries, and as a last resort the oldest of what is
    left.  Instants are nanoseconds on the monotonic clock. *)

From S2P Require Import Prelude F32 RustStr Model.

Definition TASK_TTL : Z := 3600 * 1000 * 1000 * 1000.
Definition MAX_TASKS : nat := 100 * 100.

Abbreviation Tasks := (gmap string (TaskStatus * Z)).

Definition is_terminal (status : TaskStatus) : bool :=
  match status with Complete _ _ | TaskError _ => true | Pending _ => false end.

(** [Instant::duration_since] saturates at zero. *)
Definition duration_since (now ts : Z) : Z := Z.max 0 (now - ts).

Definition expired (now : Z) (entry : TaskStatus * Z) : bool :=
  is_terminal entry.1 && (TASK_TTL <? duration_since now entry.2)%Z.

Section tasks.
Context {HT : HashIter string (TaskStatus * Z)}.

Definition remove_all (ks : list string) (tasks : Tasks) : Tasks := foldr delete tasks ks.

(** [sort_by_key(|(_, ts)| *ts)]. *)
Definition ts_cmp (a b : string * Z) : comparison := Z.compare a.2 b.2.

(** The keys and instants of the entries satisfying [P], oldest first. *)
Definition oldest_first (P : TaskStatus → bool) (tasks : Tasks) : list (string * Z) :=
  sort_by ts_cmp (omap (λ '(k, (s, ts)), if P s then Some (k, ts) else None) (hash_iter tasks)).

(** [for (k, _) in v.into_iter().take(n) { tasks.remove(&k) }]. *)
Definition evict_oldest (P : TaskStatus → bool) (n : nat) (tasks : Tasks) : Tasks :=
  remove_all (take n (oldest_first P tasks)).*1 tasks.

Definition evict_stale_tasks (tasks : Tasks) (now : Z) : Tasks :=
  let tasks := filter (λ kv, expired now kv.2 = false) tasks in
  if (MAX_TASKS <? size tasks)%nat then
    let tasks := evict_oldest is_terminal (size tasks - MAX_TASKS) tasks in
    if (MAX_TASKS <? size tasks)%nat
    then evict_oldest (λ _, true) (size tasks - MAX_TASKS) tasks
    else tasks
  else tasks.

Definition record_task (task_id : string) (status : TaskStatus) (now : Z) (tasks : Tasks) : Tasks :=
  evict_stale_tasks (<[task_id := (status, now)]> tasks) now.

Definition check_task (task_id : string) (tasks : Tasks) : option TaskStatus := fst <$> tasks !! task_id.

Definition task_count (tasks : Tasks) : nat := size tasks.

(** ** Lemmas *)

Lemma remove_all_lookup ks tasks k :
  remove_all ks tasks !! k = if decide (k ∈ ks) then None else tasks !! k.
Proof.
  induction ks as [|k' ks IH]; [by rewrite decide_False by apply not_elem_of_nil|]. cbn.
  destruct (decide (k = k')) as [->|Hne].
  - rewrite lookup_delete_eq. by rewrite decide_True by by left.
  - rewrite lookup_delete_ne by done. unfold remove_all in IH. rewrite IH.
    destruct (decide (k ∈ ks)).
    + by rewrite decide_True by by right.
    + rewrite decide_False; [done|]. by intros [?|?]%elem_of_cons.
Qed.

Lemma remove_all_size ks tasks :
  NoDup ks → (∀ k, k ∈ ks → is_Some (tasks !! k)) → size (remove_all ks tasks) = size tasks - length ks.
Proof.
  induction 1 as [|k ks Hk Hnd IH]; intros Hin; cbn [remove_all foldr length]; [lia|].
  rewrite map_size_delete_Some.
  - unfold remove_all in IH. rewrite IH by (intros; apply Hin; by right). lia.
  - fold (remove_all ks tasks). rewrite remove_all_lookup, decide_False by done. apply Hin. by left.
Qed.

Lemma elem_of_oldest_first P tasks k ts :
  (k, ts) ∈ oldest_first P tasks ↔ ∃ s, tasks !! k = Some (s, ts) ∧ P s = true.
Proof.
  unfold oldest_first. rewrite sort_by_perm, list_elem_of_omap. split.
  - intros ([k' [s ts']] & Hin%hash_iter_elem & Hp). destruct (P s) eqn:E; simplify_eq. eauto.
  - intros (s & Hk%hash_iter_elem & Hp). exists (k, (s, ts)). split; [done|]. by rewrite Hp.
Qed.

Lemma oldest_first_nodup P tasks : NoDup (oldest_first P tasks).*1.
Proof.
  unfold oldest_first. rewrite sort_by_perm. pose proof (hash_iter_nodup tasks) as Hnd.
  induction (hash_iter tasks) as [|[k [s ts]] l IH]; [constructor|].
  inversion Hnd as [|? ? Hk Hl]; subst. cbn. destruct (P s); [|by apply IH]. cbn.
  constructor; [|by apply IH]. intros ([k' ts'] & Hk' & Hin)%list_elem_of_fmap. apply Hk.
  apply list_elem_of_omap in Hin as ([k2 [s2 ts2]] & Hin2 & Hs2). cbn in Hk'.
  destruct (P s2); simplify_eq. apply list_elem_of_fmap. by exists (k', (s2, ts')).
Qed.

#[export] Instance ts_cmp_order : CmpOrder (λ _, True) ts_cmp.
Proof. apply (on_key_order _ (λ _, True) (λ x : string * Z, x.2)); [apply _|done]. Qed.

Lemma oldest_first_sorted P tasks : StronglySorted (cmp_le ts_cmp) (oldest_first P tasks).
Proof. apply (sort_by_sorted ts_cmp (λ _, True)). by apply Forall_forall. Qed.

(** What evicting the [n] oldest of the entries satisfying [P] leaves. *)
Lemma evict_oldest_spec P n tasks :
  let tasks' := evict_oldest P n tasks in
  size tasks' = size tasks - Nat.min n (length (oldest_first P tasks)) ∧
  (∀ k e, tasks' !! k = Some e → tasks !! k = Some e) ∧
  (∀ k e, tasks !! k = Some e → tasks' !! k = None → P e.1 = true) ∧
  (∀ k1 e1 k2 e2, tasks !! k1 = Some e1 → tasks' !! k1 = None →
     tasks' !! k2 = Some e2 → P e2.1 = true → (e1.2 ≤ e2.2)%Z).
Proof.
  cbn zeta. unfold evict_oldest. set (l := oldest_first P tasks).
  assert (Htake : (take n l).*1 = take n l.*1) by apply fmap_take.
  split; [|split; [|split]].
  - rewrite remove_all_size.
    + by rewrite length_fmap, length_take.
    + rewrite Htake. pose proof (oldest_first_nodup P tasks) as Hnd. fold l in Hnd.
      rewrite <-(take_drop n) in Hnd. by apply NoDup_app in Hnd as [? _].
    + intros k ([k' ts] & -> & Hin%elem_of_take_in)%list_elem_of_fmap.
      apply elem_of_oldest_first in Hin as (s & Hs & _). cbn. eauto.
  - intros k e. rewrite remove_all_lookup. by destruct (decide _).
  - intros k e He. rewrite remove_all_lookup. destruct (decide _) as [Hin|]; [|congruence]. intros _.
    apply list_elem_of_fmap in Hin as ([k' ts] & Hk & Hin%elem_of_take_in). cbn in Hk. subst k'.
    apply elem_of_oldest_first in Hin as (s & Hs & Hp). by simplify_eq.
  - intros k1 [s1 t1] k2 [s2 t2] H1 H1' H2 Hp.
    rewrite remove_all_lookup in H1'. destruct (decide _) as [Hin|]; [|congruence]. clear H1'.
    rewrite remove_all_lookup in H2. destruct (decide (k2 ∈ _)) as [|Hnin]; [done|].
    apply list_elem_of_fmap in Hin as ([k' t'] & Hk & Hin). cbn in Hk. subst k'.
    pose proof (elem_of_take_in _ _ _ Hin) as Hin'. apply elem_of_oldest_first in Hin' as (s' & Hs' & _).
    assert (t' = t1) as -> by congruence.
    assert (H2in : (k2, t2) ∈ l) by (apply elem_of_oldest_first; eauto).
    rewrite <-(take_drop n l) in H2in. apply elem_of_app in H2in as [H2in|H2in].
    { exfalso. apply Hnin. apply list_elem_of_fmap. by exists (k2, t2). }
    pose proof (StronglySorted_take_drop _ n l _ _ (oldest_first_sorted P tasks) Hin H2in) as Hle.
    unfold cmp_le, ts_cmp in Hle. cbn in *. rewrite Z.compare_gt_iff in Hle. lia.
Qed.

(** The number of entries satisfying [P]. *)
Lemma oldest_first_length P tasks :
  length (oldest_first P tasks) = size (filter (λ kv, P kv.2.1 = true) tasks).
Proof.
  rewrite <-length_map_to_list, <-(length_fmap fst (oldest_first P tasks)).
  rewrite <-(length_fmap fst (map_to_list _)). apply Permutation_length.
  apply NoDup_Permutation; [apply oldest_first_nodup|apply NoDup_fst_map_to_list|].
  intros k. rewrite !list_elem_of_fmap. split.
  - intros ([k' ts] & -> & (s & Hs & Hp)%elem_of_oldest_first). exists (k', (s, ts)). split; [done|].
    apply elem_of_map_to_list, map_lookup_filter_Some. done.
  - intros ([k' [s ts]] & -> & [Hs Hp]%elem_of_map_to_list%map_lookup_filter_Some). exists (k', ts).
    split; [done|]. apply elem_of_oldest_first. eauto.
Qed.
(** ** What the table keeps

    The bound holds whatever is recorded; only entries that were there are
    kept, unchanged. *)
Lemma evict_stale_facts tasks now :
  let live := filter (λ kv : string * (TaskStatus * Z), expired now kv.2 = false) tasks in
  let tasks' := evict_stale_tasks tasks now in
  size tasks' ≤ MAX_TASKS ∧
  (∀ k e, tasks' !! k = Some e → live !! k = Some e) ∧
  (size live ≤ MAX_TASKS → tasks' = live) ∧
  (∀ k e, size (filter (λ kv : string * (TaskStatus * Z), is_terminal kv.2.1 = false) live) ≤ MAX_TASKS →
     live !! k = Some e → tasks' !! k = None →
     is_terminal e.1 = true ∧
     ∀ k2 e2, tasks' !! k2 = Some e2 → is_terminal e2.1 = true → (e.2 ≤ e2.2)%Z).
Proof.
  cbn zeta. unfold evict_stale_tasks. set (live := filter _ tasks).
  destruct (MAX_TASKS <? size live)%nat eqn:E1; [apply Nat.ltb_lt in E1|apply Nat.ltb_ge in E1].
  2: { split; [done|]. split; [done|]. split; [done|]. intros k e _ H1 H2. congruence. }
  destruct (evict_oldest_spec is_terminal (size live - MAX_TASKS) live) as (Hsz & Hsub & Hterm & Hold).
  rewrite oldest_first_length in Hsz.
  assert (Hsplit : size live = size (filter (λ kv : string * (TaskStatus * Z), is_terminal kv.2.1 = true) live)
    + size (filter (λ kv : string * (TaskStatus * Z), is_terminal kv.2.1 = false) live)).
  { rewrite <-(map_filter_union_complement (λ kv : string * (TaskStatus * Z), is_terminal kv.2.1 = true) live) at 1.
    rewrite map_size_disj_union by apply map_disjoint_filter_complement. f_equal.
    f_equal. apply map_filter_ext. intros k [s ts] _. cbn. by destruct (is_terminal s). }
  destruct (MAX_TASKS <? size (evict_oldest is_terminal _ live))%nat eqn:E2;
    [apply Nat.ltb_lt in E2|apply Nat.ltb_ge in E2].
  - set (t2 := evict_oldest is_terminal _ live) in *.
    destruct (evict_oldest_spec (λ _, true) (size t2 - MAX_TASKS) t2) as (Hsz2 & Hsub2 & _ & _).
    rewrite oldest_first_length in Hsz2.
    assert (filter (λ kv : string * (TaskStatus * Z), true = true) t2 = t2) as Hall.
    { apply map_filter_id. done. }
    rewrite Hall in Hsz2. split; [lia|]. split; [eauto|]. split; [lia|]. intros k e Hp. lia.
  - split; [done|]. split; [done|]. split; [lia|]. intros k e _ Hk Hn. split; [by eapply Hterm|].
    intros k2 e2 H2 Ht2. by eapply Hold.
Qed.

(** C31: the table never exceeds its cap.  While at most a capful of tasks is in
    progress, no task in progress is ever forgotten; a finished task within its
    time to live is forgotten only over the cap, and none recorded earlier is
    kept in its place; a finished task past its time to live is forgotten. *)
Theorem record_task_spec task_id status now tasks :
  let entered := <[task_id := (status, now)]> tasks in
  let tasks' := record_task task_id status now tasks in
  size tasks' ≤ MAX_TASKS ∧
  (∀ k e, tasks' !! k = Some e → entered !! k = Some e ∧ expired now e = false) ∧
  (size (filter (λ kv : string * (TaskStatus * Z), is_terminal kv.2.1 = false) entered) ≤ MAX_TASKS →
     ∀ k e, entered !! k = Some e → expired now e = false → tasks' !! k = None →
     is_terminal e.1 = true ∧ MAX_TASKS < size entered ∧
     ∀ k2 e2, tasks' !! k2 = Some e2 → is_terminal e2.1 = true → (e.2 ≤ e2.2)%Z).
Proof.
  cbn zeta. unfold record_task. set (entered := <[_ := _]> tasks).
  destruct (evict_stale_facts entered now) as (Hsz & Hsub & Hid & Hev). split; [done|]. split.
  - intros k e Hk%Hsub. by apply map_lookup_filter_Some in Hk.
  - intros Hpend k e Hk Hx Hn.
    assert (Hlive : filter (λ kv : string * (TaskStatus * Z), expired now kv.2 = false) entered !! k = Some e).
    { by apply map_lookup_filter_Some. }
    assert (Hle : size (filter (λ kv : string * (TaskStatus * Z), expired now kv.2 = false) entered) ≤ size entered).
    { apply map_subseteq_size, map_filter_subseteq. }
    assert (Hpl : size (filter (λ kv : string * (TaskStatus * Z), is_terminal kv.2.1 = false)
      (filter (λ kv, expired now kv.2 = false) entered)) ≤ MAX_TASKS).
    { etrans; [|exact Hpend]. apply map_subseteq_size. apply map_subseteq_spec.
      intros k' e' [Hf Ht]%map_lookup_filter_Some. apply map_lookup_filter_Some. split; [|done].
      by apply map_lookup_filter_Some in Hf as [? _]. }
    split; [|split].
    + by eapply Hev.
    + destruct (decide (size entered ≤ MAX_TASKS)); [|lia].
      rewrite Hid in Hn by lia. congruence.
    + by eapply Hev.
Qed.
End tasks.
