(* ===== verification/Locks.v ===== *)
(** * Keyed locks (src/src/store/lance/commit.rs, src/src/store/lance/mod.rs,
      src/src/store/lance/stats.rs)

    [acquire_pipeline_lock] and [acquire_domain_guard] keep a mutex per key in a
    map: look the key up under the read lock, insert a mutex under the write
    lock if it was missing, then lock the mutex that was found.  A mutex is an
    [Arc]; here an identity.  The steps of concurrent tasks interleave between
    these points.  [io_delete_domain] also removes the entries of a domain. *)

From S2P Require Import Prelude.

Section locks.
Context {K : Type} `{Countable K}.

(** Where a task is in an acquisition of the lock of a key. *)
Inductive LockPc : Type :=
| Missed (k : K)
| Found (k : K) (id : nat)
| Holding (k : K) (id : nat).

Record LockState := mkLockState {
  lk_map : gmap K nat;
  lk_next : nat;
  lk_tasks : gmap nat LockPc;
}.

Definition lk_init : LockState := mkLockState ∅ 0 ∅.

(** The task, if any, that holds the mutex [id]. *)
Definition held (st : LockState) (id : nat) : Prop :=
  ∃ t k, lk_tasks st !! t = Some (Holding k id).

Definition set_pc (st : LockState) (t : nat) (pc : LockPc) : LockState :=
  mkLockState (lk_map st) (lk_next st) (<[t := pc]> (lk_tasks st)).

Inductive lock_step : LockState → LockState → Prop :=
(** [locks.read().get(&key)]: found. *)
| step_hit st t k id :
    lk_tasks st !! t = None → lk_map st !! k = Some id →
    lock_step st (set_pc st t (Found k id))
(** Not found: the read lock is dropped. *)
| step_miss st t k :
    lk_tasks st !! t = None → lk_map st !! k = None →
    lock_step st (set_pc st t (Missed k))
(** [entry(key).or_insert_with(..)]: another task may have inserted. *)
| step_entry_present st t k id :
    lk_tasks st !! t = Some (Missed k) → lk_map st !! k = Some id →
    lock_step st (set_pc st t (Found k id))
| step_entry_insert st t k :
    lk_tasks st !! t = Some (Missed k) → lk_map st !! k = None →
    lock_step st (mkLockState (<[k := lk_next st]> (lk_map st)) (S (lk_next st))
      (<[t := Found k (lk_next st)]> (lk_tasks st)))
(** [lock_owned().await] returns when nobody holds the mutex. *)
| step_lock st t k id :
    lk_tasks st !! t = Some (Found k id) → ¬ held st id →
    lock_step st (set_pc st t (Holding k id))
(** A timeout, or [try_lock_owned] on a held mutex. *)
| step_give_up st t k id :
    lk_tasks st !! t = Some (Found k id) →
    lock_step st (mkLockState (lk_map st) (lk_next st) (delete t (lk_tasks st)))
(** The guard is dropped. *)
| step_unlock st t k id :
    lk_tasks st !! t = Some (Holding k id) →
    lock_step st (mkLockState (lk_map st) (lk_next st) (delete t (lk_tasks st))).

(** The purge of [io_delete_domain]: the entries of some keys go, whoever
    holds or waits for their mutexes. *)
Inductive purge_step (P : K → Prop) `{∀ k, Decision (P k)} : LockState → LockState → Prop :=
| step_purge st :
    purge_step P st (mkLockState (filter (λ kv, ¬ P kv.1) (lk_map st)) (lk_next st) (lk_tasks st)).

(** Two tasks never hold the lock of one key together. *)
Definition mutual_exclusion (st : LockState) : Prop :=
  ∀ t1 t2 k id1 id2, lk_tasks st !! t1 = Some (Holding k id1) → lk_tasks st !! t2 = Some (Holding k id2) →
    t1 = t2.

(** The mutex a task has found is the one of its key; mutexes are held once. *)
Record lock_inv (st : LockState) : Prop := {
  li_found t k id : lk_tasks st !! t = Some (Found k id) ∨ lk_tasks st !! t = Some (Holding k id) →
    lk_map st !! k = Some id;
  li_once t1 t2 k1 k2 id : lk_tasks st !! t1 = Some (Holding k1 id) → lk_tasks st !! t2 = Some (Holding k2 id) →
    t1 = t2;
}.

Lemma lock_init_inv : lock_inv lk_init.
Proof. split; cbn; intros *; rewrite ?lookup_empty; [intros []|]; done. Qed.

(** Moving a task to a state in which it holds nothing new. *)
Lemma lock_inv_move st t pc m n :
  lock_inv st → lk_map st ⊆ m →
  match pc with
  | Some (Found k id) => m !! k = Some id
  | Some (Holding k id) => m !! k = Some id ∧ ¬ held st id
  | _ => True
  end →
  lock_inv (mkLockState m n (match pc with Some pc => <[t := pc]> (lk_tasks st) | None => delete t (lk_tasks st) end)).
Proof.
  intros [Hf Ho] Hm Hpc.
  assert (Hlk : ∀ t' p, match pc with Some pc => <[t := pc]> (lk_tasks st) | None => delete t (lk_tasks st) end !! t'
    = Some p → t' = t ∧ pc = Some p ∨ lk_tasks st !! t' = Some p).
  { intros t' p. destruct pc as [pc|].
    - intros [[<- <-]|[_ ?]]%lookup_insert_Some; [by left|by right].
    - intros [_ ?]%lookup_delete_Some. by right. }
  split; cbn.
  - intros t' k id [[[-> ->]|Ht]%Hlk|[[-> ->]|Ht]%Hlk].
    + done.
    + eapply lookup_weaken; [|done]. eauto.
    + apply Hpc.
    + eapply lookup_weaken; [|done]. eauto.
  - intros t1 t2 k1 k2 id [[-> ->]|H1]%Hlk [[-> E2]|H2]%Hlk.
    + done.
    + destruct Hpc as [_ Hh]. exfalso. apply Hh. by exists t2, k2.
    + subst pc. destruct Hpc as [_ Hh]. exfalso. apply Hh. by exists t1, k1.
    + eauto.
Qed.

Lemma lock_step_inv st st' : lock_inv st → lock_step st st' → lock_inv st'.
Proof.
  intros Hinv Hs. destruct Hs as [st t k id Ht Hm|st t k Ht Hm|st t k id Ht Hm|st t k Ht Hm
    |st t k id Ht Hh|st t k id Ht|st t k id Ht].
  - by apply (lock_inv_move st t (Some (Found k id))).
  - by apply (lock_inv_move st t (Some (Missed k))).
  - by apply (lock_inv_move st t (Some (Found k id))).
  - apply (lock_inv_move st t (Some (Found k (lk_next st)))); [done|by apply insert_subseteq|].
    by rewrite lookup_insert_eq.
  - apply (lock_inv_move st t (Some (Holding k id))); [done..|]. split; [|done].
    eapply li_found; [done|]. by left.
  - by apply (lock_inv_move st t None).
  - by apply (lock_inv_move st t None).
Qed.

(** C30: however many tasks acquire, give up and release locks in whatever order,
    at most one holds the lock of a key. *)
Theorem keyed_lock_exclusive st :
  rtc lock_step lk_init st → mutual_exclusion st.
Proof.
  intros Hr. assert (Hinv : lock_inv st).
  { revert Hr. generalize lock_init_inv. generalize lk_init. intros st0 H0 Hr.
    induction Hr as [|st1 st2 st3 Hs _ IH]; [done|]. eapply IH, lock_step_inv; done. }
  intros t1 t2 k id1 id2 H1 H2.
  pose proof (li_found _ Hinv t1 k id1 (or_intror H1)). pose proof (li_found _ Hinv t2 k id2 (or_intror H2)).
  assert (id1 = id2) as -> by congruence. by eapply li_once.
Qed.

(** Whether a mutex is held, decided. *)
Definition is_held (st : LockState) (id : nat) : bool :=
  existsb (λ kv : nat * LockPc, match kv.2 with Holding _ id' => (id' =? id)%nat | _ => false end)
    (map_to_list (lk_tasks st)).

Lemma is_held_spec st id : reflect (held st id) (is_held st id).
Proof.
  apply iff_reflect. unfold is_held. rewrite existsb_exists. split.
  - intros (t & k & Ht). exists (t, Holding k id). split; [|by apply Nat.eqb_eq].
    by apply list_elem_of_In, elem_of_map_to_list.
  - intros ([t pc] & Hin%list_elem_of_In%elem_of_map_to_list & Hpc). cbn in Hpc.
    destruct pc as [| |k id']; [done|done|]. apply Nat.eqb_eq in Hpc as ->. by exists t, k.
Qed.

Lemma not_held st id : is_held st id = false → ¬ held st id.
Proof. by destruct (is_held_spec st id). Qed.

(** A free lock is acquired, and a task that waits gets it when the holder is
    done: from a state where a task has found the mutex of its key it can hold
    the lock after the holder's release. *)
Lemma waiting_gets_lock st t k id :
  lk_tasks st !! t = Some (Found k id) → lock_inv st →
  ∃ st', rtc lock_step st st' ∧ lk_tasks st' !! t = Some (Holding k id).
Proof.
  intros Ht Hinv.
  destruct (is_held_spec st id) as [(t' & k' & Ht')|Hno].
  - eexists. split.
    + eapply rtc_l; [by eapply step_unlock|]. apply rtc_once.
      eapply (step_lock (mkLockState (lk_map st) (lk_next st) (delete t' (lk_tasks st))) t k id).
      * cbn. rewrite lookup_delete_ne; [done|]. intros ->. congruence.
      * intros (t2 & k2 & Ht2). cbn in Ht2. apply lookup_delete_Some in Ht2 as [Hne Ht2]. apply Hne.
        by eapply li_once.
    + cbn. by rewrite lookup_insert_eq.
  - eexists. split; [apply rtc_once; by eapply (step_lock st t k id)|cbn; by rewrite lookup_insert_eq].
Qed.
End locks.
Arguments LockState K {_ _}. Arguments LockPc K : clear implicits.

(** ** The purge *)

(** One task holds the lock of a key; the key's entry is purged; another task
    finds nothing, inserts a new mutex and locks it: both hold the lock.  So it
    is after [io_delete_domain] for the pipeline locks of the domain's branches
    and for the domain's guard. *)
Theorem purge_breaks_exclusion :
  ∃ st1 st2 st3 : LockState string,
    rtc lock_step lk_init st1 ∧ purge_step (λ k, k = "o/t") st1 st2 ∧ rtc lock_step st2 st3 ∧
    ¬ mutual_exclusion st3.
Proof.
  eexists (mkLockState {["o/t" := 0]} 1 {[0 := Holding "o/t" 0]}), _,
    (mkLockState {["o/t" := 1]} 2 (<[1 := Holding "o/t" 1]> {[0 := Holding "o/t" 0]})).
  split; [|split; [apply step_purge|split]].
  - eapply rtc_l; [by apply (step_miss lk_init 0 "o/t")|].
    eapply rtc_l; [by apply (step_entry_insert _ 0 "o/t")|].
    eapply rtc_l; [apply (step_lock _ 0 "o/t" 0); [done|by apply not_held]|reflexivity].
  - eapply rtc_l; [by apply (step_miss _ 1 "o/t")|].
    eapply rtc_l; [by apply (step_entry_insert _ 1 "o/t")|].
    eapply rtc_l; [apply (step_lock _ 1 "o/t" 1); [done|by apply not_held]|reflexivity].
  - intros Hm. by specialize (Hm 0 1 "o/t" 0 1 eq_refl eq_refl).
Qed.

Lemma keyed_lock_exclusive_witness :
  mutual_exclusion (mkLockState {["o/t" := 0]} 1 {[0 := Holding "o/t" 0]}).
Proof.
  apply keyed_lock_exclusive.
  eapply rtc_l; [by apply (step_miss lk_init 0 "o/t")|].
  eapply rtc_l; [by apply (step_entry_insert _ 0 "o/t")|].
  eapply rtc_l; [apply (step_lock _ 0 "o/t" 0); [done|by apply not_held]|reflexivity].
Defined.
