(* ===== verification/Push.v ===== *)
(** * Concurrent pushes (src/src/service/mod.rs, src/src/store/lance/commit.rs)

    The life of a push request between its await points, as a labelled step
    relation over any number of concurrent requests: the reservation under
    [reservation_lock], the branch-out and the wait for the pipeline lock, the
    pipeline task, the release.  The tags and the reservation set are shared,
    and change under the pushes: [/assign] tags commits, the deletions of a
    domain and of a branch take tags and purge reservations
    (src/src/store/lance/stats.rs), and a request can be dropped at an await
    point.  A deletion is here two steps that may come at any time, which is
    more than the code does: it takes a guard first.  Retagging (commit.rs) is
    not among the steps: nothing in the server calls it. *)

From S2P Require Import Prelude Store.

Inductive PushResult : Type :=
| Conflict          (* 409: already pushed *)
| LookupFailed      (* the tag listing failed *)
| ForkFailed        (* the branch-out failed *)
| LockBusy          (* 503: no pipeline lock within the timeout *)
| Indexed           (* the task is Complete *)
| IndexFailed.      (* the task is Error *)

Inductive PushPc : Type :=
| WantLock                    (* before [reservation_lock.lock()] *)
| Checking                    (* the lock is held: the set is to be read *)
| Resolving                   (* not in flight: the tags are to be listed *)
| Inserting                   (* not tagged: the set is to be extended *)
| Accepted                    (* [Ok(true)]: fork, then wait for the pipeline lock *)
| Running                     (* the pipeline task *)
| Finished (ok : bool)        (* the task has ended: record, then release *)
| Returned (r : PushResult)
| Dropped (reserved : bool).  (* the request is gone, with or without its reservation taken *)

#[export] Instance PushPc_eq_dec : EqDecision PushPc.
Proof. assert (EqDecision PushResult) by solve_decision. solve_decision. Defined.

(** A tag is of a commit of a domain, and records the branch. *)
Record PushState := mkPushState {
  ps_lock : option nat;
  ps_inflight : gset CommitKey;
  ps_tags : gmap (string * string) string;
  ps_pushes : gmap nat (CommitKey * PushPc);
}.

Definition push_init (tags : gmap (string * string) string) : PushState := mkPushState None ∅ tags ∅.

(** What the tag of a push is created for: tags are global to the domain's dataset. *)
Definition tag_key (k : CommitKey) : string * string := (k.1.1, k.2).

Definition at_pc (st : PushState) (t : nat) (k : CommitKey) (pc : PushPc) : Prop :=
  ps_pushes st !! t = Some (k, pc).

Definition move (st : PushState) (t : nat) (k : CommitKey) (pc : PushPc) (lock : option nat)
    (inflight : gset CommitKey) (tags : gmap (string * string) string) : PushState :=
  mkPushState lock inflight tags (<[t := (k, pc)]> (ps_pushes st)).

(** A push decides while it holds the reservation lock, works from its
    acceptance to its release, and holds its reservation as long, or for good if
    its request is dropped then. *)
Definition deciding (pc : PushPc) : bool :=
  match pc with Checking | Resolving | Inserting => true | _ => false end.
Definition active (pc : PushPc) : bool :=
  match pc with Accepted | Running | Finished _ => true | _ => false end.
Definition holds (pc : PushPc) : bool :=
  match pc with Dropped reserved => reserved | _ => active pc end.

Inductive PushLabel : Type :=
| Working (t : nat)                (* a push goes on *)
| Assigning (tag : string * string)
| DeletingDomain (d : string)
| DeletingBranch (d b : string)
| Dropping (t : nat).              (* the client of a push is gone *)

Inductive push_step : PushLabel → PushState → PushState → Prop :=
| ps_arrive st t k : ps_pushes st !! t = None →
    push_step (Working t) st (move st t k WantLock (ps_lock st) (ps_inflight st) (ps_tags st))
| ps_take_lock st t k : at_pc st t k WantLock → ps_lock st = None →
    push_step (Working t) st (move st t k Checking (Some t) (ps_inflight st) (ps_tags st))
| ps_in_flight st t k : at_pc st t k Checking → k ∈ ps_inflight st →
    push_step (Working t) st (move st t k (Returned Conflict) None (ps_inflight st) (ps_tags st))
| ps_not_in_flight st t k : at_pc st t k Checking → k ∉ ps_inflight st →
    push_step (Working t) st (move st t k Resolving (ps_lock st) (ps_inflight st) (ps_tags st))
| ps_lookup_failed st t k : at_pc st t k Resolving →
    push_step (Working t) st (move st t k (Returned LookupFailed) None (ps_inflight st) (ps_tags st))
| ps_tagged st t k : at_pc st t k Resolving → is_Some (ps_tags st !! tag_key k) →
    push_step (Working t) st (move st t k (Returned Conflict) None (ps_inflight st) (ps_tags st))
| ps_absent st t k : at_pc st t k Resolving → ps_tags st !! tag_key k = None →
    push_step (Working t) st (move st t k Inserting (ps_lock st) (ps_inflight st) (ps_tags st))
| ps_insert st t k : at_pc st t k Inserting →
    push_step (Working t) st (move st t k Accepted None ({[k]} ∪ ps_inflight st) (ps_tags st))
| ps_refuse st t k r : at_pc st t k Accepted → r = ForkFailed ∨ r = LockBusy →
    push_step (Working t) st (move st t k (Returned r) (ps_lock st) (ps_inflight st ∖ {[k]}) (ps_tags st))
| ps_start st t k : at_pc st t k Accepted →
    push_step (Working t) st (move st t k Running (ps_lock st) (ps_inflight st) (ps_tags st))
(** Creating a tag that is there fails; after the tag only a panic fails the task. *)
| ps_tag st t k (ok : bool) : at_pc st t k Running → ps_tags st !! tag_key k = None →
    push_step (Working t) st (move st t k (Finished ok) (ps_lock st) (ps_inflight st) (<[tag_key k := k.1.2]> (ps_tags st)))
(** An error of the pipeline, or a panic. *)
| ps_fail st t k : at_pc st t k Running →
    push_step (Working t) st (move st t k (Finished false) (ps_lock st) (ps_inflight st) (ps_tags st))
| ps_release st t k (ok : bool) : at_pc st t k (Finished ok) →
    push_step (Working t) st (move st t k (Returned (if ok then Indexed else IndexFailed)) (ps_lock st)
      (ps_inflight st ∖ {[k]}) (ps_tags st))
(** [/assign] tags a commit without a reservation. *)
| ps_assign st tg b : ps_tags st !! tg = None →
    push_step (Assigning tg) st (mkPushState (ps_lock st) (ps_inflight st) (<[tg := b]> (ps_tags st)) (ps_pushes st))
(** [io_delete_domain]: the dataset goes with its tags, then the reservations. *)
| ps_remove_domain st d :
    push_step (DeletingDomain d) st
      (mkPushState (ps_lock st) (ps_inflight st) (filter (λ kv, kv.1.1 ≠ d) (ps_tags st)) (ps_pushes st))
| ps_purge_domain st d :
    push_step (DeletingDomain d) st
      (mkPushState (ps_lock st) (filter (λ k, k.1.1 ≠ d) (ps_inflight st)) (ps_tags st) (ps_pushes st))
(** [io_delete_branch_index]: the tags of the branch one by one, then its reservations. *)
| ps_untag st d b c : ps_tags st !! (d, c) = Some b →
    push_step (DeletingBranch d b) st
      (mkPushState (ps_lock st) (ps_inflight st) (delete (d, c) (ps_tags st)) (ps_pushes st))
| ps_purge_branch st d b :
    push_step (DeletingBranch d b) st
      (mkPushState (ps_lock st) (filter (λ k, k.1 ≠ (d, b)) (ps_inflight st)) (ps_tags st) (ps_pushes st))
(** A request dropped before its reservation is taken gives the lock up; one
    dropped after (in the fork, on the pipeline lock or, for the buffered
    [push], on the task, which ends by itself but whose end nobody records and
    releases) leaves it.  A drop while the task runs is the drop at its end. *)
| ps_drop_waiting st t k : at_pc st t k WantLock →
    push_step (Dropping t) st (move st t k (Dropped false) (ps_lock st) (ps_inflight st) (ps_tags st))
| ps_drop_deciding st t k pc : at_pc st t k pc → deciding pc = true →
    push_step (Dropping t) st (move st t k (Dropped false) None (ps_inflight st) (ps_tags st))
| ps_drop_reserved st t k pc : at_pc st t k pc → pc = Accepted ∨ (∃ ok, pc = Finished ok) →
    push_step (Dropping t) st (move st t k (Dropped true) (ps_lock st) (ps_inflight st) (ps_tags st)).

Inductive push_run : list PushLabel → PushState → PushState → Prop :=
| run_nil st : push_run [] st st
| run_cons l ls st1 st2 st3 : push_step l st1 st2 → push_run ls st2 st3 → push_run (l :: ls) st1 st3.

(** A step that is no deletion of the commit's domain, nor of its branch. *)
Definition spares_commit (k : CommitKey) (l : PushLabel) : Prop :=
  match l with
  | DeletingDomain d => d ≠ k.1.1
  | DeletingBranch d b => (d, b) ≠ k.1
  | _ => True
  end.
Definition working (l : PushLabel) : Prop := match l with Working _ => True | _ => False end.

Lemma push_run_app ls1 ls2 st1 st2 st3 : push_run ls1 st1 st2 → push_run ls2 st2 st3 → push_run (ls1 ++ ls2) st1 st3.
Proof. induction 1; [done|]. intros Hr. cbn. econstructor; eauto. Qed.

Lemma push_run_once l st st' : push_step l st st' → push_run [l] st st'.
Proof. intros Hs. econstructor; [done|constructor]. Qed.

(** Of steps of pushes alone. *)
Definition works (st st' : PushState) : Prop := ∃ ls, Forall working ls ∧ push_run ls st st'.

#[export] Instance works_preorder : PreOrder works.
Proof.
  split; [intros st; exists []; split; [done|constructor]|].
  intros st1 st2 st3 (ls1 & H1 & R1) (ls2 & H2 & R2). exists (ls1 ++ ls2). split; [by apply Forall_app|by eapply push_run_app].
Qed.

Lemma works_once t st st' : push_step (Working t) st st' → works st st'.
Proof. intros Hs. exists [Working t]. split; [by repeat constructor|by apply push_run_once]. Qed.
Lemma works_l t st1 st2 st3 : push_step (Working t) st1 st2 → works st2 st3 → works st1 st3.
Proof. intros Hs Hw. etrans; [by eapply works_once|done]. Qed.

(** ** The invariant *)

(** A push that is answered with a completed index, or about to be. *)
Definition indexed (pc : PushPc) : bool :=
  match pc with Finished true | Returned Indexed => true | _ => false end.

(** Whatever runs, the lock has its holder and a reservation its push.  Of the
    commits in [P], which no deletion has touched, a push that holds has its
    reservation, alone, and an indexed commit its tag, from one push. *)
Record push_inv (P : CommitKey → Prop) (st : PushState) : Prop := {
  pi_lock t k pc : at_pc st t k pc → deciding pc = true → ps_lock st = Some t;
  pi_holder t : ps_lock st = Some t → ∃ k pc, at_pc st t k pc ∧ deciding pc = true;
  pi_owner k : k ∈ ps_inflight st → ∃ t pc, at_pc st t k pc ∧ holds pc = true;
  pi_held t k pc : P k → at_pc st t k pc → holds pc = true → k ∈ ps_inflight st;
  pi_fresh t k pc : P k → at_pc st t k pc → pc = Resolving ∨ pc = Inserting → k ∉ ps_inflight st;
  pi_once t1 t2 k pc1 pc2 : P k → at_pc st t1 k pc1 → at_pc st t2 k pc2 → holds pc1 = true → holds pc2 = true → t1 = t2;
  pi_tagged t k pc : P k → at_pc st t k pc → indexed pc = true → ps_tags st !! tag_key k = Some k.1.2;
  pi_tagged_once t1 t2 k1 k2 pc1 pc2 : P k1 → P k2 → at_pc st t1 k1 pc1 → at_pc st t2 k2 pc2 →
    indexed pc1 = true → indexed pc2 = true → tag_key k1 = tag_key k2 → t1 = t2;
}.

Lemma push_init_inv P tags : push_inv P (push_init tags).
Proof. split; unfold at_pc; cbn; intros *; rewrite ?lookup_empty; done. Qed.

Lemma at_pc_self st t k pc l i tg : at_pc (move st t k pc l i tg) t k pc.
Proof. unfold at_pc, move. cbn. by rewrite lookup_insert_eq. Qed.
Lemma at_pc_other st t t' k k' pc pc' l i tg : t' ≠ t → at_pc st t' k' pc' → at_pc (move st t k pc l i tg) t' k' pc'.
Proof. unfold at_pc, move. cbn. intros Hne Ht. by rewrite lookup_insert_ne. Qed.
Lemma at_pc_move st t k pc l i tg t' k' pc' :
  at_pc (move st t k pc l i tg) t' k' pc' → t' = t ∧ k' = k ∧ pc' = pc ∨ t' ≠ t ∧ at_pc st t' k' pc'.
Proof.
  unfold at_pc, move. cbn. intros [[<- [= <- <-]]|[Hne Ht]]%lookup_insert_Some; [by left|by right].
Qed.
Lemma at_pc_fun st t k k' pc pc' : at_pc st t k pc → at_pc st t k' pc' → k' = k ∧ pc' = pc.
Proof. unfold at_pc. intros -> [= -> ->]. done. Qed.

Section invariant.
Context (P : CommitKey → Prop).

(** Another push that holds, or decides. *)
Definition other_holds st t k : Prop := ∃ t' pc', t' ≠ t ∧ at_pc st t' k pc' ∧ holds pc' = true.
Definition other_decides st t t' : Prop := t' ≠ t ∧ ∃ k' pc', at_pc st t' k' pc' ∧ deciding pc' = true.

(** The move of one push: what is to be shown of its own fields, and that the
    others' stay. *)
Lemma move_inv st t k pc l i tg :
  push_inv P st →
  (deciding pc = true → l = Some t) →
  (∀ t', other_decides st t t' → l = Some t') →
  (∀ t', l = Some t' → t' = t ∧ deciding pc = true ∨ other_decides st t t') →
  (∀ k', k' ∈ i → k' = k ∧ holds pc = true ∨ other_holds st t k') →
  (P k → holds pc = true → k ∈ i ∧ ¬ other_holds st t k) →
  (∀ k', P k' → other_holds st t k' → k' ∈ i) →
  (P k → pc = Resolving ∨ pc = Inserting → k ∉ i) →
  (∀ t' k' pc', P k' → t' ≠ t → at_pc st t' k' pc' → pc' = Resolving ∨ pc' = Inserting → k' ∉ i) →
  ps_tags st ⊆ tg →
  (P k → indexed pc = true → tg !! tag_key k = Some k.1.2 ∧
     ∀ t' k' pc', t' ≠ t → P k' → at_pc st t' k' pc' → indexed pc' = true → tag_key k' ≠ tag_key k) →
  push_inv P (move st t k pc l i tg).
Proof.
  intros Hinv Hl Hl' Hh Ho Ha Ha' Hf Hf' Htg Hd. split; cbn.
  - intros t' k' pc' [(-> & -> & ->)|[Hne Ht]]%at_pc_move; [auto|]. intros. apply Hl'. split; eauto.
  - intros t' [[-> D]|(Hne & k' & pc' & Ht & D)]%Hh.
    + exists k, pc. split; [apply at_pc_self|done].
    + exists k', pc'. split; [by apply at_pc_other|done].
  - intros k' [[-> A]|(t' & pc' & Hne & Ht & A)]%Ho.
    + exists t, pc. split; [apply at_pc_self|done].
    + exists t', pc'. split; [by apply at_pc_other|done].
  - intros t' k' pc' HP [(-> & -> & ->)|[Hne Ht]]%at_pc_move A; [by apply Ha|]. apply Ha'; [done|]. by exists t', pc'.
  - intros t' k' pc' HP [(-> & -> & ->)|[Hne Ht]]%at_pc_move; eauto.
  - intros t1 t2 k' pc1 pc2 HP [(-> & -> & ->)|[Hne1 Ht1]]%at_pc_move [(-> & E & ->)|[Hne2 Ht2]]%at_pc_move A1 A2.
    + done.
    + destruct (Ha HP A1) as [_ Hn]. destruct Hn. by exists t2, pc2.
    + subst k'. destruct (Ha HP A2) as [_ Hn]. destruct Hn. by exists t1, pc1.
    + by eapply (pi_once _ _ Hinv).
  - intros t' k' pc' HP [(-> & -> & ->)|[Hne Ht]]%at_pc_move Hp; [by apply Hd|].
    eapply lookup_weaken; [|done]. by eapply (pi_tagged _ _ Hinv).
  - intros t1 t2 k1 k2 pc1 pc2 HP1 HP2 [(-> & -> & ->)|[Hn1 Ht1]]%at_pc_move [(-> & -> & ->)|[Hn2 Ht2]]%at_pc_move D1 D2 E.
    + done.
    + exfalso. by apply (proj2 (Hd HP1 D1) _ _ _ Hn2 HP2 Ht2 D2).
    + exfalso. by apply (proj2 (Hd HP2 D2) _ _ _ Hn1 HP1 Ht1 D1).
    + by apply (pi_tagged_once _ _ Hinv t1 t2 k1 k2 pc1 pc2).
Qed.

(** Who else holds and decides is as before the move of a push. *)
Lemma owners_kept st t k pc k' :
  push_inv P st → (∀ k0 pc0, at_pc st t k0 pc0 → holds pc0 = true → k0 = k ∧ holds pc = true) →
  k' ∈ ps_inflight st → k' = k ∧ holds pc = true ∨ other_holds st t k'.
Proof.
  intros Hinv Hk (t' & pc' & Ht' & Ha)%(pi_owner _ _ Hinv). destruct (decide (t' = t)) as [->|]; [|right; by exists t', pc'].
  destruct (Hk _ _ Ht' Ha) as [-> ?]. by left.
Qed.
Lemma holder_kept st t pc t' :
  push_inv P st → (∀ k0 pc0, at_pc st t k0 pc0 → deciding pc0 = true → deciding pc = true) →
  ps_lock st = Some t' → t' = t ∧ deciding pc = true ∨ other_decides st t t'.
Proof.
  intros Hinv Hk (k' & pc' & Ht' & Ha)%(pi_holder _ _ Hinv). destruct (decide (t' = t)) as [->|]; [|right; split; eauto].
  left. split; [done|]. by eapply Hk.
Qed.
Lemma owners_released st t k pc k' :
  push_inv P st → at_pc st t k pc → k' ∈ ps_inflight st ∖ {[k]} → other_holds st t k'.
Proof.
  intros Hinv Ht [(t' & pc' & Ht' & Ha)%(pi_owner _ _ Hinv) Hk]%elem_of_difference. exists t', pc'. split_and!; [|done..].
  intros ->. apply Hk, elem_of_singleton. by destruct (at_pc_fun _ _ _ _ _ _ Ht Ht') as [-> _].
Qed.
Lemma others_alone st t k pc : push_inv P st → P k → at_pc st t k pc → holds pc = true → ¬ other_holds st t k.
Proof. intros Hinv HP Ht Ha (t' & pc' & Hne & Ht' & Ha'). apply Hne. by eapply (pi_once _ _ Hinv _ _ k). Qed.
End invariant.
Section steps.
Context (P : CommitKey → Prop).

(** A step that no push takes, over commits it spares. *)
Lemma env_inv st i tg :
  push_inv P st → i ⊆ ps_inflight st → (∀ k, P k → k ∈ ps_inflight st → k ∈ i) →
  (∀ k, P k → ps_tags st !! tag_key k = Some k.1.2 → tg !! tag_key k = Some k.1.2) →
  push_inv P (mkPushState (ps_lock st) i tg (ps_pushes st)).
Proof.
  intros [Hl Hh Ho Ha Hf H1 Ht Ht1] Hi Hi' Htg. split; cbn; [done|done| | | |done| |done].
  - intros k Hk. by apply Ho, Hi.
  - intros t k pc HP Hp Hd. apply Hi'; [done|]. by eapply Ha.
  - intros t k pc HP Hp Hd Hk. eapply Hf; [done|done|done|by apply Hi].
  - intros t k pc HP Hp Hd. apply Htg; [done|]. by eapply Ht.
Qed.

(** What is left of a move when the invariant has answered. *)
Ltac push_side Hinv Ht :=
  try done; intros; try done;
  first [ by eapply (pi_held _ _ Hinv)
        | by eapply (pi_fresh _ _ Hinv)
        | match goal with H : _ = _ ∨ _ = _ |- _ => destruct H; discriminate end
        | match goal with Ho : other_decides _ _ _ |- _ => destruct Ho as (? & ? & ? & Ho & Hdo);
              pose proof (pi_lock _ _ Hinv _ _ _ Ho Hdo); congruence end
        | match goal with Ho : other_holds _ _ _ |- _ ∈ ps_inflight _ => destruct Ho as (? & ? & ? & ? & ?); by eapply (pi_held _ _ Hinv) end
        | eapply (owners_kept P); [done| |done]; intros k0 pc0 Ht0 ?; first [by destruct (at_pc_fun _ _ _ _ _ _ Ht Ht0) as [-> ->]|unfold at_pc in Ht0; congruence]
        | eapply (holder_kept P); [done| |done]; intros k0 pc0 Ht0 ?; first [by destruct (at_pc_fun _ _ _ _ _ _ Ht Ht0) as [-> ->]|unfold at_pc in Ht0; congruence]
        | right; by eapply (owners_released P)
        | split; [by eapply (pi_held _ _ Hinv)|by eapply (others_alone P)]
        | idtac ].

(** A reservation of a spared commit is no other's, before it is released. *)
Lemma released_spares st t k pc k' :
  push_inv P st → at_pc st t k pc → holds pc = true → P k' → other_holds st t k' → k' ∈ ps_inflight st ∖ {[k]}.
Proof.
  intros Hinv Ht Ha HP Ho. pose proof Ho as (t' & pc' & Hne & Ht' & Ha'). apply elem_of_difference.
  split; [by eapply (pi_held _ _ Hinv)|]. intros ->%elem_of_singleton. by apply (others_alone P st t k pc).
Qed.

(** The tag of a push that was indexed and stays so. *)
Lemma tagged_stays st t k pc : push_inv P st → at_pc st t k pc → indexed pc = true → P k →
  ps_tags st !! tag_key k = Some k.1.2 ∧
  ∀ t' k' pc', t' ≠ t → P k' → at_pc st t' k' pc' → indexed pc' = true → tag_key k' ≠ tag_key k.
Proof.
  intros Hinv Ht Hd HP. split; [by eapply (pi_tagged _ _ Hinv)|]. intros t' k' pc' Hne HP' Ht' Hd' E.
  by apply Hne, (pi_tagged_once _ _ Hinv t' t k' k pc' pc).
Qed.

Lemma push_step_inv l st st' : push_inv P st → (∀ k, P k → spares_commit k l) → push_step l st st' → push_inv P st'.
Proof.
  intros Hinv Hsp Hs. destruct Hs as [st t k Ht|st t k Ht Hl|st t k Ht Hin|st t k Ht Hin|st t k Ht|st t k Ht Htg
    |st t k Ht Htg|st t k Ht|st t k r Ht Hr|st t k Ht|st t k b Ht Htg|st t k Ht|st t k ok Ht|st tg b Htg
    |st d|st d|st d b c Htg|st d b|st t k Ht|st t k pc Ht Hd|st t k pc Ht Hpc].
  all: try (pose proof (pi_lock _ _ Hinv t k _ Ht eq_refl) as Hlk).
  all: try (pose proof (pi_lock _ _ Hinv t k _ Ht Hd) as Hlk).
  all: try (assert (Hpa : holds pc = true ∧ deciding pc = false) by (by destruct Hpc as [->|[? ->]]); destruct Hpa as [Hpa Hpd]).
  all: try (apply move_inv; push_side Hinv Ht).
  all: try (by eapply released_spares).
  all: try (by intros [? _]%elem_of_difference; eapply (pi_fresh _ _ Hinv)).
  - left. split; [congruence|done].
  - by eapply (pi_fresh _ _ Hinv _ _ _ H Ht); left.
  - apply elem_of_union in H as [->%elem_of_singleton|H]; [by left|].
    eapply (owners_kept P); [done| |done]. intros k0 pc0 Ht0 ?. by destruct (at_pc_fun _ _ _ _ _ _ Ht Ht0) as [-> ->].
  - split; [by apply elem_of_union_l, elem_of_singleton|]. intros (t' & pc' & _ & Ht' & Ha).
    apply (pi_fresh _ _ Hinv t k _ H Ht (or_intror eq_refl)). by eapply (pi_held _ _ Hinv).
  - destruct H0 as (t' & pc' & _ & Ht' & Ha). apply elem_of_union_r. by eapply (pi_held _ _ Hinv).
  - exfalso. assert (deciding pc' = true) as Hd by (by destruct H2 as [->| ->]).
    pose proof (pi_lock _ _ Hinv _ _ _ H1 Hd). congruence.
  - by destruct Hr as [->| ->].
  - by apply insert_subseteq.
  - split; [by rewrite lookup_insert_eq|]. intros t' k' pc' _ HP' Ht' Hd' E.
    pose proof (pi_tagged _ _ Hinv _ _ _ HP' Ht' Hd'). congruence.
  - eapply (tagged_stays _ t k (Finished true)); [done| |done|done]. by destruct ok.
  - apply env_inv; [done..|]. intros k HP Hk. rewrite lookup_insert_ne; [done|]. intros ->. congruence.
  - apply env_inv; [done..|]. intros k HP Hk. apply map_lookup_filter_Some. split; [done|]. intros E. by apply (Hsp k HP).
  - apply env_inv; [done| | |done].
    + intros k. by intros [_ ?]%elem_of_filter.
    + intros k HP Hk. apply elem_of_filter. split; [|done]. intros E. by apply (Hsp k HP).
  - apply env_inv; [done..|]. intros k HP Hk. rewrite lookup_delete_ne; [done|]. intros E. apply (Hsp k HP).
    rewrite <-E, Htg in Hk. injection Hk as ->. unfold tag_key in E. destruct k as [[d1 b1] c1]. by injection E as -> ->.
  - apply env_inv; [done| | |done].
    + intros k. by intros [_ ?]%elem_of_filter.
    + intros k HP Hk. apply elem_of_filter. split; [|done]. intros E. by apply (Hsp k HP).
  - eapply (owners_kept P); [done| |done]. intros k0 pc0 Ht0 ?. destruct (at_pc_fun _ _ _ _ _ _ Ht Ht0) as [-> ->]. by destruct pc.
Qed.
End steps.

Lemma push_run_inv P ls st st' :
  push_inv P st → (∀ k, P k → Forall (spares_commit k) ls) → push_run ls st st' → push_inv P st'.
Proof.
  intros Hi Hsp Hr. induction Hr as [|l ls st1 st2 st3 Hs _ IH]; [done|]. apply IH.
  - eapply push_step_inv; [done| |done]. intros k Hk. by apply Hsp, Forall_cons in Hk as [].
  - intros k Hk. by apply Hsp, Forall_cons in Hk as [].
Qed.

Lemma push_reachable P tags ls st :
  push_run ls (push_init tags) st → (∀ k, P k → Forall (spares_commit k) ls) → push_inv P st.
Proof. intros Hr Hsp. eapply push_run_inv; [apply push_init_inv|done|done]. Qed.

(** Of no commit in particular. *)
Lemma push_reachable_any tags ls st : push_run ls (push_init tags) st → push_inv (λ _, False) st.
Proof. intros Hr. by eapply push_reachable. Qed.

(** ** What concurrent pushes guarantee *)

(** C18: however many pushes run, however their steps interleave with each other,
    with assignments, deletions and dropped requests: no two pushes check and
    reserve at once, and a commit is reserved only for a push that was accepted
    and is not yet released (or was dropped then).  For a commit whose domain and
    branch no deletion names, each such push has its reservation, and of one
    commit there is at most one. *)
Theorem push_exclusive tags ls st :
  push_run ls (push_init tags) st →
  (∀ t1 t2 k1 k2 pc1 pc2, at_pc st t1 k1 pc1 → at_pc st t2 k2 pc2 → deciding pc1 = true → deciding pc2 = true → t1 = t2) ∧
  (∀ k, k ∈ ps_inflight st → ∃ t pc, at_pc st t k pc ∧ holds pc = true) ∧
  ∀ k, Forall (spares_commit k) ls →
    (∀ t pc, at_pc st t k pc → holds pc = true → k ∈ ps_inflight st) ∧
    (∀ t1 t2 pc1 pc2, at_pc st t1 k pc1 → at_pc st t2 k pc2 → holds pc1 = true → holds pc2 = true → t1 = t2).
Proof.
  intros Hr. pose proof (push_reachable_any _ _ _ Hr) as Hi. split_and!; [|apply (pi_owner _ _ Hi)|].
  - intros t1 t2 k1 k2 pc1 pc2 H1 H2 D1 D2.
    pose proof (pi_lock _ _ Hi _ _ _ H1 D1). pose proof (pi_lock _ _ Hi _ _ _ H2 D2). congruence.
  - intros k Hk. assert (push_inv (eq k) st) as Hik by (eapply push_reachable; [done|by intros ? <-]).
    split; [intros t pc; by apply (pi_held _ _ Hik)|intros t1 t2 pc1 pc2; by apply (pi_once _ _ Hik)].
Qed.

(** C19: of all the pushes of a commit to a domain, on whatever branches, at most
    one is ever answered with a completed index, and then the commit's tag is
    there and of its branch; as long as no deletion names the domain or one of
    the branches (a deleted commit can be indexed again). *)
Theorem commit_indexed_once tags ls st t1 t2 k1 k2 :
  push_run ls (push_init tags) st → Forall (spares_commit k1) ls → Forall (spares_commit k2) ls →
  at_pc st t1 k1 (Returned Indexed) → at_pc st t2 k2 (Returned Indexed) → tag_key k1 = tag_key k2 →
  t1 = t2 ∧ ps_tags st !! tag_key k1 = Some k1.1.2.
Proof.
  intros Hr S1 S2 H1 H2 E. assert (push_inv (λ k, k = k1 ∨ k = k2) st) as Hi by (eapply push_reachable; [done|by intros k [->| ->]]).
  split; [by apply (pi_tagged_once _ _ Hi _ _ _ _ _ _ (or_introl eq_refl) (or_intror eq_refl) H1 H2)|].
  by apply (pi_tagged _ _ Hi _ _ _ (or_introl eq_refl) H1).
Qed.

(** Where a push of a tagged commit can be. *)
Definition refused_pc (pc : PushPc) : bool :=
  match pc with
  | WantLock | Checking | Resolving | Returned Conflict | Returned LookupFailed | Dropped false => true
  | _ => false
  end.

Lemma tag_stays l st st' d c b :
  ps_tags st !! (d, c) = Some b → spares_commit (d, b, c) l → push_step l st st' → ps_tags st' !! (d, c) = Some b.
Proof.
  intros Ht Hl Hs. destruct Hs; cbn; try done.
  - rewrite lookup_insert_ne; [done|]. congruence.
  - rewrite lookup_insert_ne; [done|]. congruence.
  - apply map_lookup_filter_Some. split; [done|]. cbn. intros <-. by apply Hl.
  - rewrite lookup_delete_ne; [done|]. intros [= -> ->]. apply Hl. cbn. congruence.
Qed.

Lemma refused_step l st st' t k :
  is_Some (ps_tags st !! tag_key k) → push_step l st st' →
  (∀ k' pc, at_pc st t k' pc → k' = k → refused_pc pc = true) →
  ∀ k' pc, at_pc st' t k' pc → k' = k → refused_pc pc = true.
Proof.
  intros [b Htag] Hs Hold k' pc Ht' ->.
  destruct Hs; try (apply at_pc_move in Ht' as [(-> & -> & ->)|[_ Ht']]; [|by eauto]); try done;
    try (by eapply Hold); try congruence.
  all: match goal with Hp : at_pc _ _ _ ?p |- _ => specialize (Hold _ _ Hp eq_refl); try done end.
  all: match goal with Hp : _ ∨ _ |- _ => by destruct Hp as [->|[? ->]] end.
Qed.

(** A push of a commit that is tagged when it arrives never gets past the check
    while the tag is not deleted, whatever else runs. *)
Theorem tagged_never_accepted ls st st' t k pc b :
  ps_tags st !! tag_key k = Some b → Forall (spares_commit (k.1.1, b, k.2)) ls → ps_pushes st !! t = None →
  push_run ls st st' → at_pc st' t k pc → refused_pc pc = true ∧ holds pc = false.
Proof.
  intros Htag Hls Hnew Hr Ht. assert (refused_pc pc = true) as Hp; [|split; [done|by destruct pc as [| | | | | | |[]|[]]]].
  assert (Hold : ∀ k' pc', at_pc st t k' pc' → k' = k → refused_pc pc' = true) by (unfold at_pc; congruence).
  clear Hnew. induction Hr as [|l ls st1 st2 st3 Hs _ IH]; [by eapply Hold|]. apply Forall_cons in Hls as [Hl Hls].
  apply IH; [by eapply tag_stays|done|done|]. by eapply refused_step.
Qed.

(** ** Progress *)

Lemma works_inv st st' : works st st' → push_inv (λ _, False) st → push_inv (λ _, False) st'.
Proof. intros (ls & _ & Hr) Hi. by apply (push_run_inv _ ls st). Qed.

(** One push has come to an answer; the tags are as before, and no other push
    has moved. *)
Record answered st st' (t : nat) (k : CommitKey) (r : PushResult) : Prop := {
  an_works : works st st';
  an_pushes : ps_pushes st' = <[t := (k, Returned r)]> (ps_pushes st);
  an_tags : ps_tags st' = ps_tags st;
}.

Lemma answered_step t k r st st1 st' pc :
  push_step (Working t) st st1 → ps_pushes st1 = <[t := (k, pc)]> (ps_pushes st) → ps_tags st1 = ps_tags st →
  answered st1 st' t k r → answered st st' t k r.
Proof.
  intros Hs Hp Ht [W P T]. split; [by eapply works_l|by rewrite P, Hp, insert_insert_eq|by rewrite T].
Qed.

(** A push that is refused or fails gives its reservation up. *)
Lemma fail_accepted st t k pc :
  at_pc st t k pc → active pc = true → ∃ st' r, answered st st' t k r ∧ ps_lock st' = ps_lock st ∧ k ∉ ps_inflight st'.
Proof.
  intros Ht Ha. assert (Hnot : ∀ i : gset CommitKey, k ∉ i ∖ {[k]}).
  { intros i [_ Hn]%elem_of_difference. by apply Hn, elem_of_singleton. }
  destruct pc as [| | | | | |ok| |]; try done.
  - eexists _, LockBusy. split; [split; [eapply works_once, ps_refuse; [done|by right]|done|done]|]. split; [done|apply Hnot].
  - eexists _, IndexFailed. split; [|split].
    + eapply answered_step; [by apply ps_fail|done|done|].
      split; [eapply works_once, (ps_release _ t k false), at_pc_self|cbn; by rewrite insert_insert_eq|done].
    + done.
    + apply Hnot.
  - eexists _, _. split; [split; [by eapply works_once, ps_release|done|done]|]. split; [done|apply Hnot].
Qed.

(** A push that decides can be answered, and gives the lock up. *)
Lemma answer_deciding st t k pc :
  at_pc st t k pc → deciding pc = true → ∃ st' r, answered st st' t k r ∧ ps_lock st' = None.
Proof.
  intros Ht Hd. destruct pc; try done.
  - destruct (decide (k ∈ ps_inflight st)) as [Hin|Hin].
    + eexists _, _. split; [split; [by eapply works_once, ps_in_flight|done|done]|done].
    + eexists _, LookupFailed. split.
      * eapply answered_step; [by eapply ps_not_in_flight|done|done|].
        split; [eapply works_once, ps_lookup_failed, at_pc_self|cbn; by rewrite insert_insert_eq|done].
      * done.
  - eexists _, _. split; [split; [by eapply works_once, ps_lookup_failed|done|done]|done].
  - destruct (fail_accepted (move st t k Accepted None ({[k]} ∪ ps_inflight st) (ps_tags st)) t k Accepted) as (st' & r & Ha & Hl & _);
      [apply at_pc_self|done|]. exists st', r. split; [|done]. eapply answered_step; [by apply ps_insert|done|done|done].
Qed.

Lemma free_the_lock st :
  push_inv (λ _, False) st → ∃ st', works st st' ∧ ps_lock st' = None ∧ ps_tags st' = ps_tags st ∧
    (∀ t k pc, deciding pc = false → (∀ r, pc ≠ Returned r) → at_pc st' t k pc ↔ at_pc st t k pc) ∧
    ∀ t, ps_pushes st !! t = None → ps_pushes st' !! t = None.
Proof.
  intros Hi. destruct (ps_lock st) as [t0|] eqn:El; [|exists st; split_and!; [reflexivity|done..]].
  destruct (pi_holder _ _ Hi _ El) as (k0 & pc0 & Ht0 & Hd0).
  destruct (answer_deciding st t0 k0 pc0 Ht0 Hd0) as (st' & r & [W P T] & Hl). exists st'. split_and!; [done..| |].
  - intros t k pc Hd Hr. unfold at_pc in Ht0 |- *. rewrite P, lookup_insert_Some. split; [intros [[<- [= -> <-]]|[_ ?]]; [by destruct (Hr r)|done]|].
    intros Ht. right. split; [|done]. intros ->. congruence.
  - intros t Hn. rewrite P, lookup_insert_ne; [done|]. unfold at_pc in Ht0. congruence.
Qed.

(** The pushes that hold a reservation of a commit. *)
Definition holding (k : CommitKey) (st : PushState) : gmap nat (CommitKey * PushPc) :=
  filter (λ kv, kv.2.1 = k ∧ holds kv.2.2 = true) (ps_pushes st).

(** All the pushes of a commit can end, with its tag as it was. *)
Lemma settle k n : ∀ st, size (holding k st) ≤ n → (∀ t, ¬ at_pc st t k (Dropped true)) →
  ∃ st', works st st' ∧ ps_lock st' = ps_lock st ∧ ps_tags st' = ps_tags st ∧
    (∀ t pc, at_pc st' t k pc → holds pc = false) ∧ ∀ t, ps_pushes st !! t = None → ps_pushes st' !! t = None.
Proof.
  induction n as [|n IH]; intros st Hn Hdr.
  - exists st. split_and!; [done..| |done]. intros t pc Ht. apply not_true_iff_false. intros Hh.
    assert (holding k st = ∅) as He by (apply map_size_empty_iff; lia).
    assert (holding k st !! t = Some (k, pc)) as Hs by (by apply map_lookup_filter_Some). by rewrite He, lookup_empty in Hs.
  - destruct (map_choose_or_empty (holding k st)) as [(t & [k' pc] & Hs)|He].
    2: { apply IH; [rewrite He, map_size_empty; lia|done]. }
    pose proof Hs as [Ht [E Hh]]%map_lookup_filter_Some. cbn in E, Hh. subst k'.
    assert (Ha : active pc = true). { destruct pc as [| | | | | | | |[]]; try done. by destruct (Hdr t). }
    destruct (fail_accepted st t k pc Ht Ha) as (st1 & r & [W P T] & Hl & _).
    destruct (IH st1) as (st2 & W2 & Hl2 & T2 & Hh2 & Hn2).
    + assert (holding k st1 = delete t (holding k st)) as ->.
      { unfold holding. rewrite P, map_filter_insert_False; [by rewrite map_filter_delete|]. by intros [_ ?]. }
      rewrite map_size_delete, Hs. cbn. lia.
    + intros t' Ht'. unfold at_pc in Ht'. rewrite P in Ht'. apply lookup_insert_Some in Ht' as [[_ [=]]|[_ Ht']]. by destruct (Hdr t').
    + exists st2. split_and!; [by etrans|congruence|congruence|done|]. intros t' Hn'. apply Hn2. rewrite P, lookup_insert_ne; [done|].
      unfold at_pc in Ht. congruence.
Qed.

(** A push that arrives, finds its commit neither in flight nor tagged, and is
    about to reserve it. *)
Definition arrived st t k : PushState := move st t k WantLock (ps_lock st) (ps_inflight st) (ps_tags st).
Definition reserving st t k : PushState :=
  move (move (move (arrived st t k) t k Checking (Some t) (ps_inflight st) (ps_tags st)) t k Resolving (Some t) (ps_inflight st) (ps_tags st))
    t k Inserting (Some t) (ps_inflight st) (ps_tags st).
Definition reserved st t k : PushState := move (reserving st t k) t k Accepted None ({[k]} ∪ ps_inflight st) (ps_tags st).

Lemma reserved_works st t k :
  ps_pushes st !! t = None → ps_lock st = None → k ∉ ps_inflight st → ps_tags st !! tag_key k = None → works st (reserved st t k).
Proof.
  intros Hn Hl Hk Ht. eapply works_l; [by apply (ps_arrive _ t k)|]. eapply works_l; [by apply ps_take_lock; [apply at_pc_self|]|].
  eapply works_l; [by apply ps_not_in_flight; [apply at_pc_self|]|]. eapply works_l; [by apply ps_absent; [apply at_pc_self|]|].
  apply (works_once t), (ps_insert (reserving st t k) t k), at_pc_self.
Qed.

(** C20: no history blocks a commit but a dropped request: whatever has run
    (pushes that were refused, failed or panicked, assignments, deletions), a
    commit that is not tagged and of which no push was dropped with its
    reservation can, by steps of the pushes alone, be indexed by the next push
    of it, with its tag written and its reservation released. *)
Theorem commit_can_be_indexed tags ls st t k :
  push_run ls (push_init tags) st → ps_pushes st !! t = None →
  ps_tags st !! tag_key k = None → (∀ t', ¬ at_pc st t' k (Dropped true)) →
  ∃ st', works st st' ∧ at_pc st' t k (Returned Indexed) ∧
    ps_tags st' !! tag_key k = Some k.1.2 ∧ (k ∉ ps_inflight st') ∧ ps_lock st' = None.
Proof.
  intros Hi%push_reachable_any Hn Htg Hdr. destruct (free_the_lock st Hi) as (st1 & W1 & L1 & T1 & K1 & N1).
  destruct (settle k (size (holding k st1)) st1) as (st2 & W2 & L2 & T2 & H2 & N2); [done|intros t'; rewrite K1; [apply Hdr|done..]|].
  assert (Hk : k ∉ ps_inflight st2).
  { intros (t' & pc & Ht & Hh)%(pi_owner _ _ (works_inv _ _ (transitivity W1 W2) Hi)). by rewrite (H2 _ _ Ht) in Hh. }
  eexists. split.
  - etrans; [exact W1|]. etrans; [exact W2|]. etrans; [apply (reserved_works st2 t k); [auto|congruence|done|congruence]|].
    eapply works_l; [apply ps_start, at_pc_self|]. eapply works_l; [apply (ps_tag _ t k true); [apply at_pc_self|cbn; congruence]|].
    apply (works_once t), (ps_release _ t k true), at_pc_self.
  - split; [apply at_pc_self|]. cbn. split_and!; [by rewrite lookup_insert_eq| |done].
    intros [_ Hnk]%elem_of_difference. by apply Hnk, elem_of_singleton.
Qed.

(** No push is stuck: from every reachable state each push whose request is
    still there can get its answer. *)
Theorem push_can_finish tags ls st t k pc :
  push_run ls (push_init tags) st → at_pc st t k pc → (∀ held, pc ≠ Dropped held) →
  ∃ st' r, works st st' ∧ at_pc st' t k (Returned r).
Proof.
  intros Hi%push_reachable_any Ht Hdr.
  assert (Hend : ∀ st1 st2 r, works st st1 → answered st1 st2 t k r → ∃ st' r, works st st' ∧ at_pc st' t k (Returned r)).
  { intros st1 st2 r W1 [W2 P _]. exists st2, r. split; [by etrans|]. unfold at_pc. by rewrite P, lookup_insert_eq. }
  destruct (deciding pc) eqn:Hd; [destruct (answer_deciding _ _ _ _ Ht Hd) as (st' & r & Ha & _); by eapply Hend|].
  destruct (active pc) eqn:Ha; [destruct (fail_accepted _ _ _ _ Ht Ha) as (st' & r & Hf & _); by eapply Hend|].
  destruct pc as [| | | | | | |r|held]; try done; [|by exists st, r|by destruct (Hdr held)].
  destruct (free_the_lock st Hi) as (st1 & W1 & L1 & _ & K1 & _).
  destruct (answer_deciding (move st1 t k Checking (Some t) (ps_inflight st1) (ps_tags st1)) t k Checking) as (st2 & r & A2 & _);
    [apply at_pc_self|done|].
  eapply (Hend _ st2 r); [exact W1|]. eapply answered_step; [apply ps_take_lock; [by apply K1|done]|done|done|exact A2].
Qed.

(** ** Dropped requests and deletions *)

Lemma dropped_stays ls st st' t k : at_pc st t k (Dropped true) → push_run ls st st' → at_pc st' t k (Dropped true).
Proof.
  intros Ht Hr. induction Hr as [|l ls st1 st2 st3 Hs _ IH]; [done|]. apply IH. clear IH.
  assert (Hmv : ∀ t0 k0 pc pc' l i tg, at_pc st1 t0 k0 pc → pc ≠ Dropped true → at_pc (move st1 t0 k0 pc' l i tg) t k (Dropped true)).
  { intros t0 k0 pc pc' l0 i tg H0 Hne. apply at_pc_other; [|done]. intros ->. destruct (at_pc_fun _ _ _ _ _ _ H0 Ht) as [_ E]. by apply Hne. }
  destruct Hs; try done; try by eapply Hmv.
  - apply at_pc_other; [|done]. intros ->. unfold at_pc in Ht. congruence.
  - eapply Hmv; [done|]. by intros ->.
  - eapply Hmv; [done|]. match goal with Hp : _ ∨ _ |- _ => by destruct Hp as [->|[? ->]] end.
Qed.

(** Once a request is dropped between its reservation and its release, its
    commit is refused until it is deleted: in any continuation that no deletion
    of it is part of, no push of it is accepted. *)
Lemma abandoned_push_blocks tags ls st ls' st' t k t' pc :
  push_run ls (push_init tags) st → push_run ls' st st' → Forall (spares_commit k) (ls ++ ls') →
  at_pc st t k (Dropped true) → at_pc st' t' k pc → active pc = false.
Proof.
  intros Hr Hr' Hsp Ht Ht'. apply (dropped_stays ls' st st') in Ht; [|done]. apply not_true_iff_false. intros Ha.
  assert (Hi : push_inv (eq k) st') by (eapply push_reachable; [by eapply push_run_app|by intros ? <-]).
  assert (t' = t) as -> by (eapply (pi_once _ _ Hi); [done..|by destruct pc|done]). by destruct (at_pc_fun _ _ _ _ _ _ Ht Ht') as [_ ->].
Qed.

(** ** Instances *)

Module PushExample.

Definition k1 : CommitKey := ("o/t", "main", "c1").
Definition start := push_init ∅.
Definition accepted : PushState := reserved start 0 k1.
Definition running1 : PushState := move accepted 0 k1 Running (ps_lock accepted) (ps_inflight accepted) (ps_tags accepted).
Definition finished1 : PushState :=
  move running1 0 k1 (Finished true) (ps_lock running1) (ps_inflight running1) (<[tag_key k1 := "main"]> (ps_tags running1)).
Definition done1 : PushState :=
  move finished1 0 k1 (Returned Indexed) (ps_lock finished1) (ps_inflight finished1 ∖ {[k1]}) (ps_tags finished1).

Lemma working_spares k ls : Forall working ls → Forall (spares_commit k) ls.
Proof. intros Hw. eapply Forall_impl; [exact Hw|]. by intros []. Qed.

Lemma accepted_works : works start accepted.
Proof. by apply reserved_works. Qed.

Lemma done1_works : works start done1.
Proof.
  etrans; [apply accepted_works|]. eapply works_l; [apply (ps_start accepted 0 k1), at_pc_self|].
  eapply works_l; [apply (ps_tag running1 0 k1 true); [apply at_pc_self|done]|]. apply (works_once 0), (ps_release finished1 0 k1 true), at_pc_self.
Qed.

(** A domain that is deleted under a push: the next push of the commit is
    accepted beside it, and the end of the first releases the reservation of the
    second. *)
Definition purged : PushState :=
  mkPushState (ps_lock accepted) (filter (λ k : CommitKey, k.1.1 ≠ "o/t") (ps_inflight accepted)) (ps_tags accepted) (ps_pushes accepted).
Definition both : PushState := reserved purged 1 k1.
Definition unreserved : PushState := move both 0 k1 (Returned LockBusy) (ps_lock both) (ps_inflight both ∖ {[k1]}) (ps_tags both).

Lemma deletion_breaks_exclusion :
  (∃ ls, push_run ls start both) ∧ at_pc both 0 k1 Accepted ∧ at_pc both 1 k1 Accepted ∧
  (∃ ls, push_run ls start unreserved) ∧ at_pc unreserved 1 k1 Accepted ∧ k1 ∉ ps_inflight unreserved.
Proof.
  assert (Hboth : ∃ ls, push_run ls start both).
  { destruct accepted_works as (ls & _ & Hr).
    destruct (reserved_works purged 1 k1) as (ls' & _ & Hr'); [done|done|by intros [? _]%elem_of_filter|done|].
    exists (ls ++ [DeletingDomain "o/t"] ++ ls'). eapply push_run_app; [done|]. eapply push_run_app; [|done].
    apply push_run_once, ps_purge_domain. }
  assert (H0 : at_pc both 0 k1 Accepted) by done. split_and!; [done|done|apply at_pc_self| |done|].
  - destruct Hboth as [ls Hr]. exists (ls ++ [Working 0]). eapply push_run_app; [done|].
    apply push_run_once, ps_refuse; [done|by right].
  - intros [_ Hn]%elem_of_difference. by apply Hn, elem_of_singleton.
Qed.

(** A request dropped while it waits for the pipeline lock. *)
Definition dropped1 : PushState := move accepted 0 k1 (Dropped true) (ps_lock accepted) (ps_inflight accepted) (ps_tags accepted).
Lemma dropped1_run : ∃ ls, push_run ls start dropped1 ∧ Forall (spares_commit k1) ls.
Proof.
  destruct accepted_works as (ls & Hw & Hr). exists (ls ++ [Dropping 0]). split.
  - eapply push_run_app; [done|]. apply push_run_once, (ps_drop_reserved accepted 0 k1 Accepted); [apply at_pc_self|by left].
  - apply Forall_app. split; [by apply working_spares|by repeat constructor].
Qed.

End PushExample.
Import PushExample.

Lemma push_exclusive_witness : k1 ∈ ps_inflight accepted ∧ ∃ t pc, at_pc accepted t k1 pc ∧ holds pc = true.
Proof.
  destruct accepted_works as (ls & Hw & Hr). destruct (push_exclusive ∅ ls accepted Hr) as (_ & Ho & Hx).
  destruct (Hx k1) as [Hh _]; [by apply working_spares|].
  assert (k1 ∈ ps_inflight accepted) as Hin by (apply (Hh 0 Accepted); [apply at_pc_self|done]). split; [done|by apply Ho].
Defined.

Lemma commit_indexed_once_witness : 0 = 0 ∧ ps_tags done1 !! tag_key k1 = Some "main".
Proof.
  destruct done1_works as (ls & Hw & Hr).
  apply (commit_indexed_once ∅ ls done1 0 0 k1 k1 Hr); [by apply working_spares..|apply at_pc_self|apply at_pc_self|done].
Defined.

(** A push of the commit that [done1] has tagged, on another branch. *)
Lemma tagged_never_accepted_witness : refused_pc WantLock = true ∧ holds WantLock = false.
Proof.
  apply (tagged_never_accepted [Working 1] done1 (arrived done1 1 ("o/t", "dev", "c1")) 1 ("o/t", "dev", "c1") WantLock "main").
  - vm_compute. reflexivity.
  - by repeat constructor.
  - vm_compute. reflexivity.
  - by apply push_run_once, ps_arrive.
  - apply at_pc_self.
Defined.

Lemma push_can_finish_witness : ∃ st' r, works accepted st' ∧ at_pc st' 0 k1 (Returned r).
Proof. destruct accepted_works as (ls & _ & Hr). apply (push_can_finish ∅ ls accepted 0 k1 Accepted Hr); [apply at_pc_self|done]. Defined.

(** After a push of the commit that has failed, and with another under way. *)
Definition failed1 : PushState :=
  move (move running1 0 k1 (Finished false) (ps_lock running1) (ps_inflight running1) (ps_tags running1)) 0 k1 (Returned IndexFailed)
    (ps_lock running1) (ps_inflight running1 ∖ {[k1]}) (ps_tags running1).
Definition retried : PushState := reserved failed1 1 k1.

Lemma retried_works : works start retried.
Proof.
  etrans; [apply accepted_works|]. eapply works_l; [apply (ps_start accepted 0 k1), at_pc_self|].
  eapply works_l; [apply (ps_fail running1 0 k1), at_pc_self|]. eapply works_l; [eapply (ps_release _ 0 k1 false), at_pc_self|].
  apply reserved_works; [done|done| |done]. intros [_ Hn]%elem_of_difference. by apply Hn, elem_of_singleton.
Qed.

Lemma commit_can_be_indexed_witness :
  ∃ st', works retried st' ∧ at_pc st' 2 k1 (Returned Indexed) ∧
    ps_tags st' !! tag_key k1 = Some "main" ∧ (k1 ∉ ps_inflight st') ∧ ps_lock st' = None.
Proof.
  destruct retried_works as (ls & _ & Hr). apply (commit_can_be_indexed ∅ ls retried 2 k1 Hr); [done|done|].
  assert (map_Forall (λ _ kp, kp.2 ≠ Dropped true) (ps_pushes retried)) as Hf by (apply (bool_decide_unpack _); by vm_compute).
  intros t' Ht. by apply (Hf t' _ Ht).
Defined.
