(* ===== verification/Embed.v ===== *)
(** * Embedding (src/src/embed/mod.rs, src/src/embed/cache.rs)

    Task prefixes, the response parser, the disk-backed cache and the two
    embedding calls: [io_embed] (cache look-up, one HTTP request for the misses,
    cache fill) and [io_embed_batched] (batches, with the texts of a failed
    batch retried one by one).  HTTP, JSON, sled, SHA-256 and zstd are
    parameters. *)

From S2P Require Import Prelude F32 RustStr.

(** ** Roles and prefixes *)

Inductive EmbeddingRole : Type := RoleDocument | RoleQuery | RoleClustering | RoleClassification.

Record TaskPrefix := mkTaskPrefix {
  tp_document : string; tp_query : string; tp_clustering : string; tp_classification : string;
}.

Definition prefixes_for_model (model : string) : option TaskPrefix :=
  if bool_decide (model ∈ ["nomic-ai/nomic-embed-text-v2-moe"; "nomic-embed-text-v2-moe"; "nomic-embed-v2";
                           "nomic-ai/nomic-embed-text-v1.5"])
  then Some (mkTaskPrefix "search_document: " "search_query: " "clustering: " "classification: ")
  else if bool_decide (model ∈ ["intfloat/multilingual-e5-base"; "multilingual-e5-base"])
  then Some (mkTaskPrefix "passage: " "query: " "query: " "query: ")
  else None.

Definition prefix_for_role (prefix : TaskPrefix) (role : EmbeddingRole) : string :=
  match role with
  | RoleDocument => tp_document prefix
  | RoleQuery => tp_query prefix
  | RoleClustering => tp_clustering prefix
  | RoleClassification => tp_classification prefix
  end.

Definition apply_prefix (texts : list string) (prefixes : option TaskPrefix) (role : EmbeddingRole) : list string :=
  match prefixes with
  | Some prefix => let p := prefix_for_role prefix role in map (λ t, p +:+ t) texts
  | None => texts
  end.

Inductive Provider : Type :=
| OpenAiCompatible (base_url model : string) (dim : nat) (prefixes : option TaskPrefix)
| OpenAi (base_url model : string) (dim : nat) (prefixes : option TaskPrefix)
| GenericHttp (base_url model : string) (dim : nat) (prefixes : option TaskPrefix).

Definition model_name (p : Provider) : string :=
  match p with OpenAiCompatible _ m _ _ | OpenAi _ m _ _ | GenericHttp _ m _ _ => m end.
Definition expected_dim (p : Provider) : nat :=
  match p with OpenAiCompatible _ _ d _ | OpenAi _ _ d _ | GenericHttp _ _ d _ => d end.
Definition base_url (p : Provider) : string :=
  match p with OpenAiCompatible u _ _ _ | OpenAi u _ _ _ | GenericHttp u _ _ _ => u end.
Definition prefixes (p : Provider) : option TaskPrefix :=
  match p with OpenAiCompatible _ _ _ t | OpenAi _ _ _ t | GenericHttp _ _ _ t => t end.
Definition effective_prefixes (p : Provider) : option TaskPrefix :=
  match prefixes p with Some t => Some t | None => prefixes_for_model (model_name p) end.

(** ** Requests and responses *)

Inductive EmbedError : Type :=
| Unreachable (msg : string)
| ProviderError (status : Z) (body : string)
| DimensionMismatch (expected actual : nat)
| EmbedParseError (msg : string).

Definition embed_error_to_string (e : EmbedError) : string :=
  match e with
  | Unreachable m => "embedding provider unreachable: " +:+ m
  | ProviderError s b => "embedding provider returned non-2xx: status=" +:+ pretty s +:+ ", body=" +:+ b
  | DimensionMismatch e a =>
      "dimension mismatch: expected " +:+ pretty (N.of_nat e) +:+ ", got " +:+ pretty (N.of_nat a)
  | EmbedParseError m => "response parse error: " +:+ m
  end.

Record EmbedRequest := mkEmbedRequest {
  er_model : string; er_input : list string; er_dimensions : option nat;
}.

(** What the HTTP client gives: a status and a body, which is read as text or
    as bytes, either of which can fail. *)
Record HttpResponse := mkHttpResponse {
  hr_status : Z; hr_text : result string string; hr_bytes : result string string;
}.

(** [serde_json::from_slice::<EmbedResponse>]: the vectors of the body. *)
Class JsonVectors := from_slice : string → result string (list (list f32)).

Fixpoint check_vectors (expected_dim : nat) (i : nat) (embeddings : list (list f32)) : result EmbedError unit :=
  match embeddings with
  | [] => Ok tt
  | emb :: rest =>
      if negb (length emb =? expected_dim)%nat then Err (DimensionMismatch expected_dim (length emb))
      else if existsb (λ v, F32.is_nan v || F32.is_infinite v) emb
      then Err (EmbedParseError ("embedding " +:+ pretty (N.of_nat i) +:+ " contains NaN or Inf"))
      else check_vectors expected_dim (S i) rest
  end.

Definition parse_embedding_response `{JsonVectors} (body : string) (expected_dim : nat)
    : result EmbedError (list (list f32)) :=
  embeddings ← map_err EmbedParseError (from_slice body);
  _ ← check_vectors expected_dim 0 embeddings;
  Ok embeddings.

(** ** Bytes of a float

    [f32::to_le_bytes] and [from_le_bytes], through the bits of the IEEE
    encoding ([NaN] is the quiet one). *)

Definition to_bits (x : f32) : Z :=
  let sign (s : bool) : Z := (if s then 2 ^ 31 else 0)%Z in
  match x with
  | S754_zero s => sign s
  | S754_infinity s => sign s + 255 * 2 ^ 23
  | S754_nan => 255 * 2 ^ 23 + 2 ^ 22
  | S754_finite s m e =>
      sign s + if Z.pos m <? 2 ^ 23 then Z.pos m else (e + 150) * 2 ^ 23 + (Z.pos m - 2 ^ 23)
  end%Z.

Definition from_bits (b : Z) : f32 :=
  let s := (2 ^ 31 <=? b)%Z in
  let ex := (Z.land (Z.shiftr b 23) 255)%Z in
  let fr := (Z.land b (2 ^ 23 - 1))%Z in
  if (ex =? 255)%Z then (if (fr =? 0)%Z then S754_infinity s else S754_nan)
  else if (ex =? 0)%Z then
    match fr with Z.pos m => S754_finite s m (-149) | _ => S754_zero s end
  else match (fr + 2 ^ 23)%Z with Z.pos m => S754_finite s m (ex - 150) | _ => S754_zero s end.

Definition byte_at (b : Z) (i : Z) : ascii := ascii_of_N (Z.to_N (Z.land (Z.shiftr b (8 * i)) 255)).
Definition to_le_bytes (x : f32) : list ascii := map (byte_at (to_bits x)) [0; 1; 2; 3]%Z.
Definition byte_val (c : ascii) : Z := Z.of_N (N_of_ascii c).
Definition from_le_bytes (a b c d : ascii) : f32 :=
  from_bits (byte_val a + 2 ^ 8 * byte_val b + 2 ^ 16 * byte_val c + 2 ^ 24 * byte_val d)%Z.

(** [as_chunks::<4>().0], mapped to floats: an incomplete last chunk is not read. *)
Fixpoint floats_of (l : list ascii) : list f32 :=
  match l with
  | a :: b :: c :: d :: rest => from_le_bytes a b c d :: floats_of rest
  | _ => []
  end.

(** ** The cache *)

(** The operations of [sled::Db] that are used. *)
Class SledOps (D : Type) := {
  sled_get : D → string → result string (option string);
  sled_insert : D → string → string → D * result string (option string);
  sled_len : D → nat;
}.

(** A write lands or does not; nothing else changes. *)
Class SledLaws (D : Type) `{SledOps D} : Prop := {
  law_sled_insert d k v k' x : sled_get (sled_insert d k v).1 k' = Ok (Some x) →
    k' = k ∧ x = v ∨ sled_get d k' = Ok (Some x);
}.

(** SHA-256 and zstd. *)
Class Codec := {
  sha256 : string → string;
  zstd_compress : string → string;
  zstd_decompress : string → result string string;
}.
Class CodecLaws `{Codec} : Prop := { law_zstd s : zstd_decompress (zstd_compress s) = Ok s }.

(** [entry_count] is an [AtomicUsize]; its largest value stands for "not yet counted". *)
Record EmbedCache (D : Type) := mkEmbedCache {
  ec_db : option D; ec_enabled : bool; ec_locked_elsewhere : bool; ec_entry_count : Z;
}.
Arguments mkEmbedCache {D}. Arguments ec_db {D}. Arguments ec_enabled {D}.
Arguments ec_locked_elsewhere {D}. Arguments ec_entry_count {D}.

Definition USIZE_MAX : Z := 2 ^ 64 - 1.

Inductive SledError : Type := SledIo (msg : string) | SledOther (msg : string).

Section cache.
Context {D : Type} `{SledOps D, Codec}.

Definition disabled : EmbedCache D := mkEmbedCache None false false 0.

(** [EmbedCache::open] on what opening the sled tree gave; [None]: it panics. *)
Definition open (open_result : result SledError D) (max_entries : option nat) : option (EmbedCache D) :=
  match max_entries with
  | None => Some disabled
  | Some _ =>
      match open_result with
      | Ok db => Some (mkEmbedCache (Some db) true false USIZE_MAX)
      | Err (SledIo e) =>
          if contains "could not acquire lock" e then Some (mkEmbedCache None false true 0) else None
      | Err (SledOther _) => None
      end
  end.

Definition cache_key (model prefixed_text : string) : string :=
  sha256 (model +:+ String newline "" +:+ prefixed_text).

Definition cache_get (c : EmbedCache D) (key : string) (dim : nat) : option (list f32) :=
  if negb (ec_enabled c) then None
  else
    db ← ec_db c;
    match sled_get db key with
    | Ok (Some compressed) =>
        match zstd_decompress compressed with
        | Ok decompressed =>
            if negb (str_len decompressed =? dim * 4)%nat then None else Some (floats_of (str_bytes decompressed))
        | Err _ => None
        end
    | _ => None
    end.

Definition cache_put (c : EmbedCache D) (key : string) (embedding : list f32) : EmbedCache D :=
  if negb (ec_enabled c) then c
  else
    match ec_db c with
    | None => c
    | Some db =>
        let compressed := zstd_compress (str_of_bytes (concat (map to_le_bytes embedding))) in
        let r := sled_insert db key compressed in
        let was_new := match r.2 with Ok (Some _) => false | _ => true end in
        mkEmbedCache (Some r.1) true (ec_locked_elsewhere c)
          (if was_new then (ec_entry_count c + 1) `mod` 2 ^ 64 else ec_entry_count c)%Z
    end.

(** [len]: with the counter it leaves. *)
Definition cache_len (c : EmbedCache D) : EmbedCache D * Z :=
  if negb (ec_enabled c) then (c, 0%Z)
  else if negb (ec_entry_count c =? USIZE_MAX)%Z then (c, ec_entry_count c)
  else
    match ec_db c with
    | None => (c, 0%Z)
    | Some db =>
        let count := Z.of_nat (sled_len db) in
        (mkEmbedCache (ec_db c) (ec_enabled c) (ec_locked_elsewhere c) count, count)
    end.
End cache.

(** ** The embedding calls *)

(** The HTTP client, over the state of the network and of the provider. *)
Class Http (N : Type) := http_post : N → string → EmbedRequest → N * result string HttpResponse.

Inductive EmbedResult : Type := EmbedOk (v : list f32) | EmbedFailed (msg : string).

(** [trim_end_matches('/')]. *)
Fixpoint drop_slashes (l : list ascii) : list ascii :=
  match l with "/"%char :: l' => drop_slashes l' | _ => l end.
Definition trim_end_slashes (s : string) : string := str_of_bytes (reverse (drop_slashes (reverse (str_bytes s)))).

(** [slice::chunks]: [fuel] the length of the list. *)
Fixpoint chunks_loop {A} (fuel n : nat) (l : list A) : list (list A) :=
  match fuel, l with
  | S fuel, _ :: _ => take n l :: chunks_loop fuel n (drop n l)
  | _, _ => []
  end.
Definition chunks {A} (n : nat) (l : list A) : list (list A) := chunks_loop (length l) n l.

Section embed.
Context {D N : Type} `{SledOps D, Codec, JsonVectors, Http N}.

(** The state an embedding call works on. *)
Abbreviation ES := (N * option (EmbedCache D))%type.

(** The loop over the prefixed texts: the hits, by position, and the positions
    of the misses. *)
Fixpoint look_up (c : option (EmbedCache D)) (model : string) (dim : nat) (i : nat) (prefixed : list string)
    : list (option (list f32)) * list nat :=
  match prefixed with
  | [] => ([], [])
  | t :: rest =>
      let r := look_up c model dim (S i) rest in
      match c with
      | Some cache =>
          match cache_get cache (cache_key model t) dim with
          | Some emb => (Some emb :: r.1, r.2)
          | None => (None :: r.1, i :: r.2)
          end
      | None => (None :: r.1, i :: r.2)
      end
  end.

(** The loop over the misses and their embeddings. *)
Fixpoint store_misses (model : string) (prefixed : list string) (misses : list nat) (embeddings : list (list f32))
    (c : option (EmbedCache D)) (results : list (option (list f32)))
    : option (option (EmbedCache D) * list (option (list f32))) :=
  match misses with
  | [] => Some (c, results)
  | idx :: misses =>
      match embeddings, prefixed !! idx with
      | emb :: embeddings, Some t =>
          store_misses model prefixed misses embeddings
            (match c with Some cache => Some (cache_put cache (cache_key model t) emb) | None => None end)
            (<[idx := Some emb]> results)
      | _, _ => None
      end
  end.

(** The HTTP call and its response, up to the count check. *)
Definition request_embeddings (n : N) (provider : Provider) (miss_prefixed : list string)
    : N * result EmbedError (list (list f32)) :=
  let url := trim_end_slashes (base_url provider) +:+ "/v1/embeddings" in
  let dim := expected_dim provider in
  let r := http_post n url (mkEmbedRequest (model_name provider) miss_prefixed (Some dim)) in
  (r.1,
   response ← map_err Unreachable r.2;
   if negb ((200 <=? hr_status response)%Z && (hr_status response <? 300)%Z)
   then Err (ProviderError (hr_status response)
               (match hr_text response with Ok b => b | Err _ => "failed to read body" end))
   else
     body_bytes ← map_err EmbedParseError (hr_bytes response);
     embeddings ← parse_embedding_response body_bytes dim;
     if negb (length embeddings =? length miss_prefixed)%nat
     then Err (EmbedParseError ("count mismatch: sent " +:+ pretty (N.of_nat (length miss_prefixed))
       +:+ " texts, received " +:+ pretty (N.of_nat (length embeddings)) +:+ " embeddings"))
     else Ok embeddings).

(** [io_embed]; [None]: a panic (an index or an [unwrap] out of place). *)
Definition io_embed (st : ES) (provider : Provider) (texts : list string) (role : EmbeddingRole)
    : ES * option (result EmbedError (list (list f32))) :=
  match texts with
  | [] => (st, Some (Ok []))
  | _ =>
      let prefixed := apply_prefix texts (effective_prefixes provider) role in
      let model := model_name provider in
      let '(results, misses) := look_up st.2 model (expected_dim provider) 0 prefixed in
      match misses with
      | [] => (st, Ok <$> mapM id results)
      | _ =>
          match mapM (λ i, prefixed !! i) misses with
          | None => (st, None)
          | Some miss_prefixed =>
              match request_embeddings st.1 provider miss_prefixed with
              | (n, Err e) => ((n, st.2), Some (Err e))
              | (n, Ok embeddings) =>
                  match store_misses model prefixed misses embeddings st.2 results with
                  | None => ((n, st.2), None)
                  | Some (c, results) => ((n, c), Ok <$> mapM id results)
                  end
              end
          end
      end
  end.

(** The retry of the texts of a failed batch. *)
Fixpoint retry_texts (st : ES) (provider : Provider) (role : EmbeddingRole) (batch : list string)
    : ES * option (list EmbedResult) :=
  match batch with
  | [] => (st, Some [])
  | text :: batch =>
      match io_embed st provider [text] role with
      | (st, None) => (st, None)
      | (st, Some r) =>
          let one := match r with
            | Ok embeddings =>
                match last embeddings with
                | Some emb => EmbedOk emb
                | None => EmbedFailed "individual retry returned empty"
                end
            | Err e => EmbedFailed ("embedding failed after individual retry: " +:+ embed_error_to_string e)
            end in
          let '(st, rest) := retry_texts st provider role batch in
          (st, (λ l, one :: l) <$> rest)
      end
  end.

Fixpoint embed_batches (st : ES) (provider : Provider) (role : EmbeddingRole) (batches : list (list string))
    : ES * option (list EmbedResult) :=
  match batches with
  | [] => (st, Some [])
  | batch :: batches =>
      let '(st, r) :=
        match io_embed st provider batch role with
        | (st, None) => (st, None)
        | (st, Some (Ok embeddings)) => (st, Some (map EmbedOk embeddings))
        | (st, Some (Err _)) => retry_texts st provider role batch
        end in
      match r with
      | None => (st, None)
      | Some results =>
          let '(st, rest) := embed_batches st provider role batches in
          (st, (λ l, results ++ l) <$> rest)
      end
  end.

(** [io_embed_batched]: a batch size of zero panics. *)
Definition io_embed_batched (st : ES) (provider : Provider) (texts : list string) (batch_size : nat)
    (role : EmbeddingRole) : ES * option (list EmbedResult) :=
  if (batch_size =? 0)%nat then (st, None)
  else match texts with
       | [] => (st, Some [])
       | _ => embed_batches st provider role (chunks batch_size texts)
       end.
End embed.

(** ** The encoding of floats round-trips *)

(** The values an [f32] has, among [SpecFloat]'s. *)
Definition f32_wf (x : f32) : Prop := valid_binary F32.prec F32.emax x = true.

Lemma digits2_bounds m : (2 ^ (Z.pos (digits2_pos m) - 1) ≤ Z.pos m < 2 ^ Z.pos (digits2_pos m))%Z.
Proof.
  assert (digits2_pos m = Pos.size m) as -> by (induction m; cbn; congruence).
  pose proof (Pos.size_gt m) as Hgt. pose proof (Pos.size_le m) as Hle.
  apply Pos2Z.pos_lt_pos in Hgt. apply Pos2Z.pos_le_pos in Hle. rewrite Pos2Z.inj_pow in Hgt, Hle.
  replace (Z.pos (Pos.size m)) with (1 + (Z.pos (Pos.size m) - 1))%Z in Hle at 1 by lia.
  rewrite Z.pow_add_r in Hle by lia. lia.
Qed.

(** The mantissa and exponent of a finite [f32]. *)
Lemma f32_wf_finite s m e : f32_wf (S754_finite s m e) →
  (e = -149 ∧ Z.pos m < 2 ^ 23 ∨ 2 ^ 23 ≤ Z.pos m < 2 ^ 24 ∧ -149 ≤ e ≤ 104)%Z.
Proof.
  unfold f32_wf. cbn. unfold bounded, canonical_mantissa, fexp, F32.prec, F32.emax, emin.
  rewrite andb_true_iff, Z.eqb_eq, Z.leb_le. intros [Hc He].
  pose proof (digits2_bounds m) as [Hlo Hhi]. set (d := Z.pos (digits2_pos m)) in *.
  assert (d = 24 ∨ (d ≤ 23 ∧ e = -149))%Z as [Hd|[Hd ->]] by (unfold d in *; lia).
  - right. rewrite Hd in Hlo, Hhi. split; [done|]. lia.
  - left. split; [done|]. eapply Z.lt_le_trans; [apply Hhi|]. apply Z.pow_le_mono_r; lia.
Qed.

Lemma from_bits_split (s : bool) ex fr : (0 ≤ ex < 256)%Z → (0 ≤ fr < 2 ^ 23)%Z →
  from_bits ((if s then 2 ^ 31 else 0) + (ex * 2 ^ 23 + fr))%Z =
  if (ex =? 255)%Z then (if (fr =? 0)%Z then S754_infinity s else S754_nan)
  else if (ex =? 0)%Z then match fr with Z.pos m => S754_finite s m (-149) | _ => S754_zero s end
  else match (fr + 2 ^ 23)%Z with Z.pos m => S754_finite s m (ex - 150) | _ => S754_zero s end.
Proof.
  intros Hex Hfr. set (b := ((if s then 2 ^ 31 else 0) + (ex * 2 ^ 23 + fr))%Z).
  assert (Hs : (2 ^ 31 <=? b)%Z = s) by (unfold b; destruct s; [apply Z.leb_le|apply Z.leb_gt]; lia).
  assert (He : Z.land (Z.shiftr b 23) 255 = ex).
  { rewrite Z.shiftr_div_pow2 by lia. change 255%Z with (Z.ones 8). rewrite Z.land_ones by lia.
    assert (b / 2 ^ 23 = (if s then 256 else 0) + ex)%Z as ->.
    { symmetry. apply (Z.div_unique _ _ _ fr); [lia|]. unfold b. destruct s; lia. }
    destruct s; [|by apply Z.mod_small; lia].
    replace (256 + ex)%Z with (ex + 1 * 2 ^ 8)%Z by lia. rewrite Z_mod_plus by lia. apply Z.mod_small. lia. }
  assert (Hf : Z.land b (2 ^ 23 - 1) = fr).
  { change (2 ^ 23 - 1)%Z with (Z.ones 23). rewrite Z.land_ones by lia.
    symmetry. apply (Z.mod_unique _ _ ((if s then 256 else 0) + ex)); [lia|]. unfold b. destruct s; lia. }
  unfold from_bits. by rewrite Hs, He, Hf.
Qed.

(** [from_bits] after [to_bits], and the range of the bits. *)
Lemma bits_roundtrip x : f32_wf x → from_bits (to_bits x) = x.
Proof.
  destruct x as [s|s| |s m e]; intros Hx.
  - by destruct s.
  - by destruct s.
  - done.
  - apply f32_wf_finite in Hx. unfold to_bits. destruct (Z.ltb_spec (Z.pos m) (2 ^ 23)).
    + replace (Z.pos m) with (0 * 2 ^ 23 + Z.pos m)%Z by lia. rewrite from_bits_split by lia. cbn.
      destruct Hx as [[-> _]|Hx]; [done|lia].
    + destruct Hx as [Hx|[Hm He]]; [lia|]. rewrite from_bits_split by lia.
      replace (Z.pos m - 2 ^ 23 + 2 ^ 23)%Z with (Z.pos m) by lia.
      destruct (Z.eqb_spec (e + 150) 255); [lia|]. destruct (Z.eqb_spec (e + 150) 0); [lia|].
      f_equal. lia.
Qed.

Lemma to_bits_range x : f32_wf x → (0 ≤ to_bits x < 2 ^ 32)%Z.
Proof.
  destruct x as [s|s| |s m e]; intros Hx; cbn -[Z.pow]; [destruct s; lia|destruct s; lia|lia|].
  apply f32_wf_finite in Hx. destruct (Z.ltb_spec (Z.pos m) (2 ^ 23)), s; lia.
Qed.

Lemma byte_val_at b i : (0 ≤ i)%Z → byte_val (byte_at b i) = ((b / 2 ^ (8 * i)) mod 2 ^ 8)%Z.
Proof.
  intros Hi. unfold byte_val, byte_at. change 255%Z with (Z.ones 8). rewrite Z.land_ones, Z.shiftr_div_pow2 by lia.
  pose proof (Z.mod_pos_bound (b / 2 ^ (8 * i)) (2 ^ 8) ltac:(lia)).
  rewrite N_ascii_embedding by lia. lia.
Qed.

Lemma le_bytes_roundtrip x : f32_wf x → floats_of (to_le_bytes x) = [x].
Proof.
  intros Hx. unfold to_le_bytes. cbn [map floats_of]. f_equal. rewrite <-(bits_roundtrip x Hx) at 5.
  unfold from_le_bytes. f_equal. pose proof (to_bits_range x Hx). rewrite !byte_val_at by lia.
  change (2 ^ (8 * 0))%Z with 1%Z. rewrite Z.div_1_r. generalize dependent (to_bits x). intros b Hb.
  change (8 * 1)%Z with 8%Z. change (8 * 2)%Z with 16%Z. change (8 * 3)%Z with 24%Z.
  pose proof (Z.div_mod b (2 ^ 8) ltac:(lia)). pose proof (Z.div_mod (b / 2 ^ 8) (2 ^ 8) ltac:(lia)) as H1.
  pose proof (Z.div_mod (b / 2 ^ 16) (2 ^ 8) ltac:(lia)) as H2.
  rewrite Z.div_div in H1, H2 by lia. change (2 ^ 8 * 2 ^ 8)%Z with (2 ^ 16)%Z in H1.
  change (2 ^ 16 * 2 ^ 8)%Z with (2 ^ 24)%Z in H2.
  assert (b / 2 ^ 24 < 2 ^ 8)%Z by (apply Z.div_lt_upper_bound; lia).
  rewrite (Z.mod_small (b / 2 ^ 24)) by (split; [apply Z.div_pos; lia|done]). lia.
Qed.

Lemma floats_of_app x l : floats_of (to_le_bytes x ++ l) = floats_of (to_le_bytes x) ++ floats_of l.
Proof. done. Qed.

Lemma vector_bytes_roundtrip v : Forall f32_wf v → floats_of (concat (map to_le_bytes v)) = v.
Proof.
  induction 1 as [|x v Hx _ IH]; [done|]. cbn [map concat]. by rewrite floats_of_app, le_bytes_roundtrip, IH.
Qed.

Lemma vector_bytes_length v : length (concat (map to_le_bytes v)) = length v * 4.
Proof. induction v as [|x v IH]; cbn [map concat]; [done|]. rewrite length_app, IH. cbn. lia. Qed.

Lemma floats_of_length l n : length l = n * 4 → length (floats_of l) = n.
Proof.
  revert l. induction n as [|n IH]; intros l Hl; [by destruct l|].
  destruct l as [|a [|b [|c [|d l]]]]; cbn in *; try lia. f_equal. apply IH. lia.
Qed.

(** ** Properties of the cache *)

Section cache_facts.
Context {D : Type} `{SledOps D, Codec}.

Lemma cache_get_dim (c : EmbedCache D) key dim v : cache_get c key dim = Some v → length v = dim.
Proof.
  unfold cache_get. destruct (ec_enabled c); [|done]. cbn. destruct (ec_db c) as [db|]; [|done]. cbn.
  destruct (sled_get db key) as [[x|]|]; [|done..]. destruct (zstd_decompress x) as [s|]; [|done].
  destruct (Nat.eqb_spec (str_len s) (dim * 4)) as [E|]; [|done]. cbn. intros [= <-].
  apply floats_of_length. by rewrite str_len_bytes.
Qed.

(** What a cache gives after a [put] is what was put, or what it gave before. *)
Lemma cache_get_put `{!SledLaws D, !CodecLaws} (c : EmbedCache D) k emb k' dim v :
  Forall f32_wf emb → cache_get (cache_put c k emb) k' dim = Some v →
  k' = k ∧ v = emb ∨ cache_get c k' dim = Some v.
Proof.
  intros Hwf. unfold cache_put. destruct (ec_enabled c) eqn:En; [|by right]. cbn.
  destruct (ec_db c) as [db|] eqn:Ed; [|by right]. unfold cache_get. cbn. rewrite En, Ed. cbn.
  set (x := zstd_compress _). destruct (sled_get (sled_insert db k x).1 k') as [[y|]|] eqn:Eg; [|done..].
  apply law_sled_insert in Eg as [[-> ->]|Eg]; [|intros Hv; right; by rewrite Eg].
  unfold x. rewrite law_zstd.
  set (s := str_of_bytes _). assert (str_bytes s = concat (map to_le_bytes emb)) as Hs by apply list_ascii_of_string_of_list_ascii.
  rewrite Hs, vector_bytes_roundtrip by done.
  destruct (negb _); [done|]. intros [= <-]. by left.
Qed.
End cache_facts.

(** ** Properties of the calls *)

Section embed_facts.
Context {D N : Type} `{SledOps D, Codec, JsonVectors, Http N}.
Context (provider : Provider) (role : EmbeddingRole).

Definition prefixed_text (t : string) : string :=
  match effective_prefixes provider with Some p => prefix_for_role p role +:+ t | None => t end.

Lemma apply_prefix_map texts : apply_prefix texts (effective_prefixes provider) role = map prefixed_text texts.
Proof.
  unfold apply_prefix, prefixed_text. destruct (effective_prefixes provider); [done|]. by rewrite map_id.
Qed.

(** A property of pairs of prefixed text and vector that the cache and the
    provider's answers have, and that filling the cache keeps, is one of what
    the calls return.  [U]: the prefixed texts at hand. *)
Context (P : string → list f32 → Prop) (U : list string) (cache_P : EmbedCache D → Prop).
Let key (t : string) : string := cache_key (model_name provider) t.
Context (HP_hit : ∀ c t v, t ∈ U → cache_P c → cache_get c (key t) (expected_dim provider) = Some v → P t v).
Context (HP_put : ∀ c t v, t ∈ U → cache_P c → P t v → cache_P (cache_put c (key t) v)).
Context (HP_req : ∀ (n n' : N) mp embs, (∀ t, t ∈ mp → t ∈ U) →
  request_embeddings n provider mp = (n', Ok embs) → Forall2 P mp embs).

Definition opt_P (c : option (EmbedCache D)) : Prop := match c with Some c => cache_P c | None => True end.

Lemma look_up_spec c i prefixed : opt_P c → (∀ t, t ∈ prefixed → t ∈ U) →
  let r := look_up c (model_name provider) (expected_dim provider) i prefixed in
  length r.1 = length prefixed ∧ NoDup r.2 ∧
  (∀ j, j ∈ r.2 ↔ i ≤ j ∧ r.1 !! (j - i) = Some None) ∧
  (∀ j t v, prefixed !! j = Some t → r.1 !! j = Some (Some v) → P t v).
Proof.
  intros Hc. revert i. induction prefixed as [|t rest IH]; intros i HU; cbn [look_up].
  - split; [done|]. split; [constructor|]. split; [|done]. intros j. split; [by intros ?%elem_of_nil|by intros [_ ?]].
  - destruct (IH (S i)) as (Hl & Hnd & Hm & Hv); [intros u Hu; apply HU; by right|].
    set (r := look_up c _ _ (S i) rest) in *.
    assert (Hmiss : length ((None : option (list f32)) :: r.1) = length (t :: rest) ∧ NoDup (i :: r.2) ∧
      (∀ j, j ∈ i :: r.2 ↔ i ≤ j ∧ (None :: r.1) !! (j - i) = Some None) ∧
      (∀ j u v, (t :: rest) !! j = Some u → (None :: r.1) !! j = Some (Some v) → P u v)).
    { split; [cbn; by rewrite Hl|]. split; [constructor; [|done]; rewrite Hm; lia|]. split.
      - intros j. rewrite elem_of_cons, Hm. destruct (decide (j = i)) as [->|Hne].
        + rewrite Nat.sub_diag. cbn. split; [done|by left].
        + split; [intros [?|[Hj E]]; [done|]|intros [Hj E]; right]; (split; [lia|]).
          * replace (j - i) with (S (j - S i)) by lia. done.
          * by replace (j - i) with (S (j - S i)) in E by lia.
      - intros [|j] u v Hu E; cbn in *; [done|]. by eapply Hv. }
    destruct c as [cache|]; [|exact Hmiss].
    destruct (cache_get cache (cache_key (model_name provider) t) (expected_dim provider)) as [emb|] eqn:Eg; [|exact Hmiss].
    cbn. split; [by rewrite Hl|]. split; [done|]. split.
    + intros j. rewrite Hm. split; intros [Hj E].
      * split; [lia|]. by replace (j - i) with (S (j - S i)) by lia.
      * destruct (j - i) as [|k] eqn:Ek; cbn in E; [done|]. split; [lia|]. by replace (j - S i) with k by lia.
    + intros j t' v Ht' E. destruct j as [|j]; cbn in *; [|by eapply Hv]. simplify_eq. eapply HP_hit; [|done..].
      apply HU. by left.
Qed.

Lemma store_misses_spec prefixed misses embeddings c results :
  opt_P c → (∀ t, t ∈ prefixed → t ∈ U) → NoDup misses → (∀ j, j ∈ misses → j < length results) →
  (∃ mp, mapM (λ i, prefixed !! i) misses = Some mp ∧ Forall2 P mp embeddings) →
  ∃ c' results', store_misses (model_name provider) prefixed misses embeddings c results = Some (c', results') ∧
    opt_P c' ∧ length results' = length results ∧
    (∀ j, j ∉ misses → results' !! j = results !! j) ∧
    (∀ j, j ∈ misses → ∃ t v, prefixed !! j = Some t ∧ results' !! j = Some (Some v) ∧ P t v).
Proof.
  intros Hc HU Hnd Hlt (mp & Hmp & HP). revert c results embeddings mp Hc Hlt Hmp HP.
  induction misses as [|i misses IH]; intros c results embeddings mp Hc Hlt Hmp HP; cbn [store_misses].
  - exists c, results. repeat split; try done. by intros j ?%elem_of_nil.
  - cbn in Hmp. destruct (prefixed !! i) as [t|] eqn:Et; cbn in Hmp; [|done].
    destruct (mapM (λ i, prefixed !! i) misses) as [mp'|] eqn:Em; cbn in Hmp; [|done]. injection Hmp as <-.
    inversion HP as [|? v ? embs HPv HPs]; subst. apply NoDup_cons in Hnd as [Hi Hnd].
    set (c1 := match c with Some cache => Some _ | None => None end).
    destruct (IH Hnd c1 (<[i := Some v]> results) embs mp') as (c' & results' & -> & Hc' & Hl & Hout & Hin); try done.
    { destruct c as [cache|]; [|done]. cbn. apply HP_put; [|done..]. by eapply HU, list_elem_of_lookup_2. }
    { intros j Hj. rewrite length_insert. apply Hlt. by right. }
    exists c', results'. split; [done|]. split; [done|]. split; [by rewrite Hl, length_insert|]. split.
    + intros j Hj. rewrite Hout by (intros ?; apply Hj; by right).
      apply list_lookup_insert_ne. intros ->. apply Hj. by left.
    + intros j [->|Hj]%elem_of_cons; [|by apply Hin]. exists t, v. split; [done|]. split; [|done].
      rewrite Hout by done. apply list_lookup_insert_eq, Hlt. by left.
Qed.

Lemma mapM_id_Forall2 {A B} (Q : A → B → Prop) (l : list A) (results : list (option B)) :
  length results = length l →
  (∀ j t, l !! j = Some t → ∃ v, results !! j = Some (Some v) ∧ Q t v) →
  ∃ vs, mapM id results = Some vs ∧ Forall2 Q l vs.
Proof.
  revert results. induction l as [|t l IH]; intros [|r results] Hl Hv; try done.
  - exists []. by split.
  - destruct (Hv 0 t eq_refl) as (v & [= ->] & HQ). destruct (IH results) as (vs & Hvs & Hf); [by injection Hl|
      intros j u Hj; by apply (Hv (S j))|].
    exists (v :: vs). split; [|by constructor]. cbn. by rewrite Hvs.
Qed.

Lemma mapM_lookup_in {A} (l : list A) (is_ : list nat) :
  (∀ i, i ∈ is_ → i < length l) →
  ∃ mp, mapM (λ i, l !! i) is_ = Some mp ∧ ∀ t, t ∈ mp → t ∈ l.
Proof.
  intros Hb. induction is_ as [|i is_ IH]; [exists []; split; [done|by intros ? ?%elem_of_nil]|].
  destruct IH as (mp & Hmp & Hin); [intros j Hj; apply Hb; by right|].
  destruct (lookup_lt_is_Some_2 l i) as [t Ht]; [apply Hb; by left|].
  exists (t :: mp). cbn. rewrite Ht, Hmp. split; [done|]. intros u [->|Hu]%elem_of_cons; [|by apply Hin].
  by eapply list_elem_of_lookup_2.
Qed.

(** [io_embed] returns, and what it returns has the property. *)
Lemma io_embed_gen (st : N * option (EmbedCache D)) texts :
  opt_P st.2 → (∀ t, t ∈ texts → prefixed_text t ∈ U) →
  ∃ st' r, io_embed st provider texts role = (st', Some r) ∧ opt_P st'.2 ∧
    ∀ vs, r = Ok vs → Forall2 (λ t v, P (prefixed_text t) v) texts vs.
Proof.
  intros Hc HU. unfold io_embed. destruct texts as [|t0 texts0] eqn:Etx; [|rewrite <-Etx in *; clear t0 texts0 Etx].
  { exists st, (Ok []). repeat split; [done|]. intros vs [= <-]. constructor. }
  rewrite apply_prefix_map. set (prefixed := map prefixed_text texts).
  assert (HU' : ∀ t, t ∈ prefixed → t ∈ U).
  { intros t (u & -> & Hu)%list_elem_of_fmap. by apply HU. }
  pose proof (look_up_spec st.2 0 prefixed Hc HU') as Hlk.
  destruct (look_up st.2 (model_name provider) (expected_dim provider) 0 prefixed) as [results misses]. cbn in Hlk.
  destruct Hlk as (Hl & Hnd & Hm & Hv).
  assert (Hfin : ∀ results', length results' = length results →
    (∀ j t, prefixed !! j = Some t → ∃ v, results' !! j = Some (Some v) ∧ P t v) →
    ∃ vs, mapM id results' = Some vs ∧ Forall2 (λ t v, P (prefixed_text t) v) texts vs).
  { intros results' Hl' Hall. destruct (mapM_id_Forall2 P prefixed results') as (vs & Hvs & Hf); [congruence|done|].
    exists vs. split; [done|]. unfold prefixed in Hf. by rewrite Forall2_fmap_l in Hf. }
  assert (Hlk : ∀ j t, prefixed !! j = Some t → j ∉ misses → ∃ v, results !! j = Some (Some v) ∧ P t v).
  { intros j t Ht Hj. destruct (lookup_lt_is_Some_2 results j) as [[v|] Ev].
    { rewrite Hl. by eapply lookup_lt_Some. }
    - exists v. split; [done|]. by eapply Hv.
    - exfalso. apply Hj, Hm. rewrite Nat.sub_0_r. split; [lia|done]. }
  destruct misses as [|i0 misses0] eqn:Emi; [|rewrite <-Emi in *; clear i0 misses0 Emi].
  { destruct (Hfin results) as (vs & -> & Hf); [done| |].
    { intros j t Ht. apply (Hlk j t Ht). by intros ?%elem_of_nil. }
    exists st, (Ok vs). repeat split; [done|]. by intros ? [= <-]. }
  destruct (mapM_lookup_in prefixed misses) as (mp & Hmp & Hin).
  { intros i [_ Hi]%Hm. rewrite <-Hl. rewrite Nat.sub_0_r in Hi. by eapply lookup_lt_Some. }
  rewrite Hmp.
  destruct (request_embeddings st.1 provider mp) as [n [embs|e]] eqn:Er.
  2: { exists (n, st.2), (Err e). by repeat split. }
  destruct (store_misses_spec prefixed misses embs st.2 results) as (c' & results' & -> & Hc' & Hl' & Hout & Hmi); try done.
  { intros j [_ Hj]%Hm. rewrite Nat.sub_0_r in Hj. by eapply lookup_lt_Some. }
  { exists mp. split; [done|]. eapply HP_req; [|done]. intros t Ht. by apply HU', Hin. }
  destruct (Hfin results') as (vs & -> & Hf); [done| |].
  { intros j t Ht. destruct (decide (j ∈ misses)) as [Hj|Hj].
    - destruct (Hmi j Hj) as (t' & v & Ht' & E & HPv). exists v. split; [done|]. congruence.
    - destruct (Hlk j t Ht Hj) as (v & E & HPv). exists v. by rewrite Hout. }
  exists (n, c'), (Ok vs). repeat split; [done|]. by intros ? [= <-].
Qed.

(** What the texts whose own request fails have in common. *)
Context (F : string → Prop).
Context (HF : ∀ (n n' : N) t e, t ∈ U → request_embeddings n provider [t] = (n', Err e) → F t).

Lemma io_embed_single_err (st st' : N * option (EmbedCache D)) t e :
  prefixed_text t ∈ U → io_embed st provider [t] role = (st', Some (Err e)) → F (prefixed_text t).
Proof.
  intros HU. unfold io_embed. rewrite apply_prefix_map. cbn [map].
  assert (look_up st.2 (model_name provider) (expected_dim provider) 0 [prefixed_text t] = ([None], [0]) ∨
    ∃ emb, look_up st.2 (model_name provider) (expected_dim provider) 0 [prefixed_text t] = ([Some emb], []))
    as [->|[emb ->]]; [| |by intros [=]].
  { cbn. destruct st.2 as [cache|]; [|by left]. destruct (cache_get _ _ _) as [emb|]; [right; by exists emb|by left]. }
  cbn -[request_embeddings].
  destruct (request_embeddings st.1 provider [prefixed_text t]) as [n [[|emb embs]|e']] eqn:Er; [by intros [=]|by intros [=]|].
  intros [= _ _]. by eapply HF.
Qed.

Definition batch_result (t : string) (r : EmbedResult) : Prop :=
  match r with EmbedOk v => P (prefixed_text t) v | EmbedFailed _ => F (prefixed_text t) end.

Lemma retry_texts_gen st batch :
  opt_P st.2 → (∀ t, t ∈ batch → prefixed_text t ∈ U) →
  ∃ st' rs, retry_texts st provider role batch = (st', Some rs) ∧ opt_P st'.2 ∧ Forall2 batch_result batch rs.
Proof.
  revert st. induction batch as [|t batch IH]; intros st Hc HU; cbn [retry_texts].
  - exists st, []. by repeat split.
  - destruct (io_embed_gen st [t] Hc) as (st1 & r & Er & Hc1 & Hr).
    { intros u ->%list_elem_of_singleton. apply HU. by left. }
    rewrite Er. destruct (IH st1 Hc1) as (st2 & rs & -> & Hc2 & Hrs); [intros u Hu; apply HU; by right|].
    eexists st2, _. split; [done|]. split; [done|]. constructor; [|done].
    destruct r as [vs|e]; cbn.
    + specialize (Hr vs eq_refl). inversion Hr as [|? v ? vs' HPv Hn]; subst. by inversion Hn.
    + eapply io_embed_single_err; [|done]. apply HU. by left.
Qed.

Lemma embed_batches_gen st batches :
  opt_P st.2 → (∀ t, t ∈ concat batches → prefixed_text t ∈ U) →
  ∃ st' rs, embed_batches st provider role batches = (st', Some rs) ∧ opt_P st'.2 ∧
    Forall2 batch_result (concat batches) rs.
Proof.
  revert st. induction batches as [|batch batches IH]; intros st Hc HU; cbn [embed_batches concat].
  - exists st, []. by repeat split.
  - assert (Hone : ∃ st1 rs, match io_embed st provider batch role with
      | (st, None) => (st, None) | (st, Some (Ok embeddings)) => (st, Some (map EmbedOk embeddings))
      | (st, Some (Err _)) => retry_texts st provider role batch end = (st1, Some rs) ∧ opt_P st1.2 ∧
      Forall2 batch_result batch rs).
    { assert (HUb : ∀ t, t ∈ batch → prefixed_text t ∈ U) by (intros t Ht; apply HU, elem_of_app; by left).
      destruct (io_embed_gen st batch Hc HUb) as (st1 & [vs|e] & -> & Hc1 & Hr); [|by apply retry_texts_gen].
      eexists st1, _. split; [done|]. split; [done|]. apply Forall2_fmap_r. by apply Hr. }
    destruct Hone as (st1 & rs1 & -> & Hc1 & Hf1).
    destruct (IH st1 Hc1) as (st2 & rs2 & -> & Hc2 & Hf2); [intros t Ht; apply HU, elem_of_app; by right|].
    eexists st2, _. split; [done|]. split; [done|]. by apply Forall2_app.
Qed.

Lemma concat_chunks {A} n (l : list A) : 0 < n → concat (chunks n l) = l.
Proof.
  intros Hn. unfold chunks. remember (length l) as fuel eqn:Hf. assert (length l ≤ fuel) as Hle by lia. clear Hf.
  revert l Hle. induction fuel as [|fuel IH]; intros [|x l] Hle; try done; cbn in Hle; [lia|].
  cbn [chunks_loop concat]. rewrite IH, take_drop; [done|]. rewrite length_drop. cbn. lia.
Qed.

Lemma io_embed_batched_gen st texts batch_size :
  0 < batch_size → opt_P st.2 → (∀ t, t ∈ texts → prefixed_text t ∈ U) →
  ∃ st' rs, io_embed_batched st provider texts batch_size role = (st', Some rs) ∧ opt_P st'.2 ∧
    Forall2 batch_result texts rs.
Proof.
  intros Hb Hc HU. unfold io_embed_batched. destruct (Nat.eqb_spec batch_size 0); [lia|].
  destruct texts as [|t0 texts0] eqn:Etx; [exists st, []; by repeat split|]. rewrite <-Etx in *.
  destruct (embed_batches_gen st (chunks batch_size texts) Hc) as (st' & rs & -> & Hc' & Hf).
  { by rewrite concat_chunks. }
  rewrite concat_chunks in Hf by done. by exists st', rs.
Qed.
End embed_facts.

(** ** What the calls guarantee *)

Lemma check_vectors_ok dim i embs : check_vectors dim i embs = Ok tt →
  Forall (λ v, length v = dim ∧ Forall (λ x, F32.is_finite x = true) v) embs.
Proof.
  revert i. induction embs as [|v embs IH]; intros i; cbn; [constructor|].
  destruct (Nat.eqb_spec (length v) dim) as [E|]; [|done]. cbn.
  destruct (existsb _ v) eqn:Ex; [done|]. intros Hr. constructor; [|by eapply IH]. split; [done|].
  rewrite Forall_forall. intros x Hx. unfold F32.is_finite.
  destruct (F32.is_nan x || F32.is_infinite x) eqn:Eb.
  - assert (existsb (λ v, F32.is_nan v || F32.is_infinite v) v = true); [|congruence].
    apply existsb_exists. exists x. split; [by apply list_elem_of_In|done].
  - by apply orb_false_iff in Eb as [-> ->].
Qed.

Lemma check_vectors_complete dim i embs :
  Forall (λ v, length v = dim ∧ Forall (λ x, F32.is_finite x = true) v) embs → check_vectors dim i embs = Ok tt.
Proof.
  intros Hf. revert i. induction Hf as [|v embs [Hl Hv] _ IH]; intros i; cbn; [done|].
  rewrite Hl, Nat.eqb_refl. cbn. assert (existsb (λ v, F32.is_nan v || F32.is_infinite v) v = false) as ->; [|by apply IH].
  rewrite <-not_true_iff_false, existsb_exists. intros (x & Hx%list_elem_of_In & Hb).
  rewrite Forall_forall in Hv. specialize (Hv x Hx). unfold F32.is_finite in Hv.
  apply orb_true_iff in Hb as [E|E]; rewrite E in Hv; [done|by rewrite andb_comm in Hv].
Qed.

Section embed_theorems.
Context {D N : Type} `{SledOps D, Codec, JsonVectors, Http N}.
Context (provider : Provider) (role : EmbeddingRole).

Lemma request_embeddings_ok (n n' : N) mp embs : request_embeddings n provider mp = (n', Ok embs) →
  length embs = length mp ∧
  Forall (λ v, length v = expected_dim provider ∧ Forall (λ x, F32.is_finite x = true) v) embs.
Proof.
  unfold request_embeddings. intros [= _ (resp & _ & Hr)%result_bind_ok].
  destruct (negb _); [done|]. apply result_bind_ok in Hr as (body & _ & (es & Hes & Hr)%result_bind_ok).
  destruct (Nat.eqb_spec (length es) (length mp)) as [E|]; [|done]. cbn in Hr. injection Hr as ->. split; [done|].
  unfold parse_embedding_response in Hes. apply result_bind_ok in Hes as (es' & _ & ([] & Hck & [= ->])%result_bind_ok).
  by eapply check_vectors_ok.
Qed.

(** All an embedding call, or the first reading of its length, does to the
    cache: finite vectors are put, of the provider's dimension, under the key of
    its model and a text. *)
Inductive cache_step : EmbedCache D → EmbedCache D → Prop :=
| cs_put c p t v : length v = expected_dim p → Forall (λ x, F32.is_finite x = true) v →
    cache_step c (cache_put c (cache_key (model_name p) t) v)
| cs_len c : cache_step c (cache_len c).1.

Lemma store_misses_steps prefixed misses embeddings c results c' results' :
  Forall (λ v, length v = expected_dim provider ∧ Forall (λ x, F32.is_finite x = true) v) embeddings →
  store_misses (model_name provider) prefixed misses embeddings (Some c) results = Some (c', results') →
  ∃ c1, c' = Some c1 ∧ rtc cache_step c c1.
Proof.
  revert embeddings c results. induction misses as [|idx misses IH]; intros [|v embeddings] c results Hv; cbn [store_misses].
  1-2: intros [= <- _]; by exists c.
  - done.
  - apply Forall_cons in Hv as [[Hl Hf] Hv]. destruct (prefixed !! idx) as [t|]; [|done]. intros (c1 & -> & Hr)%IH; [|done].
    exists c1. split; [done|]. eapply rtc_l; [|done]. by constructor.
Qed.

Lemma io_embed_steps n c texts e r :
  io_embed (n, Some c) provider texts role = (e, r) → ∃ c', e.2 = Some c' ∧ rtc cache_step c c'.
Proof.
  assert (Hsame : ∃ c', Some c = Some c' ∧ rtc cache_step c c') by (by exists c).
  unfold io_embed. destruct texts as [|t texts]; [by intros [= <- _]|]. cbn [fst snd].
  destruct (look_up _ _ _ _ _) as [results misses]. destruct misses as [|m misses]; [by intros [= <- _]|].
  destruct (mapM _ (m :: misses)) as [mp|]; [|by intros [= <- _]].
  destruct (request_embeddings n provider mp) as [n1 [embs|err]] eqn:Er; [|by intros [= <- _]].
  apply request_embeddings_ok in Er as [_ Hv].
  destruct (store_misses _ _ _ _ _ _) as [[c1 results1]|] eqn:Es; [|by intros [= <- _]].
  intros [= <- _]. by eapply store_misses_steps.
Qed.

(** Whatever the provider answers, whatever the cache holds: with a positive
    batch size [io_embed_batched] returns (no index is out of range, no
    [unwrap] fails) exactly one result per text, in order, and every vector it
    returns has the provider's dimension. *)
Theorem embed_batched_parity (st : N * option (EmbedCache D)) texts batch_size :
  0 < batch_size →
  ∃ st' rs, io_embed_batched st provider texts batch_size role = (st', Some rs) ∧ length rs = length texts ∧
    ∀ v, EmbedOk v ∈ rs → length v = expected_dim provider.
Proof.
  intros Hb.
  destruct (io_embed_batched_gen provider role (λ _ v, length v = expected_dim provider)
    (map (prefixed_text provider role) texts) (λ _, True)
    ltac:(intros; by eapply cache_get_dim) ltac:(done)
    ltac:(intros n n' mp embs _ [El Hf]%request_embeddings_ok;
          apply Forall2_same_length_lookup_2; [done|]; intros i t v _ Hv; rewrite Forall_lookup in Hf;
          by apply (Hf i v Hv)) (λ _, True) ltac:(done) st texts batch_size)
    as (st' & rs & -> & _ & Hf); [done|by unfold opt_P; destruct st.2| |].
  { intros t Ht. apply list_elem_of_fmap. by exists t. }
  exists st', rs. split; [done|]. split; [symmetry; by eapply Forall2_length|].
  intros v (i & Hv)%list_elem_of_lookup. destruct (Forall2_lookup_r _ _ _ _ _ Hf Hv) as (t & _ & E). exact E.
Qed.

(** A provider that embeds texts one at a time: the answer to a request has the
    vector of each of its texts, and a request with a text it rejects fails. *)
Record provider_textwise (embed : string → option (list f32)) : Prop := {
  tw_accept n url m input d vs : mapM embed input = Some vs →
    ∃ resp body, (http_post (N:=N) n url (mkEmbedRequest m input d)).2 = Ok resp ∧
      (200 ≤ hr_status resp < 300)%Z ∧ hr_bytes resp = Ok body ∧ from_slice body = Ok vs;
  tw_reject n url m input d resp : mapM embed input = None →
    (http_post (N:=N) n url (mkEmbedRequest m input d)).2 = Ok resp → ¬ (200 ≤ hr_status resp < 300)%Z;
  tw_vector t v : embed t = Some v →
    length v = expected_dim provider ∧ Forall (λ x, F32.is_finite x = true) v ∧ Forall f32_wf v;
}.

Lemma request_textwise embed n mp : provider_textwise embed →
  match (request_embeddings n provider mp).2 with
  | Ok embs => mapM embed mp = Some embs
  | Err _ => mapM embed mp = None
  end.
Proof.
  intros Htw. unfold request_embeddings. cbn.
  set (url := trim_end_slashes _ +:+ _). set (post := http_post n url _).
  destruct (mapM embed mp) as [vs|] eqn:Em.
  - destruct (tw_accept _ Htw n url (model_name provider) mp (Some (expected_dim provider)) vs Em)
      as (resp & body & Ep & Hst & Hb & Hs). fold post in Ep. rewrite Ep. cbn.
    assert (((200 <=? hr_status resp) && (hr_status resp <? 300))%Z = true) as -> by
      (apply andb_true_iff; split; [apply Z.leb_le, Hst|apply Z.ltb_lt, Hst]).
    cbn. rewrite Hb. cbn. unfold parse_embedding_response. rewrite Hs. cbn.
    assert (Forall2 (λ t v, embed t = Some v) mp vs) as Hf by (by apply mapM_Some).
    rewrite check_vectors_complete.
    2: { rewrite Forall_forall. intros v (i & Hv)%list_elem_of_lookup.
         destruct (Forall2_lookup_r _ _ _ _ _ Hf Hv) as (t & _ & Et). by apply (tw_vector _ Htw) in Et as (? & ? & _). }
    cbn. by rewrite (Forall2_length _ _ _ Hf), Nat.eqb_refl.
  - destruct post.2 as [resp|e] eqn:Ep; [|done]. cbn.
    assert (((200 <=? hr_status resp) && (hr_status resp <? 300))%Z = false) as ->; [|done].
    apply not_true_iff_false. rewrite andb_true_iff, Z.leb_le, Z.ltb_lt. by eapply tw_reject.
Qed.

(** What the cache holds for the texts of [U] is what the provider would give. *)
Definition cache_faithful (embed : string → option (list f32)) (U : list string) (c : option (EmbedCache D)) : Prop :=
  match c with
  | None => True
  | Some c => ∀ t v, t ∈ U → cache_get c (cache_key (model_name provider) t) (expected_dim provider) = Some v →
      embed t = Some v
  end.

(** C26: with such a provider, a cache that is faithful on the texts, and no two of
    these texts with one cache key: each text's result is the vector the
    provider gives it, and a failure where the provider rejects it, whatever
    the batch size and whatever is cached; the cache stays faithful.  So one
    rejected text makes no other text fail. *)
Theorem embed_batched_textwise `{!SledLaws D, !CodecLaws} embed (st : N * option (EmbedCache D)) texts batch_size U :
  0 < batch_size → provider_textwise embed → cache_faithful embed U st.2 →
  (∀ t, t ∈ texts → prefixed_text provider role t ∈ U) →
  (∀ t u, t ∈ U → u ∈ U → cache_key (model_name provider) t = cache_key (model_name provider) u → t = u) →
  ∃ st' rs, io_embed_batched st provider texts batch_size role = (st', Some rs) ∧ cache_faithful embed U st'.2 ∧
    Forall2 (λ t r, match embed (prefixed_text provider role t) with
                    | Some v => r = EmbedOk v | None => ∃ msg, r = EmbedFailed msg end) texts rs.
Proof.
  intros Hb Htw Hcf HU Hinj.
  set (cache_P := λ c : EmbedCache D, ∀ t v, t ∈ U →
    cache_get c (cache_key (model_name provider) t) (expected_dim provider) = Some v → embed t = Some v).
  assert (Hput : ∀ c t v, t ∈ U → cache_P c → embed t = Some v →
    cache_P (cache_put c (cache_key (model_name provider) t) v)).
  { intros c t v Ht Hc Hv u w Hu [[Ek ->]|Hg]%cache_get_put; [by rewrite (Hinj u t Hu Ht Ek)|by apply Hc|].
    by apply (tw_vector _ Htw t v). }
  assert (Hreq : ∀ (n n' : N) mp embs, (∀ t, t ∈ mp → t ∈ U) →
    request_embeddings n provider mp = (n', Ok embs) → Forall2 (λ t v, embed t = Some v) mp embs).
  { intros n n' mp embs _ Er. pose proof (request_textwise embed n mp Htw) as Hr. rewrite Er in Hr. by apply mapM_Some. }
  assert (Hrej : ∀ (n n' : N) t e, t ∈ U → request_embeddings n provider [t] = (n', Err e) → embed t = None).
  { intros n n' t e _ Er. pose proof (request_textwise embed n [t] Htw) as Hr. rewrite Er in Hr. cbn in Hr.
    by destruct (embed t). }
  destruct (io_embed_batched_gen provider role (λ t v, embed t = Some v) U cache_P
    (λ c t v Ht (Hc : cache_P c), Hc t v Ht) Hput Hreq (λ t, embed t = None) Hrej st texts batch_size)
    as (st' & rs & -> & Hc' & Hf); [done|by destruct st as [? [?|]]|done|].
  exists st', rs. split; [done|]. split; [by destruct st' as [? [?|]]|].
  eapply Forall2_impl; [exact Hf|]. intros t [v|msg]; cbn; [by intros ->|intros ->; by exists msg].
Qed.
End embed_theorems.

Lemma get_put_same {D} `{SledOps D, Codec, !CodecLaws} (c : EmbedCache D) db key emb :
  ec_enabled c = true → ec_db c = Some db → Forall f32_wf emb →
  let compressed := zstd_compress (str_of_bytes (concat (map to_le_bytes emb))) in
  sled_get (sled_insert db key compressed).1 key = Ok (Some compressed) →
  ∀ dim, cache_get (cache_put c key emb) key dim = if decide (dim = length emb) then Some emb else None.
Proof.
  intros En Ed Hwf compressed Hg dim. unfold cache_put. rewrite En, Ed. cbn -[compressed]. unfold cache_get. cbn -[compressed].
  fold compressed. rewrite Hg. unfold compressed. rewrite law_zstd.
  set (s := str_of_bytes _). assert (str_bytes s = concat (map to_le_bytes emb)) as Hs by apply list_ascii_of_string_of_list_ascii.
  rewrite <-str_len_bytes, Hs, vector_bytes_length, vector_bytes_roundtrip by done.
  destruct (decide (dim = length emb)) as [->|Hd]; [by rewrite Nat.eqb_refl|].
  by destruct (Nat.eqb_spec (length emb * 4) (dim * 4)); [lia|].
Qed.

(** What is put under a key is got back under it, bit for bit. *)
Theorem embed_cache_roundtrip {D} `{SledOps D, Codec, !CodecLaws} (c : EmbedCache D) db key emb :
  ec_enabled c = true → ec_db c = Some db → Forall f32_wf emb →
  let compressed := zstd_compress (str_of_bytes (concat (map to_le_bytes emb))) in
  sled_get (sled_insert db key compressed).1 key = Ok (Some compressed) →
  cache_get (cache_put c key emb) key (length emb) = Some emb ∧
  ∀ dim, dim ≠ length emb → cache_get (cache_put c key emb) key dim = None.
Proof.
  intros En Ed Hwf compressed Hg. split; [|intros dim Hd]; rewrite (get_put_same c db) by done.
  - by rewrite decide_True.
  - by rewrite decide_False.
Qed.

(** The entry counter of a cache just opened stands at the value for "not yet
    counted"; a first [put] of a new key takes it to zero, and [len] then says
    zero, whatever the tree holds. *)
Theorem cache_len_after_first_put {D} `{SledOps D, Codec} (db : D) max_entries c key emb :
  open (Ok db) (Some max_entries) = Some c →
  (∀ x old, (sled_insert db key x).2 ≠ Ok (Some old)) →
  (cache_len (cache_put c key emb)).2 = 0%Z.
Proof.
  intros [= <-] Hnew. unfold cache_put. cbn. set (r := sled_insert db key _).
  assert (match r.2 with Ok (Some _) => false | _ => true end = true) as ->.
  { specialize (Hnew (zstd_compress (str_of_bytes (concat (map to_le_bytes emb))))). fold r in Hnew.
    destruct r.2 as [[old|]|]; [by destruct (Hnew old)|done..]. }
  reflexivity.
Qed.

(** ** Instances *)

Module EmbedExample.

(** A tree as a finite map, keys and values as they are. *)
#[export] Instance map_sled : SledOps (gmap string string) := {|
  sled_get d k := Ok (d !! k);
  sled_insert d k v := (<[k := v]> d, Ok (d !! k));
  sled_len d := size d;
|}.

#[export] Instance map_sled_laws : SledLaws (gmap string string).
Proof.
  constructor. intros d k v k' x [= [[<- <-]|[_ Hd]]%lookup_insert_Some]; [by left|]. right. cbn. by rewrite Hd.
Qed.

#[export] Instance plain_codec : Codec := {| sha256 := id; zstd_compress := id; zstd_decompress := Ok |}.
#[export] Instance plain_codec_laws : CodecLaws.
Proof. by constructor. Qed.

(** A provider of one-dimensional vectors that rejects the text "bad" and
    embeds the others by their first byte; a body has one byte per vector. *)
Definition byte_vector (c : ascii) : list f32 := [F32.of_Z (byte_val c)].
Definition first_byte (t : string) : option ascii :=
  if String.eqb t "search_query: bad" then None else Some (match t with String c _ => c | EmptyString => "0"%char end).
Definition vector_of (t : string) : option (list f32) := byte_vector <$> first_byte t.
Definition net_post (input : list string) : HttpResponse :=
  match mapM first_byte input with
  | Some bytes => mkHttpResponse 200 (Err "binary") (Ok (str_of_bytes bytes))
  | None => mkHttpResponse 400 (Ok "rejected") (Ok "rejected")
  end.

#[export] Instance byte_vectors : JsonVectors := λ body, Ok (map byte_vector (str_bytes body)).
#[export] Instance counting_net : Http nat := λ n _ req, (S n, Ok (net_post (er_input req))).

Definition nomic : Provider := OpenAiCompatible "http://ollama/" "nomic-embed-v2" 1 None.

Lemma byte_vector_fine c : F32.is_finite (F32.of_Z (byte_val c)) = true ∧ f32_wf (F32.of_Z (byte_val c)).
Proof. destruct c as [[] [] [] [] [] [] [] []]; by vm_compute. Qed.

Lemma mapM_vector_of input : mapM vector_of input = map byte_vector <$> mapM first_byte input.
Proof.
  induction input as [|t input IH]; [done|]. cbn. rewrite IH. unfold vector_of.
  destruct (first_byte t); cbn; [|done]. by destruct (mapM first_byte input).
Qed.

Lemma nomic_textwise : provider_textwise (N:=nat) nomic vector_of.
Proof.
  split.
  - intros n url m input d vs Hvs. rewrite mapM_vector_of in Hvs. cbn. unfold net_post.
    destruct (mapM first_byte input) as [bytes|]; [|done]. injection Hvs as <-.
    eexists _, _. split; [done|]. cbn. split; [done|]. split; [done|].
    unfold from_slice, byte_vectors. by rewrite list_ascii_of_string_of_list_ascii.
  - intros n url m input d resp Hvs. rewrite mapM_vector_of in Hvs. cbn. unfold net_post.
    destruct (mapM first_byte input); [done|]. intros [= <-]. cbn. lia.
  - intros t v. unfold vector_of. destruct (first_byte t) as [c|]; [|done]. intros [= <-].
    destruct (byte_vector_fine c). split; [done|]. by split; constructor.
Qed.

Definition fresh_cache : EmbedCache (gmap string string) := mkEmbedCache (Some ∅) true false USIZE_MAX.

End EmbedExample.
Import EmbedExample.

Example embeds_around_a_bad_text :
  (io_embed_batched (0, Some fresh_cache) nomic ["a"; "bad"; "b"] 2 RoleQuery).2
  = Some [EmbedOk [F32.of_Z 115];
          EmbedFailed "embedding failed after individual retry: embedding provider returned non-2xx: status=400, body=rejected";
          EmbedOk [F32.of_Z 115]].
Proof. vm_compute. reflexivity. Qed.

Lemma embed_batched_parity_witness :
  ∃ st' rs, io_embed_batched (0, Some fresh_cache) nomic ["a"; "bad"; "b"] 2 RoleQuery = (st', Some rs) ∧
    length rs = length ["a"; "bad"; "b"] ∧ ∀ v, EmbedOk v ∈ rs → length v = expected_dim nomic.
Proof. apply embed_batched_parity. lia. Defined.

Lemma embed_batched_textwise_witness :
  ∃ st' rs, io_embed_batched (0, Some fresh_cache) nomic ["a"; "bad"] 2 RoleQuery = (st', Some rs) ∧
    cache_faithful nomic vector_of ["search_query: a"; "search_query: bad"] st'.2 ∧
    Forall2 (λ t r, match vector_of (prefixed_text nomic RoleQuery t) with
                    | Some v => r = EmbedOk v | None => ∃ msg, r = EmbedFailed msg end) ["a"; "bad"] rs.
Proof.
  apply (embed_batched_textwise nomic RoleQuery vector_of (0, Some fresh_cache) ["a"; "bad"] 2
    ["search_query: a"; "search_query: bad"]).
  - lia.
  - apply nomic_textwise.
  - intros t v _ Hg. vm_compute in Hg. discriminate Hg.
  - intros t [->|[->|[]%elem_of_nil]%elem_of_cons]%elem_of_cons; [by left|by right; left].
  - intros t u [->|[->|[]%elem_of_nil]%elem_of_cons]%elem_of_cons
      [->|[->|[]%elem_of_nil]%elem_of_cons]%elem_of_cons E; try reflexivity; vm_compute in E; discriminate E.
Defined.

Lemma embed_cache_roundtrip_witness :
  cache_get (cache_put fresh_cache "k" [F32.one; F32.two]) "k" 2 = Some [F32.one; F32.two] ∧
  ∀ dim, dim ≠ 2 → cache_get (cache_put fresh_cache "k" [F32.one; F32.two]) "k" dim = None.
Proof.
  apply (embed_cache_roundtrip fresh_cache ∅ "k" [F32.one; F32.two]).
  - reflexivity.
  - reflexivity.
  - repeat constructor.
  - reflexivity.
Defined.
