(* ===== verification/Index.v ===== *)
(** * Index maintenance (src/src/store/lance/index.rs, src/src/store/vector_index.rs,
      src/src/store/lance/config.rs, the stateful cascade of src/src/store/lance/rollup.rs)

    Creating and extending the full-text and the two vector indexes of an open
    dataset handle, the adaptive partition count, compaction, and the merge
    cascade as steps of the store.  Lance's index operations are an interface
    beside [LanceOps], with the one law the store relies on: they move the head
    of the handle's branch to a version with the same rows. *)

From S2P Require Import Prelude F32 Model Schema Rollup Lance Store.

(** ** Configuration *)

Definition with_partitions (c : VectorIndexConfig) (n : Z) : VectorIndexConfig :=
  mkVectorIndexConfig n (vic_m c) (ef_construction c) (nprobes c) (refine_factor c).

(** What an index is built with: an inverted index, or IVF with HNSW graphs and
    scalar quantisation under cosine distance. *)
Inductive IndexParams : Type :=
| Inverted
| IvfHnswSq (num_partitions : Z) (num_edges ef_construction : nat).

Definition build_vector_index_params (c : VectorIndexConfig) : IndexParams :=
  IvfHnswSq (num_partitions c) (vic_m c) (ef_construction c).

Definition FTS_INDEX_NAME : string := "content_fts".
Definition VECTOR_INDEX_NAME : string := "embedding_ann".
Definition CLUSTERING_INDEX_NAME : string := "clustering_embedding_ann".

(** ** Lance's index operations *)

(** What the manifest of a version says of an index segment and of a fragment:
    [fragment_bitmap] holds the ids of the fragments the segment covers. *)
Record IndexMetadata := mkIndexMetadata {
  im_uuid : string;
  im_name : string;
  im_fragment_bitmap : option (gset N);
}.
Record Fragment := mkFragment {
  fr_id : N;
  fr_physical_rows : option N;
  fr_num_deletions : result string N;
}.

Class LanceIndexOps (W H : Type) := {
  l_load_indices : W → H → result string (list IndexMetadata);
  l_create_index : W → H → string → string → IndexParams → W * result string H;
  l_optimize_append : W → H → W * result string H;
  l_optimize_merge : nat → W → H → W * result string H;
  l_count_rows : W → H → result string nat;
  l_fragments : H → list Fragment;
  l_compact_files : W → H → W * result string H;
}.

(** A step of Lance that changes no row. *)
Definition same_rows_step {W H} `{LanceOps W H, LanceView W H} (f : W → H → W * result string H) : Prop :=
  ∀ w h w' r, f w h = (w', r) →
    v_tags w' = v_tags w ∧
    match r with
    | Ok h' => head_moved w w' h h' ∧ v_rows h' = v_rows h ∧ (l_version h ≤ l_version h')%N
    | Err _ => same_heads w w'
    end.

Class LanceIndexLaws (W H : Type) `{LanceOps W H, LanceView W H, LanceIndexOps W H} : Prop := {
  law_create_index column name p : same_rows_step (λ w h, l_create_index w h column name p);
  law_optimize_append : same_rows_step l_optimize_append;
  law_optimize_merge n : same_rows_step (l_optimize_merge n);
  law_count_rows w h n : l_count_rows w h = Ok n → n = length (v_rows h);
}.

(** ** The operations *)

Section index.
Context {W H : Type} `{LanceOps W H, LanceIndexOps W H} `{ByteSerialize} {HD : HashIter string (DatasetCache.DatasetCacheEntry H)}.

(** [indices.iter().any(|idx| idx.name == name)]. *)
Definition has_index (name : string) (indices : list IndexMetadata) : bool :=
  existsb (λ idx, String.eqb name (im_name idx)) indices.

(** Each advances the handle [ds] of the dataset at [path] and returns its version. *)
Definition io_ensure_fts_index_on_dataset (path : string) (ds : H) : io W H (H * N) :=
  let! indices := io_read path "load indices failed: " (λ w, l_load_indices w ds) in
  let has_fts := has_index FTS_INDEX_NAME indices in
  let! ds := if negb has_fts
             then io_write path "FTS index creation failed: "
                    (λ w, l_create_index w ds "content" FTS_INDEX_NAME Inverted)
             else io_write path "FTS index optimize failed: " (λ w, l_optimize_append w ds) in
  io_ret (ds, l_version ds).

(** The handle in the cache is the one a caller advances; the others of the
    cache are not touched. *)
Definition io_advance_cached (domain : string) (ds : H) : io W H unit :=
  io_modify (λ s, set_cache s (DatasetCache.mkCache
    (alter (λ e, DatasetCache.mkEntry ds (DatasetCache.ce_last_access e)) domain (DatasetCache.dc_datasets (st_cache s)))
    (DatasetCache.dc_max (st_cache s)) (DatasetCache.dc_seq (st_cache s)))).

(** Both work on the handle the store keeps for the domain. *)
Definition io_ensure_fts_index_created (domain branch : string) : io W H N :=
  ensure_writable;!
  let path := dataset_path domain in
  let! ds := io_open_dataset domain branch in
  let! indices := io_read path "load indices failed: " (λ w, l_load_indices w ds) in
  let has_fts := has_index FTS_INDEX_NAME indices in
  let! ds := if negb has_fts
             then io_write path "FTS index creation failed: "
                    (λ w, l_create_index w ds "content" FTS_INDEX_NAME Inverted)
             else io_ret ds in
  io_advance_cached domain ds;!
  io_ret (l_version ds).

Definition io_ensure_fts_index (domain branch : string) : io W H N :=
  ensure_writable;!
  let path := dataset_path domain in
  let! ds := io_open_dataset domain branch in
  let! indices := io_read path "load indices failed: " (λ w, l_load_indices w ds) in
  let has_fts := has_index FTS_INDEX_NAME indices in
  let! ds := if negb has_fts
             then io_write path "FTS index creation failed: "
                    (λ w, l_create_index w ds "content" FTS_INDEX_NAME Inverted)
             else io_write path "FTS index optimize failed: " (λ w, l_optimize_append w ds) in
  io_advance_cached domain ds;!
  io_ret (l_version ds).

Definition ensure_ann (name column create_msg optimize_msg : string) (path : string) (ds : H)
    (config : VectorIndexConfig) (force : bool) : io W H (H * N) :=
  let! indices := io_read path "load indices failed: " (λ w, l_load_indices w ds) in
  let has_idx := has_index name indices in
  if negb has_idx then
    let! row_count := io_read path "count rows failed: " (λ w, l_count_rows w ds) in
    let num_partitions := recommended_num_partitions config (Z.of_nat row_count) in
    let ivf_min_training_vectors := 256%Z in
    let min_rows_for_index := if force then num_partitions else Z.max num_partitions ivf_min_training_vectors in
    if (Z.of_nat row_count <? min_rows_for_index)%Z then io_ret (ds, l_version ds)
    else
      let params := build_vector_index_params (with_partitions config num_partitions) in
      let! ds := io_write path create_msg (λ w, l_create_index w ds column name params) in
      io_ret (ds, l_version ds)
  else
    let! ds := io_write path optimize_msg (λ w, l_optimize_append w ds) in
    io_ret (ds, l_version ds).

Definition io_ensure_vector_index : string → H → VectorIndexConfig → bool → io W H (H * N) :=
  ensure_ann VECTOR_INDEX_NAME "embedding" "vector index creation failed: " "vector index optimize failed: ".
Definition io_ensure_clustering_vector_index : string → H → VectorIndexConfig → bool → io W H (H * N) :=
  ensure_ann CLUSTERING_INDEX_NAME "clustering_embedding" "clustering vector index creation failed: "
    "clustering vector index optimize failed: ".

Definition COMPACT_FRAGMENT_THRESHOLD : nat := 16.

Definition io_compact_data (path : string) (ds : H) (force : bool) : io W H H :=
  if negb force && (length (l_fragments ds) <=? COMPACT_FRAGMENT_THRESHOLD)%nat then io_ret ds
  else io_write path "data compaction failed: " (λ w, l_compact_files w ds).

(** The cascade on the store: [io_incremental_cascade], with the directory it
    works on.  A failed merge leaves what the merges before it wrote. *)
Fixpoint cascade_steps (n : nat) (path : string) (ds : H) : io W H H :=
  match n with
  | 0 => io_ret ds
  | S n =>
      let! indices := io_read path "load indices in cascade failed: " (λ w, l_load_indices w ds) in
      if (length indices <? 3)%nat then io_ret ds
      else
        let! ds := io_write path "cascade merge(3) failed: " (λ w, l_optimize_merge 3 w ds) in
        cascade_steps n path ds
  end.

Definition io_cascade (path : string) (ds : H) (delta_count : nat) : io W H (H * (nat * nat)) :=
  let! indices_before := io_read path "load indices failed: " (λ w, l_load_indices w ds) in
  let count_before := length indices_before in
  let needed := merges_needed delta_count in
  if (needed =? 0)%nat then io_ret (ds, (count_before, count_before))
  else
    let! ds := cascade_steps needed path ds in
    let! indices_after := io_read path "load indices after cascade failed: " (λ w, l_load_indices w ds) in
    io_ret (ds, (count_before, length indices_after)).
End index.

(** ** They change no row, no tag and no other branch *)

Section index_facts.
Context {W H : Type} `{LanceLaws W H} {HI : LanceIndexOps W H} {HIL : LanceIndexLaws W H} `{ByteSerialize}.
Implicit Types s : LanceStore W H.

(** [s'] has the tags of [s], the rows of each branch, and the heads of the
    branches other than that of [ds]; the directories at other paths are the
    same. *)
Definition rows_kept (path : string) (b : option string) (s s' : LanceStore W H) : Prop :=
  touches path s s' ∧ v_tags (dir_of s' path) = v_tags (dir_of s path) ∧
  (∀ c, c ≠ b → v_head (dir_of s' path) c = v_head (dir_of s path) c) ∧
  ∀ h, v_head (dir_of s path) b = Some h →
    ∃ h', v_head (dir_of s' path) b = Some h' ∧ v_rows h' = v_rows h ∧ v_branch h' = v_branch h
          ∧ (l_version h ≤ l_version h')%N.

#[export] Instance rows_kept_refl path b : Reflexive (rows_kept path b).
Proof. intros s. split_and!; [reflexivity|done|done|]. intros h Hh. exists h. split_and!; [done..|lia]. Qed.
#[export] Instance rows_kept_trans path b : Transitive (rows_kept path b).
Proof.
  intros s1 s2 s3 (T1 & G1 & O1 & K1) (T2 & G2 & O2 & K2). split; [by etrans|]. split; [congruence|].
  split; [intros c Hc; by rewrite O2, O1|]. intros h (h2 & Hh2 & ? & ? & ?)%K1.
  destruct (K2 h2 Hh2) as (h3 & ? & ? & ? & ?). exists h3. split_and!; [done|congruence|congruence|lia].
Qed.

(** A handle at the head of its branch, and what an operation leaves of it. *)
Definition at_head (path : string) (b : option string) (s : LanceStore W H) (ds : H) : Prop :=
  v_head (dir_of s path) b = Some ds ∧ v_branch ds = b.

Lemma write_same_rows path m f b s s' ds r :
  same_rows_step f → at_head path b s ds → io_write path m (λ w, f w ds) s = (s', r) →
  rows_kept path b s s' ∧ ∀ ds', r = Ok ds' → at_head path b s' ds' ∧ (l_version ds ≤ l_version ds')%N.
Proof.
  intros Hf [Hh Hb] Hw. pose proof (io_write_touches _ _ _ _ _ _ Hw) as Ht.
  apply io_write_inv in Hw as (w & r0 & Hl & -> & ->). destruct (Hf _ _ _ _ Hl) as [Hg Hr].
  unfold rows_kept, at_head. rewrite !dir_put. destruct r0 as [h'|e]; cbn.
  - destruct Hr as ((_ & Hbr & Hhd & Ho) & Hrows & Hv). rewrite Hb in *. split.
    + split_and!; [done|done|done|]. intros h Hh'. rewrite Hh in Hh'. injection Hh' as <-. exists h'.
      split_and!; [done..|congruence|done].
    + intros ds' [= <-]. by split.
  - destruct Hr as [_ Hs]. split; [|done]. split_and!; [done|done|by intros; apply Hs|].
    intros h Hh'. exists h. rewrite Hs. split_and!; [done..|lia].
Qed.

(** A step of the store that takes a handle at the head to one, whatever else
    it returns, and keeps the rows also when it fails. *)
Definition keeps_rows {A} (path : string) (b : option string) (ds : H) (get : A → H) (c : io W H A) : Prop :=
  ∀ s s' r, at_head path b s ds → c s = (s', r) →
    rows_kept path b s s' ∧ ∀ a, r = Ok a → at_head path b s' (get a) ∧ (l_version ds ≤ l_version (get a))%N.

Lemma keeps_ret {A} path b ds (get : A → H) a : get a = ds → keeps_rows path b ds get (io_ret a).
Proof. intros Ha s s' r Hh [= <- <-]. split; [reflexivity|]. intros a' [= <-]. rewrite Ha. split; [done|lia]. Qed.

Lemma keeps_read {A B} path b ds m (f : W → result string A) (k : A → io W H B) get :
  (∀ a, keeps_rows path b ds get (k a)) → keeps_rows path b ds get (io_bind (io_read path m f) k).
Proof.
  intros Hk s s' r Hh. unfold io_bind, io_read, io_lift. destruct (f (dir_of s path)) as [a|e]; cbn.
  - by apply Hk.
  - intros [= <- <-]. split; [reflexivity|done].
Qed.

Lemma keeps_bind {A B} path b ds (c : io W H A) (k : A → io W H B) get get' :
  keeps_rows path b ds get c → (∀ a, keeps_rows path b (get a) get' (k a)) →
  keeps_rows path b ds get' (io_bind c k).
Proof.
  intros Hc Hk s s' r Hh. unfold io_bind. destruct (c s) as [s1 r1] eqn:E. apply Hc in E as [K1 E]; [|done].
  destruct r1 as [a|e].
  - destruct (E a eq_refl) as [Hh1 Hv1]. intros Hr. apply Hk in Hr as [K2 E2]; [|done].
    split; [by etrans|]. intros a' Ha'. destruct (E2 a' Ha'). split; [done|lia].
  - intros [= <- <-]. by split.
Qed.

Lemma keeps_write path m f b ds : same_rows_step f → keeps_rows path b ds id (io_write path m (λ w, f w ds)).
Proof. intros Hf s s' r. by apply write_same_rows. Qed.

Lemma keeps_fts path b ds : keeps_rows path b ds fst (io_ensure_fts_index_on_dataset path ds).
Proof.
  apply keeps_read. intros indices. apply keeps_bind with (get := id); [|intros; by apply keeps_ret].
  destruct (negb _).
  - apply (keeps_write path _ (λ w h, l_create_index w h _ _ _)), law_create_index.
  - apply (keeps_write path _ l_optimize_append), law_optimize_append.
Qed.

Lemma keeps_ann name column m1 m2 path b ds config force :
  keeps_rows path b ds fst (ensure_ann name column m1 m2 path ds config force).
Proof.
  apply keeps_read. intros indices. cbv zeta. destruct (negb (has_index _ indices)).
  - apply keeps_read. intros rows. cbv zeta. destruct (_ <? _)%Z; [by apply keeps_ret|].
    apply keeps_bind with (get := id); [|intros; by apply keeps_ret].
    apply (keeps_write path _ (λ w h, l_create_index w h _ _ _)), law_create_index.
  - apply keeps_bind with (get := id); [|intros; by apply keeps_ret].
    apply (keeps_write path _ l_optimize_append), law_optimize_append.
Qed.

Lemma keeps_cascade_steps n path b ds : keeps_rows path b ds id (cascade_steps n path ds).
Proof.
  revert ds. induction n as [|n IH]; intros ds; [by apply keeps_ret|].
  apply keeps_read. intros indices. destruct (length indices <? 3)%nat; [by apply keeps_ret|].
  eapply keeps_bind; [apply (keeps_write path _ (l_optimize_merge 3)), law_optimize_merge|]. intros ds'. apply IH.
Qed.

Lemma keeps_cascade path b ds n : keeps_rows path b ds fst (io_cascade path ds n).
Proof.
  apply keeps_read. intros indices. cbv zeta. destruct (merges_needed n =? 0)%nat; [by apply keeps_ret|].
  apply keeps_bind with (get := id); [apply keeps_cascade_steps|]. intros ds'.
  apply keeps_read. intros after. by apply keeps_ret.
Qed.
End index_facts.

(** ** The cascade on the store refines the cascade on a value

    [io_incremental_cascade] of the file Rollup, on the pair of directory and
    handle. *)

Section cascade_refinement.
Context {W H : Type} `{LanceOps W H, LanceIndexOps W H}.

Definition pair_indices (wh : W * H) : result string (list IndexMetadata) := l_load_indices wh.1 wh.2.
Definition pair_merge (n : nat) (wh : W * H) : result string (W * H) :=
  match l_optimize_merge n wh.1 wh.2 with (w, Ok h) => Ok (w, h) | (_, Err e) => Err e end.

(** [io_merge_indices]. *)
Definition io_merge_indices (wh : W * H) : option (result StoreError ((W * H) * (nat * nat))) :=
  io_exponential_rollup pair_indices pair_merge wh 3.

Lemma io_read_pair {A} path m (f : W → result string A) s s' a :
  io_read path m f s = (s', Ok a) → s' = s ∧ f (dir_of s path) = Ok a.
Proof. unfold io_read, io_lift. destruct (f (dir_of s path)) as [x|]; cbn; intros E; [injection E as <- <-; by split|discriminate E]. Qed.

Lemma cascade_steps_refines n path ds s s' ds' :
  cascade_steps n path ds s = (s', Ok ds') →
  cascade_loop pair_indices pair_merge n (dir_of s path, ds) = Ok (dir_of s' path, ds').
Proof.
  revert ds s. induction n as [|n IH]; intros ds s; cbn [cascade_steps cascade_loop]; [by intros [= <- <-]|].
  intros (s1 & indices & [-> Hi]%io_read_pair & Hrun)%io_bind_ok. unfold load_or at 1.
  assert (pair_indices (dir_of s path, ds) = Ok indices) as -> by done. cbn -[Nat.ltb].
  destruct (length indices <? 3)%nat; [by injection Hrun as <- <-|].
  apply io_bind_ok in Hrun as (s2 & h & (w & Hw & ->)%io_write_ok & Hrun). 
  assert (pair_merge 3 (dir_of s path, ds) = Ok (w, h)) as -> by (unfold pair_merge; cbn; by rewrite Hw). cbn.
  apply IH in Hrun. by rewrite dir_put in Hrun.
Qed.

(** So a cascade of the store that succeeds is the cascade of Rollup on the
    directory and the handle, with the same counts. *)
Lemma io_cascade_refines path ds n s s' ds' counts :
  io_cascade path ds n s = (s', Ok (ds', counts)) →
  io_incremental_cascade pair_indices pair_merge (dir_of s path, ds) n = Ok ((dir_of s' path, ds'), counts).
Proof.
  unfold io_cascade, io_incremental_cascade, load_or.
  intros (s1 & before & [-> Hb]%io_read_pair & Hrun)%io_bind_ok.
  assert (pair_indices (dir_of s path, ds) = Ok before) as -> by done. cbn -[merges_needed].
  destruct (merges_needed n =? 0)%nat; [by injection Hrun as <- <- <-|].
  apply io_bind_ok in Hrun as (s2 & h & Hsteps%cascade_steps_refines & Hrun).
  apply io_bind_ok in Hrun as (s3 & after & [-> Ha]%io_read_pair & [= <- <- <-]).
  rewrite Hsteps. cbn. assert (pair_indices (dir_of s2 path, h) = Ok after) as -> by done. done.
Qed.
End cascade_refinement.

(** What Lance does with tags and heads where the other laws are silent: a
    failed creation and a compaction of files change neither, and a removal
    that fails half-way makes no tag. *)
Class LanceFrame (W H : Type) `{LanceOps W H, LanceView W H, LanceIndexOps W H} : Prop := {
  law_create_err w w' e : l_create w = (w', Err e) → v_tags w' = v_tags w ∧ same_heads w w';
  law_compact_files : same_rows_step l_compact_files;
  law_remove_err w w' e : l_remove w = (w', Err e) → v_tags w' ⊆ v_tags w;
}.

(** ** A dataset with indexes

    On the small dataset: building, merging and compacting write a version
    with the same rows; the index list is empty. *)

Module RefIndex.
Import RefLance.

Definition rewrite (w : option dir) (h : handle) : option dir * result string handle := commit_version w h (rh_rows h).

#[export] Instance index_ops : LanceIndexOps (option dir) handle := {|
  l_load_indices _ _ := Ok []; l_create_index w h _ _ _ := rewrite w h; l_optimize_append := rewrite;
  l_optimize_merge _ := rewrite; l_count_rows _ h := Ok (length (rh_rows h)); l_fragments _ := [mkFragment 0 None (Ok 0%N)];
  l_compact_files := rewrite |}.

Lemma rewrite_same_rows : same_rows_step rewrite.
Proof.
  intros w h w' [h'|e] Hr; unfold rewrite in Hr.
  - apply commit_version_ok in Hr as (? & ? & ->). split_and!; [done|done|done|cbn; lia].
  - apply commit_version_err in Hr as ->. split; [done|apply same_heads_refl].
Qed.

#[export] Instance index_laws : LanceIndexLaws (option dir) handle.
Proof. split; [intros; apply rewrite_same_rows|apply rewrite_same_rows|intros; apply rewrite_same_rows|by intros w h n [= <-]]. Qed.
#[export] Instance frame : LanceFrame (option dir) handle.
Proof.
  split.
  - intros [d|] w' e; cbn; [|done]. by intros [= <- _].
  - exact rewrite_same_rows.
  - by intros w w' e [= <-].
Qed.
End RefIndex.

Import RefLance RefIndex.

(** Nine indexed commits: two merges are due, and the list they work on is read
    before and after. *)
Lemma io_cascade_refines_witness :
  let s := put_dir "p" (create None).1 (new_store "" 1 ∅) in
  let ds := mkHandle None 1 [] in
  let '(s', r) := io_cascade "p" ds 9 s in
  match r with
  | Ok (ds', counts) => io_incremental_cascade pair_indices pair_merge (dir_of s "p", ds) 9 = Ok ((dir_of s' "p", ds'), counts)
  | Err _ => False
  end.
Proof.
  cbn zeta. set (s := put_dir _ _ _). destruct (io_cascade "p" (mkHandle None 1 []) 9 s) as [s' [[ds' counts]|e]] eqn:Hc.
  - exact (io_cascade_refines _ _ _ _ _ _ _ Hc).
  - exfalso. refute_as (λ x, is_ok x.2) in Hc.
Defined.
