(* ===== verification/Maintain.v ===== *)
(** * Maintenance of a dataset directory (src/src/store/lance/mod.rs,
      src/src/store/lance/integrity.rs)

    Cleaning up old versions, with the index directory hidden from Lance while
    it runs; the set of index directories that tagged versions and heads refer
    to; pruning the other ones and the empty ones; putting back an index
    directory that a crash left hidden.  Lance's cleanup and the files of a
    dataset directory are an interface beside [LanceOps]. *)

From S2P Require Import Prelude F32 RustStr Model LayerIdx Schema Search Files Lance DatasetCache Store Commit Index.

(** ** What maintenance uses of Lance and of the file system *)

(** What [CleanupPolicyBuilder] is given; [None] leaves its default. *)
Record CleanupPolicy := mkCleanupPolicy {
  cp_retain_n_versions : nat;
  cp_delete_unverified : bool;
  cp_error_if_tagged_old_versions : bool;
  cp_clean_referenced_branches : option bool;
}.

(** [l_entries] is the content of the dataset directory as std::fs shows it,
    [l_put_entries] the directory after calls of std::fs; [l_fs] says which of
    these fail in the directory of a name, [""] being the base directory. *)
Class LanceMaintOps (W H : Type) := {
  l_retain_n_versions : nat → W → H → result string unit;
  l_cleanup_with_policy : CleanupPolicy → W → H → W * result string unit;
  l_entries : W → tree;
  l_put_entries : tree → W → W;
  l_fs : string → FsFaults;
}.

Definition INDICES : string := "_indices".
Definition INDICES_BACKUP : string := "_indices_backup_fixb".

(** Lance's index files are in [_indices] and nowhere else: what is done to that
    directory leaves tags, heads and their rows; so does a cleanup, which
    drops old versions that nothing refers to.  A cleanup makes no new file or
    directory, and does not know the name the index directory is hidden under. *)
Class LanceMaintLaws (W H : Type) `{LanceOps W H, LanceView W H, LanceVersions W H, LanceMaintOps W H} : Prop := {
  law_entries_put t w : l_exists w = true → l_entries (l_put_entries t w) = t;
  law_entries_absent w : l_exists w = false → l_entries w = ∅;
  law_put_entries t w :
    (∀ x, x ≠ INDICES → x ≠ INDICES_BACKUP → t !! x = l_entries w !! x) →
    v_tags (l_put_entries t w) = v_tags w ∧ same_heads w (l_put_entries t w) ∧
    ∀ b v, v_version (l_put_entries t w) b v = v_version w b v;
  law_cleanup p w h w' r : l_cleanup_with_policy p w h = (w', r) → v_tags w' = v_tags w ∧ same_heads w w' ∧ keeps w w';
  law_cleanup_entries p w h w' r : l_cleanup_with_policy p w h = (w', r) →
    l_entries w' !! INDICES_BACKUP = l_entries w !! INDICES_BACKUP ∧
    ∀ x, l_entries w !! x = None → l_entries w' !! x = None;
}.

Section maintain.
Context {W H : Type} `{LanceOps W H, LanceIndexOps W H, LanceMaintOps W H} `{ByteSerialize}
        {HD : HashIter string (DatasetCacheEntry H)} {HT : HashIter string TagContents} {HB : HashIter string (list N)}.

(** The files of a dataset directory, and a std::fs call that changes them,
    whose error is a value. *)
Definition io_tree (path : string) : io W H tree := λ s, (s, Ok (l_entries (dir_of s path))).
Definition io_fs (path : string) (f : FsFaults → tree → tree * result string unit) : io W H (result string unit) := λ s,
  let '(t, r) := f (l_fs path) (l_entries (dir_of s path)) in
  (put_dir path (l_put_entries t (dir_of s path)) s, Ok r).

(** ** The index directories in use *)

(** What [if strict { return Err(..) }] makes of an error: in the lenient
    variant the value so far is kept. *)
Definition soft {A} (strict : bool) (a : A) (c : io W H A) : io W H A := if strict then c else io_or a c.

(** The uuids of the indexes of one snapshot, added to those found before. *)
Definition add_uuids (strict : bool) (path err : string) (ds : H) (live : gset string) : io W H (gset string) :=
  soft strict live (
    let! indices := io_read path err (λ w, l_load_indices w ds) in
    io_ret (list_to_set (map im_uuid indices) ∪ live)).

(** A branch-bound handle: the opened one for main. *)
Definition checkout_or_main (path err : string) (ds : H) (branch_name : string) : io W H H :=
  if String.eqb branch_name MAIN_BRANCH then io_ret ds
  else io_read path err (λ w, l_checkout_branch w ds branch_name).

Fixpoint add_branch_heads (strict : bool) (path : string) (ds : H) (branches : list string) (live : gset string)
    : io W H (gset string) :=
  match branches with
  | [] => io_ret live
  | branch_name :: branches =>
      let! live := soft strict live (
        let! branch_ds := checkout_or_main path
          ("collect UUIDs (strict): checkout_branch '" +:+ branch_name +:+ "' failed: ") ds branch_name in
        add_uuids strict path ("collect UUIDs (strict): load_indices failed for HEAD on branch '" +:+ branch_name +:+ "': ")
          branch_ds live) in
      add_branch_heads strict path ds branches live
  end.

Fixpoint add_versions (strict : bool) (path branch_name : string) (branch_ds : H) (versions : list N) (live : gset string)
    : io W H (gset string) :=
  match versions with
  | [] => io_ret live
  | version :: versions =>
      let! live := soft strict live (
        let! snapshot := io_read path ("collect UUIDs (strict): checkout version " +:+ pretty version +:+
                           " on branch '" +:+ branch_name +:+ "' failed: ") (λ w, l_checkout_version w branch_ds version) in
        add_uuids strict path ("collect UUIDs (strict): load_indices failed for version " +:+ pretty version +:+
                           " on branch '" +:+ branch_name +:+ "': ") snapshot live) in
      add_versions strict path branch_name branch_ds versions live
  end.

Fixpoint add_tagged (strict : bool) (path : string) (ds : H) (by_branch : list (string * list N)) (live : gset string)
    : io W H (gset string) :=
  match by_branch with
  | [] => io_ret live
  | (branch_name, versions) :: by_branch =>
      let! live := soft strict live (
        let! branch_ds := checkout_or_main path
          ("collect UUIDs (strict): checkout_branch '" +:+ branch_name +:+ "' for tagged versions failed: ") ds branch_name in
        add_versions strict path branch_name branch_ds versions live) in
      add_tagged strict path ds by_branch live
  end.

(** The tagged versions of each branch. *)
Definition tags_by_branch (tags : gmap string TagContents) : gmap string (list N) :=
  foldl (λ by_branch '(_, contents),
    let b := default MAIN_BRANCH (tc_branch contents) in
    <[b := default [] (by_branch !! b) ++ [tc_version contents]]> by_branch) ∅ (hash_iter tags).

Definition collect_live_index_uuids (domain : string) (strict : bool) : io W H (gset string) :=
  let path := dataset_path domain in
  let! s := io_get in
  if path_exists s path then
    let! ds := io_open_fresh path in
    let! tags := io_read path "collect UUIDs: tag list failed: " (λ w, l_list_tags w ds) in
    let by_branch := tags_by_branch tags in
    let! all_branches := io_list_branches domain in
    let! live := add_uuids strict path "collect UUIDs (strict): load_indices failed for HEAD on main: " ds ∅ in
    let! live := add_branch_heads strict path ds all_branches live in
    add_tagged strict path ds (hash_iter by_branch) live
  else io_ret ∅.

Definition io_collect_all_live_index_uuids (domain : string) : io W H (gset string) :=
  collect_live_index_uuids domain false.
Definition io_collect_all_live_index_uuids_strict (domain : string) : io W H (gset string) :=
  collect_live_index_uuids domain true.

(** ** Pruning *)

(** The loop over the entries of [_indices]: the directories chosen by
    [doomed] are removed; the number of those that could be. *)
Fixpoint remove_index_dirs (path : string) (doomed : string → node → bool) (entries : list (string * node)) (removed : nat)
    : io W H nat :=
  match entries with
  | [] => io_ret removed
  | (name, n) :: entries =>
      if is_dir n && doomed name n then
        let! r := io_fs path (λ ff t, fs_remove_dir_all ff t [INDICES; name]) in
        remove_index_dirs path doomed entries (if is_ok r then removed + 1 else removed)
      else remove_index_dirs path doomed entries removed
  end.

Definition prune_index_dirs (path err : string) (doomed : string → node → bool) : io W H nat :=
  let! t := io_tree path in
  let! entries := io_lift err (fs_read_dir (l_fs path) t [INDICES]) in
  remove_index_dirs path doomed entries 0.

Definition io_prune_stale_index_dirs (domain branch : string) : io W H nat :=
  ensure_writable;!
  let path := dataset_path domain in
  let! t := io_tree path in
  if fs_exists t [INDICES] then
    let! live_uuids := io_collect_all_live_index_uuids_strict domain in
    prune_index_dirs path "prune stale: read_dir failed: " (λ dir_uuid _, bool_decide (dir_uuid ∉ live_uuids))
  else io_ret 0.

(** Whether the listing of a directory shows a file. *)
Definition lists_file (ff : FsFaults) (p : fpath) (n : node) : bool :=
  match ff_read_dir ff p with
  | Some _ => false
  | None => existsb (λ '(x, m), negb (ff_entry ff p x) && is_file m) (map_to_list (entries_of n))
  end.

Definition io_prune_empty_index_dirs (domain : string) : io W H nat :=
  ensure_writable;!
  let path := dataset_path domain in
  let! t := io_tree path in
  if fs_exists t [INDICES] then
    prune_index_dirs path "prune: read_dir failed: " (λ name n,
      let dir_path := [INDICES; name] in
      negb (if negb (lists_file (l_fs path) dir_path n) then has_files (l_fs path) dir_path n else true))
  else io_ret 0.

(** ** Hiding the index directory *)

Fixpoint move_entries (path : string) (from to_ : fpath) (names : list string) : io W H unit :=
  match names with
  | [] => io_ret tt
  | x :: names =>
      io_fs path (λ ff t, fs_rename ff t (from ++ [x]) (to_ ++ [x]));!
      move_entries path from to_ names
  end.

(** [if let Ok(entries) = read_dir(from) { for entry { let _ = rename(..) } }] *)
Definition move_all (path : string) (from to_ : fpath) : io W H unit :=
  let! t := io_tree path in
  match fs_read_dir (l_fs path) t from with
  | Ok entries => move_entries path from to_ entries.*1
  | Err _ => io_ret tt
  end.

(** Whether [_indices] has been hidden. *)
Definition hide_index_dir (domain err : string) (mode : CleanupMode) : io W H bool :=
  let path := dataset_path domain in
  let! has_rebuild_branches :=
    io_or false (let! branches := io_list_branches domain in io_ret (existsb is_compact_rebuild_branch branches)) in
  let! t := io_tree path in
  if hide_indices mode && has_rebuild_branches && fs_exists t [INDICES] then
    let! r := io_fs path (λ ff t, fs_rename ff t [INDICES] [INDICES_BACKUP]) in
    io_lift err r;!
    io_ret true
  else io_ret false.

Definition restore_index_dir (path err : string) : io W H unit :=
  let! t := io_tree path in
  (if fs_exists t [INDICES] then
     move_all path [INDICES] [INDICES_BACKUP];!
     io_fs path (λ ff t, fs_remove_dir ff t [INDICES]);!
     io_ret tt
   else io_ret tt);!
  let! r := io_fs path (λ ff t, fs_rename ff t [INDICES_BACKUP] [INDICES]) in
  io_lift err r.

(** The texts in which the two cleanups differ. *)
Record CleanupText := mkCleanupText { ct_hide : string; ct_policy : string; ct_restore : string; ct_cleanup : string }.

(** The part the two cleanups share.  What Lance's cleanup returns is looked
    at after the index directory is back. *)
Definition cleanup_versions (text : CleanupText) (n : nat) (domain : string) : io W H unit :=
  let path := dataset_path domain in
  let! ds := io_open_fresh path in
  let! s := io_get in
  let mode := cleanup_mode s in
  let! hid_indices := hide_index_dir domain (ct_hide text) mode in
  io_read path (ct_policy text) (λ w, l_retain_n_versions n w ds);!
  let policy := mkCleanupPolicy n true false
                  (if disable_clean_referenced_branches mode then Some false else None) in
  let! cleanup_result := (λ s, let '(w, r) := l_cleanup_with_policy policy (dir_of s path) ds in (put_dir path w s, Ok r)) in
  (if (hid_indices : bool) then restore_index_dir path (ct_restore text) else io_ret tt);!
  io_lift (ct_cleanup text) cleanup_result.

Definition old_text : CleanupText :=
  mkCleanupText "cleanup old: failed to move _indices to backup: " "cleanup policy build failed: "
    "cleanup old: failed to restore _indices from backup: " "version cleanup failed: ".
Definition aggressive_text : CleanupText :=
  mkCleanupText "aggressive cleanup: failed to move _indices to backup: " "aggressive cleanup policy build failed: "
    "aggressive cleanup: failed to restore _indices from backup: " "aggressive cleanup failed: ".

Definition io_cleanup_old_versions (domain branch : string) : io W H unit :=
  ensure_writable;!
  let! s := io_get in
  if path_exists s (dataset_path domain) then cleanup_versions old_text 3 domain else io_ret tt.

Definition io_cleanup_aggressive (domain branch : string) : io W H unit :=
  ensure_writable;!
  let! s := io_get in
  if path_exists s (dataset_path domain) then
    cleanup_versions aggressive_text 1 domain;!
    io_or 0 (io_prune_stale_index_dirs domain branch);!
    io_or 0 (io_prune_empty_index_dirs domain);!
    io_ret tt
  else io_ret tt.

(** ** After a crash *)

(** [path.extension() == Some("lance")] of a file name. *)
Fixpoint after_last_dot (s : string) : option string :=
  match s with
  | EmptyString => None
  | String c s => match after_last_dot s with
                  | Some e => Some e
                  | None => if Ascii.eqb c "." then Some s else None
                  end
  end.
Definition extension (name : string) : option string :=
  match name with
  | EmptyString => None
  | String _ rest => after_last_dot rest
  end.

(** One dataset directory of [recover_stranded_index_backups]. *)
Definition recover_index_dir (ff : FsFaults) (t : tree) : tree :=
  if fs_exists t [INDICES_BACKUP] then
    if fs_exists t [INDICES] then
      let t := match fs_read_dir ff t [INDICES_BACKUP] with
               | Ok items => foldl (λ t x, fst (fs_rename ff t [INDICES_BACKUP; x] [INDICES; x])) t items.*1
               | Err _ => t
               end in
      fst (fs_remove_dir ff t [INDICES_BACKUP])
    else fst (fs_rename ff t [INDICES_BACKUP] [INDICES])
  else t.

Definition recover_stranded_index_backups (disk : gmap string W) : gmap string W :=
  match ff_read_dir (l_fs "") [] with
  | Some _ => disk
  | None =>
      map_imap (λ name w, Some (
        if negb (ff_entry (l_fs "") [] name) && bool_decide (extension name = Some "lance") && l_exists w
        then l_put_entries (recover_index_dir (l_fs name) (l_entries w)) w
        else w)) disk
  end.

(** [LanceStore::new]. *)
Definition open_store (base_dir : string) (dim : nat) (disk : gmap string W) : LanceStore W H :=
  new_store base_dir dim (recover_stranded_index_backups disk).
End maintain.

(** ** Steps within a relation

    [Within R c]: whatever it returns, [c] takes a state to one related to it.
    Composed the way the computations are. *)

Section within.
Context {W H : Type} `{LanceOps W H} (R : LanceStore W H → LanceStore W H → Prop) `{!PreOrder R}.

Class Within {A} (c : io W H A) : Prop := within_run s s' r : c s = (s', r) → R s s'.

#[export] Instance within_ret {A} (a : A) : Within (io_ret a).
Proof. intros s s' r [= <- _]. reflexivity. Qed.
#[export] Instance within_throw {A} e : Within (io_throw (A:=A) e).
Proof. intros s s' r [= <- _]. reflexivity. Qed.
#[export] Instance within_get : Within io_get.
Proof. intros s s' r [= <- _]. reflexivity. Qed.
#[export] Instance within_lift {A} m (x : result string A) : Within (io_lift m x).
Proof. intros s s' r [= <- _]. reflexivity. Qed.
#[export] Instance within_read {A} p m (f : W → result string A) : Within (io_read p m f).
Proof. intros s s' r [= <- _]. reflexivity. Qed.
#[export] Instance within_bind {A B} (c : io W H A) (k : A → io W H B) :
  Within c → (∀ a, Within (k a)) → Within (io_bind c k).
Proof.
  intros Hc Hk s s' r. unfold io_bind. destruct (c s) as [s1 [a|e]] eqn:E; apply Hc in E.
  - intros Hr. apply Hk in Hr. by etrans.
  - by intros [= <- _].
Qed.
#[export] Instance within_or {A} (a : A) (c : io W H A) : Within c → Within (io_or a c).
Proof. intros Hc s s' r. unfold io_or. destruct (c s) as [s1 [x|e]] eqn:E; apply Hc in E; by intros [= <- _]. Qed.
#[export] Instance within_ctx {A} m (c : io W H A) : Within c → Within (io_ctx m c).
Proof. intros Hc s s' r. unfold io_ctx. destruct (c s) as [s1 [x|e]] eqn:E; apply Hc in E; by intros [= <- _]. Qed.
#[export] Instance within_soft {A} strict (a : A) (c : io W H A) : Within c → Within (soft strict a c).
Proof. intros Hc. unfold soft. destruct strict; apply _. Qed.
End within.

#[export] Hint Extern 2 (Within _ (match ?x with _ => _ end)) => destruct x : typeclass_instances.

#[export] Instance quiet_preorder {W H} `{LanceOps W H} : PreOrder (quiet (W:=W) (H:=H)).
Proof. split; apply _. Qed.

(** ** What a collection finds *)

Section collect.
Context {W H : Type} `{LanceLaws W H} {HI : LanceIndexOps W H} {HM : LanceMaintOps W H} `{ByteSerialize}
        {HD : HashIter string (DatasetCacheEntry H)} {HT : HashIter string TagContents} {HB : HashIter string (list N)}.
Implicit Types s : LanceStore W H.

#[export] Instance quiet_tree p : Within quiet (io_tree (W:=W) (H:=H) p).
Proof. intros s s' r [= <- _]. reflexivity. Qed.
#[export] Instance quiet_open_fresh p : Within quiet (io_open_fresh (W:=W) (H:=H) p).
Proof. by intros s s' r [Hq _]%io_open_fresh_inv. Qed.
#[export] Instance quiet_list_branches d : Within quiet (io_list_branches (W:=W) (H:=H) d).
Proof. by intros s s' r [Hq _]%io_list_branches_inv. Qed.
#[export] Instance quiet_ensure_writable : Within quiet (ensure_writable (W:=W) (H:=H)).
Proof. by intros s s' r [-> _]%ensure_writable_inv. Qed.
#[export] Instance quiet_checkout p err (ds : H) b : Within quiet (checkout_or_main (W:=W) p err ds b).
Proof. unfold checkout_or_main. apply _. Qed.
#[export] Instance quiet_uuids strict p err (ds : H) live : Within quiet (add_uuids (W:=W) strict p err ds live).
Proof. unfold add_uuids. apply _. Qed.
#[export] Instance quiet_heads strict p (ds : H) bs live : Within quiet (add_branch_heads (W:=W) strict p ds bs live).
Proof. revert live. induction bs as [|b bs IH]; intros live; cbn [add_branch_heads]; apply _. Qed.
#[export] Instance quiet_versions strict p b (ds : H) vs live : Within quiet (add_versions (W:=W) strict p b ds vs live).
Proof. revert live. induction vs as [|v vs IH]; intros live; cbn [add_versions]; apply _. Qed.
#[export] Instance quiet_tagged strict p (ds : H) bb live : Within quiet (add_tagged (W:=W) strict p ds bb live).
Proof. revert live. induction bb as [|[b vs] bb IH]; intros live; cbn [add_tagged]; apply _. Qed.
#[export] Instance quiet_collect d strict : Within quiet (collect_live_index_uuids (W:=W) (H:=H) d strict).
Proof. unfold collect_live_index_uuids. apply _. Qed.

(** The uuids the manifest of a snapshot names, and the handle of a branch. *)
Definition uuids_of (w : W) (h : H) : gset string :=
  match l_load_indices w h with Ok indices => list_to_set (map im_uuid indices) | Err _ => ∅ end.
Definition branch_handle (w : W) (ds : H) (b : string) : result string H :=
  if String.eqb b MAIN_BRANCH then Ok ds else l_checkout_branch w ds b.

(** In the strict variant every collection step reads, adds, and succeeds only
    if everything it reads does. *)
Lemma add_uuids_ok p err ds live s s' live' :
  add_uuids true p err ds live s = (s', Ok live') →
  s' = s ∧ live' = uuids_of (dir_of s p) ds ∪ live.
Proof.
  unfold add_uuids, soft. intros (s1 & indices & [-> Hi]%io_read_ok & [= <- <-])%io_bind_ok.
  split; [done|]. unfold uuids_of. by rewrite Hi.
Qed.

Lemma checkout_ok p err ds b s s' h :
  checkout_or_main p err ds b s = (s', Ok h) → s' = s ∧ branch_handle (dir_of s p) ds b = Ok h.
Proof.
  unfold checkout_or_main, branch_handle. destruct (String.eqb b MAIN_BRANCH); [by intros [= <- <-]|].
  by intros [-> Hc]%io_read_ok.
Qed.

Lemma add_branch_heads_ok p ds bs live s s' live' :
  add_branch_heads true p ds bs live s = (s', Ok live') →
  s' = s ∧ (∀ b, b ∈ bs → ∃ h, branch_handle (dir_of s p) ds b = Ok h) ∧
  ∀ u, u ∈ live' ↔ u ∈ live ∨ ∃ b h, b ∈ bs ∧ branch_handle (dir_of s p) ds b = Ok h ∧ u ∈ uuids_of (dir_of s p) h.
Proof.
  revert live s. induction bs as [|b bs IH]; intros live s; cbn [add_branch_heads].
  { intros [= <- <-]. split; [done|]. split; [by intros b []%elem_of_nil|]. intros u. split; [by left|].
    intros [?|(b & h & []%elem_of_nil & _)]. done. }
  intros (s1 & live1 & Hb & Hr)%io_bind_ok. unfold soft in Hb.
  apply io_bind_ok in Hb as (s2 & h & [-> Hc]%checkout_ok & [-> ->]%add_uuids_ok).
  apply IH in Hr as (-> & Hall & Hr). split; [done|]. split.
  { intros b' [->|Hin]%elem_of_cons; [by exists h|by apply Hall]. }
  intros u. rewrite Hr, elem_of_union. split.
  - intros [[Hu|Hu]|(b' & h' & Hin & Hh & Hu)]; [|by left|].
    + right. exists b, h. by rewrite elem_of_cons; auto.
    + right. exists b', h'. by rewrite elem_of_cons; auto.
  - intros [?|(b' & h' & [->|Hin]%elem_of_cons & Hh & Hu)]; [by left; right|left; left; congruence|right; eauto].
Qed.

Lemma add_versions_ok p b ds vs live s s' live' :
  add_versions true p b ds vs live s = (s', Ok live') →
  s' = s ∧ (∀ v, v ∈ vs → ∃ h, l_checkout_version (dir_of s p) ds v = Ok h) ∧
  ∀ u, u ∈ live' ↔ u ∈ live ∨
    ∃ v h, v ∈ vs ∧ l_checkout_version (dir_of s p) ds v = Ok h ∧ u ∈ uuids_of (dir_of s p) h.
Proof.
  revert live s. induction vs as [|v vs IH]; intros live s; cbn [add_versions].
  { intros [= <- <-]. split; [done|]. split; [by intros v []%elem_of_nil|]. intros u. split; [by left|].
    intros [?|(v & h & []%elem_of_nil & _)]. done. }
  intros (s1 & live1 & Hb & Hr)%io_bind_ok. unfold soft in Hb.
  apply io_bind_ok in Hb as (s2 & h & [-> Hc]%io_read_ok & [-> ->]%add_uuids_ok).
  apply IH in Hr as (-> & Hall & Hr). split; [done|]. split.
  { intros v' [->|Hin]%elem_of_cons; [by exists h|by apply Hall]. }
  intros u. rewrite Hr, elem_of_union. split.
  - intros [[Hu|Hu]|(v' & h' & Hin & Hh & Hu)]; [|by left|].
    + right. exists v, h. by rewrite elem_of_cons; auto.
    + right. exists v', h'. by rewrite elem_of_cons; auto.
  - intros [?|(v' & h' & [->|Hin]%elem_of_cons & Hh & Hu)]; [by left; right|left; left; congruence|right; eauto].
Qed.

Lemma add_tagged_ok p ds bb live s s' live' :
  add_tagged true p ds bb live s = (s', Ok live') →
  s' = s ∧
  (∀ b vs v, (b, vs) ∈ bb → v ∈ vs → ∃ h h', branch_handle (dir_of s p) ds b = Ok h ∧ l_checkout_version (dir_of s p) h v = Ok h') ∧
  ∀ u, u ∈ live' ↔ u ∈ live ∨ ∃ b vs v h h', (b, vs) ∈ bb ∧ v ∈ vs ∧ branch_handle (dir_of s p) ds b = Ok h ∧
    l_checkout_version (dir_of s p) h v = Ok h' ∧ u ∈ uuids_of (dir_of s p) h'.
Proof.
  revert live s. induction bb as [|[b vs] bb IH]; intros live s; cbn [add_tagged].
  { intros [= <- <-]. split; [done|]. split; [by intros b vs v []%elem_of_nil|]. intros u. split; [by left|].
    intros [?|(? & ? & ? & ? & ? & []%elem_of_nil & _)]. done. }
  intros (s1 & live1 & Hb & Hr)%io_bind_ok. unfold soft in Hb.
  apply io_bind_ok in Hb as (s2 & h & [-> Hc]%checkout_ok & (-> & Hall1 & Hv)%add_versions_ok).
  apply IH in Hr as (-> & Hall & Hr). split; [done|]. split.
  { intros b' vs' v [[= -> ->]|Hin]%elem_of_cons Hiv; [|by eapply Hall].
    destruct (Hall1 v Hiv) as [h' Hh']. by exists h, h'. }
  intros u. rewrite Hr, Hv. split.
  - intros [[?|(v & h' & ? & ? & ?)]|(b' & vs' & v & h1 & h2 & ? & ?)]; [by left| |].
    + right. exists b, vs, v, h, h'. by rewrite elem_of_cons; auto.
    + right. exists b', vs', v, h1, h2. by rewrite elem_of_cons; auto.
  - intros [?|(b' & vs' & v & h1 & h2 & [[= -> ->]|Hin]%elem_of_cons & Hiv & Hh & Hh' & Hu)]; [by left; left| |].
    + left. right. exists v, h2. rewrite Hc in Hh. injection Hh as <-. by split_and!.
    + right. by exists b', vs', v, h1, h2.
Qed.

(** The grouping by branch loses no tag. *)
Lemma tags_by_branch_elem tags b v :
  (∃ vs, (b, vs) ∈ hash_iter (tags_by_branch tags) ∧ v ∈ vs) ↔
  ∃ t c, tags !! t = Some c ∧ b = default MAIN_BRANCH (tc_branch c) ∧ v = tc_version c.
Proof.
  unfold tags_by_branch. set (f := λ (m : gmap string (list N)) '(_, c), _).
  assert (Hf : ∀ l acc, (∃ vs, foldl f acc l !! b = Some vs ∧ v ∈ vs) ↔
    (∃ vs, acc !! b = Some vs ∧ v ∈ vs) ∨ ∃ t c, (t, c) ∈ l ∧ b = default MAIN_BRANCH (tc_branch c) ∧ v = tc_version c).
  { induction l as [|[t c] l IH]; intros acc; cbn [foldl].
    { split; [by left|]. intros [?|(? & ? & []%elem_of_nil & _)]. done. }
    rewrite IH. unfold f at 1. set (b0 := default MAIN_BRANCH (tc_branch c)). destruct (decide (b = b0)) as [->|Hne].
    - rewrite lookup_insert_eq. split.
      + intros [(vs & [= <-] & [Hv|Hv%list_elem_of_singleton]%elem_of_app)|(t' & c' & ? & ?)].
        * left. destruct (acc !! b0) as [vs|] eqn:E; [by exists vs|by apply elem_of_nil in Hv].
        * right. exists t, c. rewrite elem_of_cons. subst v. auto.
        * right. exists t', c'. by rewrite elem_of_cons; auto.
      + intros [(vs & E & Hv)|(t' & c' & [[= -> ->]|Hin]%elem_of_cons & Hb & ->)].
        * left. eexists. split; [done|]. rewrite E. cbn. apply elem_of_app. by left.
        * left. eexists. split; [done|]. apply elem_of_app. right. by apply list_elem_of_singleton.
        * right. by exists t', c'.
    - rewrite lookup_insert_ne by done. split.
      + intros [?|(t' & c' & ? & ?)]; [by left|]. right. exists t', c'. by rewrite elem_of_cons; auto.
      + intros [?|(t' & c' & [[= -> ->]|Hin]%elem_of_cons & Hb & ->)]; [by left|done|]. right. by exists t', c'. }
  setoid_rewrite hash_iter_elem. rewrite Hf. setoid_rewrite hash_iter_elem. split; [|by right].
  intros [(vs & Hn & _)|?]; [by rewrite lookup_empty in Hn|done].
Qed.
End collect.

(** ** What is in use

    The snapshots a directory must keep serving: the head of every branch and
    the version behind every tag. *)

Section in_use.
Context {W H : Type} `{LanceLaws W H} {HV : LanceVersions W H} {HVL : LanceVersionLaws W H}
        {HI : LanceIndexOps W H} {HM : LanceMaintOps W H} `{ByteSerialize}
        {HD : HashIter string (DatasetCacheEntry H)} {HT : HashIter string TagContents} {HB : HashIter string (list N)}.
Implicit Types s : LanceStore W H.

Definition in_use (w : W) (h : H) : Prop :=
  (∃ b, v_head w b = Some h) ∨ ∃ t c, v_tags w !! t = Some c ∧ v_version w (tc_branch c) (tc_version c) = Some h.

(** Lance keeps the name of the default branch for the default branch. *)
Record reserved_main (w : W) : Prop := {
  rm_head : v_head w (Some MAIN_BRANCH) = None;
  rm_tags t c : v_tags w !! t = Some c → tc_branch c ≠ Some MAIN_BRANCH;
}.

Lemma branch_handle_head w m b h :
  l_load w = Ok m → branch_handle w m b = Ok h → v_head w (want_branch b) = Some h ∧ v_branch h = want_branch b.
Proof.
  intros (_ & Hm & Hb)%law_load. unfold branch_handle, want_branch. destruct (String.eqb b MAIN_BRANCH).
  - by intros [= <-].
  - by intros ?%law_checkout_branch.
Qed.

Lemma want_branch_default c : c ≠ Some MAIN_BRANCH → want_branch (default MAIN_BRANCH c) = c.
Proof.
  intros Hc. destruct c as [b|]; [|done]. cbn [default from_option id]. unfold want_branch.
  by destruct (String.eqb_spec b MAIN_BRANCH) as [->|].
Qed.

(** The strict collection returns the uuids of the snapshots in use: all of
    them, and no other. *)
Lemma collect_strict_spec d s s' live :
  reserved_main (dir_of s (dataset_path d)) → path_exists s (dataset_path d) = true →
  collect_live_index_uuids d true s = (s', Ok live) →
  ∀ u, u ∈ live ↔ ∃ h, in_use (dir_of s (dataset_path d)) h ∧ u ∈ uuids_of (dir_of s (dataset_path d)) h.
Proof.
  set (w := dir_of s (dataset_path d)). intros [Hrh Hrt] Hx Hr. unfold collect_live_index_uuids in Hr.
  unfold io_bind at 1, io_get in Hr. rewrite Hx in Hr.
  apply io_bind_ok in Hr as (s1 & m & Ho & Hr). apply io_open_fresh_inv in Ho as [Hq1 Hl]. specialize (Hl m eq_refl).
  apply io_bind_ok in Hr as (s2 & tags & [-> Ht]%io_read_ok & Hr).
  apply io_bind_ok in Hr as (s3 & bs & Hbs & Hr). apply io_list_branches_inv in Hbs as [Hq3 Hbs]. specialize (Hbs bs eq_refl).
  assert (Hd3 : dir_of s3 (dataset_path d) = w) by (rewrite (quiet_dir s1 s3), (quiet_dir s s1) by done; done).
  assert (Hd1 : dir_of s1 (dataset_path d) = w) by (by rewrite (quiet_dir s s1)).
  unfold path_exists in Hbs. rewrite Hd1 in Hbs, Ht. change (l_exists w = true) in Hx. rewrite Hx in Hbs. destruct Hbs as (m' & Hm' & Hbs).
  fold w in Hl. rewrite Hl in Hm'. injection Hm' as <-. apply law_list_tags in Ht as ->.
  apply io_bind_ok in Hr as (s4 & live1 & [-> ->]%add_uuids_ok & Hr).
  apply io_bind_ok in Hr as (s5 & live2 & (-> & Hall & Hl2)%add_branch_heads_ok & (-> & Hallt & Hr)%add_tagged_ok).
  rewrite Hd3 in *. pose proof (law_list_branches _ _ _ Hbs) as Hlb. pose proof Hl as (_ & Hm & _)%law_load.
  assert (Htag : ∀ b vs v h h', (b, vs) ∈ hash_iter (tags_by_branch (v_tags w)) → v ∈ vs →
    branch_handle w m b = Ok h → l_checkout_version w h v = Ok h' →
    ∃ t c, v_tags w !! t = Some c ∧ v_version w (tc_branch c) (tc_version c) = Some h').
  { intros b vs v h h' Hb Hv Hh Hh'. destruct (proj1 (tags_by_branch_elem (v_tags w) b v)) as (t & c & Htc & -> & ->); [eauto|].
    exists t, c. split; [done|]. apply branch_handle_head in Hh as [_ Hbr]; [|done].
    rewrite want_branch_default in Hbr by eauto. rewrite <-Hbr. by apply law_checkout_version. }
  intros u. rewrite Hr, Hl2, elem_of_union. split.
  - intros [[[Hu|Hu]|(b & h & Hb & Hh & Hu)]|(b & vs & v & h & h' & Hb & Hv & Hh & Hh' & Hu)].
    + exists m. split; [left; by exists None|done].
    + by apply elem_of_empty in Hu.
    + exists h. split; [|done]. left. exists (want_branch b). by eapply branch_handle_head.
    + exists h'. split; [|done]. right. by eapply Htag.
  - intros (h & [[b Hh]|(t & c & Htc & Hv)] & Hu).
    + destruct b as [b|]; [|left; left; left; congruence]. left. right.
      assert (Hb : b ∈ bs) by (apply Hlb; by eexists). destruct (Hall b Hb) as [h0 Hh0].
      exists b, h0. split; [done|]. split; [done|]. apply branch_handle_head in Hh0 as [Hh0 _]; [|done].
      unfold want_branch in Hh0. destruct (String.eqb_spec b MAIN_BRANCH) as [->|]; [congruence|]. by simplify_eq.
    + right. destruct (proj2 (tags_by_branch_elem (v_tags w) (default MAIN_BRANCH (tc_branch c)) (tc_version c))) as (vs & Hb & Hin); [eauto|].
      destruct (Hallt _ _ _ Hb Hin) as (h1 & h2 & Hh1 & Hh2). eexists _, vs, _, h1, h2. split_and!; [done..|].
      pose proof Hh1 as [_ Hbr]%branch_handle_head; [|done]. rewrite want_branch_default in Hbr by eauto.
      apply law_checkout_version in Hh2. rewrite Hbr in Hh2. by simplify_eq.
Qed.
End in_use.

(** ** What maintenance leaves alone

    [tidied d s s']: outside the dataset directory of [d] nothing changes but
    the handle cache and the open counter; inside it the tags, the heads, the
    tagged versions and the existence of the dataset are the same. *)

Section tidy.
Context {W H : Type} `{LanceLaws W H} {HV : LanceVersions W H} {HI : LanceIndexOps W H} {HM : LanceMaintOps W H} {HML : LanceMaintLaws W H}
        `{ByteSerialize} {HD : HashIter string (DatasetCacheEntry H)} {HT : HashIter string TagContents}
        {HB : HashIter string (list N)}.
Implicit Types s : LanceStore W H.

Record tidied (d : string) s s' : Prop := {
  td_touches : touches (dataset_path d) s s';
  td_tags : v_tags (dir_of s' (dataset_path d)) = v_tags (dir_of s (dataset_path d));
  td_heads : same_heads (dir_of s (dataset_path d)) (dir_of s' (dataset_path d));
  td_keeps : keeps (dir_of s (dataset_path d)) (dir_of s' (dataset_path d));
}.

#[export] Instance tidied_preorder d : PreOrder (tidied d).
Proof.
  split; [intros s; by split|]. intros s1 s2 s3 [T1 G1 [X1 K1] V1] [T2 G2 [X2 K2] V2].
  split; [by etrans|congruence| |by etrans]. split; [congruence|]. intros b. by rewrite K2, K1.
Qed.

Lemma quiet_tidied d s s' : quiet s s' → tidied d s s'.
Proof. intros Hq. split; [by apply quiet_touches|..]; by rewrite (quiet_dir s s'). Qed.

Lemma within_quiet {A} d (c : io W H A) : Within quiet c → Within (tidied d) c.
Proof. intros Hc s s' r Hr. eapply quiet_tidied, Hc, Hr. Qed.

(** The entries that maintenance renames and removes. *)
Definition index_entries : list string := [INDICES; INDICES_BACKUP].

Lemma not_index_entry x : x ∉ index_entries ↔ x ≠ INDICES ∧ x ≠ INDICES_BACKUP.
Proof. unfold index_entries. rewrite !not_elem_of_cons. pose proof (not_elem_of_nil x). tauto. Qed.

Lemma tidied_fs d f :
  (∀ ff t, same_outside index_entries t (f ff t).1) → Within (tidied d) (io_fs (W:=W) (H:=H) (dataset_path d) f).
Proof.
  intros Hf s s' r. unfold io_fs. specialize (Hf (l_fs (dataset_path d)) (l_entries (dir_of s (dataset_path d)))).
  destruct (f _ _) as [t x]. cbn in Hf. intros [= <- _].
  destruct (law_put_entries t (dir_of s (dataset_path d))) as (Ht & Hh & Hv).
  { intros x0 Hx Hy. by apply Hf, not_index_entry. }
  split; [apply put_dir_touches|rewrite dir_put..]; [done|done|]. split; [by rewrite Ht|]. intros. by rewrite Hv.
Qed.

Lemma in_entries_l : INDICES ∈ index_entries. Proof. unfold index_entries. rewrite !elem_of_cons. auto. Qed.
Lemma in_entries_r : INDICES_BACKUP ∈ index_entries. Proof. unfold index_entries. rewrite !elem_of_cons. auto. Qed.

#[export] Instance tidied_rename d x p y q :
  x ∈ index_entries → y ∈ index_entries →
  Within (tidied d) (io_fs (W:=W) (H:=H) (dataset_path d) (λ ff t, fs_rename ff t (x :: p) (y :: q))).
Proof. intros. apply tidied_fs. intros. by apply fs_rename_outside. Qed.
#[export] Instance tidied_remove d x p :
  x ∈ index_entries → Within (tidied d) (io_fs (W:=W) (H:=H) (dataset_path d) (λ ff t, fs_remove_dir ff t (x :: p))).
Proof. intros. apply tidied_fs. intros. by apply fs_remove_dir_outside. Qed.
#[export] Instance tidied_remove_all d x p :
  x ∈ index_entries → Within (tidied d) (io_fs (W:=W) (H:=H) (dataset_path d) (λ ff t, fs_remove_dir_all ff t (x :: p))).
Proof. intros. apply tidied_fs. intros. by apply fs_remove_dir_all_outside. Qed.

#[export] Instance tidied_tree d p : Within (tidied d) (io_tree (W:=W) (H:=H) p).
Proof. apply within_quiet, _. Qed.
#[export] Instance tidied_ensure_writable d : Within (tidied d) (ensure_writable (W:=W) (H:=H)).
Proof. apply within_quiet, _. Qed.
#[export] Instance tidied_open_fresh d p : Within (tidied d) (io_open_fresh (W:=W) (H:=H) p).
Proof. apply within_quiet, _. Qed.
#[export] Instance tidied_list_branches d d' : Within (tidied d) (io_list_branches (W:=W) (H:=H) d').
Proof. apply within_quiet, _. Qed.
#[export] Instance tidied_collect d d' strict : Within (tidied d) (collect_live_index_uuids (W:=W) (H:=H) d' strict).
Proof. apply within_quiet, _. Qed.

#[local] Hint Resolve in_entries_l in_entries_r : typeclass_instances.
#[local] Hint Extern 0 (_ ∈ index_entries) => assumption : typeclass_instances.

#[export] Instance tidied_remove_dirs d doomed entries n :
  Within (tidied d) (remove_index_dirs (W:=W) (H:=H) (dataset_path d) doomed entries n).
Proof. revert n. induction entries as [|[x m] entries IH]; intros n; cbn [remove_index_dirs]; apply _. Qed.
#[export] Instance tidied_prune_dirs d err doomed :
  Within (tidied d) (prune_index_dirs (W:=W) (H:=H) (dataset_path d) err doomed).
Proof. unfold prune_index_dirs. apply _. Qed.
#[export] Instance tidied_prune_stale d b : Within (tidied d) (io_prune_stale_index_dirs (W:=W) (H:=H) d b).
Proof. unfold io_prune_stale_index_dirs, io_collect_all_live_index_uuids_strict. cbv zeta. apply _. Qed.
#[export] Instance tidied_prune_empty d : Within (tidied d) (io_prune_empty_index_dirs (W:=W) (H:=H) d).
Proof. unfold io_prune_empty_index_dirs. cbv zeta. apply _. Qed.
Lemma tidied_move_entries d x y names :
  x ∈ index_entries → y ∈ index_entries →
  Within (tidied d) (move_entries (W:=W) (H:=H) (dataset_path d) [x] [y] names).
Proof. intros. induction names as [|z names IH]; cbn [move_entries app]; apply _. Qed.
#[export] Instance tidied_hide d err mode : Within (tidied d) (hide_index_dir (W:=W) (H:=H) d err mode).
Proof. unfold hide_index_dir. cbv zeta. apply _. Qed.
#[export] Instance tidied_restore d err : Within (tidied d) (restore_index_dir (W:=W) (H:=H) (dataset_path d) err).
Proof.
  unfold restore_index_dir, move_all. 
  pose proof (λ n, tidied_move_entries d _ _ n in_entries_l in_entries_r). apply _.
Qed.
#[export] Instance tidied_cleanup d p (h : H) :
  Within (tidied d) (λ s : LanceStore W H, let '(w, r) := l_cleanup_with_policy p (dir_of s (dataset_path d)) h in
    (put_dir (dataset_path d) w s, Ok r)).
Proof.
  intros s s' r. destruct (l_cleanup_with_policy _ _ _) as [w x] eqn:E. intros [= <- _]. apply law_cleanup in E as (Ht & Hh & Hk).
  split; [apply put_dir_touches|by rewrite dir_put..].
Qed.
#[export] Instance tidied_cleanup_versions text n d : Within (tidied d) (cleanup_versions (W:=W) (H:=H) text n d).
Proof. unfold cleanup_versions. cbv zeta. apply _. Qed.
#[export] Instance tidied_cleanup_old d b : Within (tidied d) (io_cleanup_old_versions (W:=W) (H:=H) d b).
Proof. unfold io_cleanup_old_versions. apply _. Qed.
#[export] Instance tidied_cleanup_aggressive d b : Within (tidied d) (io_cleanup_aggressive (W:=W) (H:=H) d b).
Proof. unfold io_cleanup_aggressive. apply _. Qed.
End tidy.

(** ** Pruning *)

Section prune.
Context {W H : Type} `{LanceLaws W H} {HV : LanceVersions W H} {HVL : LanceVersionLaws W H}
        {HI : LanceIndexOps W H} {HM : LanceMaintOps W H} {HML : LanceMaintLaws W H}
        `{ByteSerialize} {HD : HashIter string (DatasetCacheEntry H)} {HT : HashIter string TagContents}
        {HB : HashIter string (list N)}.
Implicit Types s : LanceStore W H.

(** The node of an index directory. *)
Definition index_dir s (path uuid : string) : option node := lookup_path (l_entries (dir_of s path)) [INDICES; uuid].

Definition chosen (doomed : string → node → bool) (e : string * node) : bool := is_dir e.2 && doomed e.1 e.2.

Lemma remove_one_spec path x n s s' r :
  l_exists (dir_of s path) = true → index_dir s path x = Some n → is_dir n = true →
  io_fs path (λ ff t, fs_remove_dir_all ff t [INDICES; x]) s = (s', r) →
  l_exists (dir_of s' path) = true ∧
  (∃ a, r = Ok a ∧ is_ok a = removal_ok (l_fs path) [INDICES; x] n) ∧
  index_dir s' path x = removal_left (l_fs path) [INDICES; x] n ∧
  ∀ y, y ≠ x → index_dir s' path y = index_dir s path y.
Proof.
  intros Hx Hn Hd. unfold io_fs, index_dir in *.
  pose proof (fs_remove_dir_all_at (l_fs path) _ _ _ _ Hn Hd) as [Hl Hok].
  pose proof (λ y, fs_remove_dir_all_other (l_fs path) (l_entries (dir_of s path)) INDICES x y) as Ho.
  pose proof (fs_remove_dir_all_outside (l_fs path) index_entries (l_entries (dir_of s path)) INDICES [x] in_entries_l) as Hout.
  destruct (fs_remove_dir_all _ _ _) as [t a]. cbn in *. intros [= <- <-].
  destruct (law_put_entries t (dir_of s path)) as (_ & [He _] & _).
  { intros y Hy1 Hy2. by apply Hout, not_index_entry. }
  rewrite dir_put, He, law_entries_put by done. split_and!; [done|by exists a|done|done].
Qed.

Lemma remove_index_dirs_spec path doomed entries n s s' r :
  l_exists (dir_of s path) = true → NoDup entries.*1 →
  (∀ x m, (x, m) ∈ entries → index_dir s path x = Some m) →
  remove_index_dirs path doomed entries n s = (s', r) →
  r = Ok (n + length (filter (λ e, chosen doomed e = true ∧ removal_ok (l_fs path) [INDICES; e.1] e.2 = true) entries)) ∧
  (∀ x m, (x, m) ∈ entries → chosen doomed (x, m) = true → index_dir s' path x = removal_left (l_fs path) [INDICES; x] m) ∧
  ∀ x, (∀ m, (x, m) ∈ entries → chosen doomed (x, m) = false) → index_dir s' path x = index_dir s path x.
Proof.
  revert n s. induction entries as [|[x m] entries IH]; intros n s Hx Hnd Hin Hr; cbn [remove_index_dirs] in Hr.
  { injection Hr as <- <-. split; [cbn; f_equal; lia|]. split; [by intros x m []%elem_of_nil|done]. }
  apply NoDup_cons in Hnd as [Hnx Hnd]. assert (Hm : index_dir s path x = Some m) by (apply Hin, elem_of_cons; by left).
  assert (Hfresh : ∀ y k, (y, k) ∈ entries → y ≠ x).
  { intros y k Hy ->. apply Hnx, list_elem_of_fmap. by exists (x, k). }
  assert (Hc : chosen doomed (x, m) = is_dir m && doomed x m) by done. rewrite filter_cons, Hc. cbn [fst snd] in *.
  destruct (is_dir m && doomed x m) eqn:Ed.
  - apply andb_true_iff in Ed as [Edir Edoom]. unfold io_bind in Hr.
    destruct (io_fs _ _ s) as [s1 r1] eqn:E1. apply (remove_one_spec _ _ m) in E1 as (Hx1 & (a & -> & Ha) & Hleft & Hother); [|done..].
    apply IH in Hr as (-> & Hdoom & Hkeep); [|done|done|].
    2: { intros y k Hy. rewrite Hother; [|by eapply Hfresh]. apply Hin, elem_of_cons. by right. }
    rewrite Ha. split; [|split].
    + destruct (removal_ok _ _ _); case_decide; cbn [length]; f_equal; try lia; intuition congruence.
    + intros y k [[= -> ->]|Hy]%elem_of_cons; [|by apply Hdoom]. intros _. rewrite Hkeep; [done|].
      intros k' Hk'. by apply Hfresh in Hk'.
    + intros y Hy. rewrite Hkeep by (intros k Hk; apply Hy, elem_of_cons; by right). apply Hother. intros ->.
      specialize (Hy m). rewrite Hc in Hy. discriminate Hy. apply elem_of_cons. by left.
  - rewrite decide_False by (intros [? _]; congruence). apply IH in Hr as (-> & Hdoom & Hkeep); [|done|done|].
    2: { intros y k Hy. apply Hin, elem_of_cons. by right. }
    split; [done|]. split.
    + intros y k [[= -> ->]|Hy]%elem_of_cons; [congruence|by apply Hdoom].
    + intros y Hy. apply Hkeep. intros k Hk. apply Hy, elem_of_cons. by right.
Qed.

(** What a scan of [_indices] leaves of each entry. *)
Lemma prune_index_dirs_spec path err doomed s s' r :
  l_exists (dir_of s path) = true → prune_index_dirs path err doomed s = (s', r) →
  (∃ e, r = Err e ∧ s' = s) ∨
  ∃ entries, NoDup entries.*1 ∧
    (∀ x m, (x, m) ∈ entries ↔ index_dir s path x = Some m ∧ ff_entry (l_fs path) [INDICES] x = false) ∧
    r = Ok (length (filter (λ e, chosen doomed e = true ∧ removal_ok (l_fs path) [INDICES; e.1] e.2 = true) entries)) ∧
    (∀ x m, (x, m) ∈ entries → chosen doomed (x, m) = true → index_dir s' path x = removal_left (l_fs path) [INDICES; x] m) ∧
    ∀ x, (∀ m, (x, m) ∈ entries → chosen doomed (x, m) = false) → index_dir s' path x = index_dir s path x.
Proof.
  intros Hx Hr. unfold prune_index_dirs in Hr. unfold io_bind at 1, io_tree in Hr. unfold io_bind, io_lift in Hr.
  destruct (fs_read_dir _ _ _) as [entries|e] eqn:El; cbn [map_err] in Hr.
  - right. apply fs_read_dir_entries in El as [Hnd Hel]. exists entries. split; [done|]. split; [exact Hel|].
    apply remove_index_dirs_spec in Hr; [by rewrite Nat.add_0_l in Hr|done|done|]. intros y k Hy. by apply Hel.
  - injection Hr as <- <-. left. eauto.
Qed.

(** C23: pruning is safe and fails closed: whatever std::fs and Lance do, an index
    directory that the head of a branch or the version behind a tag refers to
    is left as it is; so are files, the tags, the heads and everything outside
    the domain's directory; a prune that returns an error has removed nothing;
    and one that succeeds without file system errors leaves no other index
    directory. *)
Theorem prune_keeps_indexes_in_use d b s s' r :
  reserved_main (dir_of s (dataset_path d)) →
  io_prune_stale_index_dirs d b s = (s', r) →
  let path := dataset_path d in
  tidied d s s' ∧
  (∀ e, r = Err e → ∀ x, index_dir s' path x = index_dir s path x) ∧
  (∀ h u, in_use (dir_of s path) h → u ∈ uuids_of (dir_of s path) h → index_dir s' path u = index_dir s path u) ∧
  (∀ x c, index_dir s path x = Some (File c) → index_dir s' path x = Some (File c)) ∧
  (∀ n x es, r = Ok n → l_fs path = no_faults → index_dir s' path x = Some (Dir es) →
     ∃ h, in_use (dir_of s path) h ∧ x ∈ uuids_of (dir_of s path) h).
Proof.
  intros Hrm Hr. cbv zeta. split; [by apply (_ : Within (tidied d) (io_prune_stale_index_dirs d b)) in Hr|].
  unfold io_prune_stale_index_dirs in Hr. unfold io_bind at 1 in Hr.
  destruct (ensure_writable s) as [s0 [[]|e]] eqn:Ew; apply ensure_writable_inv in Ew as [-> _].
  2: { injection Hr as <- <-. by split_and!. }
  unfold io_bind at 1, io_tree in Hr. destruct (fs_exists _ [INDICES]) eqn:Ex; unfold fs_exists in Ex.
  2: { injection Hr as <- <-. split_and!; [done..|]. intros n x es _ _ Hn. exfalso.
       unfold index_dir in Hn. rewrite lookup_path_2 in Hn. apply bool_decide_eq_false in Ex. rewrite lookup_path_1 in Ex.
       destruct (l_entries _ !! INDICES); [by destruct Ex|done]. }
  destruct (path_exists s (dataset_path d)) eqn:Epx.
  2: { exfalso. unfold path_exists in Epx. apply law_entries_absent in Epx. apply bool_decide_eq_true in Ex as [? Hi].
       rewrite lookup_path_1, Epx in Hi. done. }
  unfold io_bind at 1, io_collect_all_live_index_uuids_strict in Hr.
  destruct (collect_live_index_uuids d true s) as [s1 [live|e]] eqn:Ec; pose proof Ec as Hq; apply (_ : Within quiet (collect_live_index_uuids d true)) in Hq.
  2: { injection Hr as <- <-. assert (Hd : dir_of s1 (dataset_path d) = dir_of s (dataset_path d)) by by apply quiet_dir.
       unfold index_dir. rewrite Hd. by split_and!. }
  assert (Hd : dir_of s1 (dataset_path d) = dir_of s (dataset_path d)) by by apply quiet_dir.
  pose proof (collect_strict_spec _ _ _ _ Hrm Epx Ec) as Hlive.
  apply prune_index_dirs_spec in Hr as [(e & -> & ->)|(entries & Hnd & Hel & -> & Hdoom & Hkeep)];
    [unfold index_dir; rewrite Hd; by split_and!| |by rewrite Hd].
  assert (Hid : ∀ x, index_dir s1 (dataset_path d) x = index_dir s (dataset_path d) x) by (intros; unfold index_dir; by rewrite Hd).
  split; [done|]. split; [|split].
  - intros h u Hh Hu. rewrite Hkeep, Hid; [done|]. intros m _. unfold chosen. cbn.
    rewrite bool_decide_false; [apply andb_false_r|]. intros Hn. apply Hn, Hlive. eauto.
  - intros x c Hx. rewrite Hkeep, Hid; [done|]. intros m [Hm _]%Hel. rewrite Hid in Hm. simplify_eq. done.
  - intros n x es _ Hff Hx. destruct (decide (x ∈ live)) as [Hin|Hout]; [by apply Hlive|]. exfalso.
    destruct (index_dir s1 (dataset_path d) x) as [m|] eqn:Em.
    + assert (Hi : (x, m) ∈ entries) by (apply Hel; by rewrite Hff). destruct (is_dir m) eqn:Edir.
      * rewrite (Hdoom x m) in Hx; [|done|]. { unfold removal_left in Hx. by rewrite Hff in Hx. }
        unfold chosen. cbn. by rewrite Edir, bool_decide_true.
      * rewrite Hkeep, Em in Hx; [by injection Hx as ->|]. intros m' Hm'%Hel. destruct Hm' as [Hm' _]. rewrite Em in Hm'.
        injection Hm' as <-. unfold chosen. cbn. by rewrite Edir.
    + rewrite Hkeep, Em in Hx; [done|]. intros m' [Hm' _]%Hel. congruence.
Qed.
End prune.

(** ** Hiding and putting back *)

Section hide.
Context {W H : Type} `{LanceLaws W H} {HV : LanceVersions W H} {HI : LanceIndexOps W H} {HM : LanceMaintOps W H} {HML : LanceMaintLaws W H}
        `{ByteSerialize} {HD : HashIter string (DatasetCacheEntry H)} {HT : HashIter string TagContents}
        {HB : HashIter string (list N)}.
Implicit Types s : LanceStore W H.

Lemma io_list_branches_run d s m bs :
  path_exists s (dataset_path d) = true → l_load (dir_of s (dataset_path d)) = Ok m →
  l_list_branches (dir_of s (dataset_path d)) m = Ok bs → ∃ s', io_list_branches d s = (s', Ok bs) ∧ quiet s s'.
Proof.
  intros Hx Hm Hbs. destruct (io_list_branches d s) as [s' r] eqn:E. pose proof E as [Hq _]%io_list_branches_inv.
  exists s'. split; [|done]. f_equal. unfold io_list_branches, io_bind, io_get in E. rewrite Hx in E.
  destruct (io_open_fresh _ s) as [s1 r1] eqn:E1. unfold io_open_fresh, io_bind, io_modify in E1.
  apply io_read_inv in E1 as [-> ->]. change (dir_of (set_fresh_open_count s _) ?p) with (dir_of s p) in E. rewrite Hm in E. cbn in E.
  apply io_read_inv in E as [_ ->]. change (dir_of (set_fresh_open_count s _) ?p) with (dir_of s p). by rewrite Hbs.
Qed.

(** A std::fs call without faults, on a directory that is there. *)
Lemma io_fs_run path f s t r :
  l_exists (dir_of s path) = true → f (l_fs path) (l_entries (dir_of s path)) = (t, r) →
  same_outside index_entries (l_entries (dir_of s path)) t →
  ∃ s', io_fs path f s = (s', Ok r) ∧ l_exists (dir_of s' path) = true ∧ l_entries (dir_of s' path) = t.
Proof.
  intros Hx Hf Hout. unfold io_fs. rewrite Hf. eexists. split; [done|]. rewrite dir_put.
  destruct (law_put_entries t (dir_of s path)) as (_ & [He _] & _).
  { intros y Hy1 Hy2. by apply Hout, not_index_entry. }
  by rewrite He, law_entries_put.
Qed.

Definition hidden (t : tree) (n : node) : tree := <[INDICES_BACKUP := n]> (delete INDICES t).

Lemma hidden_outside t n : same_outside index_entries t (hidden t n).
Proof.
  intros x [H1x H2x]%not_index_entry. unfold hidden. by rewrite lookup_insert_ne, lookup_delete_ne.
Qed.

(** Recovering touches nothing else. *)
Lemma recover_index_dir_outside ff t : same_outside index_entries t (recover_index_dir ff t).
Proof.
  pose proof in_entries_l as Hl. pose proof in_entries_r as Hr.
  unfold recover_index_dir. destruct (fs_exists t [INDICES_BACKUP]); [|done].
  destruct (fs_exists t [INDICES]); [|by apply fs_rename_outside].
  etrans; [|by apply fs_remove_dir_outside]. destruct (fs_read_dir ff t [INDICES_BACKUP]) as [items|]; [|done].
  generalize t. induction items.*1 as [|x names IH]; intros t0; [done|]. cbn [foldl].
  etrans; [by apply (fs_rename_outside ff _ t0 INDICES_BACKUP [x] INDICES [x])|apply IH].
Qed.

(** The renaming back. *)
Lemma unhide t n :
  t !! INDICES_BACKUP = Some n → t !! INDICES = None →
  fs_rename no_faults t [INDICES_BACKUP] [INDICES] = (<[INDICES := n]> (delete INDICES_BACKUP t), Ok tt).
Proof. intros Hb Hi. by apply rename_entry. Qed.

Lemma restore_run path err s n :
  l_fs path = no_faults → l_exists (dir_of s path) = true →
  l_entries (dir_of s path) !! INDICES_BACKUP = Some n → l_entries (dir_of s path) !! INDICES = None →
  ∃ s', restore_index_dir path err s = (s', Ok tt) ∧
    l_entries (dir_of s' path) = <[INDICES := n]> (delete INDICES_BACKUP (l_entries (dir_of s path))).
Proof.
  intros Hff Hx Hb Hi. unfold restore_index_dir, io_bind at 1, io_tree.
  assert (fs_exists (l_entries (dir_of s path)) [INDICES] = false) as ->.
  { unfold fs_exists. rewrite lookup_path_1, Hi. by apply bool_decide_eq_false; intros []. }
  unfold io_bind at 1, io_ret.
  destruct (io_fs_run path (λ ff t, fs_rename ff t [INDICES_BACKUP] [INDICES]) s
    (<[INDICES := n]> (delete INDICES_BACKUP (l_entries (dir_of s path)))) (Ok tt)) as (s' & Hr & _ & He); [done| | |].
  { rewrite Hff. by apply unhide. }
  { intros x [H1x H2x]%not_index_entry. by rewrite lookup_insert_ne, lookup_delete_ne. }
  exists s'. split; [|done]. unfold io_bind. by rewrite Hr.
Qed.

(** C24: while rebuild branches exist, the index directory survives a cleanup
    whatever Lance's cleanup does and returns: afterwards [_indices] holds what
    it held.  The one exception is a cleanup whose policy cannot be built: it
    returns with the index directory still hidden, which a restart puts back. *)
Theorem cleanup_spares_hidden_indexes text n d s s' r m bs es :
  let path := dataset_path d in
  l_fs path = no_faults → path_exists s path = true → hide_indices (cleanup_mode s) = true →
  l_load (dir_of s path) = Ok m → l_list_branches (dir_of s path) m = Ok bs → existsb is_compact_rebuild_branch bs = true →
  l_entries (dir_of s path) !! INDICES = Some (Dir es) → l_entries (dir_of s path) !! INDICES_BACKUP = None →
  cleanup_versions text n d s = (s', r) →
  let t' := l_entries (dir_of s' path) in
  (t' !! INDICES = Some (Dir es) ∧ t' !! INDICES_BACKUP = None) ∨
  (∃ e, r = Err (StoreInternal (ct_policy text +:+ e))) ∧ t' = hidden (l_entries (dir_of s path)) (Dir es) ∧
    recover_index_dir no_faults t' = l_entries (dir_of s path).
Proof.
  cbv zeta. set (path := dataset_path d). intros Hff Hx Hm Hl Hbs Hrb Hi Hb Hr. unfold cleanup_versions in Hr. cbv zeta in Hr.
  fold path in Hr. unfold io_bind at 1 in Hr.
  destruct (io_open_fresh path s) as [s1 [ds|e]] eqn:E1; unfold io_open_fresh, io_bind, io_modify in E1; apply io_read_inv in E1 as [-> E1].
  all: change (dir_of (set_fresh_open_count s _) path) with (dir_of s path) in E1; rewrite Hl in E1.
  2: discriminate E1. injection E1 as ->.
  set (s1 := set_fresh_open_count s _) in Hr.
  assert (Hd1 : dir_of s1 path = dir_of s path) by done. assert (Hm1 : cleanup_mode s1 = cleanup_mode s) by done.
  unfold io_bind at 1, io_get in Hr. unfold io_bind at 1, hide_index_dir in Hr. fold path in Hr.
  destruct (io_list_branches_run d s1 m bs) as (s2 & Hlb & Hq2); [done..|].
  assert (Hd2 : dir_of s2 path = dir_of s path) by by rewrite (quiet_dir s1 s2).
  unfold io_bind at 1, io_or, io_bind at 1 in Hr. rewrite Hlb in Hr. cbn [io_ret] in Hr.
  unfold io_bind at 1, io_tree in Hr. rewrite Hrb, Hm1, Hm in Hr. cbn [andb] in Hr.
  assert (fs_exists (l_entries (dir_of s2 path)) [INDICES] = true) as Hex.
  { unfold fs_exists. rewrite lookup_path_1, Hd2, Hi. by apply bool_decide_eq_true; eexists. }
  rewrite Hex in Hr.
  destruct (io_fs_run path (λ ff t, fs_rename ff t [INDICES] [INDICES_BACKUP]) s2 (hidden (l_entries (dir_of s path)) (Dir es)) (Ok tt))
    as (s3 & Hrn & Hx3 & Ht3); [by rewrite Hd2|rewrite Hff, Hd2; by apply rename_entry|rewrite Hd2; apply hidden_outside|].
  unfold io_bind at 1 in Hr. rewrite Hrn in Hr. unfold io_bind at 1, io_lift in Hr. cbn [map_err io_ret] in Hr.
  unfold io_bind at 1 in Hr. destruct (io_read path (ct_policy text) _ s3) as [s4 [[]|e]] eqn:Epol; apply io_read_inv in Epol as [-> Epol].
  - left. unfold io_bind at 1 in Hr. destruct (l_cleanup_with_policy _ (dir_of s3 path) m) as [w x] eqn:Ecl.
    pose proof Ecl as (_ & [Hxw _] & _)%law_cleanup. apply law_cleanup_entries in Ecl as [Hbk Hnew].
    destruct (restore_run path (ct_restore text) (put_dir path w s3) (Dir es)) as (s5 & Hrs & Ht5).
    + done.
    + by rewrite dir_put, Hxw.
    + rewrite dir_put, Hbk, Ht3. unfold hidden. by rewrite lookup_insert_eq.
    + rewrite dir_put. apply Hnew. rewrite Ht3. unfold hidden. rewrite lookup_insert_ne by done. apply lookup_delete_eq.
    + unfold io_bind in Hr. rewrite Hrs in Hr. injection Hr as <- _. rewrite Ht5, dir_put. split; [by rewrite lookup_insert_eq|].
      rewrite lookup_insert_ne by done. apply lookup_delete_eq.
  - right. injection Hr as <- <-. split; [destruct (l_retain_n_versions _ _ _); [done|]; injection Epol as ->; by eexists|].
    rewrite Ht3. split; [done|]. set (t := l_entries (dir_of s path)) in *. unfold recover_index_dir.
    assert (fs_exists (hidden t (Dir es)) [INDICES_BACKUP] = true) as ->.
    { unfold fs_exists, hidden. rewrite lookup_path_1, lookup_insert_eq. by apply bool_decide_eq_true; eexists. }
    assert (hidden t (Dir es) !! INDICES = None) as Hn.
    { unfold hidden. rewrite lookup_insert_ne by done. apply lookup_delete_eq. }
    assert (fs_exists (hidden t (Dir es)) [INDICES] = false) as ->.
    { unfold fs_exists. rewrite lookup_path_1, Hn. apply bool_decide_eq_false. by intros []. }
    rewrite (unhide _ (Dir es)); [|unfold hidden; apply lookup_insert_eq|done]. cbn [fst]. unfold hidden.
    rewrite delete_insert_id by (by rewrite lookup_delete_ne). by apply insert_delete_id.
Qed.
End hide.

(** ** Maintenance of the small dataset

    A cleanup drops the versions of main that are neither recent nor tagged. *)

Module RefMaint.
Import RefLance.

Definition keeps_version (n : nat) (d : dir) (k : option string * N) : bool :=
  match k with
  | (Some _, _) => true
  | (None, v) =>
      (rd_main d <? v + N.of_nat n)%N || (v =? rd_main d)%N ||
      bool_decide (Exists (λ kv, tc_branch kv.2 = None ∧ tc_version kv.2 = v) (map_to_list (rd_tags d)))
  end.

Definition cleanup (p : CleanupPolicy) (w : option dir) (h : handle) : option dir * result string unit :=
  on_dir w (λ d,
    (mkDir (rd_main d) (rd_heads d) (filter (λ kv, keeps_version (cp_retain_n_versions p) d kv.1 = true) (rd_versions d))
       (rd_tags d) (rd_clock d) (rd_entries d), Ok tt)).

Definition entries (w : option dir) : tree := match w with Some d => rd_entries d | None => ∅ end.
Definition put_entries (t : tree) (w : option dir) : option dir :=
  (λ d, mkDir (rd_main d) (rd_heads d) (rd_versions d) (rd_tags d) (rd_clock d) t) <$> w.

(** [retain]: what building the policy returns. *)
Definition maint_ops_with (retain : result string unit) : LanceMaintOps (option dir) handle := {|
  l_retain_n_versions _ _ _ := retain; l_cleanup_with_policy := cleanup;
  l_entries := entries; l_put_entries := put_entries; l_fs _ := no_faults |}.
#[export] Instance maint_ops : LanceMaintOps (option dir) handle := maint_ops_with (Ok tt).

Lemma cleanup_head n d b :
  dir_head (mkDir (rd_main d) (rd_heads d) (filter (λ kv, keeps_version n d kv.1 = true) (rd_versions d))
    (rd_tags d) (rd_clock d) (rd_entries d)) b = dir_head d b.
Proof.
  unfold dir_head, version. cbn. destruct b as [b|]; cbn.
  - destruct (rd_heads d !! b) as [v|]; [|done]. cbn. f_equal. rewrite map_lookup_filter. by destruct (rd_versions d !! _).
  - f_equal. rewrite map_lookup_filter. destruct (rd_versions d !! _); [|done]. cbn.
    rewrite option_guard_True; [done|]. by rewrite N.eqb_refl, orb_true_r.
Qed.

(** A tagged version is kept. *)
Lemma cleanup_version n d t c h :
  rd_tags d !! t = Some c → version d (tc_branch c) (tc_version c) = Some h →
  version (mkDir (rd_main d) (rd_heads d) (filter (λ kv, keeps_version n d kv.1 = true) (rd_versions d))
    (rd_tags d) (rd_clock d) (rd_entries d)) (tc_branch c) (tc_version c) = Some h.
Proof.
  intros Ht. unfold version. cbn. rewrite map_lookup_filter. destruct (rd_versions d !! _); [|done]. cbn.
  rewrite option_guard_True; [done|]. destruct c as [[b|] v at_]; cbn; [done|]. rewrite bool_decide_true; [by rewrite orb_true_r|].
  apply Exists_exists. exists (t, mkTagContents None v at_). split; [by apply elem_of_map_to_list|done].
Qed.

Lemma maint_laws_with retain : @LanceMaintLaws (option dir) handle ops view versions (maint_ops_with retain).
Proof.
  split.
  - by intros t [d|].
  - by intros [d|].
  - intros t [d|] _; (split; [done|]); (split; [|done]); [by split|apply same_heads_refl].
  - intros p [d|] h w' r; cbn; intros [= <- _]; (split; [done|]); [|split; [apply same_heads_refl|reflexivity]].
    split; [split; [done|]; intros b; apply cleanup_head|]. split; [done|]. intros t c h0 Ht Hv. by eapply cleanup_version.
  - intros p [d|] h w' r; cbn; by intros [= <- _].
Qed.
#[export] Instance maint_laws : LanceMaintLaws (option dir) handle := maint_laws_with (Ok tt).
End RefMaint.

Module MaintExample.
Import RefLance RefMaint StoreExample CommitExample.
#[export] Existing Instances RefLance.ops RefLance.view RefLance.laws RefLance.versions RefLance.version_laws
  RefMaint.maint_ops RefMaint.maint_laws StoreExample.ident_serialize StoreExample.cache_order CommitExample.tag_order.
#[export] Instance version_order : HashIter string (list N) := map_order.

(** Every version has an index of its own. *)
Definition uuid (h : handle) : string := "u" +:+ pretty (rh_version h).
#[export] Instance index_ops : LanceIndexOps (option dir) handle := {|
  l_load_indices _ h := Ok [mkIndexMetadata (uuid h) FTS_INDEX_NAME None];
  l_create_index w h _ _ _ := RefIndex.rewrite w h; l_optimize_append := RefIndex.rewrite;
  l_optimize_merge _ := RefIndex.rewrite; l_count_rows _ h := Ok (length (rh_rows h)); l_fragments _ := [];
  l_compact_files := RefIndex.rewrite |}.

Definition index_files : tree := {["index.lance" := File "..."]}.
(** The index directories of the versions 1 to 3, and a file. *)
Definition indices : tree := {["u1" := Dir index_files; "u2" := Dir index_files; "u3" := Dir index_files; "README" := File ""]}.
Definition path : string := dataset_path "o/t".
Definition with_entries (t : tree) (s : St) : St := put_dir path (put_entries t (dir_of s path)) s.

(** Main is at version 3, with tags on 2 and 3. *)
Definition store5 : St := with_entries {[INDICES := Dir indices]} store4.
(** The same with a rebuild branch. *)
Definition store6 : St := fst (io_create_branch "o/t" (compact_rebuild_branch_name 7) 2 store5).
End MaintExample.
Import MaintExample.

Lemma prune_keeps_indexes_in_use_witness :
  let '(s', r) := io_prune_stale_index_dirs "o/t" "main" store5 in
  r = Ok 1 ∧ index_dir s' path "u1" = None ∧ index_dir s' path "u2" = Some (Dir index_files) ∧
  index_dir s' path "u3" = Some (Dir index_files).
Proof.
  destruct (io_prune_stale_index_dirs "o/t" "main" store5) as [s' r] eqn:E.
  assert (r = Ok 1) as -> by (by apply (f_equal snd) in E; vm_compute in E).
  assert (index_dir s' path "u1" = None) as Hn.
  { apply (f_equal (λ x, index_dir x.1 path "u1")) in E. cbn [fst] in E. rewrite <-E. by vm_compute. }
  apply prune_keeps_indexes_in_use in E as (_ & _ & Hk & _ & _).
  2: { split; [by vm_compute|]. intros t c Ht. assert (Forall (λ kv : string * TagContents, tc_branch kv.2 = None) (map_to_list (v_tags (dir_of store5 path)))) as Hf by by vm_compute; repeat constructor.
       rewrite Forall_forall in Hf. specialize (Hf (t, c)). cbn in Hf. rewrite Hf; [done|]. by apply elem_of_map_to_list. }
  split; [done|]. split; [done|]. split.
  - unfold path. rewrite (Hk (RefLance.mkHandle None 2 [StoreExample.row "A" "a"; StoreExample.row "B" "b"]) "u2"); [by vm_compute| |by vm_compute].
    right. exists (encode_commit_tag "c1"), (mkTagContents None 2 0). split; by vm_compute.
  - unfold path. rewrite (Hk (RefLance.mkHandle None 3 [StoreExample.row "A" "a"; StoreExample.row "B" "b"; StoreExample.row "C" "c"]) "u3");
      [by vm_compute| |by vm_compute]. left. by exists None.
Defined.

Lemma cleanup_spares_hidden_indexes_witness :
  let t' := l_entries (dir_of (cleanup_versions aggressive_text 1 "o/t" store6).1 path) in
  t' !! INDICES = Some (Dir indices) ∧ t' !! INDICES_BACKUP = None.
Proof.
  destruct (cleanup_versions aggressive_text 1 "o/t" store6) as [s' r] eqn:E.
  assert (r = Ok tt) as -> by (by apply (f_equal snd) in E; vm_compute in E).
  destruct (cleanup_spares_hidden_indexes aggressive_text 1 "o/t" store6 s' (Ok tt)
    (RefLance.mkHandle None 3 [StoreExample.row "A" "a"; StoreExample.row "B" "b"; StoreExample.row "C" "c"])
    [compact_rebuild_branch_name 7] indices) as [Ht|[[e [=]] _]]; [..|exact E|exact Ht]; by vm_compute.
Defined.

(** With a policy that cannot be built, the index directory stays hidden; and
    once an index has been built anew beside it, every later cleanup fails too. *)
Definition no_policy : LanceMaintOps (option RefLance.dir) RefLance.handle := RefMaint.maint_ops_with (Err "out of memory").
Definition stranded : CommitExample.St := fst (cleanup_versions (H2:=no_policy) aggressive_text 1 "o/t" store6).

Lemma policy_failure_strands :
  l_entries (dir_of stranded path) !! INDICES = None ∧
  l_entries (dir_of stranded path) !! INDICES_BACKUP = Some (Dir indices) ∧
  let reindexed := with_entries (<[INDICES := Dir {["u4" := Dir index_files]}]> (l_entries (dir_of stranded path))) stranded in
  (io_cleanup_aggressive "o/t" "main" reindexed).2 =
    Err (StoreInternal "aggressive cleanup: failed to move _indices to backup: Directory not empty").
Proof. vm_compute. auto. Qed.

(** The set of uuids in use is read before the directories are: an index that
    another branch's writer creates in between is pruned although it is in
    use.  The pipeline lock that is to prevent it is held per branch. *)
Lemma prune_races_with_index_creation :
  let '(s1, live) := io_collect_all_live_index_uuids_strict "o/t" store5 in
  let indexed := fst (io_write path "" (λ w, RefIndex.rewrite w (RefLance.mkHandle None 3 [])) s1) in
  let created := with_entries {[INDICES := Dir (<["u4" := Dir index_files]> indices)]} indexed in
  let pruned := match live with
                | Ok live => fst (prune_index_dirs path "" (λ u _, bool_decide (u ∉ live)) created)
                | Err _ => created
                end in
  uuids_of (dir_of pruned path) <$> v_head (dir_of pruned path) None = Some {["u4"]} ∧ index_dir pruned path "u4" = None.
Proof. vm_compute. auto. Qed.
