(* ===== verification/Integrity.v ===== *)
(** * The integrity check of a domain (src/src/store/lance/integrity.rs)

    A report that compares the files of a dataset directory with what its tags
    and branches refer to. *)

From S2P Require Import Prelude F32 RustStr Model LayerIdx Schema Search Files Lance DatasetCache Store Commit Index Maintain.

Record BranchInfo := mkBranchInfo { br_name : string; br_version : N }.

Record IntegrityReport := mkIntegrityReport {
  ir_domain : string;
  ir_branches : list BranchInfo;
  ir_tagged_versions : nat;
  ir_on_disk_index_dirs : list string;
  ir_referenced_index_uuids : list string;
  ir_stale_index_dirs : list string;
  ir_dangling_index_refs : list string;
  ir_on_disk_data_files : nat;
  ir_on_disk_manifests : nat;
  ir_rebuild_branches : list string;
  ir_orphaned_tags : list string;
  ir_stale_rebuild_branches : list string;
  ir_ok : bool;
  ir_warnings : list string;
}.

(** The report on a domain without a dataset. *)
Definition absent_report (domain : string) : IntegrityReport :=
  mkIntegrityReport domain [] 0 [] [] [] [] 0 0 [] [] [] true ["dataset does not exist on disk"].

(** [Vec::dedup]: adjacent repetitions. *)
Fixpoint dedup (l : list string) : list string :=
  match l with
  | [] => []
  | x :: l =>
      match dedup l with
      | y :: l' => if String.eqb x y then y :: l' else x :: y :: l'
      | [] => [x]
      end
  end.

(** The directories among the entries of a listing. *)
Definition dir_names (entries : list (string * node)) : list string := (filter (λ e, is_dir e.2 = true) entries).*1.

(** The index directories of one branch directory under [tree]; what cannot be
    listed is left out. *)
Definition branch_index_dirs (ff : FsFaults) (t : tree) (branch_entry : string) : list string :=
  let p := ["tree"; branch_entry; INDICES] in
  if fs_exists t p then
    match fs_read_dir ff t p with Ok entries => dir_names entries | Err _ => [] end
  else [].

(** Those of main, whose listing must succeed, and of every branch, sorted and
    without repetition. *)
Definition on_disk_index_dirs (ff : FsFaults) (t : tree) : result StoreError (list string) :=
  main ← (if fs_exists t [INDICES] then
            entries ← map_err (λ e, StoreInternal ("integrity: read _indices failed: " +:+ e)) (fs_read_dir ff t [INDICES]);
            Ok (dir_names entries)
          else Ok []);
  let branches :=
    if fs_exists t ["tree"] then
      match fs_read_dir ff t ["tree"] with
      | Ok branch_entries => concat (map (branch_index_dirs ff t) branch_entries.*1)
      | Err _ => []
      end
    else [] in
  Ok (dedup (sort_by String.compare (main ++ branches))).

(** The entries of a directory with an extension, none when it is not there. *)
Definition count_with_extension (ff : FsFaults) (t : tree) (dir ext err : string) : result StoreError nat :=
  if fs_exists t [dir] then
    entries ← map_err (λ e, StoreInternal (err +:+ e)) (fs_read_dir ff t [dir]);
    Ok (length (filter (λ e : string * node, extension e.1 = Some ext) entries))
  else Ok 0.

(** The tags whose branch is not there, described. *)
Definition orphaned_tags (tags : list (string * TagContents)) (branches : list string) : list string :=
  omap (λ '(tag_name, contents),
    match tc_branch contents with
    | Some b =>
        if bool_decide (b ∉ branches)
        then Some (tag_name +:+ " (branch=" +:+ b +:+ " version=" +:+ pretty (tc_version contents) +:+ ")")
        else None
    | None => None
    end) tags.

Definition tagged_branches (tags : list (string * TagContents)) : list string := omap (λ kv, tc_branch kv.2) tags.

Definition count_text (n : nat) (text : string) : string := pretty (N.of_nat n) +:+ text.

(** The warnings, in their order, of the five findings. *)
Definition warnings (stale dangling rebuild orphaned stale_rebuild : list string) : list string :=
  (if is_empty stale then [] else
     [count_text (length stale) " stale index directories on disk not referenced by any tagged version"]) ++
  (if is_empty dangling then [] else
     [count_text (length dangling) " index UUIDs referenced by tagged manifests have no backing directory on disk (historical FTS may be degraded)"]) ++
  (if (1 <? length rebuild)%nat then
     [count_text (length rebuild) " rebuild branches exist (expected ≤1 after compaction)"] else []) ++
  (if is_empty orphaned then [] else
     [count_text (length orphaned) " tags point to non-existent branches (orphaned tags pin dead data)"]) ++
  (if is_empty stale_rebuild then [] else
     [count_text (length stale_rebuild) " rebuild branches have no tags (stale — should be deleted)"]).

(** [versions.iter().max().unwrap_or(&0)]. *)
Definition max_version (versions : list N) : N := foldl N.max 0%N versions.

Section integrity.
Context {W H : Type} `{LanceOps W H, LanceIndexOps W H, LanceMaintOps W H} `{ByteSerialize}
        {HD : HashIter string (DatasetCacheEntry H)} {HT : HashIter string TagContents} {HB : HashIter string (list N)}
        {HU : HashIter string unit}.

Definition io_integrity_check (domain : string) : io W H IntegrityReport :=
  let path := dataset_path domain in
  let! s := io_get in
  if path_exists s path then
    let! ds := io_open_fresh path in
    let! tags := io_read path "integrity: tag list failed: " (λ w, l_list_tags w ds) in
    let tag_list := hash_iter tags in
    let branches := map (λ kv, mkBranchInfo kv.1 (max_version kv.2)) (hash_iter (tags_by_branch tags)) in
    let! live_uuids := io_collect_all_live_index_uuids domain in
    let referenced := set_order live_uuids in
    let! t := io_tree path in
    let ff := l_fs path in
    let! on_disk := (λ s, (s, on_disk_index_dirs ff t)) in
    let stale := filter (λ u, u ∉ live_uuids) on_disk in
    let dangling := filter (λ u, u ∉ on_disk) referenced in
    let! data_files := (λ s, (s, count_with_extension ff t "data" "lance" "integrity: read data dir failed: ")) in
    let! manifests := (λ s, (s, count_with_extension ff t "_versions" "manifest" "integrity: read _versions failed: ")) in
    let! all_branches := io_list_branches domain in
    let rebuild := filter (λ b, is_compact_rebuild_branch b = true) all_branches in
    let orphaned := orphaned_tags tag_list all_branches in
    let stale_rebuild := filter (λ b, b ∉ tagged_branches tag_list) rebuild in
    let ok := is_empty stale && is_empty dangling && (length rebuild <=? 1)%nat && is_empty orphaned && is_empty stale_rebuild in
    io_ret (mkIntegrityReport domain branches (size tags) on_disk referenced stale dangling data_files manifests
              rebuild orphaned stale_rebuild ok (warnings stale dangling rebuild orphaned stale_rebuild))
  else io_ret (absent_report domain).
End integrity.

(** ** The five findings *)

Lemma dedup_elem l x : x ∈ dedup l ↔ x ∈ l.
Proof.
  induction l as [|y l IH]; [done|]. cbn [dedup]. destruct (dedup l) as [|z l'] eqn:E.
  - by rewrite !elem_of_cons, <-IH.
  - destruct (String.eqb_spec y z) as [->|]; rewrite !elem_of_cons, <-IH, ?elem_of_cons; tauto.
Qed.

Lemma is_empty_true {A} (l : list A) : is_empty l = true ↔ l = [].
Proof. by destruct l. Qed.

Lemma orphaned_tags_nil tags branches :
  orphaned_tags tags branches = [] ↔ ∀ t c b, (t, c) ∈ tags → tc_branch c = Some b → b ∈ branches.
Proof.
  induction tags as [|[t c] tags IH]; cbn [orphaned_tags omap list_omap].
  { split; [by intros _ t c b []%elem_of_nil|done]. }
  assert (Hc : (∀ b, tc_branch c = Some b → b ∈ branches) ↔
    match tc_branch c with Some b => bool_decide (b ∉ branches) = false | None => True end).
  { destruct (tc_branch c) as [b|]; [|done]. rewrite bool_decide_eq_false. split.
    - intros Hb Hn. by apply Hn, Hb.
    - intros Hn b' [= <-]. by apply dec_stable. }
  split.
  - intros Hn. assert (Hh : match tc_branch c with Some b => bool_decide (b ∉ branches) = false | None => True end).
    { destruct (tc_branch c) as [b|]; [|done]. by destruct (bool_decide _). }
    assert (Ht : orphaned_tags tags branches = []).
    { destruct (tc_branch c) as [b|]; [|exact Hn]. rewrite Hh in Hn. exact Hn. }
    intros t' c' b [[= -> ->]|Hin]%elem_of_cons; [by apply Hc|by apply (proj1 IH Ht t')].
  - intros Hall. assert (Hh : ∀ b, tc_branch c = Some b → b ∈ branches).
    { intros b. apply (Hall t). apply elem_of_cons. by left. }
    apply Hc in Hh. assert (Ht : orphaned_tags tags branches = []).
    { apply IH. intros t' c' b Hin. apply (Hall t'). apply elem_of_cons. by right. }
    destruct (tc_branch c) as [b|]; [rewrite Hh|]; exact Ht.
Qed.

Lemma tagged_branches_elem tags b : b ∈ tagged_branches tags ↔ ∃ t c, (t, c) ∈ tags ∧ tc_branch c = Some b.
Proof.
  unfold tagged_branches. rewrite list_elem_of_omap. split; [intros ([t c] & ? & ?)|intros (t & c & ? & ?)]; eauto.
Qed.

Lemma warnings_nil a b c d e :
  warnings a b c d e = [] ↔ is_empty a && is_empty b && (length c <=? 1)%nat && is_empty d && is_empty e = true.
Proof.
  unfold warnings. rewrite Nat.ltb_antisym. split.
  - intros Hn. by destruct a, b, (length c <=? 1)%nat, d, e.
  - by destruct a, b, (length c <=? 1)%nat, d, e.
Qed.

Lemma dir_names_elem entries x : x ∈ dir_names entries ↔ ∃ n, (x, n) ∈ entries ∧ is_dir n = true.
Proof.
  unfold dir_names. rewrite list_elem_of_fmap. split.
  - intros ([y n] & -> & [Hd Hin]%list_elem_of_filter). eauto.
  - intros (n & Hin & Hd). exists (x, n). split; [done|]. by apply list_elem_of_filter.
Qed.

(** The index directories that the listings show: those of main, and those of
    the branches that can be listed. *)
Lemma on_disk_main ff t dirs entries u n :
  on_disk_index_dirs ff t = Ok dirs → fs_read_dir ff t [INDICES] = Ok entries → (u, n) ∈ entries → is_dir n = true → u ∈ dirs.
Proof.
  unfold on_disk_index_dirs. intros Hd Hl Hu Hn.
  assert (fs_exists t [INDICES] = true) as Hx.
  { apply fs_read_dir_entries in Hl as [_ Hel]. apply Hel in Hu as [Hu _]. unfold fs_exists. apply bool_decide_eq_true.
    rewrite lookup_path_1. rewrite lookup_path_2 in Hu. by destruct (t !! INDICES); [eexists|]. }
  rewrite Hx, Hl in Hd. injection Hd as <-. rewrite dedup_elem, sort_by_perm, elem_of_app. left. apply dir_names_elem. eauto.
Qed.

Section integrity_spec.
Context {W H : Type} `{LanceLaws W H} {HV : LanceVersions W H} {HVL : LanceVersionLaws W H}
        {HI : LanceIndexOps W H} {HM : LanceMaintOps W H} {HML : LanceMaintLaws W H}
        `{ByteSerialize} {HD : HashIter string (DatasetCacheEntry H)} {HT : HashIter string TagContents}
        {HB : HashIter string (list N)} {HU : HashIter string unit}.
Implicit Types s : LanceStore W H.

(** *** What a collection finds is in use

    In the lenient variant something may be missing. *)

Definition found (w : W) (live : gset string) : Prop := ∀ u, u ∈ live → ∃ h, in_use w h ∧ u ∈ uuids_of w h.

(** [c] leaves the state alone, and what it adds to [live] is in use. *)
Definition finds (c : io W H (gset string)) (path : string) (s : LanceStore W H) : Prop :=
  ∀ s' live, c s = (s', Ok live) → s' = s ∧ found (dir_of s path) live.

Lemma finds_soft strict live (c : io W H (gset string)) path s :
  (∀ s' r, c s = (s', r) → s' = s) → found (dir_of s path) live → finds c path s → finds (soft strict live c) path s.
Proof.
  intros Hs Hl Hc s' live'. unfold soft, io_or. destruct strict; [apply Hc|].
  destruct (c s) as [s1 [l|e]] eqn:E; intros [= <- <-]; [by apply Hc|]. split; [by eapply Hs|done].
Qed.

(** The collection steps do not even touch the caches. *)
Definition still {A} (c : io W H A) : Prop := ∀ s s' r, c s = (s', r) → s' = s.
Lemma still_ret {A} (a : A) : still (io_ret a). Proof. by intros s s' r [= <- _]. Qed.
Lemma still_read {A} p m (f : W → result string A) : still (io_read p m f).
Proof. by intros s s' r [-> _]%io_read_inv. Qed.
Lemma still_bind {A B} (c : io W H A) (k : A → io W H B) : still c → (∀ a, still (k a)) → still (io_bind c k).
Proof.
  intros Hc Hk s s' r. unfold io_bind. destruct (c s) as [s1 [a|e]] eqn:E; apply Hc in E as ->; [apply Hk|by intros [= <- _]].
Qed.
Lemma still_soft {A} strict (a : A) (c : io W H A) : still c → still (soft strict a c).
Proof.
  intros Hc s s' r. unfold soft, io_or. destruct strict; [apply Hc|].
  destruct (c s) as [s1 [x|e]] eqn:E; apply Hc in E as ->; by intros [= <- _].
Qed.
Hint Resolve still_ret still_read still_bind still_soft : core.
Lemma still_checkout p err ds b : still (checkout_or_main (W:=W) p err ds b).
Proof. unfold checkout_or_main. destruct (String.eqb _ _); auto. Qed.
Hint Resolve still_checkout : core.
Lemma still_uuids strict p err ds live : still (add_uuids (W:=W) strict p err ds live).
Proof. unfold add_uuids. auto. Qed.
Hint Resolve still_uuids : core.
Lemma still_versions strict p b ds vs live : still (add_versions (W:=W) strict p b ds vs live).
Proof. revert live. induction vs; intros live; cbn [add_versions]; auto 6. Qed.
Hint Resolve still_versions : core.

Lemma found_union w live h : in_use w h → found w live → found w (uuids_of w h ∪ live).
Proof. intros Hh Hl u [Hu|Hu]%elem_of_union; [by exists h|by apply Hl]. Qed.

Lemma add_uuids_found strict p err h live s :
  in_use (dir_of s p) h → found (dir_of s p) live → finds (add_uuids strict p err h live) p s.
Proof.
  intros Hh Hl. unfold add_uuids. apply finds_soft; [by apply still_bind|done|].
  intros s' live' (s1 & ix & [-> Hi]%io_read_ok & [= <- <-])%io_bind_ok. split; [done|].
  pose proof (found_union _ _ _ Hh Hl) as Hf. unfold uuids_of in Hf. by rewrite Hi in Hf.
Qed.

Lemma add_branch_heads_found strict p m bs live s :
  l_load (dir_of s p) = Ok m → found (dir_of s p) live → finds (add_branch_heads strict p m bs live) p s.
Proof.
  intros Hm. revert live. induction bs as [|b bs IH]; intros live Hl s' live'; cbn [add_branch_heads].
  { by intros [= <- <-]. }
  intros (s1 & l1 & Hr & Hrest)%io_bind_ok. apply finds_soft with (path := p) in Hr as [-> Hl1]; [|by apply still_bind; auto|done|].
  - by eapply IH.
  - intros s2 l2 (s3 & h & [-> Hh]%checkout_ok & Hu)%io_bind_ok. eapply add_uuids_found in Hu; [done| |done].
    left. eexists. by eapply branch_handle_head.
Qed.

Lemma add_versions_found strict p b h vs live s :
  (∀ v h', v ∈ vs → l_checkout_version (dir_of s p) h v = Ok h' → in_use (dir_of s p) h') →
  found (dir_of s p) live → finds (add_versions strict p b h vs live) p s.
Proof.
  revert live. induction vs as [|v vs IH]; intros live Hin Hl s' live'; cbn [add_versions].
  { by intros [= <- <-]. }
  intros (s1 & l1 & Hr & Hrest)%io_bind_ok. apply finds_soft with (path := p) in Hr as [-> Hl1]; [|by apply still_bind; auto|done|].
  - eapply IH; [|done..]. intros v' h' Hv'. apply Hin, elem_of_cons. by right.
  - intros s2 l2 (s3 & h' & [-> Hh]%io_read_ok & Hu)%io_bind_ok. eapply add_uuids_found in Hu; [done| |done].
    eapply Hin; [|done]. apply elem_of_cons. by left.
Qed.

Lemma add_tagged_found strict p m bb live s :
  l_load (dir_of s p) = Ok m →
  (∀ b vs v h h', (b, vs) ∈ bb → v ∈ vs → branch_handle (dir_of s p) m b = Ok h →
     l_checkout_version (dir_of s p) h v = Ok h' → in_use (dir_of s p) h') →
  found (dir_of s p) live → finds (add_tagged strict p m bb live) p s.
Proof.
  intros Hm. revert live. induction bb as [|[b vs] bb IH]; intros live Hin Hl s' live'; cbn [add_tagged].
  { by intros [= <- <-]. }
  intros (s1 & l1 & Hr & Hrest)%io_bind_ok. apply finds_soft with (path := p) in Hr as [-> Hl1]; [|by apply still_bind; auto|done|].
  - eapply IH; [|done..]. intros b' vs' v h h' Hb. eapply Hin, elem_of_cons. by right.
  - intros s2 l2 (s3 & h & [-> Hh]%checkout_ok & Hu)%io_bind_ok. eapply add_versions_found in Hu; [done| |done].
    intros v h' Hv. eapply Hin; [apply elem_of_cons; by left|done..].
Qed.

Lemma collect_found strict d s s' live :
  reserved_main (dir_of s (dataset_path d)) →
  collect_live_index_uuids d strict s = (s', Ok live) → found (dir_of s (dataset_path d)) live.
Proof.
  set (w := dir_of s (dataset_path d)). intros [Hrh Hrt] Hr. unfold collect_live_index_uuids in Hr.
  unfold io_bind at 1, io_get in Hr. destruct (path_exists s _); [|injection Hr as <- <-; by intros u ?%elem_of_empty].
  apply io_bind_ok in Hr as (s1 & m & [Hq1 Hl]%io_open_fresh_inv & Hr). specialize (Hl m eq_refl). fold w in Hl.
  apply io_bind_ok in Hr as (s2 & tags & [-> Ht]%io_read_ok & Hr).
  apply io_bind_ok in Hr as (s3 & bs & [Hq3 _]%io_list_branches_inv & Hr).
  assert (Hd1 : dir_of s1 (dataset_path d) = w) by (by apply quiet_dir).
  assert (Hd3 : dir_of s3 (dataset_path d) = w) by (by rewrite (quiet_dir s1 s3)).
  rewrite Hd1 in Ht. apply law_list_tags in Ht as ->.
  apply io_bind_ok in Hr as (s4 & live1 & Hr1 & Hr).
  apply add_uuids_found in Hr1 as [-> Hf1]; rewrite ?Hd3 in *; [|left; exists None; by apply law_load|by intros u ?%elem_of_empty].
  apply io_bind_ok in Hr as (s5 & live2 & Hr2 & Hr).
  apply add_branch_heads_found in Hr2 as [-> Hf2]; rewrite ?Hd3 in *; [|done..].
  apply add_tagged_found in Hr as [-> Hf]; rewrite ?Hd3 in *; [done..| |done].
  intros b vs v h h' Hb Hv Hh Hh'. right. destruct (proj1 (tags_by_branch_elem (v_tags w) b v)) as (t & c & Htc & -> & ->); [eauto|].
  exists t, c. split; [done|]. apply branch_handle_head in Hh as [_ Hbr]; [|done].
  rewrite want_branch_default in Hbr by eauto. rewrite <-Hbr. by apply law_checkout_version.
Qed.

(** A collection depends on the dataset directory only. *)
Lemma quiet_path_exists s s' p : quiet s s' → path_exists s' p = path_exists s p.
Proof. intros Hq. unfold path_exists. by rewrite (quiet_dir s s'). Qed.

(** *** The check *)

#[export] Instance quiet_integrity_check d : Within quiet (io_integrity_check (W:=W) (H:=H) d).
Proof.
  assert (Hp : ∀ A (r : result StoreError A), Within quiet (λ s : LanceStore W H, (s, r))) by (intros A r s s' x [= <- _]; reflexivity).
  unfold io_integrity_check, io_collect_all_live_index_uuids. cbv zeta. apply _.
Qed.

(** What a check of an existing dataset has read. *)
Lemma io_integrity_check_inv d s s' rep :
  path_exists s (dataset_path d) = true → io_integrity_check d s = (s', Ok rep) →
  let w := dir_of s (dataset_path d) in
  quiet s s' ∧ ∃ live bs s1 s2 s3 m,
    quiet s s1 ∧ collect_live_index_uuids d false s1 = (s2, Ok live) ∧ quiet s s3 ∧
    l_load w = Ok m ∧ l_list_branches w m = Ok bs ∧
    on_disk_index_dirs (l_fs (dataset_path d)) (l_entries w) = Ok (ir_on_disk_index_dirs rep) ∧
    ir_referenced_index_uuids rep = set_order live ∧
    ir_stale_index_dirs rep = filter (λ u, u ∉ live) (ir_on_disk_index_dirs rep) ∧
    ir_dangling_index_refs rep = filter (λ u, u ∉ ir_on_disk_index_dirs rep) (set_order live) ∧
    ir_rebuild_branches rep = filter (λ b, is_compact_rebuild_branch b = true) bs ∧
    ir_orphaned_tags rep = orphaned_tags (hash_iter (v_tags w)) bs ∧
    ir_stale_rebuild_branches rep = filter (λ b, b ∉ tagged_branches (hash_iter (v_tags w))) (ir_rebuild_branches rep) ∧
    ir_ok rep = is_empty (ir_stale_index_dirs rep) && is_empty (ir_dangling_index_refs rep) &&
      (length (ir_rebuild_branches rep) <=? 1)%nat && is_empty (ir_orphaned_tags rep) && is_empty (ir_stale_rebuild_branches rep) ∧
    ir_warnings rep = warnings (ir_stale_index_dirs rep) (ir_dangling_index_refs rep) (ir_rebuild_branches rep)
      (ir_orphaned_tags rep) (ir_stale_rebuild_branches rep).
Proof.
  intros Hx Hr. cbv zeta. set (w := dir_of s (dataset_path d)). unfold io_integrity_check in Hr.
  unfold io_bind at 1, io_get in Hr. rewrite Hx in Hr.
  apply io_bind_ok in Hr as (s1 & m & [Hq1 Hl]%io_open_fresh_inv & Hr). specialize (Hl m eq_refl).
  apply io_bind_ok in Hr as (s1' & tags & [-> Ht]%io_read_ok & Hr).
  apply io_bind_ok in Hr as (s2 & live & Hc & Hr). pose proof Hc as Hq2.
  apply (_ : Within quiet (collect_live_index_uuids d false)) in Hq2.
  apply io_bind_ok in Hr as (s2' & t & Hent & Hr). injection Hent as <- <-.
  apply io_bind_ok in Hr as (s2' & dirs & [= <- Hd] & Hr).
  apply io_bind_ok in Hr as (s2' & data & [= <- _] & Hr).
  apply io_bind_ok in Hr as (s2' & manifests & [= <- _] & Hr).
  apply io_bind_ok in Hr as (s3 & bs & [Hq3 Hb]%io_list_branches_inv & [= <- <-]). specialize (Hb bs eq_refl).
  assert (Hd1 : dir_of s1 (dataset_path d) = w) by (by apply quiet_dir).
  assert (Hd2 : dir_of s2 (dataset_path d) = w) by (by rewrite (quiet_dir s1 s2)).
  rewrite (quiet_path_exists s s2) in Hb by (by etrans). rewrite Hx, Hd2 in Hb. destruct Hb as (m' & Hm' & Hb).
  fold w in Hl. rewrite Hl in Hm'. injection Hm' as <-.
  rewrite Hd1 in Ht. apply law_list_tags in Ht as ->.
  split; [by do 2 etrans|]. exists live, bs, s1, s2, s3, m. cbn. split_and!; try done. by do 2 etrans. by rewrite <-Hd2.
Qed.

(** A report is good, [ok], exactly when it warns of nothing, and exactly
    when the index directories on disk are the ones referred to, there is at
    most one rebuild branch, every tag's branch is there and every rebuild
    branch has a tag.  Making it changes nothing but the handle cache and the
    open counter. *)
Theorem integrity_ok_iff d s s' rep :
  path_exists s (dataset_path d) = true → io_integrity_check d s = (s', Ok rep) →
  let w := dir_of s (dataset_path d) in
  quiet s s' ∧ (ir_ok rep = true ↔ ir_warnings rep = []) ∧
  (ir_ok rep = true ↔
    (∀ u, u ∈ ir_on_disk_index_dirs rep ↔ u ∈ ir_referenced_index_uuids rep) ∧
    length (ir_rebuild_branches rep) ≤ 1 ∧
    (∀ t c b, v_tags w !! t = Some c → tc_branch c = Some b → is_Some (v_head w (Some b))) ∧
    (∀ b, is_Some (v_head w (Some b)) → is_compact_rebuild_branch b = true →
       ∃ t c, v_tags w !! t = Some c ∧ tc_branch c = Some b)).
Proof.
  intros Hx Hr. cbv zeta. set (w := dir_of s (dataset_path d)).
  apply io_integrity_check_inv in Hr as (Hq & live & bs & s1 & s2 & s3 & m & _ & _ & _ & Hl & Hb & _ & Href & Hst & Hdg & Hrb & Hot & Hsr & Hok & Hw); [|done].
  fold w in Hl, Hb, Hot, Hsr. split; [done|]. rewrite Hok, Hw, warnings_nil. split; [done|].
  rewrite !andb_true_iff, !is_empty_true, Nat.leb_le, Hst, Hdg, Hot, Hsr, !filter_nil, orphaned_tags_nil, Href, Hrb.
  pose proof (law_list_branches _ _ _ Hb) as Hlb.
  setoid_rewrite tagged_branches_elem. setoid_rewrite list_elem_of_filter. setoid_rewrite hash_iter_elem.
  setoid_rewrite set_order_elem. setoid_rewrite Hlb. split.
  - intros [[[[Hs1 Hs2] Hlen] Horph] Hreb]. split; [|split; [done|split; [done|]]].
    + intros u. split; [intros Hu; by apply dec_stable, Hs1|intros Hu; by apply dec_stable, Hs2].
    + intros b Hin Hcr. destruct (decide (b ∈ tagged_branches (hash_iter (v_tags w)))) as [Hin'|Hn].
      * apply tagged_branches_elem in Hin' as (t & c & Hin' & ?). apply hash_iter_elem in Hin'. by exists t, c.
      * exfalso. eapply Hreb; [by split|]. intros (t & c & Ht & Hc). apply Hn, tagged_branches_elem. exists t, c. by rewrite hash_iter_elem.
  - intros (Hu & Hlen & Horph & Hreb). split_and!; try done.
    + intros u Hin Hn. by apply Hn, Hu.
    + intros u Hin Hn. by apply Hn, Hu.
    + intros b [Hcr Hin] Hn. by apply Hn, Hreb.
Qed.

Lemma remove_index_dirs_none path doomed entries n s :
  (∀ x m, (x, m) ∈ entries → is_dir m && doomed x m = false) →
  remove_index_dirs (W:=W) (H:=H) path doomed entries n s = (s, Ok n).
Proof.
  induction entries as [|[x m] entries IH]; intros Hn; cbn [remove_index_dirs]; [done|].
  rewrite Hn by (apply elem_of_cons; by left). apply IH. intros y k Hy. apply Hn, elem_of_cons. by right.
Qed.

(** Pruning has nothing to do after a report without stale directories: run
    on the same dataset it leaves every file as it is and returns 0, or the
    error of its own collection or listing; whatever the collection behind the
    report, which is lenient, had to leave out. *)
Theorem good_report_prunes_nothing d b s s1 s2 s3 rep r :
  path_exists s (dataset_path d) = true → reserved_main (dir_of s (dataset_path d)) →
  io_integrity_check d s = (s1, Ok rep) → ir_stale_index_dirs rep = [] →
  quiet s1 s2 → io_prune_stale_index_dirs d b s2 = (s3, r) →
  quiet s s3 ∧ ∀ n, r = Ok n → n = 0.
Proof.
  set (path := dataset_path d). set (w := dir_of s path). intros Hx Hrm Hr Hst Hq12 Hp.
  apply io_integrity_check_inv in Hr as (Hq & live & bs & t1 & t2 & t3 & m & Hqt & Hc & _ & _ & _ & Hdirs & _ & Hstale & _); [|done].
  fold path w in Hdirs, Hqt. assert (Hqs2 : quiet s s2) by (by transitivity s1).
  assert (Hd2 : dir_of s2 path = w) by by apply quiet_dir.
  assert (Hdt : dir_of t1 path = w) by by apply quiet_dir.
  assert (Hlive : found w live). { rewrite <-Hdt. apply (collect_found false d t1 t2); [fold path; by rewrite Hdt|done]. }
  unfold io_prune_stale_index_dirs in Hp. unfold io_bind at 1 in Hp.
  destruct (ensure_writable s2) as [s0 [[]|e]] eqn:Ew; apply ensure_writable_inv in Ew as [-> _]; [|injection Hp as <- <-; by split].
  unfold io_bind at 1, io_tree in Hp. fold path in Hp. destruct (fs_exists _ [INDICES]) eqn:Ex; [|injection Hp as <- <-; split; [done|]; by intros n [= <-]].
  unfold io_bind at 1, io_collect_all_live_index_uuids_strict in Hp.
  destruct (collect_live_index_uuids d true s2) as [s4 [live'|e]] eqn:Ec; pose proof Ec as Hq4;
    apply (_ : Within quiet (collect_live_index_uuids d true)) in Hq4; [|injection Hp as <- <-; split; [by transitivity s2|done]].
  assert (Hd4 : dir_of s4 path = w) by (by rewrite (quiet_dir s2 s4)).
  assert (Hspec := collect_strict_spec d s2 s4 live'). fold path in Hspec.
  rewrite Hd2 in Hspec. unfold path_exists in Hspec. rewrite Hd2 in Hspec. specialize (Hspec Hrm Hx Ec).
  unfold prune_index_dirs in Hp. unfold io_bind at 1, io_tree in Hp. unfold io_bind, io_lift in Hp. rewrite Hd4 in Hp.
  destruct (fs_read_dir _ _ _) as [entries|e] eqn:El; cbn [map_err] in Hp; [|injection Hp as <- <-; split; [by transitivity s2|done]].
  rewrite remove_index_dirs_none in Hp; [injection Hp as <- <-; split; [by etrans|]; by intros n [= <-]|].
  intros x n Hin. destruct (is_dir n) eqn:En; [|done]. cbn [andb]. apply bool_decide_eq_false. intros Hn. apply Hn, Hspec, Hlive.
  pose proof (on_disk_main _ _ _ _ _ _ Hdirs El Hin En) as Hdisk. apply dec_stable. intros Hn'.
  rewrite Hst in Hstale. symmetry in Hstale. rewrite filter_nil in Hstale. by apply (Hstale x).
Qed.
End integrity_spec.

(** ** Examples *)

Module IntegrityExample.
Import MaintExample.
#[export] Existing Instances MaintExample.version_order MaintExample.index_ops.
#[export] Instance unit_order : HashIter string unit := map_order.

(** The dataset of three versions without the index directory of the first,
    which nothing refers to, and with the data and manifest files. *)
Definition clean_store : CommitExample.St :=
  with_entries {[INDICES := Dir {["u2" := Dir index_files; "u3" := Dir index_files; "README" := File ""]};
                 "data" := Dir {["a.lance" := File ""; "b.lance" := File ""; "c.tmp" := File ""]};
                 "_versions" := Dir {["1.manifest" := File ""]}]} CommitExample.store4.

Lemma clean_head_in_use : reserved_main (dir_of clean_store path).
Proof.
  split; [by vm_compute|]. intros t c Ht.
  assert (Forall (λ kv : string * TagContents, tc_branch kv.2 = None) (map_to_list (v_tags (dir_of clean_store path)))) as Hf
    by by vm_compute; repeat constructor.
  rewrite Forall_forall in Hf. specialize (Hf (t, c)). cbn in Hf. rewrite Hf; [done|]. by apply elem_of_map_to_list.
Qed.

Definition report (s : CommitExample.St) : option (list string * list string * list string * nat * nat * bool * list string) :=
  match snd (io_integrity_check "o/t" s) with
  | Ok rep => Some (ir_stale_index_dirs rep, ir_dangling_index_refs rep, ir_rebuild_branches rep, ir_on_disk_data_files rep,
                    ir_on_disk_manifests rep, ir_ok rep, ir_warnings rep)
  | Err _ => None
  end.

Example clean_report : report clean_store = Some ([], [], [], 2, 1, true, []).
Proof. vm_compute. reflexivity. Qed.
Example stale_report :
  report store6 = Some (["u1"], [], [compact_rebuild_branch_name 7], 0, 0, false,
    ["1 stale index directories on disk not referenced by any tagged version"; "1 rebuild branches have no tags (stale — should be deleted)"]).
Proof. vm_compute. reflexivity. Qed.
Example absent_domain : snd (io_integrity_check "o/none" clean_store) = Ok (absent_report "o/none").
Proof. reflexivity. Qed.
End IntegrityExample.
Import MaintExample IntegrityExample.

Lemma integrity_ok_iff_witness :
  ∃ rep, snd (io_integrity_check "o/t" clean_store) = Ok rep ∧ ir_warnings rep = [].
Proof.
  destruct (io_integrity_check "o/t" clean_store) as [s' [rep|e]] eqn:E; [|by vm_compute in E].
  exists rep. split; [done|]. assert (ir_ok rep = true) as Hok by (by vm_compute in E; injection E as _ <-).
  apply integrity_ok_iff in E as (_ & Hw & _); [|by vm_compute]. by apply Hw.
Defined.

Lemma good_report_prunes_nothing_witness :
  quiet clean_store (fst (io_prune_stale_index_dirs "o/t" "main" (fst (io_integrity_check "o/t" clean_store)))).
Proof.
  destruct (io_integrity_check "o/t" clean_store) as [s1 [rep|e]] eqn:E; [|by vm_compute in E].
  assert (ir_stale_index_dirs rep = []) as Hst by (by vm_compute in E; injection E as _ <-).
  cbn [fst]. destruct (io_prune_stale_index_dirs "o/t" "main" s1) as [s3 r] eqn:Ep.
  eapply (good_report_prunes_nothing "o/t" "main" clean_store s1 s1 s3 rep r); [by vm_compute|apply clean_head_in_use|exact E|exact Hst|reflexivity|exact Ep].
Defined.
