(* ===== verification/Stats.v ===== *)
(** * Statistics (src/src/store/lance/stats.rs, src/src/store/vector_index.rs,
      the path decoding of src/src/store/lance/mod.rs)

    Counting what is in memory and on disk: the datasets found by decoding
    directory names, live chunks by fragment, distinct documents by a scan, and
    the fragments that no vector index covers yet.  Sums of row counts are taken
    modulo 2^64, as the release build does. *)

From S2P Require Import Prelude F32 RustStr Model LayerIdx Schema Search Files Lance DatasetCache Store Commit Index Maintain.

(** ** Directory names, decoded *)

(** [form_urlencoded::parse], collected. *)
Class FormParse := form_parse : string → list (string * string).

(** [str::split("__")]. *)
Fixpoint split_dunder (s : string) : list string :=
  match s with
  | EmptyString => [EmptyString]
  | String a s' =>
      let cont := match split_dunder s' with
                  | seg :: segs => String a seg :: segs
                  | [] => [String a EmptyString]
                  end in
      match s' with
      | String b s'' => if Ascii.eqb a underscore && Ascii.eqb b underscore then EmptyString :: split_dunder s'' else cont
      | EmptyString => cont
      end
  end.

Definition decode_segment `{FormParse} (seg : string) : option string :=
  if String.eqb seg "" then Some "" else
  match map (λ '(key, val), if String.eqb val "" then key else key +:+ "=" +:+ val) (form_parse seg) with
  | [] => None
  | decoded => Some (join "" decoded)
  end.

Definition decode_domain_path `{FormParse} (encoded : string) : option string :=
  join "/" <$> mapM decode_segment (split_dunder encoded).

(** The name without a final [.lance], if it ends with it. *)
Definition lance_stem (name : string) : option string :=
  let n := String.length name - 6 in
  if (6 <=? String.length name)%nat && String.eqb (substring n 6 name) ".lance" then Some (substring 0 n name) else None.

(** ** Fragments *)

Definition u64_add (a b : N) : N := ((a + b) mod 2 ^ 64)%N.

(** The physical rows and the deletions counted so far. *)
Definition add_fragment (acc : N * N) (frag : Fragment) : N * N :=
  (match fr_physical_rows frag with Some rows => u64_add acc.1 rows | None => acc.1 end,
   match fr_num_deletions frag with Ok n => u64_add acc.2 n | Err _ => acc.2 end).
Definition add_fragments (acc : N * N) (frags : list Fragment) : N * N := foldl add_fragment acc frags.
(** [physical.saturating_sub(deleted)]. *)
Definition live_rows (acc : N * N) : N := (acc.1 - acc.2)%N.

(** [u32::try_from]. *)
Definition frag_id_u32 (frag : Fragment) : result StoreError N :=
  if (fr_id frag <? 2 ^ 32)%N then Ok (fr_id frag)
  else Err (StoreInternal ("fragment id " +:+ pretty (fr_id frag) +:+ " exceeds u32")).

Definition vector_segments (indices : list IndexMetadata) : list IndexMetadata :=
  filter (λ idx, im_name idx = VECTOR_INDEX_NAME) indices.
(** The union of the bitmaps of the segments. *)
Definition covered (segments : list IndexMetadata) : gset N :=
  foldl (λ c segment, match im_fragment_bitmap segment with Some bitmap => c ∪ bitmap | None => c end) ∅ segments.

Fixpoint fragment_ids (frags : list Fragment) (ids : gset N) : result StoreError (gset N) :=
  match frags with
  | [] => Ok ids
  | frag :: frags => id ← frag_id_u32 frag; fragment_ids frags ({[id]} ∪ ids)
  end.

Definition unindexed_fragments (indices : list IndexMetadata) (frags : list Fragment) : result StoreError N :=
  match vector_segments indices with
  | [] => Ok 0%N
  | segments => ids ← fragment_ids frags ∅; Ok (N.of_nat (size (ids ∖ covered segments)))
  end.

Fixpoint unindexed_loop (cov : gset N) (frags : list Fragment) (acc : N * N) : result StoreError (N * N) :=
  match frags with
  | [] => Ok acc
  | frag :: frags =>
      id ← frag_id_u32 frag;
      unindexed_loop cov frags (
        if bool_decide (id ∈ cov) then acc
        else (u64_add acc.1 1, match fr_physical_rows frag with Some rows => u64_add acc.2 rows | None => acc.2 end))
  end.
Definition unindexed_rows (indices : list IndexMetadata) (frags : list Fragment) : result StoreError (N * N) :=
  match vector_segments indices with
  | [] => Ok (0, 0)%N
  | segments => unindexed_loop (covered segments) frags (0, 0)%N
  end.

(** ** Counting *)

Record Statistics := mkStatistics {
  stat_domains : N;
  stat_branches : N;
  stat_indexed_commits : N;
  stat_documents : N;
  stat_chunks : N;
  stat_pending_index_fragments : N;
  stat_pending_index_documents : N;
  stat_store_clustering : option bool;
}.
#[export] Instance Statistics_eq_dec : EqDecision Statistics. Proof. solve_decision. Defined.

(** The running counts of [statistics]: rows and deletions, tagged commits, and
    chunks of datasets that cannot be cached. *)
Record Totals := mkTotals { tt_rows : N * N; tt_commits : N; tt_chunks : N }.

Definition n_size {A} (l : list A) : N := N.of_nat (length l).

Section stats.
Context {W H : Type} `{LanceOps W H, LanceIndexOps W H, LanceMaintOps W H} `{ByteSerialize, FormParse}
        {HD : HashIter string (DatasetCacheEntry H)}.
Implicit Types s : LanceStore W H.

Definition count_unindexed_fragments (path : string) (ds : H) : io W H N :=
  let! indices := io_read path "load indices failed: " (λ w, l_load_indices w ds) in
  λ s, (s, unindexed_fragments indices (l_fragments ds)).
Definition count_unindexed_rows (path : string) (ds : H) : io W H (N * N) :=
  let! indices := io_read path "load indices failed: " (λ w, l_load_indices w ds) in
  λ s, (s, unindexed_rows indices (l_fragments ds)).

(** In the order of the directory, which [statistics] does not depend on but
    for the handles left in the cache. *)
Definition discover_on_disk_datasets s : list string :=
  match ff_read_dir (l_fs "") [] with
  | Some _ => []
  | None =>
      omap (λ '(name, w),
        if negb (ff_entry (l_fs "") [] name) && l_exists w
        then lance_stem name ≫= decode_domain_path else None) (map_to_list (st_disk s))
  end.

Definition count_dataset_rows (path : string) : io W H N :=
  io_or 0%N (let! ds := io_open_fresh path in io_ret (live_rows (add_fragments (0, 0)%N (l_fragments ds)))).

Definition count_distinct_doc_ids (path : string) (ds : H) : io W H N := λ s,
  (s, Ok (match l_scan (dir_of s path) ds None with
          | Ok rows => N.of_nat (size (list_to_set (map cr_doc_id rows) : gset string))
          | Err _ => 0%N
          end)).

(** [if let Ok(tags) = ds.tags().list()]. *)
Definition count_tags (path : string) (ds : H) : io W H (option N) := λ s,
  (s, Ok (match l_list_tags (dir_of s path) ds with Ok tags => Some (N.of_nat (size tags)) | Err _ => None end)).

(** The cached handles, with their domains. *)
Definition cached_handles s : list (string * H) := map (λ kv, (kv.1, ce_ds kv.2)) (hash_iter (dc_datasets (st_cache s))).

(** The pending fragments and rows of some handles; those that cannot be
    counted are left out. *)
Fixpoint add_pending (handles : list (string * H)) (acc : N * N) : io W H (N * N) :=
  match handles with
  | [] => io_ret acc
  | (domain, ds) :: handles =>
      let! acc := io_or acc (let! p := count_unindexed_rows (dataset_path domain) ds in
                             io_ret (u64_add acc.1 p.1, u64_add acc.2 p.2)) in
      add_pending handles acc
  end.

Definition add_handle_rows (handles : list (string * H)) : N * N :=
  foldl (λ acc kv, add_fragments acc (l_fragments kv.2)) (0, 0)%N handles.

(** The loop of [statistics] over the datasets found on disk. *)
Fixpoint add_on_disk (cached : gset string) (on_disk : list string) (t : Totals) : io W H Totals :=
  match on_disk with
  | [] => io_ret t
  | domain :: on_disk =>
      if bool_decide (domain ∈ cached) then add_on_disk cached on_disk t else
      let! o := io_or None (io_open_dataset_readonly domain) in
      let! t := match o with
                | Some ds =>
                    let rows := add_fragments (tt_rows t) (l_fragments ds) in
                    let! tags := count_tags (dataset_path domain) ds in
                    io_ret (mkTotals rows (match tags with Some n => u64_add (tt_commits t) n | None => tt_commits t end) (tt_chunks t))
                | None =>
                    let! n := count_dataset_rows (dataset_path domain) in
                    io_ret (mkTotals (tt_rows t) (tt_commits t) (u64_add (tt_chunks t) n))
                end in
      add_on_disk cached on_disk t
  end.

Definition has_commit (kv : BranchKey * BranchIndex) : bool := match bi_commit kv.2 with Some _ => true | None => false end.

Definition statistics : io W H Statistics :=
  let! s := io_get in
  let cached : gset string := dom (dc_datasets (st_cache s)) in
  let indexes := map_to_list (st_branch_indexes s) in
  let indexed_commits := n_size (filter (λ kv, has_commit kv = true) indexes) in
  let rows := add_handle_rows (cached_handles s) in
  let! pending := add_pending (cached_handles s) (0, 0)%N in
  let on_disk := discover_on_disk_datasets s in
  let domains : gset string := cached ∪ list_to_set (map (λ kv, kv.1.1) indexes) ∪ list_to_set on_disk in
  let! t := add_on_disk cached on_disk (mkTotals rows indexed_commits 0) in
  io_ret (mkStatistics (N.of_nat (size domains)) (n_size indexes) (tt_commits t) 0
            (u64_add (tt_chunks t) (live_rows (tt_rows t))) pending.1 pending.2 None).

(** [store_clustering] is what the domain settings say of the domain. *)
Definition statistics_for_domain (domain : string) (store_clustering : bool) : io W H Statistics :=
  let path := dataset_path domain in
  let! s := io_get in
  let cached := ce_ds <$> dc_datasets (st_cache s) !! domain in
  let indexes := filter (λ kv : BranchKey * BranchIndex, kv.1.1 = domain) (map_to_list (st_branch_indexes s)) in
  let handles := match cached with Some ds => [(domain, ds)] | None => [] end in
  let in_memory := match cached with Some _ => true | None => negb (is_empty indexes) end in
  let rows := add_handle_rows handles in
  let! pending := add_pending handles (0, 0)%N in
  let domains := if in_memory || path_exists s path then 1%N else 0%N in
  let t := mkTotals rows (n_size (filter (λ kv, has_commit kv = true) indexes)) 0 in
  let! t :=
    if (rows.1 =? 0)%N && path_exists s path then
      let! o := io_or None (io_open_dataset_readonly domain) in
      match o with
      | Some ds =>
          let rows := add_fragments rows (l_fragments ds) in
          let! tags := count_tags path ds in
          io_ret (mkTotals rows (default (tt_commits t) tags) (tt_chunks t))
      | None =>
          let! chunks := count_dataset_rows path in
          let! tags := io_or None (let! ds := io_open_fresh path in count_tags path ds) in
          io_ret (mkTotals rows (default (tt_commits t) tags) chunks)
      end
    else io_ret t in
  let chunks := u64_add (tt_chunks t) (live_rows (tt_rows t)) in
  let! documents :=
    if (0 <? chunks)%N then
      let! s := io_get in
      match dc_datasets (st_cache s) !! domain with
      | Some e => count_distinct_doc_ids path (ce_ds e)
      | None => io_or 0%N (let! ds := io_open_fresh path in count_distinct_doc_ids path ds)
      end
    else io_ret 0%N in
  io_ret (mkStatistics domains (n_size indexes) (tt_commits t) documents chunks pending.1 pending.2 (Some store_clustering)).
End stats.

(** ** Encoding and decoding names *)

Section decode.
Context `{ByteSerialize, FormParse}.

(** The documented behaviour of form_urlencoded on one serialised segment. *)
Class FormLaws : Prop := {
  law_form_parse x : x ≠ "" → form_parse (byte_serialize x) = [(x, "")];
  law_serialize_empty x : byte_serialize x = "" ↔ x = "";
}.

Lemma split_dunder_ne s : split_dunder s ≠ [].
Proof.
  destruct s as [|a [|b s]]; [done|done|]. cbn [split_dunder]. destruct (_ && _); [done|].
  by destruct (match s with EmptyString => _ | String _ _ => _ end).
Qed.

Lemma split_dunder_cons a s :
  split_dunder (String a s) =
    match s with
    | String b s'' => if Ascii.eqb a underscore && Ascii.eqb b underscore then EmptyString :: split_dunder s''
                      else match split_dunder s with seg :: segs => String a seg :: segs | [] => [String a EmptyString] end
    | EmptyString => [String a EmptyString]
    end.
Proof. by destruct s. Qed.

(** No two underscores in a row. *)
Definition dunder_free (s : string) : Prop := split_dunder s = [s].

Lemma dunder_free_tail a s : dunder_free (String a s) → dunder_free s.
Proof.
  unfold dunder_free. rewrite split_dunder_cons. destruct s as [|b s]; [done|]. destruct (_ && _); [done|].
  destruct (split_dunder (String b s)) as [|seg segs]; [done|]. by intros [= -> ->].
Qed.

Lemma split_dunder_app seg rest :
  dunder_free (seg +:+ "_") → split_dunder (seg +:+ "__" +:+ rest) = seg :: split_dunder rest.
Proof.
  induction seg as [|a seg IH]; intros Hf; [done|].
  change (split_dunder (String a (seg +:+ "__" +:+ rest)) = String a seg :: split_dunder rest).
  change (dunder_free (String a (seg +:+ "_"))) in Hf. pose proof (dunder_free_tail _ _ Hf) as Hf'. apply IH in Hf' as Hs.
  rewrite split_dunder_cons, Hs. unfold dunder_free in Hf. rewrite split_dunder_cons in Hf.
  destruct seg as [|b seg].
  - change ("" +:+ "_") with "_" in Hf. change ("" +:+ "__" +:+ rest) with ("__" +:+ rest).
    change ("__" +:+ rest) with (String "_" (String "_" rest)). cbn [andb] in *. change (Ascii.eqb "_" underscore) with true in *.
    destruct (Ascii.eqb a underscore); [|reflexivity]. apply (f_equal length) in Hf. discriminate Hf.
  - change (String b seg +:+ "_") with (String b (seg +:+ "_")) in Hf.
    change (String b seg +:+ "__" +:+ rest) with (String b (seg +:+ "__" +:+ rest)).
    cbv iota beta in Hf |- *. destruct (Ascii.eqb a underscore && Ascii.eqb b underscore); [|reflexivity].
    apply (f_equal head) in Hf. discriminate Hf.
Qed.

(** The segments a join keeps apart. *)
Fixpoint separable (segs : list string) : Prop :=
  match segs with
  | [] => False
  | [x] => dunder_free x
  | x :: segs => dunder_free (x +:+ "_") ∧ separable segs
  end.

Lemma split_dunder_join segs : separable segs → split_dunder (join "__" segs) = segs.
Proof.
  induction segs as [|x [|y segs] IH]; [done|done|]. intros [Hx Hs].
  change (split_dunder (x +:+ "__" +:+ join "__" (y :: segs)) = x :: y :: segs).
  by rewrite split_dunder_app, IH.
Qed.

Lemma decode_segment_serialize `{!FormLaws} x : decode_segment (byte_serialize x) = Some x.
Proof.
  unfold decode_segment. destruct (String.eqb_spec (byte_serialize x) "") as [->%law_serialize_empty|Hn]; [done|].
  rewrite law_form_parse; [done|]. intros ->. by apply Hn, law_serialize_empty.
Qed.

Lemma decode_encoded `{!FormLaws} domain :
  separable (map byte_serialize (split_char slash domain)) →
  decode_domain_path (encode_domain_path domain) = Some domain.
Proof.
  intros Hs. unfold decode_domain_path, encode_domain_path. rewrite split_dunder_join by done.
  assert (Hm : ∀ l, mapM decode_segment (map byte_serialize l) = Some l).
  { induction l as [|x l IH]; [done|]. cbn [map mapM]. by rewrite decode_segment_serialize; cbn; rewrite IH. }
  rewrite Hm. cbn [fmap option_fmap option_map]. f_equal. apply join_split.
Qed.

Lemma substring_app x y : substring 0 (String.length x) (x +:+ y) = x.
Proof. induction x as [|a x IH]; [by destruct y|]. change (String a (substring 0 (String.length x) (x +:+ y)) = String a x). by rewrite IH. Qed.
Lemma substring_whole y : substring 0 (String.length y) y = y.
Proof. induction y as [|a y IH]; [done|]. cbn. by rewrite IH. Qed.
Lemma substring_drop x y : substring (String.length x) (String.length y) (x +:+ y) = y.
Proof. induction x as [|a x IH]; [apply substring_whole|exact IH]. Qed.

Lemma lance_stem_app x : lance_stem (x +:+ ".lance") = Some x.
Proof.
  unfold lance_stem. assert (Hl : String.length (x +:+ ".lance") = String.length x + 6).
  { induction x as [|a x IH]; [done|]. change (S (String.length (x +:+ ".lance")) = S (String.length x + 6)). by rewrite IH. }
  rewrite Hl, (proj2 (Nat.leb_le _ _)) by lia. replace (String.length x + 6 - 6) with (String.length x) by lia.
  pose proof (substring_drop x ".lance") as Hs. cbn [String.length] in Hs. by rewrite Hs, String.eqb_refl, substring_app.
Qed.
End decode.

Section stats_spec.
Context {W H : Type} `{LanceLaws W H} {HI : LanceIndexOps W H} {HM : LanceMaintOps W H} `{ByteSerialize, FormParse}
        {HF : FormLaws} {HD : HashIter string (DatasetCacheEntry H)}.
Implicit Types s : LanceStore W H.

(** C28: a dataset directory can be told to be the domain's: a domain whose
    serialised segments keep "__" out and, but for the last, do not end with an
    underscore is decoded from its directory name, and found by the discovery
    of a restarted process whenever its dataset is there. *)
Theorem decode_encode_domain s domain :
  separable (map byte_serialize (split_char slash domain)) →
  decode_domain_path (encode_domain_path domain) = Some domain ∧
  (l_fs (W:=W) (H:=H) "" = no_faults → path_exists s (dataset_path domain) = true →
   domain ∈ discover_on_disk_datasets s).
Proof.
  intros Hd%decode_encoded. split; [done|]. intros Hff Hx. unfold discover_on_disk_datasets. rewrite Hff. cbn [ff_read_dir ff_entry no_faults negb andb].
  unfold path_exists, dir_of in Hx. destruct (st_disk s !! dataset_path domain) as [w|] eqn:Ew; cbn in Hx; [|by rewrite law_absent in Hx].
  apply list_elem_of_omap. exists (dataset_path domain, w). split; [by apply elem_of_map_to_list|].
  rewrite Hx. unfold dataset_path. by rewrite lance_stem_app.
Qed.

(** ** Fragments that no index covers *)

Lemma fragment_ids_spec frags ids :
  fragment_ids frags ids =
    match fragment_ids frags ∅ with Ok _ => Ok (list_to_set (map fr_id frags) ∪ ids) | Err e => Err e end.
Proof.
  revert ids. induction frags as [|f frags IH]; intros ids; cbn [fragment_ids map list_to_set]; [cbn; by rewrite union_empty_l_L|].
  unfold frag_id_u32. destruct (fr_id f <? 2 ^ 32)%N; cbn; [|done].
  rewrite (IH ({[fr_id f]} ∪ ids)), (IH ({[fr_id f]} ∪ ∅)). destruct (fragment_ids frags ∅); [|done].
  f_equal. by rewrite (union_assoc_L _ {[_]}), (union_comm_L _ {[_]}).
Qed.

Lemma n_size_filter_cons (cov : gset N) f frags :
  n_size (filter (λ f, fr_id f ∉ cov) (f :: frags)) =
    (n_size (filter (λ f, fr_id f ∉ cov) frags) + if bool_decide (fr_id f ∈ cov) then 0 else 1)%N.
Proof.
  unfold n_size. case_bool_decide.
  - rewrite filter_cons_False by auto. lia.
  - rewrite filter_cons_True by auto. cbn [length]. lia.
Qed.

Lemma unindexed_loop_spec cov frags acc :
  (acc.1 + n_size frags < 2 ^ 64)%N →
  match fragment_ids frags ∅, unindexed_loop cov frags acc with
  | Ok _, Ok p => p.1 = (acc.1 + n_size (filter (λ f, fr_id f ∉ cov) frags))%N
  | Err e, Err e' => e = e'
  | _, _ => False
  end.
Proof.
  revert acc. induction frags as [|f frags IH]; intros acc Hb; cbn [fragment_ids unindexed_loop].
  { cbn. unfold n_size. cbn. lia. }
  unfold frag_id_u32. destruct (fr_id f <? 2 ^ 32)%N; cbn [mbind result_mbind]; [|done]. rewrite fragment_ids_spec.
  set (acc' := if bool_decide _ then _ else _). assert (Hl : n_size (f :: frags) = (1 + n_size frags)%N) by (unfold n_size; cbn [length]; lia).
  assert (Ha : acc'.1 = (acc.1 + if bool_decide (fr_id f ∈ cov) then 0 else 1)%N).
  { unfold acc'. destruct (bool_decide _); cbn; [lia|]. unfold u64_add. rewrite N.mod_small by lia. done. }
  specialize (IH acc'). assert (Hb' : (acc'.1 + n_size frags < 2 ^ 64)%N) by (destruct (bool_decide _); lia).
  specialize (IH Hb'). destruct (fragment_ids frags ∅), (unindexed_loop cov frags acc'); try done.
  rewrite IH, Ha, n_size_filter_cons. lia.
Qed.

Lemma n_size_filter_map (cov : gset N) frags :
  NoDup (map fr_id frags) →
  n_size (filter (λ f, fr_id f ∉ cov) frags) = N.of_nat (size ((list_to_set (map fr_id frags) : gset N) ∖ cov)).
Proof.
  intros Hnd. induction frags as [|f frags IH]; [by cbn [map list_to_set]; rewrite (subseteq_empty_difference_L ∅) by apply empty_subseteq|].
  cbn [map] in Hnd. apply NoDup_cons in Hnd as [Hf Hnd]. rewrite n_size_filter_cons, IH by done. cbn [map list_to_set].
  assert (Hf' : fr_id f ∉ (list_to_set (map fr_id frags) : gset N)) by (by rewrite elem_of_list_to_set).
  rewrite difference_union_distr_l_L. case_bool_decide as Hin.
  - rewrite (subseteq_empty_difference_L {[_]}) by (by apply singleton_subseteq_l). rewrite union_empty_l_L. lia.
  - rewrite (difference_disjoint_L {[_]}) by (by apply disjoint_singleton_l).
    rewrite (size_union (A:=N) (C:=gset N) {[fr_id f]}) by (apply disjoint_singleton_l; by intros [? _]%elem_of_difference). rewrite size_singleton. lia.
Qed.

(** The two counts of unindexed fragments agree: with distinct fragment
    ids the count that also sums rows counts the fragments outside the index
    segments, as the set difference does, and both fail alike. *)
Theorem unindexed_counts_agree indices frags :
  NoDup (map fr_id frags) → (n_size frags < 2 ^ 64)%N →
  fst <$> unindexed_rows indices frags = unindexed_fragments indices frags.
Proof.
  intros Hnd Hb. unfold unindexed_rows, unindexed_fragments. destruct (vector_segments indices) as [|seg segs]; [done|].
  set (cov := covered _). pose proof (unindexed_loop_spec cov frags (0, 0)%N Hb) as Hs.
  rewrite fragment_ids_spec. destruct (fragment_ids frags ∅), (unindexed_loop cov frags (0, 0)%N) as [[n r]|]; try done.
  - cbn in *. rewrite Hs, union_empty_r_L, <-n_size_filter_map by done. done.
  - cbn in *. by rewrite Hs.
Qed.

(** ** Statistics never fail and change nothing of the data *)

Lemma u64_add_bound a b : (u64_add a b < 2 ^ 64)%N.
Proof. unfold u64_add. by apply N.mod_lt. Qed.

Lemma add_fragments_bound acc frags :
  (acc.1 < 2 ^ 64)%N → ((add_fragments acc frags).1 < 2 ^ 64)%N.
Proof.
  unfold add_fragments. revert acc. induction frags as [|f frags IH]; intros acc Ha; [done|]. cbn [foldl]. apply IH.
  unfold add_fragment. cbn [fst]. destruct (fr_physical_rows f); [apply u64_add_bound|done].
Qed.

(** A computation that answers whatever the state, and only reads. *)
Definition answers {A} (c : io W H A) : Prop := ∀ s, ∃ s' a, c s = (s', Ok a) ∧ quiet s s'.

Lemma answers_quiet {A} (c : io W H A) : answers c → Within quiet c.
Proof. intros Hc s s' r Hr. destruct (Hc s) as (s1 & a & E & Hq). rewrite E in Hr. by injection Hr as <- _. Qed.

Lemma answers_ret {A} (a : A) : answers (io_ret a).
Proof. intros s. exists s, a. by split. Qed.
Lemma answers_bind {A B} (c : io W H A) (k : A → io W H B) : answers c → (∀ a, answers (k a)) → answers (io_bind c k).
Proof.
  intros Hc Hk s. destruct (Hc s) as (s1 & a & E & Hq). destruct (Hk a s1) as (s2 & b & E' & Hq').
  exists s2, b. unfold io_bind. rewrite E. split; [done|]. by transitivity s1.
Qed.
Lemma answers_or {A} (a : A) (c : io W H A) : Within quiet c → answers (io_or a c).
Proof.
  intros Hc s. unfold io_or. destruct (c s) as [s1 [x|e]] eqn:E; apply Hc in E; by eexists _, _.
Qed.
Lemma answers_get : answers (io_get (W:=W) (H:=H)).
Proof. intros s. exists s, s. by split. Qed.

#[export] Instance quiet_readonly d : Within quiet (io_open_dataset_readonly (W:=W) (H:=H) d).
Proof. by intros s s' r [Hq _]%io_open_dataset_readonly_inv. Qed.
#[local] Instance quiet_unindexed p (ds : H) : Within quiet (count_unindexed_rows (W:=W) p ds).
Proof. intros s s' r. unfold count_unindexed_rows, io_bind. destruct (io_read _ _ _ s) as [s1 [x|e]] eqn:E; apply io_read_inv in E as [-> _]; by intros [= <- _]. Qed.
#[local] Instance quiet_count_tags p (ds : H) : Within quiet (count_tags (W:=W) p ds).
Proof. intros s s' r [= <- _]. done. Qed.
#[local] Instance quiet_count_ids p (ds : H) : Within quiet (count_distinct_doc_ids (W:=W) p ds).
Proof. intros s s' r [= <- _]. done. Qed.
Lemma answers_tags p (ds : H) : answers (count_tags (W:=W) p ds).
Proof. intros s. by eexists _, _. Qed.
Lemma answers_ids p (ds : H) : answers (count_distinct_doc_ids (W:=W) p ds).
Proof. intros s. by eexists _, _. Qed.
Lemma answers_rows p : answers (count_dataset_rows (W:=W) (H:=H) p).
Proof. apply answers_or, _. Qed.
Hint Resolve answers_ret answers_bind answers_get answers_tags answers_ids answers_rows : core.
Hint Extern 2 (answers (io_or _ _)) => apply answers_or, _ : core.

Lemma answers_pending hs acc : answers (add_pending (W:=W) (H:=H) hs acc).
Proof. revert acc. induction hs as [|[d ds] hs IH]; intros acc; cbn [add_pending]; auto. Qed.
Lemma answers_on_disk cached on_disk t : answers (add_on_disk (W:=W) (H:=H) cached on_disk t).
Proof.
  revert t. induction on_disk as [|d on_disk IH]; intros t; cbn [add_on_disk]; [auto|].
  destruct (bool_decide _); [auto|]. apply answers_bind; [auto|]. intros [ds|]; auto.
Qed.
Hint Resolve answers_pending answers_on_disk : core.

Lemma statistics_answers : answers (statistics (W:=W) (H:=H)).
Proof. unfold statistics. cbv zeta. auto 7. Qed.

Lemma statistics_for_domain_answers d sc : answers (statistics_for_domain (W:=W) (H:=H) d sc).
Proof.
  unfold statistics_for_domain. apply answers_bind; [auto|]. intros s. apply answers_bind; [auto|]. intros p.
  apply answers_bind; [|intros t; apply answers_bind; [|auto]].
  - destruct (_ && _); [|auto]. apply answers_bind; [auto|]. intros [ds|]; auto 6.
  - destruct (0 <? _)%N; [|auto]. apply answers_bind; [auto|]. intros s1. destruct (_ !! d); auto.
Qed.

(** A first read of a dataset that loads. *)
Lemma readonly_run d s m :
  dc_datasets (st_cache s) !! d = None → path_exists s (dataset_path d) = true →
  l_load (dir_of s (dataset_path d)) = Ok m →
  ∃ s', io_open_dataset_readonly d s = (s', Ok (Some m)) ∧ quiet s s' ∧
    ∀ e, dc_datasets (st_cache s') !! d = Some e → ce_ds e = m.
Proof.
  intros Hc Hx Hl. destruct (io_open_dataset_readonly d s) as [s' r] eqn:E. pose proof E as [Hq _]%io_open_dataset_readonly_inv.
  exists s'. unfold io_open_dataset_readonly in E. unfold io_bind at 1, io_cache_hit, cache_hit in E. rewrite Hc in E. cbn in E.
  unfold io_bind at 1, io_get in E. rewrite Hx in E. unfold io_bind, io_open_fresh, io_read, io_modify, io_bind, io_lift in E.
  change (dir_of (set_fresh_open_count s _) ?p) with (dir_of s p) in E. rewrite Hl in E. cbn [map_err] in E.
  unfold io_insert_cached in E. change (st_cache (set_fresh_open_count s _)) with (st_cache s) in E.
  unfold insert_cached_dataset in E. rewrite Hc in E. injection E as <- <-. split; [done|]. split; [done|].
  intros e He. cbn [set_cache st_cache] in He. apply evict_subset in He. cbn in He. rewrite lookup_insert_eq in He. by simplify_eq.
Qed.

(** The distinct documents of a list of rows. *)
Definition doc_count (rows : list ChunkRow) : N := N.of_nat (size (list_to_set (map cr_doc_id rows) : gset string)).

Lemma count_docs_run p s m rows :
  l_scan (dir_of s p) m None = Ok rows → count_distinct_doc_ids p m s = (s, Ok (doc_count (v_rows m))).
Proof.
  intros Hs. unfold count_distinct_doc_ids. rewrite Hs. apply law_scan in Hs. unfold doc_count. do 4 f_equal.
  apply leibniz_equiv. intros x. rewrite !elem_of_list_to_set, Hs.
  assert (filter (λ r, scan_keeps None r = true) (v_rows m) = v_rows m) as ->; [|done].
  clear Hs. induction (v_rows m) as [|r l IH]; [done|]. rewrite filter_cons_True by done. by rewrite IH.
Qed.
Lemma no_indexes (d : string) (m : gmap BranchKey BranchIndex) :
  (∀ b, m !! (d, b) = None) → filter (λ kv : BranchKey * BranchIndex, kv.1.1 = d) (map_to_list m) = [].
Proof.
  intros Hn. apply filter_nil. intros [[d' b] bi] Hin%elem_of_map_to_list. cbn. intros ->. by rewrite Hn in Hin.
Qed.

(** C27: the statistics of a domain never fail and change no data; in a process
    that has not touched the domain yet they are read off the dataset: its tags
    as indexed commits, its live chunks from the fragment metadata, and the
    distinct documents of its rows. *)
Theorem statistics_for_domain_spec d sc s :
  ∃ s' st, statistics_for_domain d sc s = (s', Ok st) ∧ quiet s s' ∧
  ∀ m tags rows, let w := dir_of s (dataset_path d) in
    dc_datasets (st_cache s) !! d = None → (∀ b, st_branch_indexes s !! (d, b) = None) →
    path_exists s (dataset_path d) = true → l_load w = Ok m → l_list_tags w m = Ok tags → l_scan w m None = Ok rows →
    let chunks := live_rows (add_fragments (0, 0)%N (l_fragments m)) in
    st = mkStatistics 1 0 (N.of_nat (size (v_tags w))) (if (0 <? chunks)%N then doc_count (v_rows m) else 0)
           chunks 0 0 (Some sc).
Proof.
  destruct (statistics_for_domain_answers d sc s) as (s' & st & Hr & Hq). exists s', st. split; [done|]. split; [done|].
  intros m tags rows w Hc Hb Hx Hl Ht Hs chunks. unfold statistics_for_domain in Hr. unfold io_bind at 1, io_get in Hr.
  rewrite Hc, (no_indexes _ _ Hb) in Hr. cbn [fmap option_fmap option_map add_pending add_handle_rows foldl fst is_empty negb orb n_size] in Hr.
  unfold io_bind at 1, io_ret at 1 in Hr. rewrite Hx in Hr. cbn [N.eqb andb] in Hr.
  destruct (readonly_run d s m Hc Hx Hl) as (s1 & Ho & Hq1 & He). assert (Hd1 : dir_of s1 (dataset_path d) = w) by by apply quiet_dir.
  assert (Hch : (u64_add 0 chunks = chunks)%N).
  { unfold u64_add. rewrite N.add_0_l, N.mod_small; [done|]. pose proof (add_fragments_bound (0, 0)%N (l_fragments m) eq_refl) as Hbd.
    unfold chunks, live_rows. lia. }
  unfold io_bind at 1, io_bind at 1, io_or at 1 in Hr. rewrite Ho in Hr. unfold io_bind at 1, count_tags in Hr. rewrite Hd1, Ht in Hr.
  cbn [io_ret default from_option id tt_chunks tt_rows tt_commits] in Hr. fold chunks in Hr. rewrite Hch in Hr.
  apply law_list_tags in Ht as ->. unfold io_bind at 1 in Hr. destruct (0 <? chunks)%N.
  - unfold io_bind at 1, io_get in Hr. destruct (_ !! d) as [e|] eqn:Ee.
    + rewrite (He e eq_refl), (count_docs_run _ _ _ rows) in Hr by by rewrite Hd1. by injection Hr as _ <-.
    + unfold io_or, io_bind, io_open_fresh, io_read, io_modify, io_bind, io_lift in Hr.
      change (dir_of (set_fresh_open_count s1 _) ?p) with (dir_of s1 p) in Hr. rewrite Hd1, Hl in Hr. cbn [map_err] in Hr.
      rewrite (count_docs_run _ _ _ rows) in Hr by (change (dir_of (set_fresh_open_count s1 _) ?p) with (dir_of s1 p); by rewrite Hd1).
      by injection Hr as _ <-.
  - by injection Hr as _ <-.
Qed.
End stats_spec.

(** ** Examples *)

Module StatsExample.
Import StoreExample CommitExample MaintExample.
#[export] Existing Instances RefLance.ops RefLance.view RefLance.laws RefMaint.maint_ops StoreExample.ident_serialize StoreExample.cache_order.
(** Of names that need no encoding. *)
#[export] Instance plain_form : FormParse := λ s, if String.eqb s "" then [] else [(s, "")].
#[export] Instance plain_laws : FormLaws.
Proof.
  split; [|done]. intros x Hx. unfold form_parse, plain_form, byte_serialize, StoreExample.ident_serialize.
  by destruct (String.eqb_spec x "").
Qed.
(** One fragment, of all the rows and two deleted ones. *)
#[export] Instance stats_index_ops : LanceIndexOps (option RefLance.dir) RefLance.handle := {|
  l_load_indices _ _ := Ok []; l_create_index w h _ _ _ := RefIndex.rewrite w h; l_optimize_append := RefIndex.rewrite;
  l_optimize_merge _ := RefIndex.rewrite; l_count_rows _ h := Ok (length (RefLance.rh_rows h));
  l_fragments h := [mkFragment 0 (Some (2 + n_size (RefLance.rh_rows h))%N) (Ok 2%N)]; l_compact_files := RefIndex.rewrite |}.

(** The small dataset after a restart. *)
Definition restarted : CommitExample.St := open_store "/data" 2 (st_disk store5).

Definition rows3 : list ChunkRow := [row "A" "a"; row "B" "b"; row "C" "c"].

(** Two tags: two commits to a process that has just started, none to the same
    process a request later, and in neither answer the number of branches. *)
Example statistics_forgets_commits :
  let '(s1, first) := statistics_for_domain "o/t" true restarted in
  let '(_, second) := statistics_for_domain "o/t" true s1 in
  first = Ok (mkStatistics 1 0 2 3 3 0 0 (Some true)) ∧ second = Ok (mkStatistics 1 0 0 3 3 0 0 (Some true)).
Proof. vm_compute. auto. Qed.
Example global_statistics_forgets_commits :
  let '(s1, first) := statistics restarted in
  let '(_, second) := statistics s1 in
  first = Ok (mkStatistics 1 0 2 0 3 0 0 None) ∧ second = Ok (mkStatistics 1 0 0 0 3 0 0 None).
Proof. vm_compute. auto. Qed.
End StatsExample.
Import StatsExample.

Lemma statistics_for_domain_spec_witness :
  snd (statistics_for_domain "o/t" true restarted) = Ok (mkStatistics 1 0 2 3 3 0 0 (Some true)).
Proof.
  destruct (statistics_for_domain_spec "o/t" true restarted) as (s' & st & -> & _ & Hst). cbn [snd]. f_equal.
  rewrite (Hst (RefLance.mkHandle None 3 rows3) (v_tags (dir_of restarted MaintExample.path)) rows3);
    [by vm_compute|by vm_compute| |by vm_compute..]. intros b. done.
Defined.

Lemma decode_encode_domain_witness :
  decode_domain_path "o__t" = Some "o/t" ∧ discover_on_disk_datasets restarted = ["o/t"].
Proof.
  destruct (decode_encode_domain restarted "o/t") as [Hd Hf]; [by vm_compute|]. split; [exact Hd|].
  assert ("o/t" ∈ discover_on_disk_datasets restarted) as Hin by (apply Hf; by vm_compute). by vm_compute.
Defined.

(** The directory of [a/_b] is decoded as the one of the other domain that
    shares it, and a trailing underscore moves to the next segment. *)
Example underscore_moves :
  decode_domain_path (encode_domain_path "a_/b") = Some "a/_b" ∧ dataset_path "a_/b" = dataset_path "a/_b".
Proof. by vm_compute. Qed.

Definition three_fragments : list Fragment := [mkFragment 1 (Some 10%N) (Ok 0%N); mkFragment 2 (Some 20%N) (Ok 0%N); mkFragment 3 None (Ok 0%N)].
Lemma unindexed_counts_agree_witness :
  let indices := [mkIndexMetadata "u" VECTOR_INDEX_NAME (Some {[2%N]}); mkIndexMetadata "v" FTS_INDEX_NAME None] in
  unindexed_fragments indices three_fragments = Ok 2%N ∧ unindexed_rows indices three_fragments = Ok (2, 10)%N.
Proof.
  cbv zeta. split; [|by vm_compute]. rewrite <-unindexed_counts_agree; [by vm_compute| |done].
  change (NoDup [1%N; 2%N; 3%N]). apply (bool_decide_unpack _). by vm_compute.
Defined.
