(* ===== verification/Pipeline.v ===== *)
(** * The index pipeline (src/src/service/mod.rs, [io_run_index_pipeline] and
      [io_run_index_pipeline_stream])

    From a commit's operations to rows, deletions, a tag: chunking, embedding in
    two roles, scattering of the embeddings back to their documents, and the
    write phase under the pipeline lock, in the buffered variant and in the
    streaming one (micro-batches, cancellation, progress messages, the check of
    the announced number of documents).

    The errors of the pipeline are strings; in the store's monad they are
    carried as [StoreInternal].  A run that panics (a slice out of range, an
    embedding call that panics) is [None].  The clean-up after
    the tag, whose errors are ignored, is the one of Maintain.  The pipeline's
    progress counters are not modelled. *)

From S2P Require Import Prelude F32 RustStr Model Distance LayerIdx Ingest Chunk Schema Rollup Lance DatasetCache Store Commit Index Maintain Embed.

(** ** The embedding service as the pipeline sees it *)

Class Embedder (E : Type) := {
  embed_document : E → list string → E * option (list EmbedResult);
  embed_clustering : E → list string → E * option (list EmbedResult);
}.

(** One result per text, and vectors of dimension [dim]. *)
Definition one_per_text (dim : nat) {E} (embed : E → list string → E * option (list EmbedResult)) : Prop :=
  ∀ e texts, ∃ e' rs, embed e texts = (e', Some rs) ∧ length rs = length texts ∧
    ∀ v, EmbedOk v ∈ rs → length v = dim.

Class EmbedderLaws (E : Type) `{Embedder E} (dim : nat) : Prop := {
  law_document : one_per_text dim embed_document;
  law_clustering : one_per_text dim embed_clustering;
}.

(** [chunk::Chunk] counters as the row's [i32] columns. *)
Definition as_i32 (n : N) : Z := let z := (Z.of_N n mod 2 ^ 32)%Z in if (z <? 2 ^ 31)%Z then z else (z - 2 ^ 32)%Z.

Definition chunk_error_to_string (e : ChunkError) : string :=
  match e with
  | TokenizerError m => "tokenizer encoding failed: " +:+ m
  | InvalidParams n => "chunk params invalid: max_tokens must be > 0, got " +:+ pretty (N.of_nat n)
  end.

Record DocToEmbed := mkDocToEmbed { de_id : string; de_chunks : list Chunk; de_changed : bool }.

(** What the collect phase has gathered. *)
Record Collected := mkCollected {
  co_rows : list ChunkRow; co_delete : list string; co_skipped : list SkippedDoc; co_count : N;
}.

Definition skip (c : Collected) (id message : string) : Collected :=
  mkCollected (co_rows c) (co_delete c) (co_skipped c ++ [mkSkippedDoc id message]) (co_count c).
Definition delete_doc_id (c : Collected) (id : string) : Collected :=
  mkCollected (co_rows c) (co_delete c ++ [id]) (co_skipped c) (co_count c).

Section collect.
Context (encode : string → result string Encoding) (params : ChunkParams).

(** The handling of an [Inserted] or [Changed] operation. *)
Definition chunk_doc (id text : string) (changed : bool) : option (DocToEmbed + string) :=
  r ← chunk_text encode text params;
  Some match r with
       | Ok [] => inr "chunking produced zero chunks"
       | Ok chunks => inl (mkDocToEmbed id chunks changed)
       | Err e => inr ("chunking failed: " +:+ chunk_error_to_string e)
       end.

(** ** The buffered collect phase *)

(** Phase A: the operations, one by one. *)
Fixpoint collect_ops (ops : list Operation) (docs : list DocToEmbed) (c : Collected)
    : option (result string (list DocToEmbed * Collected)) :=
  let doc id text changed ops :=
    d ← chunk_doc id text changed;
    match d with
    | inl d => collect_ops ops (docs ++ [d]) c
    | inr message => collect_ops ops docs (skip c id message)
    end in
  match ops with
  | [] => Some (Ok (docs, c))
  | Inserted id text :: ops => doc id text false ops
  | Changed id text :: ops => doc id text true ops
  | Deleted id :: ops => collect_ops ops docs (delete_doc_id c id)
  | OpError message :: ops => collect_ops ops docs (skip c "unknown" ("operation error: " +:+ message))
  | OpAbort :: _ => Some (Err "push aborted by client")
  end.

(** Phase B: the texts of all chunks, and each document's range in them. *)
Fixpoint flatten (start : nat) (docs : list DocToEmbed) : list string * list (nat * nat) :=
  match docs with
  | [] => ([], [])
  | d :: docs =>
      let count := length (de_chunks d) in
      let r := flatten (start + count) docs in
      (map ch_text (de_chunks d) ++ r.1, (start, count) :: r.2)
  end.

(** [&results[start..start + count]]. *)
Definition slice {A} (l : list A) (start count : nat) : option (list A) :=
  if (start + count <=? length l)%nat then Some (take count (drop start l)) else None.

Fixpoint first_failure (rs : list EmbedResult) : option string :=
  match rs with
  | [] => None
  | EmbedFailed msg :: _ => Some msg
  | EmbedOk _ :: rs => first_failure rs
  end.

(** The extraction loop: it stops at a failure, with its message. *)
Fixpoint extract (label : string) (rs : list EmbedResult) : result string (list (list f32)) :=
  match rs with
  | [] => Ok []
  | EmbedOk v :: rs => vs ← extract label rs; Ok (v :: vs)
  | EmbedFailed msg :: _ => Err ("internal: EmbedResult::Failed after " +:+ label +:+ ": " +:+ msg)
  end.

Definition doc_rows_of (d : DocToEmbed) (embeddings_doc embeddings_query : list (list f32)) : list ChunkRow :=
  map (λ p : Chunk * (list f32 * list f32),
         mkChunkRow (de_id d) (extract_doc_type (de_id d)) (as_i32 (ch_index p.1)) (as_i32 (ch_count p.1))
           (as_i32 (ch_token_start p.1)) (as_i32 (ch_doc_token_len p.1)) p.2.1 p.2.2 (ch_text p.1))
    (zip (de_chunks d) (zip (map l2_normalize embeddings_doc) (map l2_normalize embeddings_query))).

(** One document of phase D: its rows, or why it is skipped. *)
Definition doc_outcome (check : string) (d : DocToEmbed) (rs_doc rs_query : list EmbedResult)
    : result string (list ChunkRow) :=
  match first_failure (rs_doc ++ rs_query) with
  | Some failure_msg => Err failure_msg
  | None =>
      embeddings_doc ← extract (check +:+ " (doc)") rs_doc;
      embeddings_query ← extract (check +:+ " (query)") rs_query;
      Ok (doc_rows_of d embeddings_doc embeddings_query)
  end.

Definition add_doc (d : DocToEmbed) (outcome : result string (list ChunkRow)) (c : Collected) : Collected :=
  match outcome with
  | Err message => skip c (de_id d) message
  | Ok rows =>
      mkCollected (co_rows c ++ rows) (co_delete c ++ if de_changed d then [de_id d] else [])
        (co_skipped c) (co_count c + 1)
  end.

(** Phase D: the embeddings back to their documents; [None]: a slice out of range. *)
Fixpoint scatter (check : string) (rs_doc rs_query : list EmbedResult) (docs : list (DocToEmbed * (nat * nat)))
    (c : Collected) : option Collected :=
  match docs with
  | [] => Some c
  | (d, (start, count)) :: docs =>
      sd ← slice rs_doc start count;
      sq ← slice rs_query start count;
      scatter check rs_doc rs_query docs (add_doc d (doc_outcome check d sd sq) c)
  end.

Context {E : Type} `{Embedder E} (dim : nat) (store_clustering : bool).

Definition zeros (texts : list string) : list EmbedResult := map (λ _, EmbedOk (replicate dim F32.zero)) texts.

(** Phases B to D on a list of documents. *)
Definition embed_docs (check : string) (e : E) (docs : list DocToEmbed) (c : Collected) : E * option Collected :=
  let '(flat_texts, ranges) := flatten 0 docs in
  let '(e, rs_doc) := embed_document e flat_texts in
  let '(e, rs_query) := match rs_doc with
    | None => (e, None)
    | Some _ => if store_clustering then embed_clustering e flat_texts else (e, Some (zeros flat_texts))
    end in
  (e, rs_doc ← rs_doc; rs_query ← rs_query; scatter check rs_doc rs_query (zip docs ranges) c).

Definition no_work : Collected := mkCollected [] [] [] 0.

(** The whole buffered collect phase. *)
Definition collect (e : E) (operations : list Operation) : E * option (result string Collected) :=
  match collect_ops operations [] no_work with
  | None => (e, None)
  | Some (Err msg) => (e, Some (Err msg))
  | Some (Ok (docs, c)) =>
      let '(e, c) := embed_docs "first_failure check" e docs c in (e, Ok <$> c)
  end.

(** ** The streaming collect phase *)

Definition MICRO_BATCH_DOCS : nat := N.to_nat 2000.

Record StreamState := mkStreamState {
  ss_embedder : E;
  ss_tick : nat;                       (* reads of the cancellation token so far *)
  ss_batch : list DocToEmbed;
  ss_collected : Collected;
  ss_seen : N;                         (* [total_docs_seen] *)
  ss_sent : list ProgressUpdate;       (* the progress messages sent *)
}.

Definition SUPERSEDED : string := "pipeline superseded by new push (reindex)".

(** The cancellation token: whether its k-th read finds it cancelled.  [None]
    is a panic, [Some (Err msg)] an error. *)
Context (cancelled : nat → bool).

Definition read_token (s : StreamState) : StreamState * bool :=
  (mkStreamState (ss_embedder s) (S (ss_tick s)) (ss_batch s) (ss_collected s) (ss_seen s) (ss_sent s),
   cancelled (ss_tick s)).

Definition set_collected (s : StreamState) (e : E) (c : Collected) (sent : list ProgressUpdate) : StreamState :=
  mkStreamState e (ss_tick s) (ss_batch s) c (ss_seen s) (ss_sent s ++ sent).

(** The scatter of a sub-batch (its rows are gathered apart and added when the
    flush ends; a flush that fails ends the run, with whatever was gathered): as [scatter], with a progress message after
    each document that has been indexed. *)
Fixpoint scatter_stream (progress : bool) (rs_doc rs_query : list EmbedResult) (docs : list (DocToEmbed * (nat * nat)))
    (seen : N) (c : Collected) (sent : list ProgressUpdate) : option (Collected * list ProgressUpdate) :=
  match docs with
  | [] => Some (c, sent)
  | (d, (start, count)) :: docs =>
      sd ← slice rs_doc start count;
      sq ← slice rs_query start count;
      let outcome := doc_outcome "check" d sd sq in
      let c := add_doc d outcome c in
      scatter_stream progress rs_doc rs_query docs seen c
        (sent ++ if progress && is_ok outcome
                 then [Progress (co_count c) seen (N.of_nat (length (co_skipped c)))] else [])
  end.

(** One sub-batch of [flush_microbatch]: the token is read before, and beside
    each of the two embedding calls. *)
Definition flush_sub_batch (progress : bool) (s : StreamState) (sub_batch : list DocToEmbed)
    : StreamState * option (result string unit) :=
  let '(s, cancel) := read_token s in
  if cancel then (s, Some (Err SUPERSEDED)) else
  let '(flat_texts, ranges) := flatten 0 sub_batch in
  let '(s, cancel) := read_token s in
  if cancel then (s, Some (Err SUPERSEDED)) else
  let '(e, rs_doc) := embed_document (ss_embedder s) flat_texts in
  match rs_doc with
  | None => (s, None)
  | Some rs_doc =>
      let '(s, cancel) := if store_clustering then read_token s else (s, false) in
      if cancel then (set_collected s e (ss_collected s) [], Some (Err SUPERSEDED)) else
      let '(e, rs_query) := if store_clustering then embed_clustering e flat_texts else (e, Some (zeros flat_texts)) in
      match (rs_query ← rs_query; scatter_stream progress rs_doc rs_query (zip sub_batch ranges) (ss_seen s) (ss_collected s) []) with
      | None => (s, None)
      | Some (c, sent) => (set_collected s e c sent, Some (Ok tt))
      end
  end.

Fixpoint flush_sub_batches (progress : bool) (s : StreamState) (sub_batches : list (list DocToEmbed))
    : StreamState * option (result string unit) :=
  match sub_batches with
  | [] => (s, Some (Ok tt))
  | sub_batch :: rest =>
      match flush_sub_batch progress s sub_batch with
      | (s, Some (Ok _)) => flush_sub_batches progress s rest
      | r => r
      end
  end.

Context (embed_batch_size : nat) (progress : bool).

Definition clear_batch (s : StreamState) : StreamState :=
  mkStreamState (ss_embedder s) (ss_tick s) [] (ss_collected s) (ss_seen s) (ss_sent s).

Definition flush_microbatch (s : StreamState) : StreamState * option (result string unit) :=
  match ss_batch s with
  | [] => (s, Some (Ok tt))
  | batch_docs =>
      match flush_sub_batches progress s (chunks (Nat.max embed_batch_size 1) batch_docs) with
      | (s, Some (Ok _)) => (clear_batch s, Some (Ok tt))
      | r => r
      end
  end.

Definition stream_doc (s : StreamState) (id text : string) (changed : bool) : option StreamState :=
  d ← chunk_doc id text changed;
  Some match d with
       | inl d => mkStreamState (ss_embedder s) (ss_tick s) (ss_batch s ++ [d]) (ss_collected s) (ss_seen s + 1) (ss_sent s)
       | inr message =>
           mkStreamState (ss_embedder s) (ss_tick s) (ss_batch s) (skip (ss_collected s) id message) (ss_seen s + 1) (ss_sent s)
       end.

Definition with_collected (s : StreamState) (c : Collected) : StreamState :=
  mkStreamState (ss_embedder s) (ss_tick s) (ss_batch s) c (ss_seen s) (ss_sent s).

(** The handling of one received operation, before the flush. *)
Definition stream_op (s : StreamState) (op : Operation) : StreamState * option (result string unit) :=
  let ok s := (s, Some (Ok tt)) in
  match op with
  | Inserted id text => match stream_doc s id text false with Some s => ok s | None => (s, None) end
  | Changed id text => match stream_doc s id text true with Some s => ok s | None => (s, None) end
  | Deleted id => ok (with_collected s (delete_doc_id (ss_collected s) id))
  | OpError message => ok (with_collected s (skip (ss_collected s) "unknown" ("operation error: " +:+ message)))
  | OpAbort =>
      (set_collected s (ss_embedder s) (ss_collected s) (if progress then [Aborted] else []),
       Some (Err "push aborted by client"))
  end.

(** The receive loop: [ops] is what the channel delivers before it closes. *)
Fixpoint stream_loop (s : StreamState) (ops : list Operation) : StreamState * option (result string unit) :=
  let '(s, cancel) := read_token s in
  if cancel then (s, Some (Err SUPERSEDED)) else
  let '(s, cancel) := read_token s in
  if cancel then (s, Some (Err SUPERSEDED)) else
  match ops with
  | [] => (s, Some (Ok tt))
  | op :: ops =>
      match stream_op s op with
      | (s, Some (Ok _)) =>
          if (MICRO_BATCH_DOCS <=? length (ss_batch s))%nat then
            match flush_microbatch s with
            | (s, Some (Ok _)) => stream_loop s ops
            | r => r
            end
          else stream_loop s ops
      | r => r
      end
  end.

(** The check of the announced number of document operations. *)
Definition truncation_error (s : StreamState) (expected_docs : option N) : option string :=
  expected ← expected_docs;
  let received := (ss_seen s + N.of_nat (length (co_delete (ss_collected s))))%N in
  if (received <? expected)%N then
    Some ("truncated push: expected " +:+ pretty expected +:+ " document ops, received " +:+ pretty received
      +:+ match co_skipped (ss_collected s) with
          | first :: _ => " (first failure: " +:+ sk_message first +:+ ")"
          | [] => ""
          end)
  else None.

(** From the start of the loop to the write phase. *)
Definition collect_stream (e : E) (ops : list Operation) (expected_docs : option N)
    : StreamState * option (result string unit) :=
  match stream_loop (mkStreamState e 0 [] no_work 0 []) ops with
  | (s, Some (Ok _)) =>
      match truncation_error s expected_docs with
      | Some msg =>
          (set_collected s (ss_embedder s) (ss_collected s) (if progress then [ProgressError msg] else []), Some (Err msg))
      | None => flush_microbatch s
      end
  | r => r
  end.
End collect.

(** ** The write phase *)

Section write.
Context {W H : Type} `{LanceOps W H, LanceIndexOps W H, LanceMaintOps W H} `{ByteSerialize}
        {HD : HashIter string (DatasetCacheEntry H)} {HT : HashIter string TagContents} {HB : HashIter string (list N)}.
(** The store's index configurations, and whether clustering vectors are kept. *)
Context (vector_config : VectorIndexConfig) (clustering_config : option VectorIndexConfig) (store_clustering : bool).

(** The indexes of a boundary commit on the handle [ds]; the version before
    the cascade.  A failed cascade is not an error. *)
Definition index_boundary (domain branch : string) (ds : H) : io W H N :=
  let path := dataset_path domain in
  let! fts := io_ctx "FTS index creation failed: " (io_ensure_fts_index_on_dataset path ds) in
  let! vec := io_ctx "vector index creation failed: " (io_ensure_vector_index path fts.1 vector_config false) in
  let! clu := match (if store_clustering then clustering_config else None) with
              | Some config => io_ctx "clustering vector index creation failed: "
                                 (io_ensure_clustering_vector_index path vec.1 config false)
              | None => io_ret vec
              end in
  let indexed_version := l_version clu.1 in
  io_increment_delta_count domain branch;!
  let! s := io_get in
  let delta_count := io_get_delta_count s domain branch in
  io_or (0, 0) (let! r := io_cascade path clu.1 (N.to_nat delta_count) in io_ret r.2);!
  io_ctx "cascade cache refresh failed: " (io_refresh_cached_dataset domain branch);!
  io_ret indexed_version.

Definition has_work (c : Collected) : bool := negb (is_empty (co_rows c)) || negb (is_empty (co_delete c)).

(** Whether the commit at a position builds indexes. *)
Inductive IndexAction := Skip | Create.
Definition should_create_index (commit_position : nat) : IndexAction :=
  if should_index_commit commit_position then Create else Skip.

(** The version a commit with work is tagged at, buffered variant. *)
Definition write_version (domain branch : string) (c : Collected) : io W H N :=
  let! last_version := io_ctx "batch delete-append failed: "
    (io_batch_delete_append domain branch (co_delete c) (co_rows c)) in
  let! commit_position := io_or 0 (io_count_branch_commits domain branch) in
  let! indexed_version :=
    match should_create_index commit_position with
    | Create =>
      let! ds_opt := io_or None (io_open_dataset_uncached domain branch) in
      match ds_opt with
      | Some ds => let! v := index_boundary domain branch ds in io_ret (Some v)
      | None => io_ret None
      end
    | Skip =>
      let! ds_opt := io_ctx "FTS index: failed to open dataset: " (io_open_dataset_uncached domain branch) in
      match ds_opt with
      | Some ds =>
          let! r := io_ctx "FTS index ensure failed: " (io_ensure_fts_index_on_dataset (dataset_path domain) ds) in
          io_ret (Some r.2)
      | None => io_ret None
      end
    end in
  io_ret (default last_version indexed_version).

(** Pruning after the tag; a failure is only logged. *)
Definition cleanup_after_tag (domain branch : string) : io W H unit :=
  io_or tt (io_cleanup_aggressive domain branch).

Definition write_phase (domain branch commit : string) (c : Collected) : io W H unit :=
  if has_work c then
    let! tag_version := write_version domain branch c in
    io_ctx "failed to tag commit: " (io_tag_commit domain branch commit tag_version);!
    update_last_indexed domain branch commit tag_version;!
    cleanup_after_tag domain branch
  else
    io_ctx "no-op tag: failed to ensure dataset: " (io_open_dataset domain branch);!
    let! current_version := io_ctx "no-op tag: failed to get branch head version: "
                              (io_branch_head_version domain branch) in
    io_ctx "no-op tag: failed to tag commit: " (io_tag_commit domain branch commit current_version);!
    update_last_indexed domain branch commit current_version.

(** The streaming variant, on the handle [ds] opened before the loop. *)
Definition stream_version (domain branch : string) (ds : H) (commit_position : nat) : io W H N :=
  match should_create_index commit_position with
  | Create => index_boundary domain branch ds
  | Skip =>
    let! r := io_ctx "FTS index ensure failed: " (io_ensure_fts_index_on_dataset (dataset_path domain) ds) in
    io_ctx "FTS cache refresh failed: " (io_refresh_cached_dataset domain branch);!
    io_ret r.2
  end.

Definition stream_data (domain branch : string) (ds : H) (c : Collected) : io W H H :=
  let path := dataset_path domain in
  let! ds := if negb (is_empty (co_delete c))
             then io_ctx "final delete failed: " (io_microbatch_delete path ds (co_delete c)) else io_ret ds in
  let! ds := if negb (is_empty (co_rows c))
             then io_ctx "end-of-push append failed: " (io_microbatch_append path ds (co_rows c)) else io_ret ds in
  io_ctx "cache refresh failed: " (io_refresh_cached_dataset domain branch);!
  io_ret ds.

(** A step whose failure is also sent as a progress message. *)
Definition reported {A} (progress : bool) (c : io W H A) (s : LanceStore W H)
    : LanceStore W H * result StoreError A * list ProgressUpdate :=
  match c s with
  | (s, Err e) => (s, Err e, if progress then [ProgressError (match e with StoreInternal m => m | _ => store_error_to_string e end)] else [])
  | (s, Ok a) => (s, Ok a, [])
  end.

Definition stream_tag (progress : bool) (msg domain branch commit : string) (version : N)
    : LanceStore W H → LanceStore W H * result StoreError unit * list ProgressUpdate :=
  reported progress (io_ctx msg (io_tag_commit domain branch commit version);!
                     update_last_indexed domain branch commit version).

Definition stream_finish (progress : bool) (domain branch commit : string) (ds : H) (commit_position : nat) (c : Collected)
    (s : LanceStore W H) : LanceStore W H * result StoreError unit * list ProgressUpdate :=
  if (0 <? co_count c)%N || negb (is_empty (co_delete c)) then
    match stream_version domain branch ds commit_position s with
    | (s, Err e) => (s, Err e, [])
    | (s, Ok v) =>
        match stream_tag progress "failed to tag commit: " domain branch commit v s with
        | (s, Ok _, msgs) => (cleanup_after_tag domain branch s, msgs)
        | r => r
        end
    end
  else
    match reported progress (io_ctx "no-op tag: failed to ensure dataset: " (io_open_dataset domain branch)) s with
    | (s, Err e, msgs) => (s, Err e, msgs)
    | (s, Ok _, _) =>
        match io_ctx "no-op tag: failed to get branch head version: " (io_branch_head_version domain branch) s with
        | (s, Err e) => (s, Err e, [])
        | (s, Ok v) => stream_tag progress "no-op tag: failed to tag commit: " domain branch commit v s
        end
    end.

(** ** The two pipelines *)

Context (encode : string → result string Encoding) (params : ChunkParams).
Context {E : Type} `{Embedder E}.

(** [None]: a panic. *)
Definition io_run_index_pipeline (e : E) (domain branch commit : string) (operations : list Operation) (s : LanceStore W H)
    : E * option (LanceStore W H * result StoreError (N * list SkippedDoc)) :=
  let '(e, r) := collect encode params (st_dim s) store_clustering e operations in
  (e, r ← r;
      Some match r with
           | Err msg => (s, Err (StoreInternal msg))
           | Ok c => (write_phase domain branch commit c;! io_ret (co_count c, co_skipped c)) s
           end).

Definition stream_open (domain branch : string) : io W H (H * nat) :=
  io_ctx "failed to ensure dataset: " (io_open_dataset domain branch);!
  let! ds := io_ctx "failed to open write handle: " (io_open_branch_for_write domain branch) in
  let! commit_position := io_or 0 (io_count_branch_commits domain branch) in
  io_ret (ds, commit_position).

(** With the progress messages sent. *)
Definition io_run_index_pipeline_stream (cancelled : nat → bool) (embed_batch_size : nat) (progress : bool) (e : E)
    (domain branch commit : string) (operations : list Operation) (expected_docs : option N) (s : LanceStore W H)
    : E * option (LanceStore W H * result StoreError (N * list SkippedDoc) * list ProgressUpdate) :=
  match stream_open domain branch s with
  | (s, Err err) => (e, Some (s, Err err, []))
  | (s, Ok (ds, commit_position)) =>
      let '(st, r) := collect_stream encode params (st_dim s) store_clustering cancelled embed_batch_size progress
                        e operations expected_docs in
      (ss_embedder st,
       r ← r;
       Some match r with
            | Err msg => (s, Err (StoreInternal msg), ss_sent st)
            | Ok _ =>
                let c := ss_collected st in
                match stream_data domain branch ds c s with
                | (s, Err err) => (s, Err err, ss_sent st)
                | (s, Ok ds) =>
                    match stream_finish progress domain branch commit ds commit_position c s with
                    | (s, Err err, msgs) => (s, Err err, ss_sent st ++ msgs)
                    | (s, Ok _, _) =>
                        (s, Ok (co_count c, co_skipped c),
                         ss_sent st ++ if progress then [ProgressComplete (co_count c) (co_skipped c)] else [])
                    end
                end
            end)
  end.
End write.
