(* ===== verification/Growth.v ===== *)
(** * The write path only adds

    What a step of the store may do to the datasets' past: every version and
    every tag that is there stays there, unchanged.  One instance per operation
    of the write path ([Grows]), composed the way the operations are; deleting
    a domain or a branch index is what has none.  A pipeline also cleans up
    after it has tagged its commit, which may cost versions that no tag stands
    for: a whole run keeps the tagged ones ([store_keeps]). *)

From S2P Require Import Prelude F32 RustStr Model Distance LayerIdx Ingest Chunk Schema Rollup Lance DatasetCache Store Commit Index Maintain Embed Pipeline.

(** What maintenance adds, beside [LanceVersionLaws]. *)
Class LanceIndexGrows (W H : Type) `{LanceView W H, LanceVersions W H, LanceIndexOps W H} : Prop := {
  law_create_index_grows w h column name p w' r : l_create_index w h column name p = (w', r) → grows w w';
  law_optimize_append_grows w h w' r : l_optimize_append w h = (w', r) → grows w w';
  law_optimize_merge_grows n w h w' r : l_optimize_merge n w h = (w', r) → grows w w';
  law_compact_files_grows w h w' r : l_compact_files w h = (w', r) → grows w w';
}.

#[local] Existing Instances RefLance.ops RefLance.view RefLance.versions RefIndex.index_ops.
#[export] Instance index_grows : LanceIndexGrows (option RefLance.dir) RefLance.handle.
Proof.
  split; [intros w h column name p w' r Hr|intros w h w' r Hr|intros n w h w' r Hr|intros w h w' r Hr];
    exact (RefLance.commit_version_grows w h (RefLance.rh_rows h) w' r Hr).
Qed.

Section growth.
Context {W H : Type} `{LanceLaws W H} {HV : LanceVersions W H} {HVL : LanceVersionLaws W H}
        {HI : LanceIndexOps W H} {HIG : LanceIndexGrows W H} `{ByteSerialize}
        {HD : HashIter string (DatasetCacheEntry H)} {HT : HashIter string TagContents}.
Implicit Types s : LanceStore W H.

(** Each directory grows, and the handles in the cache are those that were there
    or main handles. *)
Record store_grows s s' : Prop := {
  sg_dirs p : grows (dir_of s p) (dir_of s' p);
  sg_cache : cache_from (st_cache s) (st_cache s');
}.

#[export] Instance store_grows_preorder : PreOrder store_grows.
Proof.
  split; [intros s; split; [reflexivity|apply cache_from_refl]|]. intros s1 s2 s3 G1 G2. split.
  - intros p. etrans; [apply G1|apply G2].
  - eapply cache_from_trans; [apply G1|apply G2].
Qed.

(** The caches of every reachable state hold main handles. *)
Lemma cache_from_on_main s s' : cache_from (st_cache s) (st_cache s') → cache_on_main s → cache_on_main s'.
Proof. intros Hf Hc d e He. destruct (Hf d e He) as [(e0 & He0 & ->)|]; [eauto|]. by apply main_handle_branch. Qed.

Lemma same_grows s s' : st_disk s' = st_disk s → st_cache s' = st_cache s → store_grows s s'.
Proof. intros Ed Ec. split; [intros p; unfold dir_of; by rewrite Ed|]. rewrite Ec. apply cache_from_refl. Qed.

Lemma quiet_grows s s' : quiet s s' → store_grows s s'.
Proof.
  intros Hq. split; [intros p; unfold dir_of; by rewrite (quiet_disk s s')|].
  eapply touches_cache, (quiet_touches ""); done.
Qed.

Lemma put_dir_grows s p w : grows (dir_of s p) w → store_grows s (put_dir p w s).
Proof.
  intros Hw. split; [|apply cache_from_refl]. intros p'. unfold dir_of at 2, put_dir. cbn.
  destruct (decide (p' = p)) as [->|Hne]; [by rewrite lookup_insert_eq|]. rewrite lookup_insert_ne by done. reflexivity.
Qed.

Class Grows {A} (c : io W H A) : Prop := grows_run s s' r : c s = (s', r) → store_grows s s'.

#[export] Instance grows_ret {A} (a : A) : Grows (io_ret a).
Proof. intros s s' r [= <- _]. reflexivity. Qed.
#[export] Instance grows_throw {A} e : Grows (io_throw (A:=A) e).
Proof. intros s s' r [= <- _]. reflexivity. Qed.
#[export] Instance grows_get : Grows io_get.
Proof. intros s s' r [= <- _]. reflexivity. Qed.
#[export] Instance grows_bind {A B} (c : io W H A) (k : A → io W H B) :
  Grows c → (∀ a, Grows (k a)) → Grows (io_bind c k).
Proof.
  intros Hc Hk s s' r. unfold io_bind. destruct (c s) as [s1 [a|e]] eqn:E; apply Hc in E.
  - intros Hr. apply Hk in Hr. by etrans.
  - by intros [= <- _].
Qed.
#[export] Instance grows_lift {A} m (x : LanceStore W H → result string A) : Grows (λ s, io_lift m (x s) s).
Proof. intros s s' r [= <- _]. reflexivity. Qed.
#[export] Instance grows_read {A} p m (f : W → result string A) : Grows (io_read p m f).
Proof. intros s s' r [= <- _]. reflexivity. Qed.
Lemma grows_modify (f : LanceStore W H → LanceStore W H) :
  (∀ s, st_disk (f s) = st_disk s) → (∀ s, st_cache (f s) = st_cache s) → Grows (io_modify f).
Proof. intros Hd Hc s s' r [= <- _]. by apply same_grows. Qed.
Lemma grows_write {A} p m (f : W → W * result string A) :
  (∀ w w' r, f w = (w', r) → grows w w') → Grows (io_write p m f).
Proof.
  intros Hf s s' r. unfold io_write. destruct (f (dir_of s p)) as [w r0] eqn:E. intros [= <- _].
  by eapply put_dir_grows, Hf.
Qed.
Lemma grows_quiet {A} (c : io W H A) : (∀ s s' r, c s = (s', r) → quiet s s') → Grows c.
Proof. intros Hc s s' r E. by eapply quiet_grows, Hc. Qed.

#[export] Instance grows_create p m : Grows (io_write p m l_create).
Proof. apply grows_write. intros. by eapply law_create_grows. Qed.
#[export] Instance grows_append p m h rows : Grows (io_write p m (λ w, l_append w h rows)).
Proof. apply grows_write. intros. by eapply law_append_grows. Qed.
#[export] Instance grows_delete_rows p m h e : Grows (io_write p m (λ w, l_delete_rows w h e)).
Proof. apply grows_write. intros. by eapply law_delete_rows_grows. Qed.
#[export] Instance grows_create_branch p m h b f : Grows (io_write p m (λ w, l_create_branch w h b f)).
Proof. apply grows_write. intros. by eapply law_create_branch_grows. Qed.
#[export] Instance grows_create_tag p m h t v : Grows (io_write p m (λ w, l_create_tag w h t v)).
Proof. apply grows_write. intros. by eapply law_create_tag_grows. Qed.
#[export] Instance grows_create_index p m h c n x : Grows (io_write p m (λ w, l_create_index w h c n x)).
Proof. apply grows_write. intros. by eapply law_create_index_grows. Qed.
#[export] Instance grows_optimize p m h : Grows (io_write p m (λ w, l_optimize_append w h)).
Proof. apply grows_write. intros. by eapply law_optimize_append_grows. Qed.
#[export] Instance grows_merge p m n h : Grows (io_write p m (λ w, l_optimize_merge n w h)).
Proof. apply grows_write. intros. by eapply law_optimize_merge_grows. Qed.
#[export] Instance grows_compact p m h : Grows (io_write p m (λ w, l_compact_files w h)).
Proof. apply grows_write. intros. by eapply law_compact_files_grows. Qed.
End growth.

(** Case analysis inside a computation, and updates that leave the disk. *)
#[export] Hint Extern 2 (Grows (match ?x with _ => _ end)) => destruct x : typeclass_instances.
#[export] Hint Extern 2 (Grows (io_modify _)) => apply grows_modify; intros; by repeat case_match : typeclass_instances.

Section operations.
Context {W H : Type} `{LanceLaws W H} {HV : LanceVersions W H} {HVL : LanceVersionLaws W H}
        {HI : LanceIndexOps W H} {HIG : LanceIndexGrows W H} `{ByteSerialize}
        {HD : HashIter string (DatasetCacheEntry H)} {HT : HashIter string TagContents}.
Implicit Types s : LanceStore W H.

(** ** Opening *)

#[export] Instance grows_ensure_writable : Grows (ensure_writable (W:=W) (H:=H)).
Proof. apply grows_quiet. by intros s s' r [-> _]%ensure_writable_inv. Qed.
#[export] Instance grows_rows_to_batch rows : Grows (rows_to_batch (W:=W) (H:=H) rows).
Proof. apply _. Qed.
#[export] Instance grows_open_fresh p : Grows (io_open_fresh (W:=W) (H:=H) p).
Proof. unfold io_open_fresh. apply _. Qed.
#[export] Instance grows_open_readonly d : Grows (io_open_dataset_readonly (W:=W) (H:=H) d).
Proof. apply grows_quiet. by intros s s' r [Hq _]%io_open_dataset_readonly_inv. Qed.
#[export] Instance grows_open_for_write d b : Grows (io_open_branch_for_write (W:=W) (H:=H) d b).
Proof. unfold io_open_branch_for_write. apply _. Qed.
#[export] Instance grows_open_uncached d b : Grows (io_open_dataset_uncached (W:=W) (H:=H) d b).
Proof. unfold io_open_dataset_uncached. apply _. Qed.
#[export] Instance grows_refresh d b : Grows (io_refresh_cached_dataset (W:=W) (H:=H) d b).
Proof. apply grows_quiet. by intros s s' r ?%io_refresh_inv. Qed.

Lemma cache_hit_quiet d s s' r : io_cache_hit d s = (s', r) → quiet s s'.
Proof. by intros [Hq _]%io_cache_hit_inv. Qed.

(** What it inserts is a main handle: what [touches] says of it. *)
#[export] Instance grows_open_dataset d b : Grows (io_open_dataset (W:=W) (H:=H) d b).
Proof.
  intros s s' r Hr. pose proof Hr as Hto. apply io_open_dataset_touches in Hto. split; [|by eapply touches_cache].
  assert (Hins : ∀ s1 s2 h r, io_insert_cached d h s1 = (s2, r) → st_disk s2 = st_disk s1).
  { intros s1 s2 h r'. unfold io_insert_cached. destruct (insert_cached_dataset _ _ _). by intros [= <- _]. }
  unfold io_open_dataset, io_bind, io_get in Hr. destruct (io_cache_hit d s) as [s1 [[h|]|e]] eqn:E;
    apply cache_hit_quiet, quiet_grows, sg_dirs in E || (apply cache_hit_quiet, quiet_grows in E; destruct E as [E _]).
  - by injection Hr as <- _.
  - set (c := if path_exists s1 _ then _ else _) in Hr.
    assert (Hc : Grows c) by (unfold c; apply _). destruct (c s1) as [s2 [h|e]] eqn:E2; apply Hc in E2 as [E2 _].
    + apply Hins in Hr. intros p. unfold dir_of at 2. rewrite Hr. etrans; [apply E|apply E2].
    + injection Hr as <- _. intros p. etrans; [apply E|apply E2].
  - by injection Hr as <- _.
Qed.

(** ** Branches *)

#[export] Instance grows_head_version d b : Grows (io_branch_head_version (W:=W) (H:=H) d b).
Proof. unfold io_branch_head_version. apply _. Qed.
#[export] Instance grows_list_branches d : Grows (io_list_branches (W:=W) (H:=H) d).
Proof. unfold io_list_branches. apply _. Qed.
#[export] Instance grows_io_create_branch d b v : Grows (io_create_branch (W:=W) (H:=H) d b v).
Proof. unfold io_create_branch. apply _. Qed.
#[export] Instance grows_create_from_tag d b c : Grows (io_create_branch_from_tag (W:=W) (H:=H) d b c).
Proof. unfold io_create_branch_from_tag. apply _. Qed.
#[export] Instance grows_ensure_forked d b c : Grows (io_ensure_branch_forked (W:=W) (H:=H) d b c).
Proof.
  unfold io_ensure_branch_forked. case_match; [apply _|]. apply grows_bind; [apply _|]. intros existing.
  case_match; [apply _|]. intros s s' r. destruct (io_create_branch_from_tag d b c s) as [s1 [v|e]] eqn:E; apply grows_run in E.
  - by intros [= <- _].
  - destruct (is_already_exists e); [by intros [= <- _]|]. destruct (is_ref_not_found e); [|by intros [= <- _]].
    destruct (path_exists s1 _); [|by intros [= <- _]]. intros Hr%(grows_run (Grows:=_)). by etrans.
Qed.
#[export] Instance grows_increment d b : Grows (io_increment_delta_count (W:=W) (H:=H) d b).
Proof. unfold io_increment_delta_count. apply _. Qed.

(** ** Writing *)

#[export] Instance grows_microbatch_append p (h : H) rows : Grows (io_microbatch_append (W:=W) p h rows).
Proof. unfold io_microbatch_append. apply _. Qed.
#[export] Instance grows_microbatch_delete p (h : H) ids : Grows (io_microbatch_delete (W:=W) p h ids).
Proof. unfold io_microbatch_delete. apply _. Qed.
#[export] Instance grows_upsert d b i rows : Grows (io_upsert_chunks (W:=W) (H:=H) d b i rows).
Proof. unfold io_upsert_chunks. apply _. Qed.
#[export] Instance grows_batch d b ids rows : Grows (io_batch_delete_append (W:=W) (H:=H) d b ids rows).
Proof. unfold io_batch_delete_append. apply _. Qed.
#[export] Instance grows_delete_doc d b i : Grows (io_delete_doc (W:=W) (H:=H) d b i).
Proof. unfold io_delete_doc. apply _. Qed.

(** ** Commits *)

#[export] Instance grows_list_tags d (h : H) : Grows (list_tags (W:=W) d h).
Proof. unfold list_tags. apply _. Qed.
#[export] Instance grows_resolve_commit d b c : Grows (io_resolve_commit (W:=W) (H:=H) d b c).
Proof. unfold io_resolve_commit. apply _. Qed.
#[export] Instance grows_list_commit_versions d : Grows (io_list_commit_versions (W:=W) (H:=H) d).
Proof. unfold io_list_commit_versions. apply _. Qed.
#[export] Instance grows_derive_last_indexed d b : Grows (io_derive_last_indexed (W:=W) (H:=H) d b).
Proof. unfold io_derive_last_indexed. apply _. Qed.
#[export] Instance grows_count_commits d b : Grows (io_count_branch_commits (W:=W) (H:=H) d b).
Proof. unfold io_count_branch_commits. apply _. Qed.
#[export] Instance grows_try_reserve d b c : Grows (io_try_reserve_commit (W:=W) (H:=H) d b c).
Proof. unfold io_try_reserve_commit. apply _. Qed.
#[export] Instance grows_release d b c : Grows (io_release_commit_reservation (W:=W) (H:=H) d b c).
Proof. unfold io_release_commit_reservation. apply _. Qed.
#[export] Instance grows_cache_last d b c v : Grows (cache_last_indexed (W:=W) (H:=H) d b c v).
Proof. unfold cache_last_indexed. apply _. Qed.
#[export] Instance grows_update_last d b c v : Grows (update_last_indexed (W:=W) (H:=H) d b c v).
Proof. unfold update_last_indexed. apply _. Qed.
#[export] Instance grows_tag_commit d b c v : Grows (io_tag_commit (W:=W) (H:=H) d b c v).
Proof. unfold io_tag_commit. apply _. Qed.
#[export] Instance grows_assign d b c c' : Grows (io_assign_commit (W:=W) (H:=H) d b c c').
Proof. unfold io_assign_commit. apply _. Qed.
#[export] Instance grows_last_indexed d b : Grows (last_indexed (W:=W) (H:=H) d b).
Proof. unfold last_indexed. apply _. Qed.
#[export] Instance grows_register d b n : Grows (cancel_previous_pipeline_and_register (W:=W) (H:=H) d b n).
Proof. unfold cancel_previous_pipeline_and_register. apply _. Qed.
#[export] Instance grows_unregister d b : Grows (unregister_pipeline_cancel_token (W:=W) (H:=H) d b).
Proof. unfold unregister_pipeline_cancel_token. apply _. Qed.
#[export] Instance grows_checkout_snapshot d c : Grows (io_checkout_commit_snapshot (W:=W) (H:=H) d c).
Proof. unfold io_checkout_commit_snapshot. apply _. Qed.
#[export] Instance grows_delta_scans p a b (h : H) : Grows (compute_delta_from_scans (W:=W) p a b h).
Proof. unfold compute_delta_from_scans, scan_full_rows. apply _. Qed.
#[export] Instance grows_version_delta d a b : Grows (io_compute_version_delta (W:=W) (H:=H) d a b).
Proof. unfold io_compute_version_delta, scan_doc_id_content. apply _. Qed.
#[export] Instance grows_commit_delta d a b : Grows (io_compute_delta_between_commits (W:=W) (H:=H) d a b).
Proof. unfold io_compute_delta_between_commits, scan_doc_id_content. apply _. Qed.
#[export] Instance grows_apply_delta p (h : H) delta : Grows (io_apply_delta_on_branch (W:=W) p h delta).
Proof. unfold io_apply_delta_on_branch. apply _. Qed.

(** ** Maintenance *)

#[export] Instance grows_fts p (h : H) : Grows (io_ensure_fts_index_on_dataset (W:=W) p h).
Proof. unfold io_ensure_fts_index_on_dataset. apply _. Qed.
#[export] Instance grows_ann n c m1 m2 p (h : H) config force : Grows (ensure_ann (W:=W) n c m1 m2 p h config force).
Proof. unfold ensure_ann. cbv zeta. apply _. Qed.
#[export] Instance grows_vector p (h : H) config force : Grows (io_ensure_vector_index (W:=W) p h config force).
Proof. unfold io_ensure_vector_index. apply _. Qed.
#[export] Instance grows_clustering p (h : H) config force : Grows (io_ensure_clustering_vector_index (W:=W) p h config force).
Proof. unfold io_ensure_clustering_vector_index. apply _. Qed.
#[export] Instance grows_compact_data p (h : H) force : Grows (io_compact_data (W:=W) p h force).
Proof. unfold io_compact_data. apply _. Qed.
#[export] Instance grows_cascade_steps n p (h : H) : Grows (cascade_steps (W:=W) n p h).
Proof. revert h. induction n as [|n IH]; intros h; cbn [cascade_steps]; apply _. Qed.
#[export] Instance grows_cascade p (h : H) n : Grows (io_cascade (W:=W) p h n).
Proof. unfold io_cascade. cbv zeta. apply _. Qed.

(** ** The pipelines *)

#[export] Instance grows_ctx {A} m (c : io W H A) : Grows c → Grows (io_ctx m c).
Proof. intros Hc s s' r. unfold io_ctx. destruct (c s) as [s1 [a|e]] eqn:E; apply Hc in E; by intros [= <- _]. Qed.
#[export] Instance grows_or {A} (a : A) (c : io W H A) : Grows c → Grows (io_or a c).
Proof. intros Hc s s' r. unfold io_or. destruct (c s) as [s1 [x|e]] eqn:E; apply Hc in E; by intros [= <- _]. Qed.

Context (vector_config : VectorIndexConfig) (clustering_config : option VectorIndexConfig) (store_clustering : bool).

#[export] Instance grows_boundary d b (h : H) :
  Grows (index_boundary (W:=W) vector_config clustering_config store_clustering d b h).
Proof. unfold index_boundary. cbv zeta. apply _. Qed.
#[export] Instance grows_write_version d b c :
  Grows (write_version (W:=W) (H:=H) vector_config clustering_config store_clustering d b c).
Proof. unfold write_version. apply _. Qed.
#[export] Instance grows_stream_open d b : Grows (stream_open (W:=W) (H:=H) d b).
Proof. unfold stream_open. apply _. Qed.
#[export] Instance grows_stream_version d b (h : H) pos :
  Grows (stream_version (W:=W) vector_config clustering_config store_clustering d b h pos).
Proof. unfold stream_version. apply _. Qed.
#[export] Instance grows_stream_data d b (h : H) c : Grows (stream_data (W:=W) d b h c).
Proof. unfold stream_data. cbv zeta. apply _. Qed.

End operations.

(** ** The streamed pipeline within a relation *)

Section stream_within.
Context {W H : Type} `{LanceOps W H, LanceIndexOps W H, LanceMaintOps W H} `{ByteSerialize}
        {HD : HashIter string (DatasetCacheEntry H)} {HT : HashIter string TagContents} {HB : HashIter string (list N)}.
Context (vector_config : VectorIndexConfig) (clustering_config : option VectorIndexConfig) (store_clustering : bool).
Context (R : LanceStore W H → LanceStore W H → Prop) `{!PreOrder R} (d b commit : string).

(** Every stage of the run is. *)
Context {Hopen : Within R (stream_open (W:=W) (H:=H) d b)}
        {Hdata : ∀ h c, Within R (stream_data (W:=W) (H:=H) d b h c)}
        {Hversion : ∀ h pos, Within R (stream_version (W:=W) (H:=H) vector_config clustering_config store_clustering d b h pos)}
        {Hensure : Within R (io_open_dataset (W:=W) (H:=H) d b)}
        {Hhead : Within R (io_branch_head_version (W:=W) (H:=H) d b)}
        {Htag : ∀ v, Within R (io_tag_commit (W:=W) (H:=H) d b commit v)}
        {Hlast : ∀ v, Within R (update_last_indexed (W:=W) (H:=H) d b commit v)}
        {Hclean : Within R (cleanup_after_tag (W:=W) (H:=H) d b)}.

Lemma reported_within {A} progress (c : io W H A) `{!Within R c} s s' r msgs : reported progress c s = (s', r, msgs) → R s s'.
Proof. unfold reported. destruct (c s) as [s1 [a|e]] eqn:E; apply (within_run R) in E; by intros [= <- _ _]. Qed.

Lemma stream_finish_within progress (h : H) pos c s s' r msgs :
  stream_finish vector_config clustering_config store_clustering progress d b commit h pos c s = (s', r, msgs) → R s s'.
Proof.
  unfold stream_finish, stream_tag. case_match.
  - destruct (stream_version _ _ _ d b h pos s) as [s1 [v|e]] eqn:E; apply (within_run R) in E; [|by intros [= <- _ _]].
    destruct (reported progress _ s1) as [[s2 [u|e]] m] eqn:E2; apply reported_within in E2; try apply _;
      [|intros [= <- _ _]; by etrans].
    destruct (cleanup_after_tag d b s2) as [s3 r3] eqn:E3. apply (within_run R) in E3.
    intros [= <- _ _]. etrans; [done|]. by etrans.
  - destruct (reported progress _ s) as [[s1 [h0|e]] m] eqn:E; apply reported_within in E; try apply _; [|by intros [= <- _ _]].
    destruct (io_ctx _ _ s1) as [s2 [v|e]] eqn:E2; apply (within_run R) in E2; [|intros [= <- _ _]; by etrans].
    intros Hr%reported_within; [|apply _]. etrans; [done|]. by etrans.
Qed.

(** Whatever a run is given, and whether it succeeds, fails or is superseded. *)
Lemma stream_run_within {E : Type} `{Embedder E} encode params cancelled ebs progress (e e' : E) ops expected s s' r msgs :
  io_run_index_pipeline_stream vector_config clustering_config store_clustering encode params cancelled ebs progress
    e d b commit ops expected s = (e', Some (s', r, msgs)) → R s s'.
Proof.
  unfold io_run_index_pipeline_stream. destruct (stream_open d b s) as [s1 [[h pos]|err]] eqn:Eo; apply (within_run R) in Eo;
    [|by intros [= _ <- _ _]].
  destruct (collect_stream _ _ _ _ _ _ _ e ops expected) as [st [[u|msg]|]]; cbn; [|by intros [= _ <- _ _]|done].
  destruct (stream_data d b h _ s1) as [s2 [ds|err]] eqn:Ed; apply (within_run R) in Ed; [|intros [= _ <- _ _]; by etrans].
  destruct (stream_finish _ _ _ _ _ _ _ _ _ _ s2) as [[s3 [u'|err]] m] eqn:Ef; apply stream_finish_within in Ef;
    intros [= _ <- _ _]; (etrans; [done|]); by etrans.
Qed.
End stream_within.

(** ** Whole runs *)

Section runs.
Context {W H : Type} `{LanceLaws W H} {HV : LanceVersions W H} {HVL : LanceVersionLaws W H}
        {HI : LanceIndexOps W H} {HIG : LanceIndexGrows W H} {HM : LanceMaintOps W H} {HML : LanceMaintLaws W H}
        `{ByteSerialize} {HD : HashIter string (DatasetCacheEntry H)} {HT : HashIter string TagContents}
        {HB : HashIter string (list N)}.
Implicit Types s : LanceStore W H.

(** The tags and the tagged versions of each directory stay. *)
Record store_keeps s s' : Prop := {
  sk_dirs p : keeps (dir_of s p) (dir_of s' p);
  sk_cache : cache_from (st_cache s) (st_cache s');
}.

#[export] Instance store_keeps_preorder : PreOrder store_keeps.
Proof.
  split; [intros s; split; [reflexivity|apply cache_from_refl]|]. intros s1 s2 s3 G1 G2. split.
  - intros p. etrans; [apply G1|apply G2].
  - eapply cache_from_trans; [apply G1|apply G2].
Qed.

Lemma store_grows_keeps s s' : store_grows s s' → store_keeps s s'.
Proof. intros [Hd Hc]. split; [|done]. intros p. by apply grows_keeps. Qed.

Lemma tidied_keeps d s s' : tidied d s s' → store_keeps s s'.
Proof.
  intros [Ht _ _ Hk]. split; [|by eapply touches_cache]. intros p. destruct (decide (p = dataset_path d)) as [->|Hne]; [done|].
  by rewrite (touches_dir s s' (dataset_path d)).
Qed.

#[export] Instance keeps_of_grows {A} (c : io W H A) : Grows c → Within store_keeps c | 10.
Proof. intros Hc s s' r Hr. by eapply store_grows_keeps, Hc. Qed.

Lemma keeps_of_tidied {A} d (c : io W H A) : Within (tidied d) c → Within store_keeps c.
Proof. intros Hc s s' r Hr. by eapply tidied_keeps, Hc. Qed.

#[export] Instance keeps_cleanup_old d b : Within store_keeps (io_cleanup_old_versions (W:=W) (H:=H) d b).
Proof. apply (keeps_of_tidied d), _. Qed.
#[export] Instance keeps_cleanup d b : Within store_keeps (io_cleanup_aggressive (W:=W) (H:=H) d b).
Proof. apply (keeps_of_tidied d), _. Qed.
#[export] Instance keeps_prune_stale d b : Within store_keeps (io_prune_stale_index_dirs (W:=W) (H:=H) d b).
Proof. apply (keeps_of_tidied d), _. Qed.
#[export] Instance keeps_prune_empty d : Within store_keeps (io_prune_empty_index_dirs (W:=W) (H:=H) d).
Proof. apply (keeps_of_tidied d), _. Qed.
#[export] Instance keeps_after_tag d b : Within store_keeps (cleanup_after_tag (W:=W) (H:=H) d b).
Proof. unfold cleanup_after_tag. apply _. Qed.

Context (vector_config : VectorIndexConfig) (clustering_config : option VectorIndexConfig) (store_clustering : bool).

#[export] Instance keeps_write_phase d b commit c :
  Within store_keeps (write_phase (W:=W) (H:=H) vector_config clustering_config store_clustering d b commit c).
Proof. unfold write_phase. apply _. Qed.

Context (encode : string → result string Encoding) (params : ChunkParams).
Context {E : Type} `{Embedder E}.

(** Whatever a run is given, and whether it succeeds, fails or is superseded. *)
Lemma buffered_keeps (e e' : E) d b commit ops s s' r :
  io_run_index_pipeline vector_config clustering_config store_clustering encode params e d b commit ops s = (e', Some (s', r)) →
  store_keeps s s'.
Proof.
  unfold io_run_index_pipeline. destruct (collect _ _ _ _ e ops) as [e1 [[c|msg]|]]; cbn; [|by intros [= _ <- _]|done].
  intros [= _ Hr]. by apply (_ : Within store_keeps (write_phase vector_config clustering_config store_clustering d b commit c;! io_ret (co_count c, co_skipped c))) in Hr.
Qed.

Lemma stream_keeps cancelled ebs progress (e e' : E) d b commit ops expected s s' r msgs :
  io_run_index_pipeline_stream vector_config clustering_config store_clustering encode params cancelled ebs progress
    e d b commit ops expected s = (e', Some (s', r, msgs)) →
  store_keeps s s'.
Proof. eapply (stream_run_within _ _ _ store_keeps); apply _. Qed.
End runs.
