(* ===== verification/PipelineSpec.v ===== *)
(** * What a commit does (the specification of the two pipelines)

    The effect of a commit's operations, defined operation by operation over a
    provider that embeds text by text; both collect phases gather exactly that
    effect, whatever the batch sizes, flushes and progress messages.  Then the
    write phase: which rows, tag and last-indexed commit a run that succeeds
    leaves, and what a run that fails leaves alone. *)

From S2P Require Import Prelude F32 RustStr Model Distance LayerIdx Ingest Chunk Schema Rollup Lance DatasetCache Store Commit Index Maintain Embed Pipeline.

(** ** Effects

    Rows in order; deletions, skipped documents as bags; a count. *)

Record Effect := mkEffect {
  ef_rows : list ChunkRow; ef_delete : list string; ef_skipped : list string; ef_count : N;
}.

#[export] Instance effect_equiv : Equiv Effect := λ a b,
  ef_rows a = ef_rows b ∧ ef_delete a ≡ₚ ef_delete b ∧ ef_skipped a ≡ₚ ef_skipped b ∧ ef_count a = ef_count b.

#[export] Instance effect_equivalence : Equivalence (≡@{Effect}).
Proof.
  split.
  - intros a. by split_and!.
  - intros a b (? & ? & ? & ?). by split_and!.
  - intros a b c (? & ? & ? & ?) (? & ? & ? & ?). split_and!; by etrans.
Qed.

Definition effect_nil : Effect := mkEffect [] [] [] 0.
Definition effect_app (a b : Effect) : Effect :=
  mkEffect (ef_rows a ++ ef_rows b) (ef_delete a ++ ef_delete b) (ef_skipped a ++ ef_skipped b) (ef_count a + ef_count b).
Infix "⊕" := effect_app (at level 50, left associativity).

#[export] Instance effect_app_proper : Proper ((≡) ==> (≡) ==> (≡)) effect_app.
Proof.
  intros a a' (? & Hd & Hs & ?) b b' (? & Hd' & Hs' & ?). split_and!; cbn; [congruence| | |congruence].
  - by rewrite Hd, Hd'.
  - by rewrite Hs, Hs'.
Qed.

Lemma effect_app_assoc a b c : a ⊕ (b ⊕ c) = a ⊕ b ⊕ c.
Proof. destruct a, b, c. unfold effect_app. cbn. f_equal; rewrite ?(assoc_L (++)); [done..|lia]. Qed.
Lemma effect_nil_l a : effect_nil ⊕ a = a.
Proof. destruct a. done. Qed.
Lemma effect_nil_r a : a ⊕ effect_nil = a.
Proof. destruct a. unfold effect_app. cbn. f_equal; [by rewrite app_nil_r..|lia]. Qed.

(** An effect without rows commutes. *)
Lemma effect_app_comm a b : ef_rows a = [] → a ⊕ b ≡ b ⊕ a.
Proof.
  intros Ha. split_and!; cbn; [by rewrite Ha, app_nil_r|apply Permutation_app_comm|apply Permutation_app_comm|lia].
Qed.

Lemma effect_move a e b r : ef_rows e = [] → a ⊕ e ⊕ b ⊕ r ≡ a ⊕ b ⊕ (e ⊕ r).
Proof. intros He. by rewrite <-!effect_app_assoc, (effect_app_assoc e b), (effect_app_comm e b), <-effect_app_assoc. Qed.

Fixpoint effects {A} (f : A → Effect) (l : list A) : Effect :=
  match l with [] => effect_nil | x :: l => f x ⊕ effects f l end.

Lemma effects_app {A} (f : A → Effect) l k : effects f (l ++ k) = effects f l ⊕ effects f k.
Proof.
  induction l as [|x l IH]; cbn; [by rewrite effect_nil_l|]. by rewrite IH, effect_app_assoc.
Qed.

Definition collected_effect (c : Collected) : Effect :=
  mkEffect (co_rows c) (co_delete c) (map sk_id (co_skipped c)) (co_count c).

Lemma skip_effect c id m : collected_effect (skip c id m) = collected_effect c ⊕ mkEffect [] [] [id] 0.
Proof. unfold collected_effect, effect_app. cbn. rewrite map_app, !app_nil_r. f_equal. lia. Qed.
Lemma delete_effect c id : collected_effect (delete_doc_id c id) = collected_effect c ⊕ mkEffect [] [id] [] 0.
Proof. unfold collected_effect, effect_app. cbn. rewrite !app_nil_r. f_equal. lia. Qed.

(** ** Scattering

    The outcomes of the documents, their results taken off the front of the
    flat lists; [scatter] computes them from the ranges. *)

Lemma slice_prefix {A} (pre l : list A) n :
  n ≤ length l → slice (pre ++ l) (length pre) n = Some (take n l).
Proof.
  intros Hn. unfold slice. rewrite length_app. destruct (Nat.leb_spec (length pre + n) (length pre + length l)); [|lia].
  by rewrite drop_app_length.
Qed.

Lemma slice_prefix' {A} (pre l : list A) start n :
  length pre = start → n ≤ length l → slice (pre ++ l) start n = Some (take n l).
Proof. intros <-. apply slice_prefix. Qed.

Section scatter.
Context (check : string).

Fixpoint outcomes (docs : list DocToEmbed) (rd rq : list EmbedResult) : list (result string (list ChunkRow)) :=
  match docs with
  | [] => []
  | d :: docs =>
      let n := length (de_chunks d) in
      doc_outcome check d (take n rd) (take n rq) :: outcomes docs (drop n rd) (drop n rq)
  end.

Definition texts_of (docs : list DocToEmbed) : list string := flat_map (λ d, map ch_text (de_chunks d)) docs.

Lemma flatten_texts start docs : (flatten start docs).1 = texts_of docs.
Proof. revert start. induction docs as [|d docs IH]; intros start; cbn; [done|]. by rewrite IH. Qed.

Definition fold_outcomes (c : Collected) (l : list (DocToEmbed * result string (list ChunkRow))) : Collected :=
  foldl (λ c p, add_doc p.1 p.2 c) c l.

Lemma length_texts_of d docs : length (texts_of (d :: docs)) = length (de_chunks d) + length (texts_of docs).
Proof. cbn. by rewrite length_app, length_map. Qed.

Lemma scatter_outcomes prd prq docs rd rq start c :
  length prd = start → length prq = start →
  length rd = length (texts_of docs) → length rq = length (texts_of docs) →
  scatter check (prd ++ rd) (prq ++ rq) (zip docs (flatten start docs).2) c
  = Some (fold_outcomes c (zip docs (outcomes docs rd rq))).
Proof.
  revert prd prq rd rq start c. induction docs as [|d docs IH]; intros prd prq rd rq start c Hp1 Hp2 H1 H2; [done|].
  rewrite length_texts_of in H1, H2. cbn [flatten zip_with snd scatter]. set (n := length (de_chunks d)) in *.
  rewrite (slice_prefix' prd rd), (slice_prefix' prq rq) by lia. cbn [mbind option_bind].
  rewrite <-(take_drop n rd) at 1. rewrite <-(take_drop n rq) at 1. rewrite !(assoc_L (++)).
  rewrite (IH (prd ++ take n rd) (prq ++ take n rq)); [done| | | |].
  - rewrite length_app, length_take. lia.
  - rewrite length_app, length_take. lia.
  - rewrite length_drop. lia.
  - rewrite length_drop. lia.
Qed.

End scatter.

(** The streaming scatter gathers the same. *)
Lemma scatter_stream_outcomes progress prd prq docs rd rq start seen c sent :
  length prd = start → length prq = start →
  length rd = length (texts_of docs) → length rq = length (texts_of docs) →
  ∃ msgs, scatter_stream progress (prd ++ rd) (prq ++ rq) (zip docs (flatten start docs).2) seen c sent
  = Some (fold_outcomes c (zip docs (outcomes "check" docs rd rq)), msgs).
Proof.
  intros Hp1 Hp2 H1 H2. revert prd prq rd rq start c sent Hp1 Hp2 H1 H2.
  induction docs as [|d docs IH]; intros prd prq rd rq start c sent Hp1 Hp2 H1 H2; [by eexists|].
  rewrite length_texts_of in H1, H2. cbn [flatten zip_with snd scatter_stream]. set (n := length (de_chunks d)) in *.
  rewrite (slice_prefix' prd rd), (slice_prefix' prq rq) by lia. cbn [mbind option_bind].
  assert (Hrd : prd ++ rd = (prd ++ take n rd) ++ drop n rd) by (by rewrite <-(assoc_L (++)), take_drop).
  assert (Hrq : prq ++ rq = (prq ++ take n rq) ++ drop n rq) by (by rewrite <-(assoc_L (++)), take_drop).
  destruct (IH (prd ++ take n rd) (prq ++ take n rq) (drop n rd) (drop n rq) (start + n)
    (add_doc d (doc_outcome "check" d (take n rd) (take n rq)) c)
    (sent ++ if progress && is_ok (doc_outcome "check" d (take n rd) (take n rq))
             then [Progress (co_count (add_doc d (doc_outcome "check" d (take n rd) (take n rq)) c)) seen
                     (N.of_nat (length (co_skipped (add_doc d (doc_outcome "check" d (take n rd) (take n rq)) c))))]
             else [])) as [msgs Hm]; [rewrite length_app, length_take; lia..|rewrite length_drop; lia|rewrite length_drop; lia|].
  exists msgs. rewrite Hrd, Hrq. exact Hm.
Qed.

(** ** The specification *)

Section spec.
Context (encode : string → result string Encoding) (params : ChunkParams).
Context {E : Type} `{Embedder E} (dim : nat) (store_clustering : bool).
(** What the provider makes of a text in each role; [inv]: the states of the
    embedding service in which it does so. *)
Context (inv : E → Prop) (fd fc : string → option (list f32)).

Definition text_result (f : string → option (list f32)) (t : string) (r : EmbedResult) : Prop :=
  match f t with Some v => r = EmbedOk v | None => ∃ msg, r = EmbedFailed msg end.

Record textwise : Prop := {
  tx_document e texts : inv e →
    ∃ e' rs, embed_document e texts = (e', Some rs) ∧ inv e' ∧ Forall2 (text_result fd) texts rs;
  tx_clustering e texts : inv e →
    ∃ e' rs, embed_clustering e texts = (e', Some rs) ∧ inv e' ∧ Forall2 (text_result fc) texts rs;
}.

(** The vector of the second column. *)
Definition clustering_vector (t : string) : option (list f32) :=
  if store_clustering then fc t else Some (replicate dim F32.zero).

(** The rows of a document: all of its chunks, or none. *)
Definition doc_rows (d : DocToEmbed) : option (list ChunkRow) :=
  vs ← mapM fd (map ch_text (de_chunks d));
  ws ← mapM clustering_vector (map ch_text (de_chunks d));
  Some (doc_rows_of d vs ws).

Definition doc_effect (d : DocToEmbed) : Effect :=
  match doc_rows d with
  | Some rows => mkEffect rows (if de_changed d then [de_id d] else []) [] 1
  | None => mkEffect [] [] [de_id d] 0
  end.

Definition text_effect (id text : string) (changed : bool) : Effect :=
  match chunk_doc encode params id text changed with
  | Some (inl d) => doc_effect d
  | _ => mkEffect [] [] [id] 0
  end.

Definition op_effect (op : Operation) : Effect :=
  match op with
  | Inserted id text => text_effect id text false
  | Changed id text => text_effect id text true
  | Deleted id => mkEffect [] [id] [] 0
  | OpError _ => mkEffect [] [] ["unknown"] 0
  | OpAbort => effect_nil
  end.

(** ** Outcomes are the specified rows *)

Lemma text_results_all f texts rs vs :
  Forall2 (text_result f) texts rs → mapM f texts = Some vs → rs = map EmbedOk vs.
Proof.
  intros Hf. revert vs. induction Hf as [|t r texts rs Hr _ IH]; cbn; intros vs Hm; [by injection Hm as <-|].
  unfold text_result in Hr. destruct (f t) as [v|]; cbn in Hm; [|done].
  destruct (mapM f texts) as [vs'|]; cbn in Hm; [|done]. injection Hm as <-. cbn. by rewrite Hr, (IH vs').
Qed.

Lemma text_results_some f texts rs :
  Forall2 (text_result f) texts rs → mapM f texts = None → ∃ msg, EmbedFailed msg ∈ rs.
Proof.
  induction 1 as [|t r texts rs Hr _ IH]; cbn; [done|]. unfold text_result in Hr.
  destruct (f t) as [v|]; cbn.
  - destruct (mapM f texts); cbn; [done|]. intros _. destruct (IH eq_refl) as [m Hm]. exists m. by right.
  - intros _. destruct Hr as [m ->]. exists m. by left.
Qed.

Lemma first_failure_ok vs ws : first_failure (map EmbedOk vs ++ map EmbedOk ws) = None.
Proof. induction vs as [|v vs IH]; cbn; [|done]. by induction ws. Qed.

Lemma first_failure_some rs msg : EmbedFailed msg ∈ rs → ∃ m, first_failure rs = Some m.
Proof.
  induction rs as [|[v|m] rs IH]; [by intros ?%elem_of_nil| |by eexists].
  intros [?|?]%elem_of_cons; [done|]. by apply IH.
Qed.

Lemma extract_ok label vs : extract label (map EmbedOk vs) = Ok vs.
Proof. induction vs as [|v vs IH]; cbn; [done|]. by rewrite IH. Qed.

Lemma doc_outcome_spec check d rd rq :
  Forall2 (text_result fd) (map ch_text (de_chunks d)) rd →
  Forall2 (text_result clustering_vector) (map ch_text (de_chunks d)) rq →
  match doc_rows d with
  | Some rows => doc_outcome check d rd rq = Ok rows
  | None => ∃ msg, doc_outcome check d rd rq = Err msg
  end.
Proof.
  intros Hd Hq. unfold doc_rows, doc_outcome.
  destruct (mapM fd _) as [vs|] eqn:Ev; cbn.
  2: { destruct (text_results_some _ _ _ Hd Ev) as [m Hm].
       destruct (first_failure_some (rd ++ rq) m) as [m' ->]; [apply elem_of_app; by left|by exists m']. }
  destruct (mapM clustering_vector _) as [ws|] eqn:Ew; cbn.
  2: { destruct (text_results_some _ _ _ Hq Ew) as [m Hm].
       destruct (first_failure_some (rd ++ rq) m) as [m' ->]; [apply elem_of_app; by right|by exists m']. }
  rewrite (text_results_all _ _ _ _ Hd Ev), (text_results_all _ _ _ _ Hq Ew), first_failure_ok, !extract_ok. done.
Qed.

Lemma add_doc_effect check d rd rq c :
  Forall2 (text_result fd) (map ch_text (de_chunks d)) rd →
  Forall2 (text_result clustering_vector) (map ch_text (de_chunks d)) rq →
  collected_effect (add_doc d (doc_outcome check d rd rq) c) = collected_effect c ⊕ doc_effect d.
Proof.
  intros Hd Hq. pose proof (doc_outcome_spec check d rd rq Hd Hq) as Ho. unfold doc_effect.
  destruct (doc_rows d) as [rows|].
  - rewrite Ho. unfold collected_effect, effect_app. cbn. by rewrite app_nil_r.
  - destruct Ho as [m ->]. apply skip_effect.
Qed.

Lemma fold_outcomes_effect check docs rd rq c :
  Forall2 (text_result fd) (texts_of docs) rd → Forall2 (text_result clustering_vector) (texts_of docs) rq →
  collected_effect (fold_outcomes c (zip docs (outcomes check docs rd rq)))
  = collected_effect c ⊕ effects doc_effect docs.
Proof.
  revert rd rq c. induction docs as [|d docs IH]; intros rd rq c Hd Hq; cbn [outcomes zip_with fold_outcomes foldl effects].
  - by rewrite effect_nil_r.
  - change (texts_of (d :: docs)) with (map ch_text (de_chunks d) ++ texts_of docs) in *.
    apply Forall2_app_inv_l in Hd as (rd1 & rd2 & Hd1 & Hd2 & ->), Hq as (rq1 & rq2 & Hq1 & Hq2 & ->).
    pose proof (Forall2_length _ _ _ Hd1) as L1. pose proof (Forall2_length _ _ _ Hq1) as L2.
    rewrite length_map in L1, L2. rewrite !take_app_length', !drop_app_length' by done.
    change (collected_effect (fold_outcomes (add_doc d (doc_outcome check d rd1 rq1) c) (zip docs (outcomes check docs rd2 rq2)))
      = collected_effect c ⊕ (doc_effect d ⊕ effects doc_effect docs)).
    by rewrite IH, (add_doc_effect check d rd1 rq1), effect_app_assoc.
Qed.

Lemma zeros_textwise texts :
  store_clustering = false → Forall2 (text_result clustering_vector) texts (zeros dim texts).
Proof.
  intros Hs. unfold zeros. apply Forall2_fmap_r, Forall2_same_length_lookup_2; [done|].
  intros i t t' Ht Ht'. unfold text_result, clustering_vector. by rewrite Hs.
Qed.

Lemma scatter_effect check docs rd rq c :
  Forall2 (text_result fd) (texts_of docs) rd → Forall2 (text_result clustering_vector) (texts_of docs) rq →
  ∃ c', scatter check rd rq (zip docs (flatten 0 docs).2) c = Some c' ∧
    collected_effect c' = collected_effect c ⊕ effects doc_effect docs.
Proof.
  intros Hd Hq. eexists. split; [|by apply fold_outcomes_effect].
  apply (scatter_outcomes check [] []); [done|done|symmetry; by eapply Forall2_length..].
Qed.

Lemma scatter_stream_effect progress docs rd rq seen c sent :
  Forall2 (text_result fd) (texts_of docs) rd → Forall2 (text_result clustering_vector) (texts_of docs) rq →
  ∃ c' msgs, scatter_stream progress rd rq (zip docs (flatten 0 docs).2) seen c sent = Some (c', msgs) ∧
    collected_effect c' = collected_effect c ⊕ effects doc_effect docs.
Proof.
  intros Hd Hq. destruct (scatter_stream_outcomes progress [] [] docs rd rq 0 seen c sent) as [msgs Hm];
    [done|done|symmetry; by eapply Forall2_length..|].
  eexists _, msgs. split; [exact Hm|]. by apply fold_outcomes_effect.
Qed.

(** ** The buffered collect phase *)

Lemma embed_docs_effect check e docs c :
  textwise → inv e →
  ∃ e' c', embed_docs dim store_clustering check e docs c = (e', Some c') ∧ inv e' ∧
    collected_effect c' = collected_effect c ⊕ effects doc_effect docs.
Proof.
  intros Htx He. unfold embed_docs. destruct (flatten 0 docs) as [texts ranges] eqn:Ef.
  pose proof (flatten_texts 0 docs) as Et. rewrite Ef in Et. cbn in Et. subst texts.
  assert (ranges = (flatten 0 docs).2) as -> by (by rewrite Ef).
  destruct (tx_document Htx e (texts_of docs) He) as (e1 & rd & -> & He1 & Hd).
  destruct store_clustering eqn:Es.
  - destruct (tx_clustering Htx e1 (texts_of docs) He1) as (e2 & rq & -> & He2 & Hq).
    destruct (scatter_effect check docs rd rq c Hd) as (c' & Hs & Hc); [unfold clustering_vector; by rewrite Es|].
    exists e2, c'. cbn [mbind option_bind]. by rewrite Hs.
  - destruct (scatter_effect check docs rd (zeros dim (texts_of docs)) c Hd) as (c' & Hs & Hc); [by apply zeros_textwise|].
    exists e1, c'. cbn [mbind option_bind]. by rewrite Hs.
Qed.

Lemma collect_ops_effect ops docs c docs' c' :
  collect_ops encode params ops docs c = Some (Ok (docs', c')) →
  (OpAbort ∉ ops) ∧
  collected_effect c' ⊕ effects doc_effect docs' ≡ collected_effect c ⊕ effects doc_effect docs ⊕ effects op_effect ops.
Proof.
  revert docs c. induction ops as [|op ops IH]; intros docs c; cbn [collect_ops effects].
  { intros [= <- <-]. split; [apply not_elem_of_nil|]. by rewrite effect_nil_r. }
  assert (Hdoc : ∀ id text ch, (d ← chunk_doc encode params id text ch;
      match d with
      | inl d => collect_ops encode params ops (docs ++ [d]) c
      | inr message => collect_ops encode params ops docs (skip c id message)
      end) = Some (Ok (docs', c')) →
    (OpAbort ∉ ops) ∧ collected_effect c' ⊕ effects doc_effect docs'
      ≡ collected_effect c ⊕ effects doc_effect docs ⊕ (text_effect id text ch ⊕ effects op_effect ops)).
  { intros id text ch Hr. unfold text_effect. destruct (chunk_doc encode params id text ch) as [[d|m]|]; [| |done].
    - apply IH in Hr as [Hn Hr]. split; [done|]. rewrite Hr, effects_app. cbn. by rewrite effect_nil_r, !effect_app_assoc.
    - apply IH in Hr as [Hn Hr]. split; [done|]. by rewrite Hr, skip_effect, effect_move. }
  rewrite not_elem_of_cons. destruct op as [id text|id text|id|m|].
  - intros [? ?]%Hdoc. by split_and!.
  - intros [? ?]%Hdoc. by split_and!.
  - intros [Hn Hr]%IH. split; [by split|]. by rewrite Hr, delete_effect, effect_move.
  - intros [Hn Hr]%IH. split; [by split|]. by rewrite Hr, skip_effect, effect_move.
  - done.
Qed.

(** Chunking that returns on every text (it panics only where the tokenizer's
    offsets are wrong). *)
Definition chunk_safe : Prop := ∀ text, is_Some (chunk_text encode text params).

Lemma chunk_doc_safe id text ch : chunk_safe → is_Some (chunk_doc encode params id text ch).
Proof. intros Hs. unfold chunk_doc. destruct (Hs text) as [r ->]. cbn. by eexists. Qed.

Lemma collect_ops_total ops docs c : chunk_safe →
  match collect_ops encode params ops docs c with
  | None => False
  | Some (Ok _) => OpAbort ∉ ops
  | Some (Err msg) => OpAbort ∈ ops ∧ msg = "push aborted by client"
  end.
Proof.
  intros Hs. revert docs c. induction ops as [|op ops IH]; intros docs c; cbn [collect_ops]; [apply not_elem_of_nil|].
  assert (Hstep : ∀ docs c, op ≠ OpAbort → match collect_ops encode params ops docs c with
    | None => False | Some (Ok _) => OpAbort ∉ op :: ops
    | Some (Err msg) => OpAbort ∈ op :: ops ∧ msg = "push aborted by client" end).
  { intros docs' c' Hne. specialize (IH docs' c'). destruct (collect_ops encode params ops docs' c') as [[]|]; [| |done].
    - by apply not_elem_of_cons.
    - destruct IH. split; [by right|done]. }
  destruct op as [id text|id text|id|m|].
  - destruct (chunk_doc_safe id text false Hs) as [[d|m] ->]; cbn; by apply Hstep.
  - destruct (chunk_doc_safe id text true Hs) as [[d|m] ->]; cbn; by apply Hstep.
  - by apply Hstep.
  - by apply Hstep.
  - split; [by left|done].
Qed.

(** The buffered collect phase returns, with an error exactly when the client
    aborts; otherwise with the effect of the operations: the rows of the
    documents whose every chunk is embedded, in the order of the operations, the
    documents to delete, the skipped ones, and the count. *)
Theorem collect_spec e ops :
  chunk_safe → textwise → inv e →
  ∃ e' r, collect encode params dim store_clustering e ops = (e', Some r) ∧ inv e' ∧
    match r with
    | Ok c => (OpAbort ∉ ops) ∧ collected_effect c ≡ effects op_effect ops
    | Err msg => OpAbort ∈ ops ∧ msg = "push aborted by client"
    end.
Proof.
  intros Hs Htx He. unfold collect. pose proof (collect_ops_total ops [] no_work Hs) as Ht.
  destruct (collect_ops encode params ops [] no_work) as [[[docs c]|msg]|] eqn:Ec; [| |done].
  - apply collect_ops_effect in Ec as [_ Ec].
    destruct (embed_docs_effect "first_failure check" e docs c Htx He) as (e' & c' & -> & He' & Hc').
    exists e', (Ok c'). split; [done|]. split; [done|]. split; [done|]. rewrite Hc', Ec. cbn.
    change (collected_effect no_work) with effect_nil. by rewrite !effect_nil_l.
  - by exists e, (Err msg).
Qed.

(** ** The streaming collect phase *)

Section stream.
Context (cancelled : nat → bool) (embed_batch_size : nat) (progress : bool).
Abbreviation state := (StreamState (E:=E)).
Implicit Types s : state.

Definition state_effect (s : state) : Effect := collected_effect (ss_collected s) ⊕ effects doc_effect (ss_batch s).

(** A flush that is superseded: some read of the token found it cancelled. *)
Definition superseded (msg : string) : Prop := msg = SUPERSEDED ∧ ∃ k, cancelled k = true.

Lemma read_token_cancel (s s' : state) b : read_token cancelled s = (s', b) →
  ss_embedder s' = ss_embedder s ∧ ss_batch s' = ss_batch s ∧ ss_collected s' = ss_collected s ∧ ss_seen s' = ss_seen s ∧
  (b = true → ∃ k, cancelled k = true).
Proof. unfold read_token. intros [= <- <-]. cbn. split_and!; [done..|]. intros Hc. by eexists. Qed.

(** What a step of the flush keeps. *)
Record flushed (s s' : state) (docs : list DocToEmbed) : Prop := {
  fl_inv : inv (ss_embedder s');
  fl_seen : ss_seen s' = ss_seen s;
  fl_effect : collected_effect (ss_collected s') = collected_effect (ss_collected s) ⊕ effects doc_effect docs;
}.

Lemma flush_sub_batch_spec s sub_batch :
  textwise → inv (ss_embedder s) →
  ∃ s' r, flush_sub_batch dim store_clustering cancelled progress s sub_batch = (s', Some r) ∧ inv (ss_embedder s') ∧
    match r with Ok _ => flushed s s' sub_batch | Err msg => superseded msg end.
Proof.
  intros Htx He. unfold flush_sub_batch.
  destruct (read_token cancelled s) as [s1 b1] eqn:E1. apply read_token_cancel in E1 as (Ee1 & _ & Ec1 & En1 & Hb1).
  destruct b1; [exists s1, (Err SUPERSEDED); rewrite Ee1; split_and!; [done|done|by split; auto]|].
  destruct (flatten 0 sub_batch) as [texts ranges] eqn:Ef.
  pose proof (flatten_texts 0 sub_batch) as Et. rewrite Ef in Et. cbn in Et. subst texts.
  assert (ranges = (flatten 0 sub_batch).2) as -> by (by rewrite Ef).
  destruct (read_token cancelled s1) as [s2 b2] eqn:E2. apply read_token_cancel in E2 as (Ee2 & _ & Ec2 & En2 & Hb2).
  destruct b2; [exists s2, (Err SUPERSEDED); rewrite Ee2, Ee1; split_and!; [done|done|by split; auto]|].
  destruct (tx_document Htx (ss_embedder s2) (texts_of sub_batch)) as (e1 & rd & -> & He1 & Hd); [by rewrite Ee2, Ee1|].
  assert (Hfin : ∀ s3 e2 rq, ss_collected s3 = ss_collected s → ss_seen s3 = ss_seen s → inv e2 →
    Forall2 (text_result clustering_vector) (texts_of sub_batch) rq →
    ∃ s' r, match (rq ← Some rq; scatter_stream progress rd rq (zip sub_batch (flatten 0 sub_batch).2) (ss_seen s3) (ss_collected s3) [])
      with None => (s3, None) | Some (c, sent) => (set_collected s3 e2 c sent, Some (Ok tt)) end = (s', Some r) ∧
      inv (ss_embedder s') ∧ match r with Ok _ => flushed s s' sub_batch | Err msg => superseded msg end).
  { intros s3 e2 rq Hc3 Hn3 He2 Hq.
    destruct (scatter_stream_effect progress sub_batch rd rq (ss_seen s3) (ss_collected s3) [] Hd Hq) as (c' & msgs & Hsc & Hef).
    cbn [mbind option_bind]. rewrite Hsc. eexists _, (Ok tt). split; [done|]. cbn. split; [done|].
    split; cbn; [done|done|]. by rewrite Hef, Hc3. }
  destruct store_clustering eqn:Es.
  - destruct (read_token cancelled s2) as [s3 b3] eqn:E3. apply read_token_cancel in E3 as (_ & _ & Ec3 & En3 & Hb3).
    destruct b3; [eexists _, (Err SUPERSEDED); split; [done|]; cbn; split; [done|by split; auto]|].
    destruct (tx_clustering Htx e1 (texts_of sub_batch) He1) as (e2 & rq & -> & He2 & Hq).
    apply Hfin; [congruence|congruence|done|]. unfold clustering_vector. by rewrite Es.
  - apply Hfin; [congruence|congruence|done|]. by apply zeros_textwise.
Qed.

Lemma flush_sub_batches_spec s batches :
  textwise → inv (ss_embedder s) →
  ∃ s' r, flush_sub_batches dim store_clustering cancelled progress s batches = (s', Some r) ∧ inv (ss_embedder s') ∧
    match r with Ok _ => flushed s s' (concat batches) | Err msg => superseded msg end.
Proof.
  intros Htx. revert s. induction batches as [|b batches IH]; intros s He; cbn [flush_sub_batches concat].
  - exists s, (Ok tt). split; [done|]. split; [done|]. split; [done|done|]. cbn. by rewrite effect_nil_r.
  - destruct (flush_sub_batch_spec s b Htx He) as (s1 & [u|msg] & -> & He1 & H1); [|by exists s1, (Err msg)].
    destruct (IH s1 He1) as (s2 & r & -> & He2 & H2). exists s2, r. split; [done|]. split; [done|].
    destruct r; [|done]. destruct H1 as [_ N1 F1], H2 as [_ N2 F2]. split; [done|congruence|].
    by rewrite F2, F1, effects_app, effect_app_assoc.
Qed.

Lemma flush_microbatch_spec s :
  textwise → inv (ss_embedder s) →
  ∃ s' r, flush_microbatch dim store_clustering cancelled embed_batch_size progress s = (s', Some r) ∧ inv (ss_embedder s') ∧
    match r with
    | Ok _ => state_effect s' = state_effect s ∧ ss_seen s' = ss_seen s ∧ ss_batch s' = []
    | Err msg => superseded msg
    end.
Proof.
  intros Htx He. unfold flush_microbatch, state_effect. destruct (ss_batch s) as [|d ds] eqn:Eb.
  { exists s, (Ok tt). rewrite Eb. by split_and!. }
  rewrite <-Eb.
  destruct (flush_sub_batches_spec s (chunks (Nat.max embed_batch_size 1) (ss_batch s)) Htx He)
    as (s1 & [u|msg] & -> & He1 & H1); [|by exists s1, (Err msg)].
  rewrite concat_chunks in H1 by lia. destruct H1 as [_ N1 F1].
  exists (clear_batch s1), (Ok tt). split; [done|]. split; [done|]. split_and!; [|done|done].
  cbn. by rewrite F1, effect_nil_r.
Qed.

(** How a stream ends that does not end well. *)
Definition stream_error (ops : list Operation) (msg : string) : Prop :=
  superseded msg ∨ OpAbort ∈ ops ∧ msg = "push aborted by client".

Lemma stream_op_spec s op :
  chunk_safe → inv (ss_embedder s) →
  ∃ s' r, stream_op encode params progress s op = (s', Some r) ∧ inv (ss_embedder s') ∧
    match r with
    | Ok _ => op ≠ OpAbort ∧ state_effect s' ≡ state_effect s ⊕ op_effect op
    | Err msg => op = OpAbort ∧ msg = "push aborted by client"
    end.
Proof.
  intros Hs He. unfold state_effect.
  assert (Hdoc : ∀ id text ch, ∃ s', stream_doc encode params s id text ch = Some s' ∧ inv (ss_embedder s') ∧
    collected_effect (ss_collected s') ⊕ effects doc_effect (ss_batch s')
    ≡ collected_effect (ss_collected s) ⊕ effects doc_effect (ss_batch s) ⊕ text_effect id text ch).
  { intros id text ch. unfold stream_doc, text_effect. destruct (chunk_doc_safe id text ch Hs) as [[d|m] ->]; cbn.
    - eexists. split; [done|]. cbn. split; [done|]. by rewrite effects_app, <-effect_app_assoc; cbn; rewrite effect_nil_r.
    - eexists. split; [done|]. cbn. split; [done|]. rewrite skip_effect, <-!effect_app_assoc.
      by rewrite (effect_app_comm (mkEffect [] [] [id] 0)). }
  destruct op as [id text|id text|id|m|]; cbn [stream_op op_effect].
  - destruct (Hdoc id text false) as (s' & -> & ? & ?). exists s', (Ok tt). by split_and!.
  - destruct (Hdoc id text true) as (s' & -> & ? & ?). exists s', (Ok tt). by split_and!.
  - eexists _, (Ok tt). split; [done|]. cbn. split_and!; [done|done|]. rewrite delete_effect, <-!effect_app_assoc.
    by rewrite (effect_app_comm (mkEffect [] [id] [] 0)).
  - eexists _, (Ok tt). split; [done|]. cbn. split_and!; [done|done|]. rewrite skip_effect, <-!effect_app_assoc.
    by rewrite (effect_app_comm (mkEffect [] [] ["unknown"] 0)).
  - eexists _, (Err _). by split_and!.
Qed.

Lemma stream_loop_spec s ops :
  chunk_safe → textwise → inv (ss_embedder s) →
  ∃ s' r, stream_loop encode params dim store_clustering cancelled embed_batch_size progress s ops = (s', Some r) ∧
    inv (ss_embedder s') ∧
    match r with
    | Ok _ => (OpAbort ∉ ops) ∧ state_effect s' ≡ state_effect s ⊕ effects op_effect ops
    | Err msg => stream_error ops msg
    end.
Proof.
  intros Hs Htx. revert s. induction ops as [|op ops IH]; intros s He; cbn [stream_loop].
  all: destruct (read_token cancelled s) as [s1 b1] eqn:E1; apply read_token_cancel in E1 as (Ee1 & Eb1 & Ec1 & En1 & Hb1).
  all: destruct b1; [exists s1, (Err SUPERSEDED); rewrite Ee1; split_and!; [done|done|by left; split; auto]|].
  all: destruct (read_token cancelled s1) as [s2 b2] eqn:E2; apply read_token_cancel in E2 as (Ee2 & Eb2 & Ec2 & En2 & Hb2).
  all: destruct b2; [exists s2, (Err SUPERSEDED); rewrite Ee2, Ee1; split_and!; [done|done|by left; split; auto]|].
  all: assert (Hst : state_effect s2 = state_effect s) by (unfold state_effect; congruence).
  - exists s2, (Ok tt). split; [done|]. split; [by rewrite Ee2, Ee1|]. split; [apply not_elem_of_nil|].
    cbn. by rewrite Hst, effect_nil_r.
  - destruct (stream_op_spec s2 op Hs) as (s3 & [u|msg] & -> & He3 & H3); [by rewrite Ee2, Ee1| |].
    2: { exists s3, (Err msg). split; [done|]. split; [done|]. right. destruct H3 as [-> ->]. split; [by left|done]. }
    destruct H3 as [Hne H3]. rewrite Hst in H3.
    assert (Hgo : ∀ s4, inv (ss_embedder s4) → state_effect s4 = state_effect s3 → ∃ s' r,
      stream_loop encode params dim store_clustering cancelled embed_batch_size progress s4 ops = (s', Some r) ∧
      inv (ss_embedder s') ∧ match r with
      | Ok _ => (OpAbort ∉ op :: ops) ∧ state_effect s' ≡ state_effect s ⊕ effects op_effect (op :: ops)
      | Err msg => stream_error (op :: ops) msg end).
    { intros s4 He4 E4. destruct (IH s4 He4) as (s' & r & Hr & He' & Hres). exists s', r. split; [done|]. split; [done|].
      destruct r as [u'|msg].
      - destruct Hres as [Hn Hres]. split; [by apply not_elem_of_cons|]. cbn [effects].
        by rewrite Hres, E4, H3, effect_app_assoc.
      - destruct Hres as [?|[? ?]]; [by left|]. right. split; [by right|done]. }
    destruct (MICRO_BATCH_DOCS <=? length (ss_batch s3))%nat; [|by apply Hgo].
    destruct (flush_microbatch_spec s3 Htx He3) as (s4 & [u'|msg] & -> & He4 & H4); [by apply Hgo, H4|].
    exists s4, (Err msg). split; [done|]. split; [done|]. by left.
Qed.

(** The streaming collect phase returns; where it succeeds it has gathered the
    effect of the operations, with nothing pending.  It fails only because a
    newer push cancelled it, because the client aborted, or because fewer
    document operations came than were announced. *)
Theorem collect_stream_spec e ops expected_docs :
  chunk_safe → textwise → inv e →
  ∃ s r, collect_stream encode params dim store_clustering cancelled embed_batch_size progress e ops expected_docs
         = (s, Some r) ∧ inv (ss_embedder s) ∧
    match r with
    | Ok _ => (OpAbort ∉ ops) ∧ collected_effect (ss_collected s) ≡ effects op_effect ops
    | Err msg => stream_error ops msg ∨ ∃ s0, truncation_error (E:=E) s0 expected_docs = Some msg
    end.
Proof.
  intros Hs Htx He. unfold collect_stream.
  destruct (stream_loop_spec (mkStreamState e 0 [] no_work 0 []) ops Hs Htx He) as (s1 & [u|msg] & -> & He1 & H1);
    [|exists s1, (Err msg); split; [done|]; split; [done|]; by left].
  destruct (truncation_error s1 expected_docs) as [msg|] eqn:Et.
  { eexists _, (Err msg). split; [done|]. split; [done|]. right. by exists s1. }
  destruct (flush_microbatch_spec s1 Htx He1) as (s2 & [u'|msg] & -> & He2 & H2).
  - exists s2, (Ok u'). split; [done|]. split; [done|]. destruct H1 as [Hn H1], H2 as (H2 & _ & Hb). split; [done|].
    unfold state_effect at 1 in H2. rewrite Hb in H2. cbn in H2. rewrite effect_nil_r in H2. rewrite H2, H1.
    unfold state_effect. cbn. change (collected_effect no_work) with effect_nil. by rewrite !effect_nil_l.
  - exists s2, (Err msg). split; [done|]. split; [done|]. left. by left.
Qed.
End stream.
End spec.

(** ** The check of the announced number of operations *)

Section truncation.
Context (encode : string → result string Encoding) (params : ChunkParams).
Context {E : Type} `{Embedder E} (dim : nat) (store_clustering : bool).
Context (cancelled : nat → bool) (embed_batch_size : nat) (progress : bool).
Implicit Types s : StreamState (E:=E).

Definition is_doc (op : Operation) : bool := match op with Inserted _ _ | Changed _ _ => true | _ => false end.
Definition is_delete (op : Operation) : bool := match op with Deleted _ => true | _ => false end.
Definition count_ops (p : Operation → bool) (ops : list Operation) : nat := length (List.filter p ops).

(** The document operations seen so far, as the check counts them. *)
Definition received (s : StreamState (E:=E)) : N := (ss_seen s + N.of_nat (length (co_delete (ss_collected s))))%N.

Lemma stream_op_received s s' op : stream_op encode params progress s op = (s', Some (Ok tt)) →
  received s' = (received s + if is_doc op || is_delete op then 1 else 0)%N ∧
  length (ss_batch s') ≤ length (ss_batch s) + if is_doc op then 1 else 0.
Proof.
  assert (Hdoc : ∀ id text ch, match stream_doc encode params s id text ch with Some s => (s, Some (Ok tt)) | None => (s, None) end
      = (s', Some (Ok (E:=string) tt)) → received s' = (received s + 1)%N ∧ length (ss_batch s') ≤ length (ss_batch s) + 1).
  { intros id text ch. unfold stream_doc. destruct (chunk_doc encode params id text ch) as [[d|m]|]; cbn; intros E1; [| |discriminate E1].
    all: injection E1 as <-; unfold received; cbn; rewrite ?length_app; cbn; split; lia. }
  destruct op as [id text|id text|id|m|]; cbn [stream_op is_doc is_delete orb].
  - apply Hdoc.
  - apply Hdoc.
  - intros [= <-]. unfold received. cbn. rewrite length_app. cbn. split; lia.
  - intros [= <-]. unfold received. cbn. split; lia.
  - done.
Qed.

(** While less than a micro-batch of documents is delivered nothing is flushed,
    and the check counts what was delivered. *)
Lemma stream_loop_received s s' ops :
  length (ss_batch s) + count_ops is_doc ops < MICRO_BATCH_DOCS →
  stream_loop encode params dim store_clustering cancelled embed_batch_size progress s ops = (s', Some (Ok tt)) →
  received s' = (received s + N.of_nat (count_ops (λ op, is_doc op || is_delete op) ops))%N.
Proof.
  revert s. induction ops as [|op ops IH]; intros s Hlt; cbn [stream_loop].
  - unfold read_token. destruct (cancelled _); [done|]. cbn. destruct (cancelled _); [done|]. intros [= <-].
    unfold received, count_ops. cbn. lia.
  - unfold read_token. destruct (cancelled _); [done|]. cbn -[stream_op MICRO_BATCH_DOCS]. destruct (cancelled _); [done|].
    destruct (stream_op encode params progress _ op) as [s1 [[[]|msg]|]] eqn:Eo; [|done|done].
    apply stream_op_received in Eo as [Er Eb]. cbn [ss_batch] in Eb.
    assert (Hc : count_ops is_doc (op :: ops) = (if is_doc op then 1 else 0) + count_ops is_doc ops).
    { unfold count_ops. cbn. by destruct (is_doc op). }
    rewrite Hc in Hlt. destruct (Nat.leb_spec MICRO_BATCH_DOCS (length (ss_batch s1))); [lia|].
    intros Hr. apply IH in Hr; [|lia]. rewrite Hr, Er. unfold received, count_ops. cbn.
    destruct (is_doc op || is_delete op); cbn; lia.
Qed.

(** A push of fewer documents than a micro-batch that delivers fewer document
    operations than it announced never gets to the write phase. *)
Theorem truncated_push_rejected e ops expected s :
  count_ops is_doc ops < MICRO_BATCH_DOCS →
  (N.of_nat (count_ops (λ op, is_doc op || is_delete op) ops) < expected)%N →
  collect_stream encode params dim store_clustering cancelled embed_batch_size progress e ops (Some expected)
  ≠ (s, Some (Ok tt)).
Proof.
  intros Hlt Hexp. unfold collect_stream.
  destruct (stream_loop _ _ _ _ _ _ _ _ ops) as [s1 [[[]|msg]|]] eqn:El; [|done|done].
  apply stream_loop_received in El; [|done]. unfold truncation_error. cbn [mbind option_bind].
  fold (received s1). rewrite El. change (received (mkStreamState e 0 [] no_work 0 [])) with 0%N.
  destruct (N.ltb_spec (0 + N.of_nat (count_ops (λ op, is_doc op || is_delete op) ops)) expected); [done|lia].
Qed.
End truncation.

(** ** Instances *)

Module PipelineExample.

(** A service that rejects the text "bad" and embeds every other as the unit vector. *)
Definition unit_result (t : string) : EmbedResult := if String.eqb t "bad" then EmbedFailed "rejected" else EmbedOk [F32.one].
#[export] Instance unit_embedder : Embedder unit := {|
  embed_document e texts := (e, Some (map unit_result texts));
  embed_clustering e texts := (e, Some (map unit_result texts)) |}.
Definition unit_vector (t : string) : option (list f32) := if String.eqb t "bad" then None else Some [F32.one].

Lemma unit_textwise : textwise (λ _ : unit, True) unit_vector unit_vector.
Proof.
  assert (Hr : ∀ texts, Forall2 (text_result unit_vector) texts (map unit_result texts)).
  { intros texts. induction texts as [|t texts IH]; constructor; [|done].
    unfold text_result, unit_result, unit_vector. destruct (String.eqb t "bad"); [by eexists|done]. }
  split; intros e texts _; by exists e, (map unit_result texts).
Qed.

Lemma unit_embedder_laws : EmbedderLaws unit 1.
Proof.
  split; intros e texts; exists e, (map unit_result texts); (split; [done|split; [by rewrite length_map|]]);
    intros v (t & Hv & _)%list_elem_of_fmap; unfold unit_result in Hv; destruct (String.eqb t "bad"); by simplify_eq.
Qed.

(** A tokenizer of one token per text. *)
Definition one_token (text : string) : result string Encoding := Ok (mkEncoding [0%N] [(0, str_len text)]).
Definition window : ChunkParams := mkChunkParams 8 1.
Lemma one_token_safe : chunk_safe one_token window.
Proof. intros text. by eexists. Qed.

End PipelineExample.
Import PipelineExample.

(** A document with a rejected chunk is skipped, and deletions, replacements
    and errors are gathered in their order. *)
Example collects :
  (collect one_token window 1 false tt
    [Inserted "t/a" "x"; Changed "t/b" "y"; Inserted "t/c" "bad"; Deleted "t/d"; OpError "no"]).2
  = Some (Ok (mkCollected
      [mkChunkRow "t/a" "t" 0 1 0 1 [F32.one] [F32.zero] "x"; mkChunkRow "t/b" "t" 0 1 0 1 [F32.one] [F32.zero] "y"]
      ["t/d"; "t/b"] [mkSkippedDoc "unknown" "operation error: no"; mkSkippedDoc "t/c" "rejected"] 2)).
Proof. vm_compute. reflexivity. Qed.

Lemma collect_spec_witness :
  ∃ e' r, collect one_token window 1 true tt [Inserted "t/a" "x"; Deleted "t/b"] = (e', Some r) ∧ True ∧
    match r with
    | Ok c => (OpAbort ∉ [Inserted "t/a" "x"; Deleted "t/b"]) ∧
        collected_effect c ≡ effects (op_effect one_token window 1 true unit_vector unit_vector) [Inserted "t/a" "x"; Deleted "t/b"]
    | Err msg => OpAbort ∈ [Inserted "t/a" "x"; Deleted "t/b"] ∧ msg = "push aborted by client"
    end.
Proof. apply (collect_spec one_token window 1 true (λ _, True)); [apply one_token_safe|apply unit_textwise|done]. Defined.

Lemma collect_stream_spec_witness :
  ∃ s r, collect_stream one_token window 1 true (λ _, false) 2 true tt [Inserted "t/a" "x"; Deleted "t/b"] (Some 2%N)
         = (s, Some r) ∧ True ∧
    match r with
    | Ok _ => (OpAbort ∉ [Inserted "t/a" "x"; Deleted "t/b"]) ∧ collected_effect (ss_collected s)
        ≡ effects (op_effect one_token window 1 true unit_vector unit_vector) [Inserted "t/a" "x"; Deleted "t/b"]
    | Err msg => stream_error (λ _, false) [Inserted "t/a" "x"; Deleted "t/b"] msg ∨
        ∃ s0, truncation_error (E:=unit) s0 (Some 2%N) = Some msg
    end.
Proof. apply (collect_stream_spec one_token window 1 true (λ _, True)); [apply one_token_safe|apply unit_textwise|done]. Defined.

Lemma truncated_push_rejected_witness :
  count_ops (λ op, is_doc op || is_delete op) [Changed "t/a" "x"] < 2 ∧
  ∀ s, collect_stream one_token window 1 false (λ _, false) 32 true tt [Changed "t/a" "x"] (Some 2%N) ≠ (s, Some (Ok tt)).
Proof.
  split; [apply Nat.ltb_lt; vm_compute; reflexivity|].
  intros s. apply truncated_push_rejected; [apply Nat.ltb_lt; vm_compute; reflexivity|reflexivity].
Defined.

(** With a full micro-batch of replaced documents the flush records their ids
    for deletion before the stream ends, and the check counts them twice: of
    4000 announced operations 2000 arrive, and the push is accepted. *)
Lemma truncated_push_accepted :
  let r := collect_stream one_token window 1 false (λ _, false) 500 false tt
             (replicate (N.to_nat 2000) (Changed "t/a" "x")) (Some 4000%N) in
  r.2 = Some (Ok tt) ∧ co_count (ss_collected r.1) = 2000%N ∧
  count_ops (λ op, is_doc op || is_delete op) (replicate (N.to_nat 2000) (Changed "t/a" "x")) = N.to_nat 2000.
Proof. vm_compute. by split_and!. Qed.
