(* ===== verification/PipelineRun.v ===== *)
(** * What a run of the index pipeline leaves behind

    The write phase of both pipelines: a run that succeeds leaves, at the head
    of the branch and under a new tag of the commit, the rows the branch had
    less those of the deleted and replaced documents plus the new ones; index
    maintenance in between changes no row.  Runs that fail in the collect phase
    write nothing.  Buffered and streaming runs of one commit leave the same
    rows. *)

From S2P Require Import Prelude F32 RustStr Model Distance LayerIdx Ingest Chunk Schema Rollup Lance DatasetCache Store Commit Index Maintain Embed Pipeline Growth PipelineSpec.

Section kept.
Context {W H : Type} `{LanceLaws W H} {HI : LanceIndexOps W H} {HIL : LanceIndexLaws W H}
        {HV : LanceVersions W H} {HVL : LanceVersionLaws W H} {HIG : LanceIndexGrows W H}
        {HM : LanceMaintOps W H} {HML : LanceMaintLaws W H} {HB : HashIter string (list N)} `{ByteSerialize}
        {HD : HashIter string (DatasetCacheEntry H)} {HT : HashIter string TagContents}.
Implicit Types s : LanceStore W H.

(** Tags, rows of every branch, heads of the others and last-indexed are those
    of [s]; so are the other directories. *)
Record kept (domain branch : string) s s' : Prop := {
  kp_tags : domain_tags s' domain = domain_tags s domain;
  kp_others b : b ≠ want_branch branch →
    v_head (dir_of s' (dataset_path domain)) b = v_head (dir_of s (dataset_path domain)) b;
  kp_head h : v_head (dir_of s (dataset_path domain)) (want_branch branch) = Some h →
    ∃ h', v_head (dir_of s' (dataset_path domain)) (want_branch branch) = Some h' ∧ v_rows h' = v_rows h ∧
          v_branch h' = v_branch h;
  kp_paths p : p ≠ dataset_path domain → dir_of s' p = dir_of s p;
  kp_index : st_branch_indexes s' = st_branch_indexes s;
  kp_cache : cache_from (st_cache s) (st_cache s');
}.

#[export] Instance kept_refl d b : Reflexive (kept d b).
Proof. intros s. split; try done; [eauto|]. apply cache_from_refl. Qed.
#[export] Instance kept_trans d b : Transitive (kept d b).
Proof.
  intros s1 s2 s3 K1 K2. split.
  - by rewrite (kp_tags _ _ _ _ K2), (kp_tags _ _ _ _ K1).
  - intros c Hc. by rewrite (kp_others _ _ _ _ K2), (kp_others _ _ _ _ K1).
  - intros h (h2 & Hh2 & Hr2 & Hb2)%(kp_head _ _ _ _ K1).
    destruct (kp_head _ _ _ _ K2 h2 Hh2) as (h3 & ? & ? & ?). exists h3. split_and!; [done|congruence|congruence].
  - intros p Hp. by rewrite (kp_paths _ _ _ _ K2), (kp_paths _ _ _ _ K1).
  - by rewrite (kp_index _ _ _ _ K2), (kp_index _ _ _ _ K1).
  - eapply cache_from_trans; [apply (kp_cache _ _ _ _ K1)|apply (kp_cache _ _ _ _ K2)].
Qed.

Lemma kept_rows_kept d b s s' : rows_kept (dataset_path d) (want_branch b) s s' → kept d b s s'.
Proof.
  intros (Ht & Hg & Ho & Hh). split; [done|done| | | |by eapply touches_cache].
  - intros h (h' & ? & ? & ? & _)%Hh. by exists h'.
  - intros p Hp. by eapply touches_dir.
  - by eapply touches_branch_indexes.
Qed.

Lemma kept_quiet d b s s' : quiet s s' → kept d b s s'.
Proof.
  intros Hq. split; unfold domain_tags.
  - by rewrite (quiet_dir s s').
  - intros c _. by rewrite (quiet_dir s s').
  - intros h Hh. exists h. by rewrite (quiet_dir s s').
  - intros p _. by apply quiet_dir.
  - by apply quiet_branch_indexes.
  - eapply touches_cache, (quiet_touches ""); done.
Qed.

Lemma kept_delta d b s f : kept d b s (set_delta_counts s f).
Proof. split; try done; [eauto|]. apply cache_from_refl. Qed.

Lemma kept_head_rows d b s s' h :
  kept d b s s' → v_head (dir_of s (dataset_path d)) (want_branch b) = Some h → head_rows s' d b = v_rows h.
Proof. intros K Hh. destruct (kp_head _ _ _ _ K h Hh) as (h' & Hh' & Hr & _). unfold head_rows. by rewrite Hh'. Qed.

Lemma kept_on_main d b s s' : kept d b s s' → cache_on_main s → cache_on_main s'.
Proof.
  intros K Hc dd e He. destruct (kp_cache _ _ _ _ K dd e He) as [(e0 & He0 & ->)|]; [eauto|].
  by apply main_handle_branch.
Qed.

(** ** Error contexts *)

(** ** Index maintenance inside the pipeline *)

Lemma io_open_uncached_head d b s s' r :
  io_open_dataset_uncached d b s = (s', r) → quiet s s' ∧
  ∀ ds, r = Ok (Some ds) → at_head (dataset_path d) (want_branch b) s' ds.
Proof.
  unfold io_open_dataset_uncached. unfold io_bind at 1, io_get.
  destruct (path_exists s (dataset_path d)); [|by intros [= <- <-]].
  unfold io_bind at 1. destruct (io_open_fresh _ s) as [s1 [h|e]] eqn:Ef; apply io_open_fresh_inv in Ef as [Hq Hl];
    [|by intros [= <- <-]].
  specialize (Hl h eq_refl). apply law_load in Hl as (_ & Hh & Hb). rewrite <-(quiet_dir s s1) in Hh by done.
  unfold want_branch, at_head. destruct (String.eqb b MAIN_BRANCH).
  - intros [= <- <-]. split; [done|]. by intros ds [= <-].
  - unfold io_bind. destruct (io_read _ _ _ s1) as [s2 [hb|e]] eqn:Er.
    + apply io_read_ok in Er as [-> Hco]. intros [= <- <-]. split; [done|]. intros ds [= <-].
      by apply law_checkout_branch in Hco.
    + apply io_read_inv in Er as [-> _]. intros [= <- <-]. by split.
Qed.

(** [h] is a version of the branch. *)
Definition recorded (domain branch : string) s (h : H) : Prop :=
  v_version (dir_of s (dataset_path domain)) (want_branch branch) (l_version h) = Some h.

Lemma at_head_recorded d b s h : at_head (dataset_path d) (want_branch b) s h → recorded d b s h.
Proof. intros [Hh _]. by apply law_head_version. Qed.

Lemma grows_recorded d b s s' h : store_grows s s' → recorded d b s h → recorded d b s' h.
Proof. intros Hg. apply (sg_dirs _ _ Hg). Qed.

(** A maintenance step on a handle at the head. *)
Lemma maintain {A} d b ds (get : A → H) p (c : io W H A) s s' a :
  keeps_rows (dataset_path d) (want_branch b) ds get c → at_head (dataset_path d) (want_branch b) s ds →
  io_ctx p c s = (s', Ok a) →
  kept d b s s' ∧ at_head (dataset_path d) (want_branch b) s' (get a) ∧ v_rows (get a) = v_rows ds.
Proof.
  intros Hk Hh Hc%io_ctx_ok. destruct (Hk _ _ _ Hh Hc) as [Hr Ha]. destruct (Ha a eq_refl) as [Hh' _].
  split; [by apply kept_rows_kept|]. split; [done|].
  destruct Hh as [Hh _], Hh' as [Hh' _], Hr as (_ & _ & _ & Hr). destruct (Hr ds Hh) as (h' & E & Er & _). congruence.
Qed.

Lemma index_boundary_kept vc cc sc d b ds s s' v :
  at_head (dataset_path d) (want_branch b) s ds →
  index_boundary vc cc sc d b ds s = (s', Ok v) →
  kept d b s s' ∧ ∃ h, v_rows h = v_rows ds ∧ l_version h = v ∧ recorded d b s' h.
Proof.
  intros Hh Hr. unfold index_boundary in Hr.
  apply io_bind_ok in Hr as (s1 & fts & Hf & Hr). apply (maintain _ _ _ fst _ _ _ _ _ (keeps_fts _ _ _) Hh) in Hf as (K1 & Hh1 & R1).
  apply io_bind_ok in Hr as (s2 & vec & Hv & Hr).
  apply (maintain _ _ _ fst _ _ _ _ _ (keeps_ann _ _ _ _ _ _ _ _ _) Hh1) in Hv as (K2 & Hh2 & R2).
  apply io_bind_ok in Hr as (s3 & clu & Hc & Hr).
  assert (kept d b s2 s3 ∧ at_head (dataset_path d) (want_branch b) s3 clu.1 ∧ v_rows clu.1 = v_rows vec.1) as (K3 & Hh3 & R3).
  { destruct (if sc then cc else None) as [config|].
    - by apply (maintain _ _ _ fst _ _ _ _ _ (keeps_ann _ _ _ _ _ _ _ _ _) Hh2) in Hc.
    - injection Hc as <- <-. split; [reflexivity|done]. }
  pose proof Hr as Hg. apply grows_run in Hg.
  apply io_bind_ok in Hr as (s4 & [] & [= <-] & Hr). apply io_bind_ok in Hr as (s5 & sg & [= <- <-] & Hr).
  set (s4 := set_delta_counts _ _) in Hr.
  assert (K4 : kept d b s3 s4) by apply kept_delta.
  apply io_bind_ok in Hr as (s6 & counts & Hcas & Hr). apply io_or_ok in Hcas as (r & Hcas & _).
  assert (K5 : kept d b s4 s6).
  { assert (Hh4 : at_head (dataset_path d) (want_branch b) s4 clu.1) by done.
    unfold io_bind in Hcas. destruct (io_cascade _ _ _ s4) as [s6' r'] eqn:Eca.
    apply (keeps_cascade _ _ _ _ s4 s6' r' Hh4) in Eca as [Hrk _]. apply kept_rows_kept.
    destruct r'; by injection Hcas as <- _. }
  apply io_bind_ok in Hr as (s7 & [] & Hrf%io_ctx_ok & [= <- <-]). apply io_refresh_inv in Hrf.
  split; [|exists clu.1; split; [congruence|]; split; [done|]; by eapply grows_recorded, at_head_recorded].
  etrans; [done|]. etrans; [done|]. etrans; [done|]. etrans; [done|]. etrans; [done|]. by apply kept_quiet.
Qed.

Lemma fts_kept d b ds p s s' r :
  at_head (dataset_path d) (want_branch b) s ds →
  io_ctx p (io_ensure_fts_index_on_dataset (dataset_path d) ds) s = (s', Ok r) →
  kept d b s s' ∧ v_rows r.1 = v_rows ds ∧ l_version r.1 = r.2 ∧ recorded d b s' r.1.
Proof.
  intros Hh Hf. assert (l_version r.1 = r.2) as Hv.
  { apply io_ctx_ok in Hf. unfold io_ensure_fts_index_on_dataset in Hf. apply io_bind_ok in Hf as (s1 & i & _ & Hf).
    apply io_bind_ok in Hf as (s2 & h & _ & [= <- <-]). done. }
  apply (maintain _ _ _ fst _ _ _ _ _ (keeps_fts _ _ _) Hh) in Hf as (K & Hh' & R).
  split; [done|]. split; [done|]. split; [done|]. by apply at_head_recorded.
Qed.

Lemma count_commits_quiet d b s s' r : io_count_branch_commits d b s = (s', r) → quiet s s'.
Proof. intros [Hq _]%(read_tags_inv 0 (λ tags, length (branch_tags b tags))). done. Qed.
End kept.

(** ** The write phase *)

Section write_phase.
Context {W H : Type} `{LanceLaws W H} {HI : LanceIndexOps W H} {HIL : LanceIndexLaws W H}
        {HV : LanceVersions W H} {HVL : LanceVersionLaws W H} {HIG : LanceIndexGrows W H}
        {HM : LanceMaintOps W H} {HML : LanceMaintLaws W H} {HB : HashIter string (list N)} `{ByteSerialize}
        {HD : HashIter string (DatasetCacheEntry H)} {HT : HashIter string TagContents}.
Context (vector_config : VectorIndexConfig) (clustering_config : option VectorIndexConfig) (store_clustering : bool).
Implicit Types s : LanceStore W H.

(** The commit is tagged: it was not, the tag stands for a version with [rows]
    on the branch, [rows] are the rows at the branch's head, the commit is the
    cached last-indexed one; nothing else of the store's contents changes. *)
Record committed (domain branch commit : string) (rows : list ChunkRow) s s' : Prop := {
  cm_untagged : domain_tags s domain !! encode_commit_tag commit = None;
  cm_tag : ∃ h at_, v_rows h = rows ∧ recorded domain branch s' h ∧
    domain_tags s' domain = <[encode_commit_tag commit := mkTagContents (want_branch branch) (l_version h) at_]>
      (domain_tags s domain) ∧
    st_branch_indexes s' = <[(domain, branch) := mkBranchIndex (Some commit) (l_version h)]> (st_branch_indexes s);
  cm_rows : head_rows s' domain branch = rows;
  cm_others b : b ≠ want_branch branch →
    v_head (dir_of s' (dataset_path domain)) b = v_head (dir_of s (dataset_path domain)) b;
  cm_paths p : p ≠ dataset_path domain → dir_of s' p = dir_of s p;
}.

Lemma update_last_indexed_idem domain branch commit version s s' s2 :
  tagged domain branch commit version s s' → update_last_indexed domain branch commit version s' = (s2, Ok tt) →
  tagged domain branch commit version s s2.
Proof.
  intros [? ? ? Hc ? ?] [= <-]. split; try done. cbn. rewrite Hc. by rewrite insert_insert_eq.
Qed.

(** Tagging, once the branch head holds the rows. *)
Lemma tag_committed d b commit h v rows s s1 s' msg :
  cache_on_main s1 →
  domain_tags s1 d = domain_tags s d → st_branch_indexes s1 = st_branch_indexes s →
  (∀ c, c ≠ want_branch b → v_head (dir_of s1 (dataset_path d)) c = v_head (dir_of s (dataset_path d)) c) →
  (∀ p, p ≠ dataset_path d → dir_of s1 p = dir_of s p) →
  (∃ hd, v_head (dir_of s1 (dataset_path d)) (want_branch b) = Some hd ∧ v_rows hd = rows) →
  v_rows h = rows → recorded d b s1 h → l_version h = v →
  (io_ctx msg (io_tag_commit d b commit v);! update_last_indexed d b commit v) s1 = (s', Ok tt) →
  committed d b commit rows s s'.
Proof.
  intros Hc Et Ei Ho Hp (hd & Hhd & Hrd) Hrows Hrec <- Hrun.
  pose proof Hrun as Hg. apply grows_run in Hg. apply io_bind_ok in Hrun as (s2 & [] & Htag%io_ctx_ok & Hup).
  apply tag_commit_spec in Htag as [Htag _]; [|done].
  destruct (update_last_indexed_idem _ _ _ _ _ _ _ Htag Hup) as [Tn Tt Th Tc _ Tp].
  assert (Hex : path_exists s1 (dataset_path d) = true).
  { destruct (path_exists s1 (dataset_path d)) eqn:Ex; [done|]. apply law_not_exists in Ex as [_ Hn]. congruence. }
  split.
  - by rewrite <-Et.
  - destruct Tt as [at_ Tt]. exists h, at_. rewrite Tt, Tc, Et, Ei.
    split; [done|]. split; [|done]. by eapply grows_recorded.
  - unfold head_rows. by rewrite Th, Hhd by (by right).
  - intros c Hne. rewrite Th by (by right). by apply Ho.
  - intros p Hne. rewrite Tp by done. by apply Hp.
Qed.

Lemma write_version_spec d b c s s' v :
  Forall (row_width (st_dim s)) (co_rows c) →
  write_version vector_config clustering_config store_clustering d b c s = (s', Ok v) →
  ∃ s1 h1 h, moved_to d b s s1 h1 (without_docs (co_delete c) (head_rows s d b) ++ co_rows c) ∧ kept d b s1 s' ∧
    v_rows h = v_rows h1 ∧ l_version h = v ∧ recorded d b s' h.
Proof.
  intros Hwd (s1 & last & Hw%io_ctx_ok & Hr)%io_bind_ok.
  apply batch_delete_append_spec in Hw as (h1 & Hmv & Hl & _); [|done]. exists s1, h1.
  assert (Hrec : ∀ s2', quiet s1 s2' → recorded d b s2' h1).
  { intros s2' Hq. eapply grows_recorded; [by apply quiet_grows|]. apply at_head_recorded. by destruct Hmv. }
  apply io_bind_ok in Hr as (s2 & pos & Hpos & Hr). apply io_or_ok in Hpos as (r & Hpos%count_commits_quiet & _).
  apply io_bind_ok in Hr as (s3 & iv & Hi & [= <- <-]).
  assert (Hgo : ∀ s2' ds, quiet s2 s2' → at_head (dataset_path d) (want_branch b) s2' ds →
    quiet s1 s2' ∧ v_rows ds = v_rows h1).
  { intros s2' ds Hq Hh. assert (quiet s1 s2') by (by etrans). split; [done|]. destruct Hh as [Hh _], Hmv as [Hh1 _ _ _ _ _].
    rewrite (quiet_dir s1 s2') in Hh by done. congruence. }
  unfold should_create_index in Hi. destruct (should_index_commit pos).
  - apply io_bind_ok in Hi as (s4 & dso & Ho & Hi). apply io_or_ok in Ho as (r' & Ho & Hro).
    apply io_open_uncached_head in Ho as [Hq4 Hh4]. destruct dso as [ds|].
    + destruct Hro as [->|[[=] _]]. specialize (Hh4 ds eq_refl). destruct (Hgo _ _ Hq4 Hh4) as [Hq Hrows].
      apply io_bind_ok in Hi as (s5 & v & Hib & [= <- <-]).
      apply (index_boundary_kept _ _ _ _ _ _ _ _ _ Hh4) in Hib as (K & h & Hrh & Hvh).
      exists h. split; [done|]. split; [etrans; [by apply kept_quiet|done]|]. by rewrite Hrh.
    + injection Hi as <- <-. assert (quiet s1 s4) by (by etrans). exists h1. split; [done|]. split; [by apply kept_quiet|].
      split_and!; [done|done|by apply Hrec].
  - apply io_bind_ok in Hi as (s4 & dso & Ho%io_ctx_ok & Hi). apply io_open_uncached_head in Ho as [Hq4 Hh4].
    destruct dso as [ds|].
    + specialize (Hh4 ds eq_refl). destruct (Hgo _ _ Hq4 Hh4) as [Hq Hrows].
      apply io_bind_ok in Hi as (s5 & [h v] & Hf & [= <- <-]). apply (fts_kept _ _ _ _ _ _ _ Hh4) in Hf as (K & Hrh & Hvh).
      cbn in *. exists h. split; [done|]. split; [etrans; [by apply kept_quiet|done]|]. by rewrite Hrh.
    + injection Hi as <- <-. assert (quiet s1 s4) by (by etrans). exists h1. split; [done|]. split; [by apply kept_quiet|].
      split_and!; [done|done|by apply Hrec].
Qed.

(** A run with work. *)
Lemma committed_after d b commit s s1 h1 s2 h v s' msg rows :
  cache_on_main s → moved_to d b s s1 h1 rows → kept d b s1 s2 → v_rows h = v_rows h1 → recorded d b s2 h → l_version h = v →
  (io_ctx msg (io_tag_commit d b commit v);! update_last_indexed d b commit v) s2 = (s', Ok tt) →
  committed d b commit rows s s'.
Proof.
  intros Hcm Hmv K Hr Hrec Hv Htag. eapply tag_committed; [..|exact Hrec|exact Hv|exact Htag].
  - eapply kept_on_main, touches_on_main; [done|apply (mv_touches _ _ _ _ _ _ Hmv)|done].
  - rewrite (kp_tags _ _ _ _ K). apply (mv_tags _ _ _ _ _ _ Hmv).
  - rewrite (kp_index _ _ _ _ K). eapply touches_branch_indexes, (mv_touches _ _ _ _ _ _ Hmv).
  - intros x Hx. rewrite (kp_others _ _ _ _ K) by done. by apply (mv_others _ _ _ _ _ _ Hmv).
  - intros p Hp. rewrite (kp_paths _ _ _ _ K) by done. eapply touches_dir; [|done]. apply (mv_touches _ _ _ _ _ _ Hmv).
  - destruct (kp_head _ _ _ _ K h1) as (h' & Hh' & Hr' & _); [apply (mv_head _ _ _ _ _ _ Hmv)|].
    exists h'. split; [done|]. rewrite Hr'. apply (mv_rows _ _ _ _ _ _ Hmv).
  - rewrite Hr. apply (mv_rows _ _ _ _ _ _ Hmv).
Qed.

(** The cached handle of a domain is the head of its main branch, as it is
    after every write the store makes. *)
Definition cache_current s (domain : string) : Prop :=
  ∀ e, dc_datasets (st_cache s) !! domain = Some e → v_head (dir_of s (dataset_path domain)) None = Some (ce_ds e).

Lemma insert_cached_current s s' d ds h :
  io_insert_cached d ds s = (s', Ok h) →
  dir_of s' (dataset_path d) = dir_of s (dataset_path d) ∧
  (∀ e, dc_datasets (st_cache s') !! d = Some e → ce_ds e = h) ∧
  (dc_datasets (st_cache s) !! d = None → h = ds).
Proof.
  unfold io_insert_cached, insert_cached_dataset. destruct (dc_datasets (st_cache s) !! d) as [e0|] eqn:E; intros [= <- <-].
  - split; [done|]. split; [|done]. intros e. cbn. rewrite lookup_insert_eq. by intros [= <-].
  - split; [done|]. split; [|done]. intros e He. cbn in He. apply (evict_subset (upsert_entry (st_cache s) d ds)) in He.
    cbn in He. rewrite lookup_insert_eq in He. by injection He as <-.
Qed.

Lemma open_dataset_current d b s s' h :
  cache_current s d → io_open_dataset d b s = (s', Ok h) →
  v_head (dir_of s' (dataset_path d)) None = Some h ∧ cache_current s' d.
Proof.
  intros Hcur. unfold io_open_dataset. intros (s1 & hit & Hc & Hr)%io_bind_ok.
  unfold io_cache_hit, cache_hit in Hc. destruct (dc_datasets (st_cache s) !! d) as [e|] eqn:Ee; cbn in Hc.
  { injection Hc as <- <-. injection Hr as <- <-. pose proof (Hcur e Ee) as Hh. split; [done|].
    intros e'. cbn. rewrite lookup_insert_eq. by intros [= <-]. }
  injection Hc as <- <-. apply io_bind_ok in Hr as (s2 & s0 & [= <- <-] & Hr). apply io_bind_ok in Hr as (s3 & ds & Hds & Hins).
  assert (Hh3 : v_head (dir_of s3 (dataset_path d)) None = Some ds ∧ dc_datasets (st_cache s3) !! d = None).
  { destruct (path_exists s (dataset_path d)).
    - pose proof Hds as Hds'. apply io_open_fresh_inv in Hds as [Hq Hl]. specialize (Hl ds eq_refl).
      apply law_load in Hl as (_ & Hh & _). rewrite (quiet_dir s s3) by done. split; [done|].
      unfold io_open_fresh, io_bind, io_modify in Hds'. by apply io_read_ok in Hds' as [-> _].
    - apply io_bind_ok in Hds as (s4 & [] & [-> _]%ensure_writable_ok & Hds).
      apply io_bind_ok in Hds as (s5 & b0 & Hb & Hds).
      assert (s5 = s) as -> by (by injection Hb).
      apply io_write_ok in Hds as (w & Hcr & ->). apply law_create in Hcr as (_ & _ & Hh & _). by rewrite dir_put. }
  destruct Hh3 as [Hh3 Hn3]. apply insert_cached_current in Hins as (Hd & He & Hh). rewrite Hd, (Hh Hn3). split; [done|].
  intros e' He'. rewrite Hd, (He _ He'), (Hh Hn3). done.
Qed.

Lemma branch_head_version_spec d b s s1 s2 h0 v :
  String.eqb b MAIN_BRANCH = false ∨ cache_current s d →
  io_open_dataset d b s = (s1, Ok h0) → io_branch_head_version d b s1 = (s2, Ok v) →
  (∃ h, v_head (dir_of s2 (dataset_path d)) (want_branch b) = Some h ∧ l_version h = v) ∧
  dir_of s2 (dataset_path d) = dir_of s1 (dataset_path d) ∧ quiet s1 s2.
Proof.
  intros Hcur Ho Hv. unfold io_branch_head_version in Hv. unfold want_branch.
  destruct (String.eqb_spec b MAIN_BRANCH) as [->|Hne].
  - destruct Hcur as [[=]|Hcur]. apply open_dataset_current in Ho as [Hh1 Hcur1]; [|done].
    apply io_bind_ok in Hv as (s3 & h & Ho2 & [= <- <-]). pose proof Ho2 as Ho3.
    apply open_dataset_current in Ho2 as [Hh2 _]; [|done].
    apply open_dataset_dir in Ho3 as [[Hd Hq]|(Hx & _)].
    + split; [by exists h|done].
    + apply law_not_exists in Hx as [_ Hn]. congruence.
  - apply io_bind_ok in Hv as (s3 & h & Hw & [= <- <-]). apply open_for_write_head in Hw as (Hq & _ & Hh & _).
    unfold want_branch in Hh. apply String.eqb_neq in Hne. rewrite Hne in Hh. rewrite (quiet_dir s1 s3) by done.
    split; [by exists h|done].
Qed.

(** A run without work tags the branch as it stands. *)
Lemma noop_committed d b commit s s1 h0 s2 v s' msg :
  cache_on_main s → String.eqb b MAIN_BRANCH = false ∨ cache_current s d →
  io_open_dataset d b s = (s1, Ok h0) → io_branch_head_version d b s1 = (s2, Ok v) →
  (io_ctx msg (io_tag_commit d b commit v);! update_last_indexed d b commit v) s2 = (s', Ok tt) →
  committed d b commit (head_rows s d b) s s'.
Proof.
  intros Hcm Hcur Ho Hv Htag. destruct (branch_head_version_spec _ _ _ _ _ _ _ Hcur Ho Hv) as ((h & Hh & Hvh) & Hd & Hq).
  pose proof (io_open_dataset_touches _ _ _ _ _ Ho) as Ht1.
  assert (Ht2 : touches (dataset_path d) s s2) by (etrans; [done|by apply quiet_touches]).
  assert (Hobs : domain_tags s2 d = domain_tags s d ∧
    (∀ c, c ≠ want_branch b → v_head (dir_of s2 (dataset_path d)) c = v_head (dir_of s (dataset_path d)) c) ∧
    v_rows h = head_rows s d b).
  { unfold domain_tags, head_rows. rewrite Hd in *.
    apply open_dataset_dir in Ho as [[Hd1 _]|(Hx & _ & _ & Hts & (h1 & Hh1 & Hr1) & Hbr)].
    - rewrite Hd1 in *. split_and!; [done|done|]. by rewrite Hh.
    - apply law_not_exists in Hx as [Ht0 Hh0]. rewrite Hts, Ht0. split; [done|]. rewrite Hh0.
      destruct (want_branch b) as [b'|]; [by rewrite Hbr in Hh|]. split; [|congruence].
      intros [c|] Hne; [|done]. by rewrite Hbr, Hh0. }
  destruct Hobs as (Et & Eo & Er).
  eapply tag_committed; [..|exact Er|by apply law_head_version|exact Hvh|exact Htag].
  - by eapply touches_on_main.
  - done.
  - by eapply touches_branch_indexes.
  - done.
  - intros p Hp. by eapply touches_dir.
  - by exists h.
Qed.

Lemma no_work_rows c (rows : list ChunkRow) : has_work c = false → without_docs (co_delete c) rows ++ co_rows c = rows.
Proof.
  unfold has_work. destruct (co_rows c); [|done]. destruct (co_delete c); [|done]. intros _.
  by rewrite without_docs_nil, app_nil_r.
Qed.

(** The cleanup after the tag. *)
#[export] Instance tidied_after_tag d b : Within (tidied d) (cleanup_after_tag (W:=W) (H:=H) d b).
Proof. unfold cleanup_after_tag. apply _. Qed.

Lemma committed_tidied d b commit rows s s1 s' :
  committed d b commit rows s s1 → tidied d s1 s' → committed d b commit rows s s'.
Proof.
  intros [Cu Ct Cr Co Cp] [Ht Hg [_ Hh] [_ Hk]]. split; [done|..].
  - destruct Ct as (h & at_ & Hr & Hrec & Htags & Hidx). exists h, at_. unfold domain_tags in *.
    rewrite Hg, (touches_branch_indexes _ _ _ Ht). split; [done|]. split; [|done].
    apply (Hk (encode_commit_tag commit) (mkTagContents (want_branch b) (l_version h) at_)); [|done].
    by rewrite Htags, lookup_insert_eq.
  - unfold head_rows in *. by rewrite Hh.
  - intros c Hc. by rewrite Hh, Co.
  - intros p Hp. by rewrite (touches_dir s1 s' (dataset_path d)), Cp.
Qed.

(** Whatever has been collected: a write phase that succeeds commits it. *)
Lemma write_phase_spec d b commit c s s' :
  cache_on_main s → String.eqb b MAIN_BRANCH = false ∨ cache_current s d → Forall (row_width (st_dim s)) (co_rows c) →
  write_phase vector_config clustering_config store_clustering d b commit c s = (s', Ok tt) →
  committed d b commit (without_docs (co_delete c) (head_rows s d b) ++ co_rows c) s s'.
Proof.
  intros Hcm Hcur Hwd. unfold write_phase. destruct (has_work c) eqn:Ew.
  - intros (s1 & v & Hv & Htag)%io_bind_ok. apply write_version_spec in Hv as (s0 & h1 & h & Hmv & K & Hr & Hvh & Hrec); [|done].
    apply io_bind_ok in Htag as (s2 & [] & Htag & Hr2). apply io_bind_ok in Hr2 as (s3 & [] & Hup & Hcl).
    apply (_ : Within (tidied d) (cleanup_after_tag d b)) in Hcl. eapply committed_tidied; [|done].
    eapply committed_after; [done..|]. apply io_bind_ok. by exists s2, tt.
  - intros (s1 & h0 & Ho%io_ctx_ok & Hr)%io_bind_ok. apply io_bind_ok in Hr as (s2 & v & Hv%io_ctx_ok & Htag).
    rewrite no_work_rows by done. by eapply noop_committed.
Qed.
End write_phase.

(** ** Whole runs *)

Lemma l2_normalize_length v : length (l2_normalize v) = length v.
Proof. unfold l2_normalize. cbv zeta. destruct (F32.gt _ _); [by rewrite length_map|done]. Qed.

(** What every row of a dataset is meant to be: both vectors of the dataset's
    dimension, and the type of the document the one its id says. *)
Definition row_typed (dim : nat) (r : ChunkRow) : Prop :=
  row_width dim r ∧ cr_doc_type r = extract_doc_type (cr_doc_id r).
Definition typed_store (dim : nat) {W H} `{LanceOps W H, LanceView W H, ByteSerialize} (s : LanceStore W H) : Prop :=
  ∀ d b, Forall (row_typed dim) (head_rows s d b).

(** The rows of a document have the width of the vectors. *)
Lemma doc_rows_of_typed dim d vs ws :
  Forall (λ v, length v = dim) vs → Forall (λ v, length v = dim) ws → Forall (row_typed dim) (doc_rows_of d vs ws).
Proof.
  intros Hv Hw. unfold doc_rows_of. rewrite Forall_forall. intros r ([c [v w]] & -> & Hin)%list_elem_of_fmap.
  apply elem_of_zip_r in Hin. assert (Hvw := Hin). apply elem_of_zip_l in Hin. apply elem_of_zip_r in Hvw.
  apply list_elem_of_fmap in Hin as (v0 & -> & Hv0), Hvw as (w0 & -> & Hw0).
  rewrite Forall_forall in Hv, Hw. split; [|done]. split; cbn; rewrite l2_normalize_length; auto.
Qed.

Lemma doc_rows_of_width dim d vs ws :
  Forall (λ v, length v = dim) vs → Forall (λ v, length v = dim) ws → Forall (row_width dim) (doc_rows_of d vs ws).
Proof. intros Hv Hw. eapply Forall_impl; [by apply doc_rows_of_typed|]. by intros r []. Qed.

Lemma mapM_lengths (f : string → option (list f32)) dim ts vs :
  (∀ t v, f t = Some v → length v = dim) → mapM f ts = Some vs → Forall (λ v, length v = dim) vs.
Proof.
  intros Hf Hm%mapM_Some. rewrite Forall_forall. intros v (i & Hv)%list_elem_of_lookup.
  destruct (Forall2_lookup_r _ _ _ _ _ Hm Hv) as (t & _ & Ht). by eapply Hf.
Qed.

Section runs.
Context {W H : Type} `{LanceLaws W H} {HI : LanceIndexOps W H} {HIL : LanceIndexLaws W H}
        {HV : LanceVersions W H} {HVL : LanceVersionLaws W H} {HIG : LanceIndexGrows W H}
        {HM : LanceMaintOps W H} {HML : LanceMaintLaws W H} {HB : HashIter string (list N)} `{ByteSerialize}
        {HD : HashIter string (DatasetCacheEntry H)} {HT : HashIter string TagContents} {HFr : LanceFrame W H}.
Context (vector_config : VectorIndexConfig) (clustering_config : option VectorIndexConfig) (store_clustering : bool).
Context (encode : string → result string Encoding) (params : ChunkParams).
Context {E : Type} `{Embedder E} (inv : E → Prop) (fd fc : string → option (list f32)).
Implicit Types s : LanceStore W H.

(** The provider embeds text by text, in vectors of the store's dimension. *)
Record provider_for s : Prop := {
  pf_textwise : textwise inv fd fc;
  pf_chunk : chunk_safe encode params;
  pf_document t v : fd t = Some v → length v = st_dim s;
  pf_clustering t v : fc t = Some v → length v = st_dim s;
}.

Definition commit_effect s (ops : list Operation) : Effect :=
  effects (op_effect encode params (st_dim s) store_clustering fd fc) ops.

Lemma op_effect_typed s op : provider_for s →
  Forall (row_typed (st_dim s)) (ef_rows (op_effect encode params (st_dim s) store_clustering fd fc op)).
Proof.
  intros Hp. assert (Htext : ∀ id text ch, Forall (row_typed (st_dim s))
    (ef_rows (text_effect encode params (st_dim s) store_clustering fd fc id text ch))).
  { intros id text ch. unfold text_effect. destruct (chunk_doc encode params id text ch) as [[d|m]|]; [|constructor..].
    unfold doc_effect. destruct (doc_rows _ _ _ _ d) as [rows|] eqn:Er; [|constructor]. cbn.
    unfold doc_rows in Er. destruct (mapM fd _) as [vs|] eqn:Ev; [|done]. cbn in Er.
    destruct (mapM (clustering_vector _ _ _) _) as [ws|] eqn:Ew; [|done]. injection Er as <-.
    apply doc_rows_of_typed.
    - eapply mapM_lengths; [apply Hp|exact Ev].
    - eapply mapM_lengths; [|exact Ew]. intros t v. unfold clustering_vector.
      destruct store_clustering; [apply Hp|]. intros [= <-]. apply length_replicate. }
  destruct op; cbn; try constructor; apply Htext.
Qed.

Lemma commit_effect_typed s ops : provider_for s → Forall (row_typed (st_dim s)) (ef_rows (commit_effect s ops)).
Proof.
  intros Hp. unfold commit_effect. induction ops as [|op ops IH]; cbn; [constructor|].
  apply Forall_app. split; [by apply op_effect_typed|done].
Qed.

Lemma commit_effect_width s ops : provider_for s → Forall (row_width (st_dim s)) (ef_rows (commit_effect s ops)).
Proof. intros Hp%(commit_effect_typed _ ops). eapply Forall_impl; [exact Hp|]. by intros r []. Qed.

(** The state a run starts from. *)
Definition ready s (domain branch : string) : Prop :=
  cache_on_main s ∧ (String.eqb branch MAIN_BRANCH = false ∨ cache_current s domain).

(** What a run that succeeds must have done with the operations. *)
Definition commit_done (domain branch commit : string) (ops : list Operation) s s' (count : N) (skipped : list SkippedDoc) : Prop :=
  let eff := commit_effect s ops in
  committed domain branch commit (without_docs (ef_delete eff) (head_rows s domain branch) ++ ef_rows eff) s s' ∧
  count = ef_count eff ∧ map sk_id skipped ≡ₚ ef_skipped eff ∧ (OpAbort ∉ ops).

Lemma without_docs_perm ids ids' (rows : list ChunkRow) : ids ≡ₚ ids' → without_docs ids rows = without_docs ids' rows.
Proof. intros Hp. unfold without_docs. apply list_filter_iff. intros r. by rewrite Hp. Qed.

(** From what has been collected to the specification. *)
Lemma commit_done_collected d b commit ops s s' c :
  collected_effect c ≡ commit_effect s ops → (OpAbort ∉ ops) →
  committed d b commit (without_docs (co_delete c) (head_rows s d b) ++ co_rows c) s s' →
  commit_done d b commit ops s s' (co_count c) (co_skipped c).
Proof.
  intros (Er & Ed & Es & Ec) Hn Hc. cbn in *. split; [|done].
  by rewrite <-Er, <-(without_docs_perm _ _ _ Ed).
Qed.

Lemma buffered_run d b commit ops e e' s s' count skipped :
  provider_for s → inv e → ready s d b →
  io_run_index_pipeline vector_config clustering_config store_clustering encode params e d b commit ops s
    = (e', Some (s', Ok (count, skipped))) →
  commit_done d b commit ops s s' count skipped.
Proof.
  intros Hp He [Hcm Hcur] Hr. unfold io_run_index_pipeline in Hr.
  destruct (collect_spec encode params (st_dim s) store_clustering inv fd fc e ops) as (e1 & r & Hcol & _ & Hres); [apply Hp|apply Hp|done|].
  rewrite Hcol in Hr. cbn in Hr. destruct r as [c|msg]; [|done]. destruct Hres as [Hn Heff]. injection Hr as _ Hr.
  apply io_bind_ok in Hr as (s1 & [] & Hw & [= <- <- <-]).
  apply commit_done_collected; [done|done|]. apply write_phase_spec in Hw; [done|done|done|].
  destruct Heff as (Er & _). cbn in Er. rewrite Er. by apply commit_effect_width.
Qed.

(** ** The streaming run *)

Lemma stream_open_spec d b s s' ds pos :
  stream_open d b s = (s', Ok (ds, pos)) →
  ∃ s1 h0, io_open_dataset d b s = (s1, Ok h0) ∧ quiet s1 s' ∧
    moved_to d b s s' ds (head_rows s d b).
Proof.
  intros (s1 & h0 & Ho%io_ctx_ok & Hr)%io_bind_ok. apply io_bind_ok in Hr as (s2 & h & Hw%io_ctx_ok & Hr).
  apply io_bind_ok in Hr as (s3 & n & Hpos & [= <- <- <-]). apply io_or_ok in Hpos as (r & Hq%count_commits_quiet & _).
  exists s1, h0. split; [done|]. pose proof (open_ensured _ _ _ _ _ _ _ Ho Hw) as Hmv.
  apply open_for_write_head in Hw as (Hq1 & _). split; [by etrans|]. by eapply moved_quiet.
Qed.

Lemma stream_data_spec d b ds c s s1 s2 ds' :
  Forall (row_width (st_dim s)) (co_rows c) → moved_to d b s s1 ds (head_rows s d b) →
  stream_data d b ds c s1 = (s2, Ok ds') →
  moved_to d b s s2 ds' (without_docs (co_delete c) (head_rows s d b) ++ co_rows c).
Proof.
  intros Hwd Hmv (s3 & h1 & Hdel & Hr)%io_bind_ok. apply io_bind_ok in Hr as (s4 & h2 & Happ & Hr).
  apply io_bind_ok in Hr as (s5 & [] & Hrf%io_ctx_ok & [= <- <-]). apply io_refresh_inv in Hrf.
  eapply moved_quiet; [|done].
  assert (Hmv3 : moved_to d b s s3 h1 (without_docs (co_delete c) (head_rows s d b))).
  { destruct (co_delete c) as [|i ids] eqn:Ed; cbn [is_empty negb] in Hdel.
    - injection Hdel as <- <-. by rewrite without_docs_nil.
    - apply io_ctx_ok in Hdel. unfold io_microbatch_delete in Hdel. cbn [is_empty] in Hdel.
      apply io_bind_ok in Hdel as (s6 & [] & [-> _]%ensure_writable_ok & Hdel). rewrite <-delete_in_list_rows.
      by eapply moved_delete. }
  destruct (co_rows c) as [|r rows] eqn:Er; cbn [is_empty negb] in Happ.
  - injection Happ as <- <-. by rewrite app_nil_r.
  - apply io_ctx_ok in Happ. unfold io_microbatch_append in Happ. cbn [is_empty] in Happ.
    apply io_bind_ok in Happ as (s6 & [] & [-> _]%ensure_writable_ok & Happ). by eapply moved_append.
Qed.

Lemma moved_at_head d b s s' h rows : moved_to d b s s' h rows → at_head (dataset_path d) (want_branch b) s' h.
Proof. intros []. by split. Qed.

Lemma stream_version_spec d b ds pos s s' v :
  at_head (dataset_path d) (want_branch b) s ds →
  stream_version vector_config clustering_config store_clustering d b ds pos s = (s', Ok v) →
  kept d b s s' ∧ ∃ h, v_rows h = v_rows ds ∧ l_version h = v ∧ recorded d b s' h.
Proof.
  intros Hh. unfold stream_version, should_create_index. destruct (should_index_commit pos); [by apply index_boundary_kept|].
  intros (s1 & [h v1] & Hf & Hr)%io_bind_ok. apply (fts_kept _ _ _ _ _ _ _ Hh) in Hf as (K & Er & Ev & Hrec). cbn in *.
  apply io_bind_ok in Hr as (s2 & [] & Hrf%io_ctx_ok & [= <- <-]). apply io_refresh_inv in Hrf.
  split; [etrans; [done|by apply kept_quiet]|]. exists h. split; [done|]. split; [done|].
  eapply grows_recorded; [by apply quiet_grows|done].
Qed.

Lemma reported_ok {A} progress (c : io W H A) s s' a msgs :
  reported progress c s = (s', Ok a, msgs) → c s = (s', Ok a).
Proof. unfold reported. destruct (c s) as [s1 [x|e]]; intros Hr; by inversion Hr. Qed.

(** Refreshing the cached handle makes it current. *)
Lemma refresh_current d b s s' :
  path_exists s (dataset_path d) = true → io_refresh_cached_dataset d b s = (s', Ok tt) → cache_current s' d.
Proof.
  intros Hx. unfold io_refresh_cached_dataset. unfold io_bind at 1, io_get. rewrite Hx.
  intros (s1 & ds & Ho & Hm)%io_bind_ok. pose proof Ho as Ho'. apply io_open_fresh_inv in Ho as [Hq Hl].
  specialize (Hl ds eq_refl). apply law_load in Hl as (_ & Hh & _). injection Hm as <-.
  intros e He. cbn in He. apply (evict_subset (upsert_entry (st_cache s1) d ds)) in He. cbn in He.
  rewrite lookup_insert_eq in He. injection He as <-. cbn.
  change (dir_of (set_cache s1 _) (dataset_path d)) with (dir_of s1 (dataset_path d)).
  by rewrite (quiet_dir s s1).
Qed.

Lemma stream_data_current d b ds c s1 s2 ds' s h rows :
  moved_to d b s s2 h rows → stream_data d b ds c s1 = (s2, Ok ds') → cache_current s2 d.
Proof.
  intros Hmv (s3 & h1 & _ & Hr)%io_bind_ok. apply io_bind_ok in Hr as (s4 & h2 & _ & Hr).
  apply io_bind_ok in Hr as (s5 & [] & Hrf%io_ctx_ok & [= <- <-]). pose proof Hrf as Hq. apply io_refresh_inv in Hq.
  apply (refresh_current d b s4 s5); [|done].
  destruct (path_exists s4 (dataset_path d)) eqn:Epx; [done|].
  apply law_not_exists in Epx as [_ Hn]. pose proof (mv_head _ _ _ _ _ _ Hmv) as Hh.
  rewrite (quiet_dir s4 s5) in Hh by done. congruence.
Qed.

(** [committed] does not depend on what happened to the store before the rows. *)
Lemma committed_from d b commit s s1 h rows rows' s' :
  moved_to d b s s1 h rows' → committed d b commit rows s1 s' → committed d b commit rows s s'.
Proof.
  intros [Hh Hr Hb Ht Ho Hto] [Hu Htag Hrows Hoth Hp]. unfold domain_tags in *. split; unfold domain_tags.
  - by rewrite <-Ht.
  - destruct Htag as (h' & at_ & ? & ? & Htags & Hidx). exists h', at_. split; [done|]. split; [done|].
    by rewrite <-Ht, Htags, Hidx, (touches_branch_indexes _ _ _ Hto).
  - done.
  - intros c Hc. by rewrite Hoth, Ho.
  - intros p Hne. rewrite Hp by done. by eapply touches_dir.
Qed.

Lemma stream_finish_spec progress d b commit ds pos c s s1 s' rows msgs :
  cache_on_main s → moved_to d b s s1 ds rows → cache_current s1 d →
  stream_finish vector_config clustering_config store_clustering progress d b commit ds pos c s1 = (s', Ok tt, msgs) →
  committed d b commit rows s s'.
Proof.
  intros Hcm Hmv Hcur. unfold stream_finish.
  destruct ((0 <? co_count c)%N || negb (is_empty (co_delete c))).
  - destruct (stream_version _ _ _ d b ds pos s1) as [s2 [v|e]] eqn:Ev; [|done].
    apply stream_version_spec in Ev as (K & h & Hr & Hv & Hrec); [|by eapply moved_at_head].
    destruct (stream_tag _ _ _ _ _ _ s2) as [[s3 [[]|e]] m] eqn:Etag; [|done]. apply reported_ok in Etag.
    destruct (cleanup_after_tag d b s3) as [s4 r4] eqn:Ecl. apply (_ : Within (tidied d) (cleanup_after_tag d b)) in Ecl.
    intros [= <- _ _]. eapply committed_tidied; [|done]. by eapply committed_after.
  - destruct (reported progress _ s1) as [[s2 [h0|e]] msgs'] eqn:Eo; [|done]. apply reported_ok, io_ctx_ok in Eo.
    destruct (io_ctx _ (io_branch_head_version d b) s2) as [s3 [v|e]] eqn:Ev; [|done]. apply io_ctx_ok in Ev.
    intros Htag%reported_ok.
    assert (Hcm1 : cache_on_main s1) by (eapply touches_on_main; [apply (mv_touches _ _ _ _ _ _ Hmv)|done]).
    pose proof (noop_committed _ _ _ _ _ _ _ _ _ _ Hcm1 (or_intror Hcur) Eo Ev Htag) as Hc.
    eapply committed_from; [exact Hmv|]. by rewrite (moved_head_rows _ _ _ _ _ _ Hmv) in Hc.
Qed.

Lemma stream_run cancelled embed_batch_size progress d b commit ops expected e e' s s' count skipped msgs :
  provider_for s → inv e → ready s d b →
  io_run_index_pipeline_stream vector_config clustering_config store_clustering encode params cancelled
      embed_batch_size progress e d b commit ops expected s
    = (e', Some (s', Ok (count, skipped), msgs)) →
  commit_done d b commit ops s s' count skipped.
Proof.
  intros Hp He [Hcm Hcur] Hr. unfold io_run_index_pipeline_stream in Hr.
  destruct (stream_open d b s) as [s1 [[ds pos]|err]] eqn:Eo; [|done].
  apply stream_open_spec in Eo as (s0 & h0 & _ & _ & Hmv).
  pose proof (mv_touches _ _ _ _ _ _ Hmv) as Hto.
  assert (Hdim : st_dim s1 = st_dim s) by (by destruct Hto as (? & ? & ? & -> & _)).
  rewrite Hdim in Hr.
  destruct (collect_stream_spec encode params (st_dim s) store_clustering inv fd fc cancelled embed_batch_size progress e ops expected)
    as (st & r & Hcol & _ & Hres); [apply Hp|apply Hp|done|].
  rewrite Hcol in Hr. cbn in Hr. destruct r as [u|msg]; [|done]. destruct Hres as [Hn Heff]. injection Hr as _ Hr.
  destruct (stream_data d b ds (ss_collected st) s1) as [s2 [ds'|err]] eqn:Ed; [|done].
  destruct (stream_finish _ _ _ _ _ _ _ _ _ _ s2) as [[s3 [[]|err]] msgs'] eqn:Ef; [|done].
  injection Hr as -> <- <- _. apply commit_done_collected; [done|done|].
  pose proof Heff as (Er & Edel & _ & Ecount). cbn in Er, Edel, Ecount.
  pose proof Ed as Ed'. eapply stream_data_spec in Ed as Hmv2; [|rewrite Er; by apply commit_effect_width|exact Hmv].
  eapply stream_finish_spec; [done|exact Hmv2| |exact Ef]. by eapply stream_data_current.
Qed.

(** A dataset that was not there is, without tags and without rows. *)
Definition created_empty (d : string) s s' : Prop :=
  path_exists s (dataset_path d) = false ∧ touches (dataset_path d) s s' ∧
  v_tags (dir_of s' (dataset_path d)) = ∅ ∧ ∀ b h, v_head (dir_of s' (dataset_path d)) b = Some h → v_rows h = [].

(** What opening a dataset to write to may change. *)
Definition only_opens (d : string) s s' : Prop := quiet s s' ∨ created_empty d s s'.

Lemma only_opens_quiet d s1 s2 s3 : only_opens d s1 s2 → quiet s2 s3 → only_opens d s1 s3.
Proof.
  intros [Hq|(Hx & Ht & Htg & Hh)] Hq'; [left; by etrans|]. right. unfold created_empty. rewrite (quiet_dir s2 s3) by done.
  split_and!; [done| |done|done]. etrans; [done|by apply quiet_touches].
Qed.

Lemma open_dataset_opens d b s s' r : io_open_dataset d b s = (s', r) → only_opens d s s'.
Proof.
  intros Ho. pose proof (io_open_dataset_touches _ _ _ _ _ Ho) as Hto. unfold io_open_dataset in Ho. unfold io_bind at 1 in Ho.
  destruct (io_cache_hit d s) as [s1 r1] eqn:Ehit. apply io_cache_hit_inv in Ehit as [Hq Hr].
  destruct (dc_datasets (st_cache s) !! d) as [e|]; [rewrite Hr in Ho; injection Ho as <- _; by left|]. destruct Hr as [-> ->].
  unfold io_bind at 1, io_get in Ho. unfold io_bind at 1 in Ho. destruct (path_exists s (dataset_path d)) eqn:Ex.
  - left. destruct (io_open_fresh _ s) as [s2 [h|e]] eqn:E2; pose proof E2 as Hm; apply io_open_fresh_inv in E2 as [Hq2 _].
    + apply io_insert_cached_inv in Ho as [Hq3 _]; [by etrans|by eapply io_open_fresh_main].
    + by injection Ho as <- _.
  - unfold io_bind in Ho. destruct (ensure_writable s) as [s2 [[]|e]] eqn:Ew; apply ensure_writable_inv in Ew as [-> _];
      [|injection Ho as <- _; by left]. destruct (empty_batch s) as [s2 [xb|eb]] eqn:Eb; apply empty_batch_ok in Eb as [-> _];
      [|injection Ho as <- _; by left].
    destruct (io_write _ _ l_create s) as [s2 rc] eqn:Ecr. pose proof Ecr as Ht%io_write_touches.
    apply io_write_inv in Ecr as (w & [h|e] & Hw & -> & ->); cbn in Ho.
    + assert (Hc : created_empty d s (put_dir (dataset_path d) w s)).
      { pose proof Hw as (_ & Htg & Hh & Hrow & _ & Hb)%law_create. split; [done|]. split; [done|]. rewrite dir_put. split; [done|].
        intros [c|] h'; [by rewrite Hb|]. rewrite Hh. by intros [= <-]. }
      apply io_insert_cached_inv in Ho as [Hq3 _]; [by eapply only_opens_quiet; [right|]|]. right. eauto.
    + injection Ho as <- _. right. split; [done|]. split; [done|]. rewrite dir_put.
      apply law_create_err in Hw as [Htg [_ Hh]]. apply law_not_exists in Ex as [Ht0 Hh0]. split; [by rewrite Htg|].
      intros c h'. by rewrite Hh, Hh0.
Qed.

Lemma stream_open_opens d b s s' r : stream_open d b s = (s', r) → only_opens d s s'.
Proof.
  unfold stream_open. unfold io_bind at 1. unfold io_ctx at 1.
  destruct (io_open_dataset d b s) as [s1 [h|err]] eqn:E1; apply open_dataset_opens in E1; [|by intros [= <- _]].
  unfold io_bind at 1, io_ctx.
  destruct (io_open_branch_for_write d b s1) as [s2 [h2|err]] eqn:E2; apply io_open_branch_for_write_inv in E2 as [Hq2 _];
    [|intros [= <- _]; by eapply only_opens_quiet].
  unfold io_bind, io_or. destruct (io_count_branch_commits d b s2) as [s3 [n|err]] eqn:E3; apply count_commits_quiet in E3;
    intros [= <- _]; (eapply only_opens_quiet; [done|]; by etrans).
Qed.

(** C17: a push whose operations hold an abort fails and never reaches the write
    phase.  The buffered run leaves the store as it is.  The streaming one opens
    the dataset first: it leaves every dataset, tag and last-indexed commit as
    they are when the domain has a dataset, and otherwise at most creates one,
    without tags and without rows, all the rest staying. *)
Theorem aborted_push_writes_nothing d b commit ops e s :
  provider_for s → inv e → OpAbort ∈ ops →
  (∃ e' err, io_run_index_pipeline vector_config clustering_config store_clustering encode params e d b commit ops s
     = (e', Some (s, Err err))) ∧
  ∀ cancelled embed_batch_size progress expected,
    ∃ e' s' err msgs, io_run_index_pipeline_stream vector_config clustering_config store_clustering encode params
      cancelled embed_batch_size progress e d b commit ops expected s = (e', Some (s', Err err, msgs)) ∧
      if path_exists s (dataset_path d) then quiet s s' else only_opens d s s'.
Proof.
  intros Hp He Hin. split.
  - unfold io_run_index_pipeline.
    destruct (collect_spec encode params (st_dim s) store_clustering inv fd fc e ops) as (e1 & [c|msg] & -> & _ & Hres);
      [apply Hp|apply Hp|done|by destruct Hres|]. by eexists _, _.
  - intros cancelled ebs progress expected. unfold io_run_index_pipeline_stream.
    destruct (stream_open d b s) as [s1 r1] eqn:Eo. apply stream_open_opens in Eo.
    assert (Hdim : st_dim s1 = st_dim s) by (destruct Eo as [Hq|(_ & Ht & _)]; [by apply quiet_dim|by eapply touches_dim]).
    assert (Ho : if path_exists s (dataset_path d) then quiet s s1 else only_opens d s s1).
    { destruct (path_exists s (dataset_path d)) eqn:Ex; [|done]. destruct Eo as [Hq|(Hx & _)]; [done|congruence]. }
    destruct r1 as [[ds pos]|err]; [|by eexists _, _, _, _]. rewrite Hdim.
    destruct (collect_stream_spec encode params (st_dim s) store_clustering inv fd fc cancelled ebs progress e ops expected)
      as (st & [u|msg] & -> & _ & Hres); [apply Hp|apply Hp|done|by destruct Hres|]. by eexists _, _, _, _.
Qed.

(** C4: a run that succeeds, buffered: the branch holds the rows it had less those
    of the documents deleted or replaced, followed by the new documents' rows;
    the commit, which was not tagged, is tagged at a version with those rows and
    is the branch's last-indexed commit; other branches, tags and domains are as
    before; the count and the skipped documents are those of the operations. *)
Theorem buffered_pipeline_commits d b commit ops e e' s s' count skipped :
  provider_for s → inv e → ready s d b →
  io_run_index_pipeline vector_config clustering_config store_clustering encode params e d b commit ops s
    = (e', Some (s', Ok (count, skipped))) →
  commit_done d b commit ops s s' count skipped.
Proof. apply buffered_run. Qed.

(** C3: the same of the streaming run, whatever the batch sizes, the flushes, the
    announced count, the reads of the cancellation token and the progress
    messages. *)
Theorem streaming_pipeline_commits cancelled embed_batch_size progress d b commit ops expected e e' s s' count skipped msgs :
  provider_for s → inv e → ready s d b →
  io_run_index_pipeline_stream vector_config clustering_config store_clustering encode params cancelled
      embed_batch_size progress e d b commit ops expected s
    = (e', Some (s', Ok (count, skipped), msgs)) →
  commit_done d b commit ops s s' count skipped.
Proof. apply stream_run. Qed.

(** C5: so the two pipelines agree: from one store, runs of one commit's operations
    that succeed leave the same rows on the branch and report the same count
    and the same skipped documents, up to order. *)
Theorem pipelines_agree cancelled embed_batch_size progress d b commit ops expected e e1 e2 s s1 s2 n1 n2 sk1 sk2 msgs :
  provider_for s → inv e → ready s d b →
  io_run_index_pipeline vector_config clustering_config store_clustering encode params e d b commit ops s
    = (e1, Some (s1, Ok (n1, sk1))) →
  io_run_index_pipeline_stream vector_config clustering_config store_clustering encode params cancelled
      embed_batch_size progress e d b commit ops expected s
    = (e2, Some (s2, Ok (n2, sk2), msgs)) →
  head_rows s1 d b = head_rows s2 d b ∧ n1 = n2 ∧ map sk_id sk1 ≡ₚ map sk_id sk2.
Proof.
  intros Hp He Hr R1%buffered_run R2%stream_run; [|done..].
  destruct R1 as (C1 & -> & S1 & _), R2 as (C2 & -> & S2 & _). split; [|split; [done|by rewrite S1, S2]].
  by rewrite (cm_rows _ _ _ _ _ _ C1), (cm_rows _ _ _ _ _ _ C2).
Qed.

(** A commit keeps the rows of every branch of every domain typed. *)
Lemma commit_done_typed d b commit ops s s' count skipped :
  provider_for s → commit_done d b commit ops s s' count skipped →
  typed_store (st_dim s) s → typed_store (st_dim s) s'.
Proof.
  intros Hp (C & _) Ht d' b'. destruct (decide (dataset_path d' = dataset_path d)) as [Ep|Ep].
  2: { specialize (Ht d' b'). unfold head_rows in *. by rewrite (cm_paths _ _ _ _ _ _ C). }
  destruct (decide (want_branch b' = want_branch b)) as [Eb|Eb].
  - assert (head_rows s' d' b' = head_rows s' d b) as -> by (unfold head_rows; by rewrite Ep, Eb).
    rewrite (cm_rows _ _ _ _ _ _ C). apply Forall_app. split; [|by apply commit_effect_typed].
    unfold without_docs. apply Forall_forall. intros r [_ Hin]%list_elem_of_filter. by apply (proj1 (Forall_forall _ _) (Ht d b)).
  - specialize (Ht d' b'). unfold head_rows in *. rewrite Ep in *. by rewrite (cm_others _ _ _ _ _ _ C).
Qed.

(** The version a commit is tagged at holds typed rows. *)
Definition tagged_typed (dim : nat) s (d commit : string) : Prop :=
  ∃ t h, domain_tags s d !! encode_commit_tag commit = Some t ∧
    v_version (dir_of s (dataset_path d)) (tc_branch t) (tc_version t) = Some h ∧ Forall (row_typed dim) (v_rows h).

Lemma commit_done_tagged d b commit ops s s' count skipped :
  provider_for s → commit_done d b commit ops s s' count skipped →
  typed_store (st_dim s) s → tagged_typed (st_dim s) s' d commit.
Proof.
  intros Hp Hc Ht. pose proof (commit_done_typed _ _ _ _ _ _ _ _ Hp Hc Ht d b) as Hb.
  destruct Hc as (C & _). destruct (cm_tag _ _ _ _ _ _ C) as (h & t & Hrow & Hrec & Htag & _).
  exists (mkTagContents (want_branch b) (l_version h) t), h. rewrite Htag, lookup_insert_eq.
  split; [done|]. split; [exact Hrec|]. rewrite Hrow, <-(cm_rows _ _ _ _ _ _ C). exact Hb.
Qed.

(** C6: the rows of a store stay well typed: when every row at the head of every
    branch of every domain has both vectors of the store's dimension and the
    type its id says, so has it after a push of either kind, whatever its
    operations, and the version the commit is tagged at holds typed rows. *)
Theorem pushes_keep_rows_typed d b commit ops e s :
  provider_for s → inv e → ready s d b → typed_store (st_dim s) s →
  (∀ e' s' count skipped,
     io_run_index_pipeline vector_config clustering_config store_clustering encode params e d b commit ops s
       = (e', Some (s', Ok (count, skipped))) → typed_store (st_dim s) s' ∧ tagged_typed (st_dim s) s' d commit) ∧
  (∀ cancelled embed_batch_size progress expected e' s' count skipped msgs,
     io_run_index_pipeline_stream vector_config clustering_config store_clustering encode params cancelled
         embed_batch_size progress e d b commit ops expected s
       = (e', Some (s', Ok (count, skipped), msgs)) → typed_store (st_dim s) s' ∧ tagged_typed (st_dim s) s' d commit).
Proof.
  intros Hp He Hr Ht. split.
  - intros e' s' count skipped R%buffered_run; [|done..]. split; [by eapply commit_done_typed|by eapply commit_done_tagged].
  - intros c eb p x e' s' count skipped msgs R%stream_run; [|done..].
    split; [by eapply commit_done_typed|by eapply commit_done_tagged].
Qed.
End runs.

(** ** Runs on the small dataset *)

Module RunExample.
Export StoreExample PipelineExample RefIndex RefMaint.
#[export] Existing Instances RefLance.ops RefLance.view RefLance.laws RefLance.versions RefLance.version_laws.
#[export] Instance version_order : HashIter string (list N) := map_order.
#[export] Instance tag_order : HashIter string TagContents := map_order.

Definition config : VectorIndexConfig := mkVectorIndexConfig 16 30 200 4 None.

(** On a store with documents [A] and [B]: a new document, a replaced one, a
    rejected one, a deletion. *)
Definition ops : list Operation := [Inserted "C" "c"; Changed "A" "a2"; Inserted "D" "bad"; Deleted "B"].
Definition buffered := io_run_index_pipeline config (Some config) true one_token window tt "o/t" "main" "c1" ops store1.
Definition streamed :=
  io_run_index_pipeline_stream config (Some config) true one_token window (λ _, false) 2 true tt "o/t" "main" "c1" ops (Some 4%N) store1.

Lemma provider (s : LanceStore (option RefLance.dir) RefLance.handle) : st_dim s = 1 → provider_for one_token window (λ _ : unit, True) unit_vector unit_vector s.
Proof.
  intros Hd. split; [apply unit_textwise|apply one_token_safe|..]; intros t v; rewrite Hd; unfold unit_vector;
    destruct (String.eqb t "bad"); by intros [= <-].
Qed.

Definition rows_after : list ChunkRow :=
  [mkChunkRow "C" "unknown" 0 1 0 1 [F32.one] [F32.one] "c"; mkChunkRow "A" "unknown" 0 1 0 1 [F32.one] [F32.one] "a2"].

(** The cached handle is the head of main. *)
Lemma ready_store1 : ready store1 "o/t" "main".
Proof.
  split.
  - apply CommitExample.cache_checked. by vm_compute.
  - right. intros e He. vm_compute in He. injection He as <-. by vm_compute.
Qed.

(** The first push to an empty store. *)
Definition first_push :=
  io_run_index_pipeline_stream config (Some config) true one_token window (λ _, false) 2 true tt "o/t" "main" "c1"
    [Inserted "Doc/C" "c"; Inserted "E" "e"] (Some 2%N) store0.

Lemma ready_store0 : ready store0 "o/t" "main".
Proof. split; [apply CommitExample.cache_checked; by vm_compute|]. right. intros e He. by vm_compute in He. Qed.

Lemma typed_store0 : typed_store 1 store0.
Proof. intros d b. constructor. Qed.
End RunExample.
Import RunExample.

Lemma buffered_pipeline_commits_witness :
  match buffered with
  | (_, Some (s', Ok (count, skipped))) => count = 2%N ∧ map sk_id skipped = ["D"] ∧ head_rows s' "o/t" "main" = rows_after
  | _ => False
  end.
Proof.
  destruct buffered as [e' [[s' [[count skipped]|err]]|]] eqn:Er.
  2-3: refute_as (λ x, match x.2 with Some (_, Ok _) => true | _ => false end) in Er.
  assert (count = 2%N ∧ map sk_id skipped = ["D"]) as [-> Hs].
  { compute_as (λ x, match x.2 with Some (_, Ok (n, sk)) => (n, sk) | _ => (0%N, []) end) in Er. injection Er as <- <-. done. }
  split; [done|]. split; [done|].
  apply (buffered_pipeline_commits config (Some config) true one_token window (λ _ : unit, True) unit_vector unit_vector) in Er
    as (C & _); [|by apply provider|exact I|apply ready_store1].
  rewrite (cm_rows _ _ _ _ _ _ C). by vm_compute.
Defined.

Lemma streaming_pipeline_commits_witness :
  match streamed with
  | (_, Some (s', Ok (count, skipped), _)) => count = 2%N ∧ map sk_id skipped = ["D"] ∧ head_rows s' "o/t" "main" = rows_after
  | _ => False
  end.
Proof.
  destruct streamed as [e' [[[s' [[count skipped]|err]] msgs]|]] eqn:Er.
  2-3: refute_as (λ x, match x.2 with Some (_, Ok _, _) => true | _ => false end) in Er.
  assert (count = 2%N ∧ map sk_id skipped = ["D"]) as [-> Hs].
  { compute_as (λ x, match x.2 with Some (_, Ok (n, sk), _) => (n, sk) | _ => (0%N, []) end) in Er. injection Er as <- <-. done. }
  split; [done|]. split; [done|].
  apply (streaming_pipeline_commits config (Some config) true one_token window (λ _ : unit, True) unit_vector unit_vector) in Er
    as (C & _); [|by apply provider|exact I|apply ready_store1].
  rewrite (cm_rows _ _ _ _ _ _ C). by vm_compute.
Defined.

Lemma pushes_keep_rows_typed_witness :
  match first_push with
  | (_, Some (s', Ok _, _)) => Forall (row_typed 1) (head_rows s' "o/t" "main") ∧ length (head_rows s' "o/t" "main") = 2
  | _ => False
  end.
Proof.
  destruct first_push as [e' [[[s' [[count skipped]|err]] msgs]|]] eqn:Er.
  2-3: refute_as (λ x, match x.2 with Some (_, Ok _, _) => true | _ => false end) in Er.
  split.
  - destruct (pushes_keep_rows_typed config (Some config) true one_token window (λ _ : unit, True) unit_vector unit_vector
      "o/t" "main" "c1" [Inserted "Doc/C" "c"; Inserted "E" "e"] tt store0 (provider store0 eq_refl) I ready_store0 typed_store0)
      as [_ Hs].
    by destruct (Hs _ _ _ _ _ _ _ _ _ Er) as [Ht _].
  - compute_as (λ x, match x.2 with Some (s, _, _) => length (head_rows s "o/t" "main") | _ => 0 end) in Er. by symmetry.
Defined.

Lemma pipelines_agree_witness :
  match buffered, streamed with
  | (_, Some (s1, Ok (n1, _))), (_, Some (s2, Ok (n2, _), _)) => head_rows s1 "o/t" "main" = head_rows s2 "o/t" "main" ∧ n1 = n2
  | _, _ => False
  end.
Proof.
  destruct buffered as [e1 [[s1 [[n1 sk1]|err]]|]] eqn:Eb.
  2-3: refute_as (λ x, match x.2 with Some (_, Ok _) => true | _ => false end) in Eb.
  destruct streamed as [e2 [[[s2 [[n2 sk2]|err]] msgs]|]] eqn:Er.
  2-3: refute_as (λ x, match x.2 with Some (_, Ok _, _) => true | _ => false end) in Er.
  destruct (pipelines_agree config (Some config) true one_token window (λ _ : unit, True) unit_vector unit_vector
    _ _ _ _ _ _ _ _ _ _ _ _ _ _ _ _ _ _ _ (provider store1 eq_refl) I ready_store1 Eb Er) as (? & ? & _). by split.
Defined.

(** Buffered on a store with a dataset, and streamed to a domain without one. *)
Lemma aborted_push_writes_nothing_witness :
  (∃ e' err, io_run_index_pipeline config (Some config) true one_token window tt "o/t" "main" "c1" [Inserted "C" "c"; OpAbort] store1
    = (e', Some (store1, Err err))) ∧
  (∃ e' s' err msgs, io_run_index_pipeline_stream config (Some config) true one_token window (λ _, false) 2 true tt "new/one" "main" "c1"
      [Inserted "C" "c"; OpAbort] None store1 = (e', Some (s', Err err, msgs)) ∧ only_opens "new/one" store1 s').
Proof.
  split.
  - apply (aborted_push_writes_nothing config (Some config) true one_token window (λ _ : unit, True) unit_vector unit_vector
      "o/t" "main" "c1" [Inserted "C" "c"; OpAbort] tt store1 (provider store1 eq_refl) I). by right; left.
  - refine (proj2 (aborted_push_writes_nothing config (Some config) true one_token window (λ _ : unit, True) unit_vector unit_vector
      "new/one" "main" "c1" [Inserted "C" "c"; OpAbort] tt store1 (provider store1 eq_refl) I _) (λ _, false) 2 true None). by right; left.
Defined.
