(* ===== verification/Retag.v ===== *)
(** * Retagging and start-up clean-up (src/src/store/lance/commit.rs)

    Removing tags whose branch is gone and rebuild branches that no tag refers
    to; moving intermediate commits to the version of the nearest boundary
    commit; and rebuilding their snapshots by replaying deltas on a rebuild
    branch of its own epoch. *)

From S2P Require Import Prelude F32 RustStr Model LayerIdx Schema Search Files Lance DatasetCache Store Commit Index Maintain Growth PipelineRun Integrity Stats.

(** What deleting a branch does: the other branches and the tags stay. *)
Class LanceBranchLaws (W H : Type) `{LanceOps W H, LanceView W H, LanceVersions W H} : Prop := {
  law_delete_branch_ok w h b w' : l_delete_branch w h b = (w', Ok tt) →
    l_exists w' = l_exists w ∧ v_tags w' = v_tags w ∧ v_head w' (Some b) = None ∧
    (∀ c, c ≠ Some b → v_head w' c = v_head w c) ∧ ∀ c v, c ≠ Some b → v_version w' c v = v_version w c v;
  law_delete_branch_err w h b w' e : l_delete_branch w h b = (w', Err e) →
    v_tags w' = v_tags w ∧ same_heads w w' ∧ ∀ c v, v_version w' c v = v_version w c v;
  law_delete_tag_versions w h t w' r : l_delete_tag w h t = (w', r) → ∀ c v, v_version w' c v = v_version w c v;
}.

(** ** Boundary commits *)

(** The positions the [while] loop inserts; each round adds three or more, so
    the number of tags is fuel enough. *)
Fixpoint boundary_loop (fuel total_tags pos step : nat) (acc : gset nat) : gset nat :=
  match fuel with
  | 0 => acc
  | S fuel => if (pos <? total_tags)%nat then boundary_loop fuel total_tags (pos + step * 3) (step * 3) ({[pos]} ∪ acc) else acc
  end.
Definition boundary_positions (total_tags : nat) : gset nat := boundary_loop total_tags total_tags 0 1 ∅.

(** The commits with their versions, by version. *)
Definition by_version `{HashIter string N} (commits : gmap string N) : list (string * N) :=
  sort_by (λ a b, N.compare a.2 b.2) (hash_iter commits).

(** (commit, old version, new version) for each commit that is no boundary. *)
Fixpoint boundary_plan (boundaries : gset nat) (i : nat) (last_boundary_version : N) (sorted : list (string * N))
    : list (string * N * N) :=
  match sorted with
  | [] => []
  | (commit, version) :: sorted =>
      if bool_decide (i ∈ boundaries) then boundary_plan boundaries (S i) version sorted
      else (commit, version, last_boundary_version) :: boundary_plan boundaries (S i) last_boundary_version sorted
  end.

Section retag.
Context {W H : Type} `{LanceOps W H, LanceIndexOps W H, LanceMaintOps W H} `{ByteSerialize, FormParse}
        {HD : HashIter string (DatasetCacheEntry H)} {HT : HashIter string TagContents} {HB : HashIter string (list N)}
        {HN : HashIter string N}.

(** ** Orphaned tags and stale branches *)

(** The name of every tag whose branch is not in [branches]. *)
Definition orphaned_tag_names (tags : list (string * TagContents)) (branches : list string) : list string :=
  omap (λ '(tag_name, contents),
    match tc_branch contents with
    | Some b => if bool_decide (b ∉ branches) then Some tag_name else None
    | None => None
    end) tags.

Fixpoint delete_orphans (path domain : string) (ds_main : H) (orphans : list string) (cleaned : list (string * string))
    : io W H (list (string * string)) :=
  match orphans with
  | [] => io_ret cleaned
  | tag_name :: orphans =>
      let! cleaned := io_or cleaned (
        io_write path "" (λ w, l_delete_tag w ds_main tag_name);!
        io_ret (cleaned ++ [(domain, "orphaned_tag:" +:+ tag_name)])) in
      delete_orphans path domain ds_main orphans cleaned
  end.

(** A branch that cannot be deleted is left; a dataset that cannot be opened
    ends the loop. *)
Fixpoint delete_branches (path domain : string) (branches : list string) (cleaned : list (string * string))
    : io W H (list (string * string)) :=
  match branches with
  | [] => io_ret cleaned
  | branch :: branches =>
      let! ds_fresh := io_open_fresh path in
      let! cleaned := io_or cleaned (
        io_write path "" (λ w, l_delete_branch w ds_fresh branch);!
        io_ret (cleaned ++ [(domain, "stale_branch:" +:+ branch)])) in
      delete_branches path domain branches cleaned
  end.

Definition io_cleanup_orphaned_tags_and_stale_branches (domain : string) : io W H (list (string * string)) :=
  ensure_writable;!
  let path := dataset_path domain in
  let! s := io_get in
  if path_exists s path then
    let! all_branches := io_list_branches domain in
    let! ds := io_open_fresh path in
    let! tags := io_read path "cleanup: tag list failed: " (λ w, l_list_tags w ds) in
    let orphans := orphaned_tag_names (hash_iter tags) all_branches in
    let! cleaned := if is_empty orphans then io_ret []
                    else let! ds_main := io_open_dataset domain MAIN_BRANCH in
                         delete_orphans path domain ds_main orphans [] in
    let! ds_fresh := io_open_fresh path in
    let! tags_after := io_read path "cleanup: tag list after orphan deletion failed: " (λ w, l_list_tags w ds_fresh) in
    let stale := filter (λ b, is_compact_rebuild_branch b = true ∧ b ∉ tagged_branches (hash_iter tags_after)) all_branches in
    let! cleaned := delete_branches path domain stale cleaned in
    (if is_empty cleaned then io_ret tt else io_or tt (io_cleanup_aggressive domain MAIN_BRANCH));!
    io_or 0 (io_prune_stale_index_dirs domain MAIN_BRANCH);!
    io_or 0 (io_prune_empty_index_dirs domain);!
    io_ret cleaned
  else io_ret [].

Fixpoint cleanup_domains (domains : list string) (cleaned : list (string * string)) : io W H (list (string * string)) :=
  match domains with
  | [] => io_ret cleaned
  | domain :: domains =>
      let! domain_cleaned := io_or [] (io_cleanup_orphaned_tags_and_stale_branches domain) in
      cleanup_domains domains (cleaned ++ domain_cleaned)
  end.

Definition io_cleanup_compaction_branches : io W H (list (string * string)) :=
  ensure_writable;!
  let! s := io_get in
  cleanup_domains (discover_on_disk_datasets s) [].

(** ** Retagging to the boundaries *)

Fixpoint retag_all (path : string) (ds : H) (plan : list (string * N * N)) : io W H unit :=
  match plan with
  | [] => io_ret tt
  | (commit, _, new_version) :: plan =>
      let old_tag := encode_commit_tag commit in
      io_write path "retag: delete tag failed: " (λ w, l_delete_tag w ds old_tag);!
      io_write path "retag: create tag failed: " (λ w, l_create_tag w ds old_tag new_version);!
      retag_all path ds plan
  end.

Definition io_retag_to_boundaries (domain branch : string) : io W H (nat * nat) :=
  ensure_writable;!
  let! commits := io_list_commit_versions domain in
  let total_tags := size commits in
  if (total_tags <=? 2)%nat then io_ret (total_tags, 0)
  else
    let sorted := by_version commits in
    let boundaries := {[(total_tags - 1)%nat]} ∪ boundary_positions total_tags in
    let plan := boundary_plan boundaries 0 (default 0%N (snd <$> head sorted)) sorted in
    if is_empty plan then io_ret (total_tags, 0)
    else
      let! ds := io_open_dataset domain branch in
      retag_all (dataset_path domain) ds plan;!
      io_refresh_cached_dataset domain branch;!
      io_ret (total_tags, length plan).

(** ** Delta forks *)

(** What phase 1 has built: the handle of the rebuild branch, the versions of
    the intermediate commits, and those of the boundary commits. *)
Record Rebuilt := mkRebuilt { rb_ds : H; rb_plan : list (string * N); rb_boundaries : list (string * N) }.

(** The phase-1 loop from position [i], after the commit [prev]. *)
Fixpoint replay_commits (domain : string) (boundaries : gset nat) (i : nat) (prev : string) (commits : list (string * N))
    (rb : Rebuilt) : io W H Rebuilt :=
  match commits with
  | [] => io_ret rb
  | (commit, _) :: commits =>
      let path := dataset_path domain in
      let! delta := io_compute_delta_between_commits domain prev commit in
      let! applied := io_apply_delta_on_branch path (rb_ds rb) delta in
      let! rb := if bool_decide (i ∈ boundaries)
                 then io_ret (mkRebuilt applied.1 (rb_plan rb) (rb_boundaries rb ++ [(commit, applied.2)]))
                 else let! indexed := io_ensure_fts_index_on_dataset path applied.1 in
                      io_ret (mkRebuilt indexed.1 (rb_plan rb ++ [(commit, indexed.2)]) (rb_boundaries rb)) in
      replay_commits domain boundaries (S i) commit commits rb
  end.

(** Phase 1, and the deletion of the rebuild branch when it fails. *)
Definition rebuild_phase (domain rebuild_branch : string) (boundaries : gset nat) (sorted : list (string * N)) (ds_rebuild : H)
    : io W H Rebuilt := λ s,
  let path := dataset_path domain in
  let run := match sorted with
             | [] => io_ret (mkRebuilt ds_rebuild [] [])
             | (first, _) :: rest => replay_commits domain boundaries 1 first rest (mkRebuilt ds_rebuild [] [])
             end in
  match run s with
  | (s, Ok rb) => (s, Ok rb)
  | (s, Err e) =>
      (let! ds_fresh := io_open_fresh path in
       io_or tt (io_write path "" (λ w, l_delete_branch w ds_fresh rebuild_branch));!
       io_throw e) s
  end.

(** A tag deleted wherever it is, a failure being ignored, and created on the
    rebuild branch. *)
Definition move_tag (domain branch err commit : string) (ds_rebuild : H) (version : N) : io W H unit :=
  let path := dataset_path domain in
  let tag := encode_commit_tag commit in
  let! ds_main := io_open_dataset domain branch in
  io_or tt (io_write path "" (λ w, l_delete_tag w ds_main tag));!
  io_write path err (λ w, l_create_tag w ds_rebuild tag version).

(** Phase 2. *)
Fixpoint retag_plan (domain branch : string) (ds_rebuild : H) (plan : list (string * N)) : io W H unit :=
  match plan with
  | [] => io_ret tt
  | (commit, indexed_version) :: plan =>
      move_tag domain branch "delta-fork retag: create tag failed: " commit ds_rebuild indexed_version;!
      retag_plan domain branch ds_rebuild plan
  end.

(** Phase 2b. *)
Fixpoint migrate_boundaries (domain branch rebuild_branch : string) (ds_rebuild : H) (boundaries : list (string * N)) : io W H unit :=
  match boundaries with
  | [] => io_ret tt
  | (commit, version) :: boundaries =>
      let path := dataset_path domain in
      let! ds_check := io_open_fresh path in
      let! all_tags := io_read path "tag list for migration check failed: " (λ w, l_list_tags w ds_check) in
      (match all_tags !! encode_commit_tag commit ≫= tc_branch with
       | Some tag_branch =>
           if is_compact_rebuild_branch tag_branch && negb (String.eqb tag_branch rebuild_branch)
           then move_tag domain branch "delta-fork boundary migration: create tag failed: " commit ds_rebuild version
           else io_ret tt
       | None => io_ret tt
       end);!
      migrate_boundaries domain branch rebuild_branch ds_rebuild boundaries
  end.

(** [epoch]: the wall clock in milliseconds. *)
Definition io_retag_with_delta_forks (epoch : N) (domain branch : string) : io W H (nat * nat) :=
  ensure_writable;!
  let! commits := io_list_commit_versions domain in
  let total_tags := size commits in
  if (total_tags <=? 2)%nat then io_ret (total_tags, 0)
  else
    let sorted := by_version commits in
    let boundaries := boundary_positions total_tags ∖ {[(total_tags - 1)%nat]} in
    let rebuild_branch := compact_rebuild_branch_name epoch in
    let path := dataset_path domain in
    io_create_branch domain rebuild_branch (default 0%N (snd <$> head sorted));!
    let! opened := io_open_dataset_uncached domain rebuild_branch in
    match opened with
    | None => io_throw (StoreInternal "rebuild branch not found after creation")
    | Some ds_rebuild =>
        let! rb := rebuild_phase domain rebuild_branch boundaries sorted ds_rebuild in
        retag_plan domain branch (rb_ds rb) (rb_plan rb);!
        migrate_boundaries domain branch rebuild_branch (rb_ds rb) (rb_boundaries rb);!
        let! all_branches := io_list_branches domain in
        let older := filter (λ b, is_compact_rebuild_branch b = true ∧ b ≠ rebuild_branch) all_branches in
        delete_branches path domain older [];!
        io_or [] (io_cleanup_orphaned_tags_and_stale_branches domain);!
        io_refresh_cached_dataset domain branch;!
        io_ret (total_tags, length (rb_plan rb))
    end.
End retag.

(** ** Boundaries *)

Lemma boundary_loop_elem fuel total pos step acc p :
  0 < step → total ≤ pos + fuel →
  p ∈ boundary_loop fuel total pos step acc ↔ p ∈ acc ∨ p < total ∧ ∃ k, 2 * p + 3 * step = 2 * pos + 3 ^ S k * step.
Proof.
  revert pos step acc. induction fuel as [|fuel IH]; intros pos step acc Hs Hf; cbn [boundary_loop].
  - split; [by left|]. intros [?|(Hp & k & Hk)]; [done|]. exfalso.
    assert (3 ≤ 3 ^ S k) by (rewrite Nat.pow_succ_r'; pose proof (Nat.pow_nonzero 3 k); lia). nia.
  - destruct (Nat.ltb_spec pos total).
    + rewrite IH by lia. rewrite elem_of_union, elem_of_singleton. split.
      * intros [[->|?]|(Hp & k & Hk)]; [right|by left|right].
        -- split; [done|]. exists 0. cbn. lia.
        -- split; [done|]. exists (S k). rewrite Nat.pow_succ_r'. lia.
      * intros [?|(Hp & [|k] & Hk)]; [by left; right|left; left; cbn in Hk; lia|right].
        split; [done|]. exists k. rewrite (Nat.pow_succ_r' 3 (S k)) in Hk. lia.
    + split; [by left|]. intros [?|(Hp & k & Hk)]; [done|]. exfalso.
      assert (3 ≤ 3 ^ S k) by (rewrite Nat.pow_succ_r'; pose proof (Nat.pow_nonzero 3 k); lia). nia.
Qed.

(** The positions that keep their version are 0, 3, 12, 39, ...: half of a
    power of three less three. *)
Theorem boundary_positions_spec total p :
  p ∈ boundary_positions total ↔ p < total ∧ ∃ k, 2 * p + 3 = 3 ^ S k.
Proof.
  unfold boundary_positions. rewrite boundary_loop_elem by lia. split.
  - intros [[]%elem_of_empty|(Hp & k & Hk)]. split; [done|]. exists k. lia.
  - intros (Hp & k & Hk). right. split; [done|]. exists k. lia.
Qed.

(** The documented positions 0, 3, 9, 27, 81 are others. *)
Example not_a_boundary : (9 ∉ boundary_positions 100) ∧ (12 ∈ boundary_positions 100).
Proof. split; apply (bool_decide_unpack _); by vm_compute. Qed.

(** ** What a clean-up spares *)

Section spares.
Context {W H : Type} `{LanceLaws W H} {HV : LanceVersions W H} {HVL : LanceVersionLaws W H} {HBL : LanceBranchLaws W H}
        {HI : LanceIndexOps W H} {HM : LanceMaintOps W H} {HML : LanceMaintLaws W H} `{ByteSerialize, FormParse}
        {HD : HashIter string (DatasetCacheEntry H)} {HT : HashIter string TagContents} {HB : HashIter string (list N)}.
Implicit Types s : LanceStore W H.

(** The branch of the tag is there. *)
Definition live_tag (w : W) (c : TagContents) : Prop := ∀ b, tc_branch c = Some b → is_Some (v_head w (Some b)).
Definition rebuild_head (b : option string) : bool := match b with Some b => is_compact_rebuild_branch b | None => false end.

(** From [w] to [w'] nothing is added, no head moves, live tags stay with the
    version they stand for and the head of their branch, and so do the heads
    of the branches that are not rebuild branches. *)
Record spares (w w' : W) : Prop := {
  sp_exists : l_exists w' = l_exists w;
  sp_tags : v_tags w' ⊆ v_tags w;
  sp_heads b h : v_head w' b = Some h → v_head w b = Some h;
  sp_user b : rebuild_head b = false → v_head w' b = v_head w b;
  sp_live t c : v_tags w !! t = Some c → live_tag w c →
    v_tags w' !! t = Some c ∧ v_head w' (tc_branch c) = v_head w (tc_branch c) ∧
    ∀ h, v_version w (tc_branch c) (tc_version c) = Some h → v_version w' (tc_branch c) (tc_version c) = Some h;
}.

#[export] Instance spares_preorder : PreOrder spares.
Proof.
  split; [intros w; split; try done; eauto|]. intros w1 w2 w3 [X1 T1 D1 U1 L1] [X2 T2 D2 U2 L2].
  split; [congruence|by etrans|eauto|intros b Hb; by rewrite U2, U1|]. intros t c Ht Hl.
  destruct (L1 t c Ht Hl) as (Ht2 & Hh2 & Hv2). destruct (L2 t c) as (Ht3 & Hh3 & Hv3); [done| |].
  - intros b Hb. destruct (Hl b Hb) as [h Hh]. exists h. rewrite <-Hb, Hh2. by rewrite Hb.
  - split; [done|]. split; [congruence|eauto].
Qed.

Lemma same_heads_spares w w' :
  v_tags w' = v_tags w → same_heads w w' → keeps w w' → spares w w'.
Proof.
  intros Ht [Hx Hh] [_ Hk]. split; [done|by rewrite Ht|intros b h; by rewrite Hh|by intros|].
  intros t c Htc _. rewrite Ht. split; [done|]. split; [done|]. intros h Hv. by eapply Hk.
Qed.

Definition all_spared s s' : Prop := ∀ p, spares (dir_of s p) (dir_of s' p).
#[export] Instance all_spared_preorder : PreOrder all_spared.
Proof. split; [by intros s p|]. intros s1 s2 s3 R1 R2 p. etrans; [apply R1|apply R2]. Qed.

Lemma within_put {A} (P : relation W) `{!Reflexive P} path m (f : W → W * result string A) s s' r :
  (∀ w' x, f (dir_of s path) = (w', x) → P (dir_of s path) w') →
  io_write path m f s = (s', r) → ∀ p, P (dir_of s p) (dir_of s' p).
Proof.
  intros Hf (w & r0 & Hw & -> & _)%io_write_inv p. destruct (decide (p = path)) as [->|Hne].
  - rewrite dir_put. by eapply Hf.
  - rewrite (touches_dir s (put_dir path w s) path); [done|apply put_dir_touches|done].
Qed.

Lemma tidied_spared d s s' : tidied d s s' → all_spared s s'.
Proof.
  intros [Ht Hg Hh Hk] p. destruct (decide (p = dataset_path d)) as [->|Hne]; [by apply same_heads_spares|].
  by rewrite (touches_dir s s' (dataset_path d)).
Qed.

Lemma quiet_spared s s' : quiet s s' → all_spared s s'.
Proof. intros Hq p. by rewrite (quiet_dir s s'). Qed.

(** A run of a bind, the first part of which is in the relation. *)
Lemma bind_rel {A B} (R : relation (LanceStore W H)) `{!Transitive R} (c : io W H A) (k : A → io W H B) s s' r :
  io_bind c k s = (s', r) → (∀ s1 x, c s = (s1, x) → R s s1) →
  (∀ s1 a, c s = (s1, Ok a) → R s s1 → k a s1 = (s', r) → R s1 s') → R s s'.
Proof.
  unfold io_bind. destruct (c s) as [s1 [a|e]] eqn:E; intros Hr Hc Hk.
  - assert (Hs1 : R s s1) by (by eapply Hc). transitivity s1; [done|]. by apply (Hk s1 a).
  - injection Hr as <- _. by eapply Hc.
Qed.

(** *** Deleting orphans *)

(** A tag that is not there, or whose branch is not. *)
Definition orphan (w : W) (t : string) : Prop :=
  ∀ c, v_tags w !! t = Some c → ∃ b, tc_branch c = Some b ∧ v_head w (Some b) = None.

Lemma spares_orphan w w' t : spares w w' → orphan w t → orphan w' t.
Proof.
  intros Hs Ho c Hc. destruct (Ho c) as (b & Hb & Hn); [by eapply lookup_weaken, sp_tags|]. exists b. split; [done|].
  destruct (v_head w' (Some b)) as [h|] eqn:E; [|done]. by rewrite (sp_heads _ _ Hs _ _ E) in Hn.
Qed.

Lemma delete_orphan_spares w h t w' r : orphan w t → l_delete_tag w h t = (w', r) → spares w w'.
Proof.
  intros Ho Hd. pose proof (law_delete_tag_versions _ _ _ _ _ Hd) as Hv. destruct r as [[]|e].
  - apply law_delete_tag_ok in Hd as [Ht [Hx Hh]]. split; [done|rewrite Ht; apply delete_subseteq|intros b h0; by rewrite Hh|by intros|].
    intros t0 c Htc Hl. rewrite Ht. destruct (decide (t0 = t)) as [->|Hne].
    + destruct (Ho c Htc) as (b & Hb & Hn). destruct (Hl b Hb) as [h0 Hh0]. congruence.
    + rewrite lookup_delete_ne by done. split; [done|]. split; [done|]. intros h0 Hh0. by rewrite Hv.
  - apply law_delete_tag_err in Hd as [Ht Hh]. apply same_heads_spares; [done..|]. split; [by rewrite Ht|]. intros. by rewrite Hv.
Qed.

Lemma delete_orphans_spares path d ds orphans cleaned s s' r :
  Forall (orphan (dir_of s path)) orphans → delete_orphans path d ds orphans cleaned s = (s', r) → all_spared s s'.
Proof.
  revert cleaned s. induction orphans as [|t orphans IH]; intros cleaned s Ho; cbn [delete_orphans].
  { intros [= <- _]. reflexivity. }
  apply Forall_cons in Ho as [Ht Ho]. unfold io_bind at 1, io_or. unfold io_bind at 1.
  destruct (io_write path "" _ s) as [s1 x] eqn:E.
  assert (Hs1 : all_spared s s1) by (refine (within_put spares path _ _ s s1 x _ E); intros w' r'; by apply delete_orphan_spares).
  assert (Ho1 : Forall (orphan (dir_of s1 path)) orphans).
  { eapply Forall_impl; [exact Ho|]. intros t0. by apply spares_orphan. }
  destruct x as [[]|e]; cbn [io_ret]; intros Hr; apply IH in Hr; try done; by transitivity s1.
Qed.

(** *** Deleting branches *)

(** A rebuild branch that no tag is on. *)
Definition stale_branch (w : W) (b : string) : Prop :=
  is_compact_rebuild_branch b = true ∧ ∀ t c, v_tags w !! t = Some c → tc_branch c ≠ Some b.

Lemma spares_stale w w' b : spares w w' → stale_branch w b → stale_branch w' b.
Proof. intros Hs [Hb Ht]. split; [done|]. intros t c Hc. eapply Ht, lookup_weaken, sp_tags; done. Qed.

Lemma delete_stale_spares w h b w' r : stale_branch w b → l_delete_branch w h b = (w', r) → spares w w'.
Proof.
  intros [Hb Hn] Hd. destruct r as [[]|e].
  - apply law_delete_branch_ok in Hd as (Hx & Ht & Hgone & Hh & Hv). split; [done|by rewrite Ht|..].
    + intros c h0. destruct (decide (c = Some b)) as [->|Hne]; [congruence|]. by rewrite Hh.
    + intros c Hc. apply Hh. intros ->. cbn in Hc. congruence.
    + intros t c Htc _. pose proof (Hn t c Htc) as Hne. rewrite Ht, Hh by done. split; [done|]. split; [done|].
      intros h0 Hh0. by rewrite Hv.
  - apply law_delete_branch_err in Hd as (Ht & Hh & Hv). apply same_heads_spares; [done..|]. split; [by rewrite Ht|].
    intros t c h0 _ Hc. by rewrite Hv.
Qed.

Lemma delete_branches_spares path d bs cleaned s s' r :
  Forall (stale_branch (dir_of s path)) bs → delete_branches path d bs cleaned s = (s', r) → all_spared s s'.
Proof.
  revert cleaned s. induction bs as [|b bs IH]; intros cleaned s Ho; cbn [delete_branches].
  { intros [= <- _]. reflexivity. }
  unfold io_bind at 1. destruct (io_open_fresh path s) as [s0 [ds|e]] eqn:E0; apply io_open_fresh_inv in E0 as [Hq _];
    [|intros [= <- _]; by apply quiet_spared].
  assert (Hd0 : dir_of s0 path = dir_of s path) by by apply quiet_dir. rewrite <-Hd0 in Ho.
  apply Forall_cons in Ho as [Ht Ho]. unfold io_bind at 1, io_or. unfold io_bind at 1.
  destruct (io_write path "" _ s0) as [s1 x] eqn:E.
  assert (Hs1 : all_spared s0 s1) by (refine (within_put spares path _ _ s0 s1 x _ E); intros w' r'; by apply delete_stale_spares).
  assert (Ho1 : Forall (stale_branch (dir_of s1 path)) bs).
  { eapply Forall_impl; [exact Ho|]. intros t0. by apply spares_stale. }
  assert (Hs : all_spared s s1) by (transitivity s0; [by apply quiet_spared|done]).
  destruct x as [[]|e]; cbn [io_ret]; intros Hr; apply IH in Hr; try done; by transitivity s1.
Qed.

(** *** The whole clean-up *)

Lemma open_existing_quiet d b s s' r :
  path_exists s (dataset_path d) = true → io_open_dataset d b s = (s', r) → quiet s s'.
Proof.
  intros Hx. unfold io_open_dataset. unfold io_bind at 1.
  destruct (io_cache_hit d s) as [s1 r1] eqn:E. apply io_cache_hit_inv in E as [Hq Hr].
  destruct (dc_datasets (st_cache s) !! d) as [e|] eqn:Ee; [rewrite Hr; by intros [= <- <-]|].
  destruct Hr as [-> ->]. unfold io_bind at 1, io_get. rewrite Hx. unfold io_bind.
  destruct (io_open_fresh _ s) as [s2 [h|e]] eqn:E2; pose proof E2 as Hm; apply io_open_fresh_inv in E2 as [Hq2 _]; [|by intros [= <- <-]].
  intros Hr. apply io_insert_cached_inv in Hr as [Hq3 _]; [by transitivity s2|]. by eapply io_open_fresh_main.
Qed.

Lemma spared_exists s s' p : all_spared s s' → path_exists s' p = path_exists s p.
Proof. intros Hs. apply (sp_exists _ _ (Hs p)). Qed.

Lemma orphaned_tag_names_orphan w m bs :
  l_list_branches w m = Ok bs → Forall (orphan w) (orphaned_tag_names (hash_iter (v_tags w)) bs).
Proof.
  intros Hb. pose proof (law_list_branches _ _ _ Hb) as Hlb. apply Forall_forall. intros t Ht c Hc.
  unfold orphaned_tag_names in Ht. apply list_elem_of_omap in Ht as ([t' c'] & Hin%hash_iter_elem & Ht).
  destruct (tc_branch c') as [b|] eqn:Eb; [|done]. destruct (bool_decide_reflect (b ∉ bs)) as [Hn|]; [|done].
  injection Ht as ->. rewrite Hc in Hin. injection Hin as <-. exists b. split; [done|]. rewrite Hlb in Hn.
  destruct (v_head w (Some b)); [|done]. by destruct Hn.
Qed.

Lemma io_or_within {A} (a : A) (c : io W H A) s s' r R : (∀ s' r, c s = (s', r) → R s s') → io_or a c s = (s', r) → R s s'.
Proof. intros Hc. unfold io_or. destruct (c s) as [s1 [x|e]] eqn:E; intros [= <- _]; by eapply Hc. Qed.

Lemma tail_spares d (cleaned : list (string * string)) :
  Within all_spared (
    (if is_empty cleaned then io_ret tt else io_or tt (io_cleanup_aggressive (W:=W) (H:=H) d MAIN_BRANCH));!
    io_or 0 (io_prune_stale_index_dirs d MAIN_BRANCH);! io_or 0 (io_prune_empty_index_dirs d);! io_ret cleaned).
Proof.
  assert (HR : ∀ A (c : io W H A), Within (tidied d) c → Within all_spared c) by (intros A c Hc s8 s9 r9 E9; eapply tidied_spared, Hc, E9).
  pose proof (HR _ _ (tidied_cleanup_aggressive d MAIN_BRANCH)). pose proof (HR _ _ (tidied_prune_stale d MAIN_BRANCH)).
  pose proof (HR _ _ (tidied_prune_empty d)). apply _.
Qed.

(** The deletion of the orphans, and of the stale branches with what follows. *)
Lemma orphans_stage d bs m s s' r :
  path_exists s (dataset_path d) = true → l_list_branches (dir_of s (dataset_path d)) m = Ok bs →
  (let orphans := orphaned_tag_names (hash_iter (v_tags (dir_of s (dataset_path d)))) bs in
   if is_empty orphans then io_ret []
   else let! ds_main := io_open_dataset d MAIN_BRANCH in delete_orphans (dataset_path d) d ds_main orphans []) s = (s', r) →
  all_spared s s'.
Proof.
  intros Hx Hbs. pose proof (orphaned_tag_names_orphan _ _ _ Hbs) as Ho. cbv zeta. set (orphans := orphaned_tag_names _ _) in *.
  destruct (is_empty orphans); [by intros [= <- _]|]. intros Hr. apply (bind_rel _ _ _ _ _ _ Hr).
  - intros s1 x E. by eapply quiet_spared, open_existing_quiet.
  - intros s1 dm E _ Hd. eapply delete_orphans_spares; [|done]. rewrite (quiet_dir s s1); [done|by eapply open_existing_quiet].
Qed.

Lemma stale_stage d bs cleaned s s' r :
  (let! ds_fresh := io_open_fresh (dataset_path d) in
   let! tags_after := io_read (dataset_path d) "cleanup: tag list after orphan deletion failed: " (λ w, l_list_tags w ds_fresh) in
   let stale := filter (λ b, is_compact_rebuild_branch b = true ∧ b ∉ tagged_branches (hash_iter tags_after)) bs in
   let! cleaned := delete_branches (dataset_path d) d stale cleaned in
   (if is_empty cleaned then io_ret tt else io_or tt (io_cleanup_aggressive d MAIN_BRANCH));!
   io_or 0 (io_prune_stale_index_dirs d MAIN_BRANCH);! io_or 0 (io_prune_empty_index_dirs d);! io_ret cleaned) s = (s', r) →
  all_spared s s'.
Proof.
  intros Hr. apply (bind_rel _ _ _ _ _ _ Hr); clear Hr.
  { intros s1 x [Hq _]%io_open_fresh_inv. by apply quiet_spared. }
  intros s1 ds _ _ Hr. apply (bind_rel _ _ _ _ _ _ Hr); clear Hr.
  { by intros s2 x [-> _]%io_read_inv. }
  intros s2 tags [-> ->%law_list_tags]%io_read_ok _ Hr.
  assert (Hst : Forall (stale_branch (dir_of s1 (dataset_path d)))
    (filter (λ b, is_compact_rebuild_branch b = true ∧ b ∉ tagged_branches (hash_iter (v_tags (dir_of s1 (dataset_path d))))) bs)).
  { apply Forall_forall. intros b [[Hb Hn] _]%list_elem_of_filter. split; [done|]. intros t c Ht Hc. apply Hn, tagged_branches_elem.
    exists t, c. by rewrite hash_iter_elem. }
  apply (bind_rel _ _ _ _ _ _ Hr); [intros s3 x; by apply delete_branches_spares|].
  intros s3 cleaned' _ _. apply tail_spares.
Qed.

Lemma cleanup_spares d s s' r :
  io_cleanup_orphaned_tags_and_stale_branches d s = (s', r) → all_spared s s'.
Proof.
  unfold io_cleanup_orphaned_tags_and_stale_branches. intros Hr. apply (bind_rel _ _ _ _ _ _ Hr); clear Hr.
  { by intros s1 x [-> _]%ensure_writable_inv. }
  intros s0 [] [-> _]%ensure_writable_inv _. unfold io_bind at 1, io_get. destruct (path_exists s _) eqn:Hx; [|by intros [= <- _]].
  intros Hr. apply (bind_rel _ _ _ _ _ _ Hr); clear Hr.
  { intros s1 x [Hq _]%io_list_branches_inv. by apply quiet_spared. }
  intros s1 bs [Hq1 Hbs]%io_list_branches_inv _ Hr. specialize (Hbs bs eq_refl). rewrite Hx in Hbs. destruct Hbs as (m & _ & Hbs).
  apply (bind_rel _ _ _ _ _ _ Hr); clear Hr.
  { intros s2 x [Hq _]%io_open_fresh_inv. by apply quiet_spared. }
  intros s2 ds [Hq2 _]%io_open_fresh_inv _ Hr. apply (bind_rel _ _ _ _ _ _ Hr); clear Hr.
  { by intros s3 x [-> _]%io_read_inv. }
  intros s3 tags [-> ->%law_list_tags]%io_read_ok _ Hr.
  assert (Hq : quiet s s2) by (by transitivity s1). rewrite <-(quiet_dir s s2) in Hbs by done.
  assert (Hx2 : path_exists s2 (dataset_path d) = true) by (rewrite <-Hx; by apply spared_exists, quiet_spared).
  apply (bind_rel _ _ _ _ _ _ Hr); clear Hr.
  - intros s4 x. by apply (orphans_stage d bs m).
  - intros s4 cleaned _ _. apply stale_stage.
Qed.

Lemma startup_all_spared s s' r : io_cleanup_compaction_branches s = (s', r) → all_spared s s'.
Proof.
  unfold io_cleanup_compaction_branches. intros Hr. apply (bind_rel _ _ _ _ _ _ Hr); clear Hr.
  { by intros s1 x [-> _]%ensure_writable_inv. }
  intros s1 [] _ _. unfold io_bind at 1, io_get. generalize (discover_on_disk_datasets s1) as ds. intros ds. generalize (@nil (string * string)) as acc.
  revert s1. induction ds as [|d ds IH]; intros s1 acc; cbn [cleanup_domains]; [by intros [= <- _]|].
  intros Hr. apply (bind_rel _ _ _ _ _ _ Hr); clear Hr.
  - intros s2 x. apply io_or_within. intros s3 x'. apply cleanup_spares.
  - intros s2 cleaned _ _. apply IH.
Qed.

(** What sparing means for the tags and the heads. *)
Lemma spares_commits w w' : spares w w' →
  l_exists w' = l_exists w ∧ v_tags w' ⊆ v_tags w ∧ (∀ b h, v_head w' b = Some h → v_head w b = Some h) ∧
  (∀ t c, v_tags w !! t = Some c → live_tag w c →
     v_tags w' !! t = Some c ∧
     ∀ h, v_version w (tc_branch c) (tc_version c) = Some h → v_version w' (tc_branch c) (tc_version c) = Some h) ∧
  (∀ b, rebuild_head b = false ∨ (∃ t c, v_tags w !! t = Some c ∧ tc_branch c = b) → v_head w' b = v_head w b).
Proof.
  intros [Hx Ht Hh Hu Hl]. split_and!; [done..| |].
  - intros t c Htc Hlive. destruct (Hl t c Htc Hlive) as (? & _ & ?). by split.
  - intros b [Hb|(t & c & Htc & <-)]; [by apply Hu|]. destruct (tc_branch c) as [b|] eqn:Eb; [|by apply Hu].
    destruct (v_head w (Some b)) as [h|] eqn:Ehd.
    + destruct (Hl t c Htc) as (_ & Hhd & _); [intros b' Hb'; rewrite Eb in Hb'; injection Hb' as <-; by exists h|].
      rewrite Eb in Hhd. by rewrite Hhd.
    + destruct (v_head w' (Some b)) as [h|] eqn:E'; [|done]. apply Hh in E'. congruence.
Qed.

(** Start-up clean-up spares what commits stand on, in every domain and
    however its calls of Lance and of the file system end: a commit whose tag
    is on a branch that is there keeps its tag and resolves to the same
    snapshot; main and every branch that is not a rebuild branch, and every
    rebuild branch that a tag refers to, keep their heads; no tag and no head
    is added or moved. *)
Theorem startup_cleanup_spares_commits s s' r :
  io_cleanup_compaction_branches s = (s', r) →
  ∀ p, let w := dir_of s p in let w' := dir_of s' p in
  l_exists w' = l_exists w ∧ v_tags w' ⊆ v_tags w ∧ (∀ b h, v_head w' b = Some h → v_head w b = Some h) ∧
  (∀ t c, v_tags w !! t = Some c → live_tag w c →
     v_tags w' !! t = Some c ∧
     ∀ h, v_version w (tc_branch c) (tc_version c) = Some h → v_version w' (tc_branch c) (tc_version c) = Some h) ∧
  (∀ b, rebuild_head b = false ∨ (∃ t c, v_tags w !! t = Some c ∧ tc_branch c = b) → v_head w' b = v_head w b).
Proof. intros Hr p. apply spares_commits, (startup_all_spared _ _ _ Hr). Qed.
End spares.

(** ** What retagging keeps *)

Section keeps.
Context {W H : Type} `{LanceLaws W H} {HV : LanceVersions W H} {HVL : LanceVersionLaws W H} {HBL : LanceBranchLaws W H}
        {HI : LanceIndexOps W H} {HIL : LanceIndexLaws W H} {HIG : LanceIndexGrows W H}
        {HM : LanceMaintOps W H} {HML : LanceMaintLaws W H} `{ByteSerialize, FormParse}
        {HD : HashIter string (DatasetCacheEntry H)} {HT : HashIter string TagContents} {HB : HashIter string (list N)}
        {HN : HashIter string N}.
Implicit Types s : LanceStore W H.

Section tags.
(** Whether the tag of a name is to stay. *)
Context (K : string → Prop).

(** The heads of the branches that are not rebuild branches stay, and of the
    tags on them those that [K] names, with the versions they stand for. *)
Record fixes (w w' : W) : Prop := {
  fx_exists : l_exists w' = l_exists w;
  fx_user b : rebuild_head b = false → v_head w' b = v_head w b;
  fx_tags t c : K t → v_tags w !! t = Some c → rebuild_head (tc_branch c) = false → live_tag w c →
    v_tags w' !! t = Some c ∧
    ∀ h, v_version w (tc_branch c) (tc_version c) = Some h → v_version w' (tc_branch c) (tc_version c) = Some h;
}.

#[export] Instance fixes_preorder : PreOrder fixes.
Proof.
  split; [intros w; split; try done; eauto|]. intros w1 w2 w3 [X1 U1 T1] [X2 U2 T2].
  split; [congruence|intros b Hb; by rewrite U2, U1|]. intros t c Hk Ht Hb Hl.
  destruct (T1 t c Hk Ht Hb Hl) as [Ht2 Hv2]. destruct (T2 t c) as [Ht3 Hv3]; [done..| |split; [done|eauto]].
  intros b Hc. destruct (Hl b Hc) as [h Hh]. exists h. by rewrite <-Hc, U1, Hc.
Qed.

Lemma spares_fixes w w' : spares w w' → fixes w w'.
Proof.
  intros [Hx _ _ Hu Hl]. split; [done..|]. intros t c _ Ht _ Hlive. destruct (Hl t c Ht Hlive) as (? & _ & ?). by split.
Qed.

(** An operation on a rebuild branch that moves no tag and drops no version. *)
Lemma grown_fixes w w' b :
  rebuild_head b = true → l_exists w' = l_exists w → v_tags w' = v_tags w → (∀ c, c ≠ b → v_head w' c = v_head w c) →
  grows w w' → fixes w w'.
Proof.
  intros Hb Hx Ht Hh [_ Hv]. split; [done|intros c Hc; apply Hh; congruence|]. intros t c _ Htc _ _. rewrite Ht. split; [done|]. by apply Hv.
Qed.

Definition all_fixed s s' : Prop := ∀ p, fixes (dir_of s p) (dir_of s' p).
#[export] Instance all_fixed_preorder : PreOrder all_fixed.
Proof. split; [by intros s p|]. intros s1 s2 s3 R1 R2 p. etrans; [apply R1|apply R2]. Qed.

Lemma quiet_fixed s s' : quiet s s' → all_fixed s s'.
Proof. intros Hq p. by rewrite (quiet_dir s s'). Qed.
Lemma spared_fixed s s' : all_spared s s' → all_fixed s s'.
Proof. intros Hs p. apply spares_fixes, Hs. Qed.
Lemma within_quiet_fixed {A} (c : io W H A) : Within quiet c → ∀ s s' r, c s = (s', r) → all_fixed s s'.
Proof. intros Hc s s' r Hr. eapply quiet_fixed, Hc, Hr. Qed.

(** *** Phase 1 *)

Lemma create_branch_fixed d b v s s' r :
  is_compact_rebuild_branch b = true → io_create_branch d b v s = (s', r) → all_fixed s s'.
Proof.
  intros Hb Hr. unfold io_create_branch in Hr. apply (bind_rel _ _ _ _ _ _ Hr); clear Hr; [by intros s1 x [-> _]%ensure_writable_inv|].
  intros s1 [] [-> _]%ensure_writable_inv _. destruct (String.eqb b MAIN_BRANCH); [by intros [= <- _]|].
  unfold io_bind at 1, io_get. destruct (path_exists s _); [|by intros [= <- _]].
  intros Hr. apply (bind_rel _ _ _ _ _ _ Hr); clear Hr.
  { intros s1 x [Hq _]%io_open_fresh_inv. by apply quiet_fixed. }
  intros s1 ds _ _ Hr. apply (bind_rel _ _ _ _ _ _ Hr); clear Hr; [|by intros s2 h _ _ [= <- _]].
  intros s2 x E. refine (within_put fixes _ _ _ _ _ _ _ E). intros w' x' Hc.
  pose proof (law_create_branch_grows _ _ _ _ _ _ Hc) as Hg. destruct x' as [h|e].
  - apply law_create_branch_ok in Hc as (Hx & Ht & _ & _ & _ & Hh & _). by apply (grown_fixes _ _ (Some b)).
  - apply law_create_branch_err in Hc as [Ht [Hx Hh]]. by apply (grown_fixes _ _ (Some b)).
Qed.

(** A step that moves the head of a rebuild branch, or fails. *)
Lemma moved_fixes w w' h (x : result string H) :
  rebuild_head (v_branch h) = true → v_tags w' = v_tags w →
  match x with Ok h' => head_moved w w' h h' | Err _ => same_heads w w' end → grows w w' →
  fixes w w' ∧ ∀ h', x = Ok h' → v_branch h' = v_branch h.
Proof.
  intros Hb Ht Hm Hg. destruct x as [h'|e].
  - destruct Hm as (Hx & Hb' & _ & Hh). split; [by apply (grown_fixes _ _ (v_branch h))|]. by intros h0 [= <-].
  - destruct Hm as [Hx Hh]. split; [|done]. by apply (grown_fixes _ _ (v_branch h)).
Qed.

(** A write by such a step. *)
Lemma write_fixed path m (f : W → W * result string H) h s s' r :
  rebuild_head (v_branch h) = true →
  (∀ w w' x, f w = (w', x) → v_tags w' = v_tags w ∧ grows w w' ∧
     match x with Ok h' => head_moved w w' h h' | Err _ => same_heads w w' end) →
  io_write path m f s = (s', r) → all_fixed s s' ∧ ∀ h', r = Ok h' → v_branch h' = v_branch h.
Proof.
  intros Hb Hf E. split.
  - refine (within_put fixes _ _ _ _ _ _ _ E). intros w' x (Ht & Hg & Hm)%Hf. by eapply moved_fixes.
  - intros h' ->. apply io_write_ok in E as (w & Hw & _). apply Hf in Hw as (_ & _ & Hm). by destruct Hm as (_ & ? & _).
Qed.

Lemma append_fixed path m h rows s s' r :
  rebuild_head (v_branch h) = true → io_write path m (λ w, l_append w h rows) s = (s', r) →
  all_fixed s s' ∧ ∀ h', r = Ok h' → v_branch h' = v_branch h.
Proof.
  intros Hb. apply write_fixed; [done|]. intros w w' x Ha. pose proof (law_append_grows _ _ _ _ _ Ha). destruct x as [h'|e].
  - apply law_append_ok in Ha as (Ht & Hm & _). by split.
  - apply law_append_err in Ha as [Ht Hh]. by split.
Qed.

Lemma delete_rows_fixed path m h e s s' r :
  rebuild_head (v_branch h) = true → io_write path m (λ w, l_delete_rows w h e) s = (s', r) →
  all_fixed s s' ∧ ∀ h', r = Ok h' → v_branch h' = v_branch h.
Proof.
  intros Hb. apply write_fixed; [done|]. intros w w' x Ha. pose proof (law_delete_rows_grows _ _ _ _ _ Ha). destruct x as [h'|er].
  - apply law_delete_rows_ok in Ha as (Ht & Hm & _). by split.
  - apply law_delete_rows_err in Ha as [Ht Hh]. by split.
Qed.

Lemma same_rows_fixed path m (f : W → H → W * result string H) h s s' r :
  same_rows_step f → (∀ w w' x, f w h = (w', x) → grows w w') → rebuild_head (v_branch h) = true →
  io_write path m (λ w, f w h) s = (s', r) → all_fixed s s' ∧ ∀ h', r = Ok h' → v_branch h' = v_branch h.
Proof.
  intros Hf Hg Hb. apply write_fixed; [done|]. intros w w' x Hx. pose proof (Hg _ _ _ Hx). apply Hf in Hx as [Ht Hm].
  split; [done|]. split; [done|]. destruct x; [by destruct Hm|done].
Qed.

Lemma apply_delta_fixed path h delta s s' r :
  rebuild_head (v_branch h) = true → io_apply_delta_on_branch path h delta s = (s', r) →
  all_fixed s s' ∧ ∀ a, r = Ok a → v_branch a.1 = v_branch h.
Proof.
  intros Hb Hr. unfold io_apply_delta_on_branch in Hr.
  assert (Hgoal : all_fixed s s' ∧ ∀ a, r = Ok a → v_branch a.1 = v_branch h); [|done].
  unfold io_bind at 1 in Hr. destruct (ensure_writable s) as [s0 [[]|e]] eqn:Ew; apply ensure_writable_inv in Ew as [-> _];
    [|by injection Hr as <- <-].
  unfold io_bind at 1 in Hr. destruct ((if is_empty (doc_ids_to_delete delta) then io_ret h else
     io_write path "delta delete failed: " (λ w, l_delete_rows w h (InList "doc_id" (doc_ids_to_delete delta)))) s) as [s1 x] eqn:E1.
  assert (all_fixed s s1 ∧ ∀ h', x = Ok h' → v_branch h' = v_branch h) as [F1 Hb1].
  { destruct (is_empty (doc_ids_to_delete delta)); [injection E1 as <- <-; split; [done|]; by intros h' [= <-]|by apply delete_rows_fixed in E1]. }
  destruct x as [h1|e]; [|by injection Hr as <- <-]. specialize (Hb1 h1 eq_refl). unfold io_bind at 1 in Hr.
  destruct ((if is_empty (rows_to_append delta) then io_ret h1 else
     let! batch := rows_to_batch (rows_to_append delta) in io_write path "delta append failed: " (λ w, l_append w h1 batch)) s1) as [s2 y] eqn:E2.
  assert (all_fixed s1 s2 ∧ ∀ h', y = Ok h' → v_branch h' = v_branch h1) as [F2 Hb2].
  { destruct (is_empty (rows_to_append delta)); [injection E2 as <- <-; split; [done|]; by intros h' [= <-]|]. unfold io_bind in E2.
    destruct (rows_to_batch _ s1) as [s3 [batch|e]] eqn:E3; apply rows_to_batch_inv in E3 as ->; [|by injection E2 as <- <-].
    apply append_fixed in E2; [done|by rewrite Hb1]. }
  destruct y as [h2|e]; injection Hr as <- <-; (split; [by transitivity s1|]); [|done].
  intros a [= <-]. cbn. by rewrite Hb2.
Qed.

Lemma fts_fixed path h s s' r :
  rebuild_head (v_branch h) = true → io_ensure_fts_index_on_dataset path h s = (s', r) →
  all_fixed s s' ∧ ∀ a, r = Ok a → v_branch a.1 = v_branch h.
Proof.
  intros Hb Hr. unfold io_ensure_fts_index_on_dataset in Hr. unfold io_bind at 1 in Hr.
  destruct (io_read path _ _ s) as [s0 [ix|e]] eqn:E0; apply io_read_inv in E0 as [-> _]; [|by injection Hr as <- <-].
  unfold io_bind in Hr. destruct ((if negb (has_index FTS_INDEX_NAME ix)
      then io_write path "FTS index creation failed: " (λ w, l_create_index w h "content" FTS_INDEX_NAME Inverted)
      else io_write path "FTS index optimize failed: " (λ w, l_optimize_append w h)) s) as [s1 x] eqn:E1.
  assert (all_fixed s s1 ∧ ∀ h', x = Ok h' → v_branch h' = v_branch h) as [F1 Hb1].
  { destruct (negb (has_index _ _)).
    - refine (same_rows_fixed path _ (λ w h, l_create_index w h _ _ _) h s s1 x _ _ Hb E1); [apply law_create_index|].
      intros w w' y. apply law_create_index_grows.
    - refine (same_rows_fixed path _ l_optimize_append h s s1 x _ _ Hb E1); [apply law_optimize_append|].
      intros w w' y. apply law_optimize_append_grows. }
  destruct x as [h1|e]; injection Hr as <- <-; (split; [done|]); [|done]. intros a [= <-]. by apply Hb1.
Qed.

#[local] Instance quiet_scan_contents p (ds : H) : Within quiet (scan_doc_id_content (W:=W) p ds).
Proof. unfold scan_doc_id_content. apply _. Qed.
#[local] Instance quiet_checkout_commit d c : Within quiet (io_checkout_commit_snapshot (W:=W) (H:=H) d c).
Proof. unfold io_checkout_commit_snapshot, list_tags. cbv zeta. apply _. Qed.
#[local] Instance quiet_delta d a b : Within quiet (io_compute_delta_between_commits (W:=W) (H:=H) d a b).
Proof. unfold io_compute_delta_between_commits, compute_delta_from_scans, scan_full_rows. cbv zeta. apply _. Qed.
#[local] Instance quiet_commit_versions d : Within quiet (io_list_commit_versions (W:=W) (H:=H) d).
Proof. unfold io_list_commit_versions, list_tags. apply _. Qed.
#[local] Instance quiet_refresh d b : Within quiet (io_refresh_cached_dataset (W:=W) (H:=H) d b).
Proof. by intros s s' r ?%io_refresh_inv. Qed.

(** The commits a replay plans to retag are those at no boundary. *)
Definition planned (boundaries : gset nat) (i : nat) (commits : list (string * N)) (c : string) : Prop :=
  ∃ j v, commits !! j = Some (c, v) ∧ i + j ∉ boundaries.

Lemma replay_fixed d boundaries i prev commits rb s s' r :
  rebuild_head (v_branch (rb_ds rb)) = true → replay_commits d boundaries i prev commits rb s = (s', r) →
  all_fixed s s' ∧ ∀ rb', r = Ok rb' → v_branch (rb_ds rb') = v_branch (rb_ds rb) ∧
    ∀ c v, (c, v) ∈ rb_plan rb' → (c, v) ∈ rb_plan rb ∨ planned boundaries i commits c.
Proof.
  revert i prev rb s. induction commits as [|[commit v0] commits IH]; intros i prev rb s Hb Hr; cbn [replay_commits] in Hr.
  { injection Hr as <- <-. split; [done|]. intros rb' [= <-]. split; [done|]. by left. }
  unfold io_bind at 1 in Hr. destruct (io_compute_delta_between_commits d prev commit s) as [s1 [delta|e]] eqn:E1;
    pose proof (within_quiet_fixed _ (quiet_delta d prev commit) _ _ _ E1) as F1; [|by injection Hr as <- <-].
  unfold io_bind at 1 in Hr. destruct (io_apply_delta_on_branch _ (rb_ds rb) delta s1) as [s2 [applied|e]] eqn:E2;
    apply apply_delta_fixed in E2 as [F2 Hb2]; try done; [|injection Hr as <- <-; split; [by transitivity s1|done]].
  specialize (Hb2 applied eq_refl). assert (F12 : all_fixed s s2) by by transitivity s1. unfold io_bind at 1 in Hr.
  assert (Hstep : ∀ c, planned boundaries (S i) commits c → planned boundaries i ((commit, v0) :: commits) c).
  { intros c (j & v & Hj & Hn). exists (S j), v. split; [done|]. by rewrite Nat.add_succ_r. }
  destruct (bool_decide_reflect (i ∈ boundaries)) as [Hin|Hout].
  - cbn [io_ret] in Hr. apply IH in Hr as [F3 Hr]; cbn [rb_ds] in *; [|by rewrite Hb2]. split; [by transitivity s2|].
    intros rb' ->. destruct (Hr rb' eq_refl) as [Hb3 Hp]. split; [congruence|]. intros c v [?|?]%Hp; [by left|right; auto].
  - unfold io_bind at 1 in Hr. destruct (io_ensure_fts_index_on_dataset _ applied.1 s2) as [s3 [ix|e]] eqn:E3;
      apply fts_fixed in E3 as [F3 Hb3]; try (by rewrite Hb2); [|injection Hr as <- <-; split; [by transitivity s2|done]].
    specialize (Hb3 ix eq_refl). cbn [io_ret] in Hr. apply IH in Hr as [F4 Hr]; cbn [rb_ds rb_plan] in *; [|by rewrite Hb3, Hb2].
    split; [transitivity s2; [done|by transitivity s3]|]. intros rb' ->. destruct (Hr rb' eq_refl) as [Hb4 Hp]. split; [congruence|].
    intros c v [Hc|?]%Hp; [|right; auto]. apply elem_of_app in Hc as [?|[= -> ->]%list_elem_of_singleton]; [by left|right].
    exists 0, v0. split; [done|]. by rewrite Nat.add_0_r.
Qed.

(** Deleting a branch that is a rebuild branch. *)
Lemma delete_branch_fixes w h b w' r : is_compact_rebuild_branch b = true → l_delete_branch w h b = (w', r) → fixes w w'.
Proof.
  intros Hb Hd. destruct r as [[]|e].
  - apply law_delete_branch_ok in Hd as (Hx & Ht & _ & Hh & Hv). split; [done|intros c Hc; apply Hh; intros ->; cbn in Hc; congruence|].
    intros t c _ Htc Hc _. rewrite Ht. split; [done|]. intros h0 Hh0. rewrite Hv; [done|]. intros Hn. rewrite Hn in Hc. cbn in Hc. congruence.
  - apply law_delete_branch_err in Hd as (Ht & [Hx Hh] & Hv). split; [done|by intros|]. intros t c _ Htc _ _. rewrite Ht. split; [done|].
    intros h0. by rewrite Hv.
Qed.

Lemma delete_rebuilds_fixed path d bs cleaned s s' r :
  Forall (λ b, is_compact_rebuild_branch b = true) bs → delete_branches path d bs cleaned s = (s', r) → all_fixed s s'.
Proof.
  intros Hbs. revert cleaned s. induction Hbs as [|b bs Hb _ IH]; intros cleaned s; cbn [delete_branches]; [by intros [= <- _]|].
  intros Hr. apply (bind_rel _ _ _ _ _ _ Hr); clear Hr.
  { intros s1 x [Hq _]%io_open_fresh_inv. by apply quiet_fixed. }
  intros s1 ds _ _ Hr. apply (bind_rel _ _ _ _ _ _ Hr); clear Hr; [|intros s2 c2 _ _; apply IH].
  intros s2 x. apply io_or_within. intros s3 y Hw. apply (bind_rel _ _ _ _ _ _ Hw); [|by intros s4 [] _ _ [= <- _]].
  intros s4 z E. refine (within_put fixes _ _ _ _ _ _ _ E). intros w' x'. by apply delete_branch_fixes.
Qed.

(** Phase 1 moves no tag: whatever happens in it, all that is on another branch
    than a rebuild branch stays, and what it plans is at no boundary. *)
Lemma rebuild_phase_fixed d b boundaries first v0 rest ds s s' r :
  is_compact_rebuild_branch b = true → v_branch ds = Some b →
  rebuild_phase d b boundaries ((first, v0) :: rest) ds s = (s', r) →
  all_fixed s s' ∧ ∀ rb, r = Ok rb → ∀ c v, (c, v) ∈ rb_plan rb → planned boundaries 1 rest c.
Proof.
  intros Hb Hds. unfold rebuild_phase. destruct (replay_commits _ _ _ _ _ _ s) as [s1 [rb|e]] eqn:E1;
    apply replay_fixed in E1 as [F1 Hp]; try (by cbn [rb_ds]; rewrite Hds).
  - intros [= <- <-]. split; [done|]. intros rb' [= <-] c v Hc. destruct (Hp rb eq_refl) as [_ Hplan].
    destruct (Hplan c v Hc) as [Hn|]; [by apply elem_of_nil in Hn|done].
  - intros Hr. split.
    + transitivity s1; [done|]. apply (bind_rel _ _ _ _ _ _ Hr); [intros s2 y [Hq _]%io_open_fresh_inv; by apply quiet_fixed|].
      intros s2 df _ _ Hd. apply (bind_rel _ _ _ _ _ _ Hd); [|by intros s3 [] _ _ [= <- _]]. intros s3 x.
      apply io_or_within. intros s4 y E. refine (within_put fixes _ _ _ _ _ _ _ E). intros w' x'. by apply delete_branch_fixes.
    + intros rb ->. apply io_bind_ok in Hr as (s2 & df & _ & Hr). apply io_bind_ok in Hr as (s3 & [] & _ & [=]).
Qed.

(** *** Phase 2 *)

(** Deleting or creating a tag that is not to stay. *)
Lemma delete_tag_fixes w h t w' r :
  (K t → ∀ c, v_tags w !! t = Some c → rebuild_head (tc_branch c) = true) → l_delete_tag w h t = (w', r) → fixes w w'.
Proof.
  intros Hk Hd. pose proof (law_delete_tag_versions _ _ _ _ _ Hd) as Hv. destruct r as [[]|e].
  - apply law_delete_tag_ok in Hd as [Ht [Hx Hh]]. split; [done|by intros|]. intros t0 c Ht0 Hc Hb _. rewrite Ht.
    destruct (decide (t0 = t)) as [->|Hne]; [exfalso; rewrite (Hk Ht0 c Hc) in Hb; discriminate Hb|].
    rewrite lookup_delete_ne by done. split; [done|]. intros h0. by rewrite Hv.
  - apply law_delete_tag_err in Hd as [Ht [Hx Hh]]. split; [done|by intros|]. intros t0 c _ Hc _ _. rewrite Ht. split; [done|].
    intros h0. by rewrite Hv.
Qed.

Lemma create_tag_fixes w h t v w' r : l_create_tag w h t v = (w', r) → fixes w w'.
Proof.
  intros Hc. pose proof (law_create_tag_grows _ _ _ _ _ _ Hc) as [Hsub Hv]. destruct r as [[]|e].
  - apply law_create_tag_ok in Hc as (_ & [Hx Hh] & _). split; [done|by intros|]. intros t0 c _ Hc _ _. split; [by eapply lookup_weaken|by apply Hv].
  - apply law_create_tag_err in Hc as (_ & [Hx Hh]). split; [done|by intros|]. intros t0 c _ Hc _ _. split; [by eapply lookup_weaken|by apply Hv].
Qed.

Lemma move_tag_fixed d b err commit ds v s s' r :
  path_exists s (dataset_path d) = true →
  (K (encode_commit_tag commit) → ∀ c, v_tags (dir_of s (dataset_path d)) !! encode_commit_tag commit = Some c →
     rebuild_head (tc_branch c) = true) →
  move_tag d b err commit ds v s = (s', r) → all_fixed s s'.
Proof.
  intros Hx Hk Hr. unfold move_tag in Hr. apply (bind_rel _ _ _ _ _ _ Hr); clear Hr.
  { intros s1 x E. by eapply quiet_fixed, open_existing_quiet. }
  intros s1 dm E _ Hr. apply open_existing_quiet in E; [|done]. apply (bind_rel _ _ _ _ _ _ Hr); clear Hr.
  - intros s2 x. apply io_or_within. intros s3 y E2. refine (within_put fixes _ _ _ _ _ _ _ E2). intros w' x'. apply delete_tag_fixes.
    by rewrite (quiet_dir s s1).
  - intros s2 [] _ _ E2. refine (within_put fixes _ _ _ _ _ _ _ E2). intros w' x'. apply create_tag_fixes.
Qed.

Lemma fixed_exists s s' p : all_fixed s s' → path_exists s' p = path_exists s p.
Proof. intros Hs. apply (fx_exists _ _ (Hs p)). Qed.

Lemma retag_plan_fixed d b ds plan s s' r :
  path_exists s (dataset_path d) = true → (∀ c v, (c, v) ∈ plan → ¬ K (encode_commit_tag c)) →
  retag_plan d b ds plan s = (s', r) → all_fixed s s'.
Proof.
  revert s. induction plan as [|[c v] plan IH]; intros s Hx Hk; cbn [retag_plan]; [by intros [= <- _]|]. intros Hr.
  apply (bind_rel _ _ _ _ _ _ Hr); clear Hr.
  - intros s1 x. apply move_tag_fixed; [done|]. intros HK. exfalso. eapply Hk, HK. apply elem_of_cons. by left.
  - intros s1 [] _ Hs. apply IH; [by rewrite (fixed_exists s s1)|]. intros c' v' Hin. eapply Hk, elem_of_cons. by right.
Qed.

Lemma migrate_fixed d b rb ds boundaries s s' r :
  path_exists s (dataset_path d) = true → migrate_boundaries d b rb ds boundaries s = (s', r) → all_fixed s s'.
Proof.
  revert s. induction boundaries as [|[c v] boundaries IH]; intros s Hx; cbn [migrate_boundaries]; [by intros [= <- _]|]. intros Hr.
  apply (bind_rel _ _ _ _ _ _ Hr); clear Hr; [intros s1 x [Hq _]%io_open_fresh_inv; by apply quiet_fixed|].
  intros s1 ds1 [Hq1 _]%io_open_fresh_inv Hs1 Hr. apply (bind_rel _ _ _ _ _ _ Hr); clear Hr; [by intros s2 x [-> _]%io_read_inv|].
  intros s2 tags [-> ->%law_list_tags]%io_read_ok _ Hr. assert (Hx1 : path_exists s1 (dataset_path d) = true) by by rewrite (fixed_exists s s1).
  apply (bind_rel _ _ _ _ _ _ Hr); clear Hr; [|intros s2 [] _ Hs2; apply IH; by rewrite (fixed_exists s1 s2)].
  intros s2 x E. destruct (v_tags _ !! encode_commit_tag c) as [k|] eqn:Ek; cbn [mbind option_bind] in E; [|by injection E as <- _].
  destruct (tc_branch k) as [tb|] eqn:Eb; [|by injection E as <- _].
  destruct (is_compact_rebuild_branch tb) eqn:Er; cbn [andb] in E; [|by injection E as <- _].
  destruct (negb _); [|by injection E as <- _]. eapply move_tag_fixed; [exact Hx1| |exact E]. intros _ k' Hk'. rewrite Ek in Hk'.
  injection Hk' as <-. by rewrite Eb.
Qed.
End tags.

Lemma list_commits_inv d s s' m :
  io_list_commit_versions d s = (s', Ok m) → quiet s s' ∧
  (size m ≠ 0 → path_exists s (dataset_path d) = true ∧ m = commit_versions (v_tags (dir_of s (dataset_path d)))).
Proof.
  intros Hr. pose proof (quiet_commit_versions d _ _ _ Hr) as Hq. split; [done|]. intros Hm. unfold io_list_commit_versions in Hr.
  apply io_bind_ok in Hr as (s1 & [ds|] & Ho & Hr); [|injection Hr as _ <-; by rewrite map_size_empty in Hm].
  apply io_bind_ok in Hr as (s2 & tags & [-> Ht]%list_tags_inv & [= _ <-]). specialize (Ht tags eq_refl) as ->.
  apply io_open_dataset_readonly_inv in Ho as [Hq1 _]. rewrite (quiet_dir s s1) in Hm |- * by done. split; [|done].
  unfold path_exists. destruct (l_exists _) eqn:Ex; [done|]. apply law_not_exists in Ex as [Ht _]. rewrite Ht in Hm.
  exfalso. apply Hm. pose proof (commit_versions_spec ∅) as [Hs _]. apply map_size_empty_iff, map_eq. intros c. rewrite lookup_empty.
  destruct (commit_versions ∅ !! c) as [v|] eqn:E; [|done]. apply Hs in E as (t & k & Hk & _). by rewrite lookup_empty in Hk.
Qed.

(** The commits that a delta-fork retagging is to leave where they are. *)
Definition at_boundary (commits : gmap string N) (t : string) : Prop :=
  ∀ i commit v, by_version commits !! i = Some (commit, v) → t = encode_commit_tag commit →
    i = 0 ∨ i ∈ boundary_positions (size commits) ∖ {[(size commits - 1)%nat]}.

(** C25: a delta-fork retagging, however it ends, in whatever phase, leaves alone
    the boundary commits and the first one whose tags are on main or on a branch
    of the user and resolve: the tags stay and stand for the snapshots they stood
    for (a boundary tag on an older rebuild branch is not covered: the migration
    moves it); and no head but of rebuild branches is moved. *)
Theorem delta_forks_keep_boundaries epoch d b s s' r :
  io_retag_with_delta_forks epoch d b s = (s', r) →
  let w := dir_of s (dataset_path d) in let w' := dir_of s' (dataset_path d) in
  (∀ br, rebuild_head br = false → v_head w' br = v_head w br) ∧
  ∀ t c, v_tags w !! t = Some c → rebuild_head (tc_branch c) = false → live_tag w c →
    at_boundary (commit_versions (v_tags w)) t →
    v_tags w' !! t = Some c ∧
    ∀ h, v_version w (tc_branch c) (tc_version c) = Some h → v_version w' (tc_branch c) (tc_version c) = Some h.
Proof.
  set (path := dataset_path d). set (K := at_boundary (commit_versions (v_tags (dir_of s path)))). intros Hr.
  assert (Hall : all_fixed K s s'); [|destruct (Hall path) as [_ Hu Ht]; cbv zeta; split; [exact Hu|]; intros t c Hc Hb Hl HK; by apply Ht].
  unfold io_retag_with_delta_forks in Hr. apply (bind_rel _ _ _ _ _ _ Hr); clear Hr; [by intros s1 x [-> _]%ensure_writable_inv|].
  intros s0 [] [-> _]%ensure_writable_inv _ Hr. apply (bind_rel _ _ _ _ _ _ Hr); clear Hr; [apply within_quiet_fixed, _|].
  intros s1 commits [Hq1 Hm]%list_commits_inv _ Hr. cbv zeta in Hr. destruct (Nat.leb_spec (size commits) 2) as [Hle|Hgt]; [by injection Hr as <- _|].
  destruct Hm as [Hx Hm]; [lia|]. fold path in Hx, Hm, Hr.
  set (boundaries := boundary_positions (size commits) ∖ _) in Hr. set (rb := compact_rebuild_branch_name epoch) in Hr.
  assert (Hrb : is_compact_rebuild_branch rb = true) by (apply starts_with_app).
  destruct (by_version commits) as [|[first v0] rest] eqn:Esort.
  { exfalso. apply (f_equal length) in Esort. unfold by_version in Esort. rewrite sort_by_length, hash_iter_perm, length_map_to_list in Esort.
    cbn in Esort. lia. }
  assert (Hx1 : path_exists s1 path = true) by (rewrite <-Hx; by apply spared_exists, quiet_spared).
  apply (bind_rel _ _ _ _ _ _ Hr); clear Hr; [intros s2 x; by apply create_branch_fixed|].
  intros s2 [] _ Hs2 Hr. apply (bind_rel _ _ _ _ _ _ Hr); clear Hr.
  { intros s3 x [Hq _]%io_open_uncached_head. by apply quiet_fixed. }
  intros s3 [ds|] [Hq3 Hds]%io_open_uncached_head Hs3 Hr; [|by injection Hr as <- _]. specialize (Hds ds eq_refl) as [_ Hds].
  assert (Hx3 : path_exists s3 path = true) by by rewrite (fixed_exists K s2 s3), (fixed_exists K s1 s2).
  assert (Hwant : want_branch rb = Some rb) by done. rewrite Hwant in Hds.
  apply (bind_rel _ _ _ _ _ _ Hr); clear Hr.
  { intros s4 x E. by eapply (rebuild_phase_fixed K) in E as [? _]. }
  intros s4 built E4 Hs4 Hr. eapply (rebuild_phase_fixed K) in E4 as [_ Hplan]; [|done..]. specialize (Hplan built eq_refl).
  assert (Hx4 : path_exists s4 path = true) by by rewrite (fixed_exists K s3 s4).
  apply (bind_rel _ _ _ _ _ _ Hr); clear Hr.
  { intros s5 x. apply retag_plan_fixed; [done|]. intros c v (j & v' & Hj & Hn)%Hplan HK.
    destruct (HK (S j) c v') as [?|Hin]; [|done|done|].
    - rewrite <-Hm, Esort. exact Hj.
    - rewrite <-Hm in Hin. by apply Hn. }
  intros s5 [] _ Hs5 Hr. assert (Hx5 : path_exists s5 path = true) by by rewrite (fixed_exists K s4 s5).
  apply (bind_rel _ _ _ _ _ _ Hr); clear Hr; [intros s6 x; by apply migrate_fixed|].
  intros s6 [] _ _ Hr. apply (bind_rel _ _ _ _ _ _ Hr); clear Hr; [apply within_quiet_fixed, _|].
  intros s7 bs _ _ Hr. apply (bind_rel _ _ _ _ _ _ Hr); clear Hr.
  { intros s8 x. apply delete_rebuilds_fixed, Forall_forall. by intros br [[Hbr _] _]%list_elem_of_filter. }
  intros s8 cl _ _ Hr. apply (bind_rel _ _ _ _ _ _ Hr); clear Hr.
  { intros s9 x. apply io_or_within. intros s10 y E. eapply spared_fixed, cleanup_spares, E. }
  intros s9 cl' _ _ Hr. apply (bind_rel _ _ _ _ _ _ Hr); [|by intros s10 [] _ _ [= <- _]].
  intros s10 x ?%io_refresh_inv. by apply quiet_fixed.
Qed.
End keeps.

(** ** Examples *)

Module RetagExample.
Import StoreExample CommitExample.
#[export] Existing Instances RefLance.ops RefLance.view RefLance.laws RefLance.versions RefLance.version_laws
  RefMaint.maint_ops RefMaint.maint_laws RefIndex.index_ops RefIndex.index_laws StoreExample.ident_serialize
  StoreExample.cache_order CommitExample.tag_order MaintExample.version_order StatsExample.plain_form.
#[export] Instance version_order : HashIter string N := map_order.
#[export] Instance branch_laws : LanceBranchLaws (option RefLance.dir) RefLance.handle.
Proof.
  split.
  - intros [w|] h b w'; cbn; [|done]. destruct (RefLance.rd_heads w !! b) eqn:E; [|done]. intros [= <-].
    split_and!; [done|done| | |done].
    + cbn. by rewrite lookup_delete_eq.
    + intros [c|] Hc; cbn; [|done]. rewrite lookup_delete_ne; [done|congruence].
  - intros [w|] h b w' e; cbn; [|by intros [= <- _]]. destruct (RefLance.rd_heads w !! b); [done|]. by intros [= <- _].
  - intros [w|] h t w' r; cbn; [|by intros [= <- _]]. destruct (RefLance.rd_tags w !! t); by intros [= <- _].
Qed.

(** A commit [c]<n> that leaves the text [v]<n> in document [A]. *)
Definition commit_row (s : St) (n : nat) : St :=
  let r := io_upsert_chunks "o/t" "main" "A" [row "A" ("v" +:+ pretty n)] s in
  match r.2 with Ok v => fst (io_tag_commit "o/t" "main" ("c" +:+ pretty n) v r.1) | Err _ => r.1 end.

Definition store_n (n : nat) : St := foldl commit_row store0 (seq 1 n).

(** The texts a commit's snapshot holds. *)
Definition texts (s : St) (c : string) : option (list string) :=
  match snd (io_checkout_commit_snapshot "o/t" c s) with
  | Ok h => Some (map cr_content (RefLance.rh_rows h)) | Err _ => None end.
Definition before : St := store_n 6.
Definition after : St := fst (io_retag_with_delta_forks 17 "o/t" "main" before).
Definition commits6 : list string := ["c1"; "c2"; "c3"; "c4"; "c5"; "c6"].

(** A document that changes at every commit: of the snapshots that are rebuilt
    each one also holds the rows of the commits before it. *)
Example rebuilt_snapshots_are_stale :
  snd (io_retag_with_delta_forks 17 "o/t" "main" before) = Ok (6, 4) ∧
  map (texts before) commits6 = [Some ["v1"]; Some ["v2"]; Some ["v3"]; Some ["v4"]; Some ["v5"]; Some ["v6"]] ∧
  map (texts after) commits6 =
    [Some ["v1"]; Some ["v1"; "v2"]; Some ["v1"; "v2"; "v3"]; Some ["v4"];
     Some ["v1"; "v2"; "v3"; "v4"; "v5"]; Some ["v1"; "v2"; "v3"; "v4"; "v5"; "v6"]].
Proof. vm_compute. auto. Qed.

(** A second round, on the snapshots of the first, adds the old rows again. *)
Example retagging_twice_repeats_rows :
  map (texts (fst (io_retag_with_delta_forks 18 "o/t" "main" after))) ["c2"; "c3"] =
    [Some ["v1"; "v1"; "v2"]; Some ["v1"; "v1"; "v2"; "v1"; "v2"; "v3"]].
Proof. by vm_compute. Qed.

(** A branch of the user's, with a commit of its own. *)
Definition feature : St :=
  let r := io_create_branch_from_tag "o/t" "feature" "c6" before in
  let w := io_upsert_chunks "o/t" "feature" "F" [row "F" "f"] r.1 in
  match w.2 with Ok v => fst (io_tag_commit "o/t" "feature" "f1" v w.1) | Err _ => w.1 end.
Definition last_commit (b : string) (s : St) : option string :=
  match snd (last_indexed (mkDomain "o/t") (mkBranchName b) (CommitExample.restarted s)) with
  | Ok li => li_commit li | Err _ => None
  end.

(** Retagging main moves the other branches' commits too, and the branch that
    loses its commit is one where nothing has been indexed. *)
Example retagging_main_forgets_branches :
  let s := fst (io_retag_with_delta_forks 17 "o/t" "main" feature) in
  (last_commit "feature" feature, last_commit "main" feature) = (Some "f1", Some "c6") ∧
  (last_commit "feature" s, last_commit "main" s) = (None, Some "f1").
Proof. vm_compute. auto. Qed.
End RetagExample.
Import RetagExample.

Lemma startup_cleanup_spares_commits_witness :
  let s' := fst (io_cleanup_compaction_branches after) in
  v_tags (dir_of s' MaintExample.path) !! "c_c4" = Some (mkTagContents None 9 3).
Proof.
  destruct (io_cleanup_compaction_branches after) as [s' r] eqn:E. cbn [fst].
  destruct (startup_cleanup_spares_commits after s' r E MaintExample.path) as (_ & _ & _ & Hl & _).
  apply Hl; [by vm_compute|done].
Defined.

Lemma delta_forks_keep_boundaries_witness :
  let s' := fst (io_retag_with_delta_forks 17 "o/t" "main" before) in
  v_tags (dir_of s' MaintExample.path) !! "c_c4" = Some (mkTagContents None 9 3).
Proof.
  destruct (io_retag_with_delta_forks 17 "o/t" "main" before) as [s' r] eqn:E. cbn [fst].
  destruct (delta_forks_keep_boundaries 17 "o/t" "main" before s' r E) as [_ Hl].
  apply Hl; [by vm_compute|done|done|]. clear. intros i commit v Hi Ht. right.
  assert (Hb : by_version (commit_versions (v_tags (dir_of before MaintExample.path))) =
    [("c1", 3%N); ("c2", 5%N); ("c3", 7%N); ("c4", 9%N); ("c5", 11%N); ("c6", 13%N)]) by by vm_compute.
  change (dataset_path "o/t") with MaintExample.path in Hi |- *. rewrite Hb in Hi. clear Hb.
  assert (commit = "c4") as -> by (symmetry; by apply (inj encode_commit_tag "c4")).
  assert (i = 3) as ->; [|apply (bool_decide_unpack _); by vm_compute].
  destruct i as [|[|[|[|[|[|i]]]]]]; [discriminate Hi|discriminate Hi|discriminate Hi|reflexivity|discriminate Hi|discriminate Hi|discriminate Hi].
Defined.
