(* ===== verification/Branch.v ===== *)
(** * Branch-out (src/src/store/branch.rs)

    What [io_ensure_branch_forked] does on every outcome: where the new branch
    starts, what its rows are, and what stays. *)

From S2P Require Import Prelude RustStr Model LayerIdx Schema Lance DatasetCache Store Commit Index Maintain Pipeline Growth PipelineRun Retag.

(** A branch created from a version or a tag starts with the rows that stand
    there. *)
Class LanceForkLaws (W H : Type) `{LanceOps W H, LanceView W H, LanceVersions W H} : Prop := {
  law_create_branch_rows w h b r w' h' : l_create_branch w h b r = (w', Ok h') →
    match r with
    | RefVersion v => ∃ h0, v_version w (v_branch h) v = Some h0 ∧ v_rows h' = v_rows h0
    | RefTag t => ∃ c h0, v_tags w !! t = Some c ∧ v_version w (tc_branch c) (tc_version c) = Some h0 ∧ v_rows h' = v_rows h0
    end;
}.

Section branch_out.
Context {W H : Type} `{LanceLaws W H} {HV : LanceVersions W H} {HVL : LanceVersionLaws W H} {HFL : LanceForkLaws W H}
        `{ByteSerialize} {HD : HashIter string (DatasetCacheEntry H)}.
Implicit Types s : LanceStore W H.

(** The branch is new, at version [v], with the rows of [h0]. *)
Definition forked_at (domain branch : string) s s' (v : N) (h0 : H) : Prop :=
  forked domain branch s s' v ∧
  ∃ h, v_head (dir_of s' (dataset_path domain)) (Some branch) = Some h ∧ l_version h = v ∧ v_rows h = v_rows h0.

Lemma fork_from_tag d b c s s' v :
  io_create_branch_from_tag d b c s = (s', Ok v) →
  ∃ k h0, domain_tags s d !! encode_commit_tag c = Some k ∧ tc_version k = v ∧
    v_version (dir_of s (dataset_path d)) (tc_branch k) v = Some h0 ∧ forked_at d b s s' v h0.
Proof.
  intros Hc. pose proof (create_branch_from_tag_inv _ _ _ _ _ _ Hc) as [Hf (k & Hk & Hv)].
  unfold io_create_branch_from_tag in Hc. apply io_bind_ok in Hc as (s0 & [] & [-> _]%ensure_writable_ok & Hc).
  destruct (String.eqb b MAIN_BRANCH); [done|]. apply io_bind_ok in Hc as (s0 & s1 & [= <- <-] & Hc).
  destruct (path_exists s _); [|done]. apply io_bind_ok in Hc as (s1 & ds & Hl & Hc). apply io_open_fresh_inv in Hl as [Hq _].
  apply io_bind_ok in Hc as (s2 & h & Hw & [= <- <-]). apply io_write_ok in Hw as (w & Hw & ->). rewrite (quiet_dir s s1) in Hw by done.
  pose proof (law_create_branch_rows _ _ _ _ _ _ Hw) as (k' & h0 & Hk' & Hh0 & Hr). assert (k' = k) as -> by congruence.
  exists k, h0. split_and!; [done|done|by rewrite <-Hv|]. split; [done|]. exists h. rewrite dir_put.
  apply law_create_branch_ok in Hw as (_ & _ & _ & Hh & _). by split_and!.
Qed.

Lemma fork_from_main d b v s s' h0 :
  v_head (dir_of s (dataset_path d)) None = Some h0 → l_version h0 = v →
  io_create_branch d b v s = (s', Ok tt) → forked_at d b s s' v h0.
Proof.
  intros Hh0 Hv Hc. pose proof (io_create_branch_ok _ _ _ _ _ Hc) as Hf. split; [done|].
  unfold io_create_branch in Hc. apply io_bind_ok in Hc as (s0 & [] & [-> _]%ensure_writable_ok & Hc).
  destruct (String.eqb b MAIN_BRANCH); [done|]. apply io_bind_ok in Hc as (s0 & s1 & [= <- <-] & Hc).
  destruct (path_exists s _); [|done]. apply io_bind_ok in Hc as (s1 & ds & Hl & Hc). apply io_open_fresh_inv in Hl as [Hq Hl].
  apply io_bind_ok in Hc as (s2 & h & Hw & [= <-]). apply io_write_ok in Hw as (w & Hw & ->). rewrite (quiet_dir s s1) in Hw by done.
  pose proof (law_create_branch_rows _ _ _ _ _ _ Hw) as (h1 & Hh1 & Hr).
  apply law_create_branch_ok in Hw as (_ & _ & _ & Hh & _ & _ & Hvh). exists h. rewrite dir_put. split_and!; [done|done|].
  rewrite Hr. f_equal. destruct (law_load _ _ (Hl _ eq_refl)) as (_ & _ & Hb). rewrite Hb, <-Hv in Hh1.
  apply law_head_version in Hh0. congruence.
Qed.

Lemma create_branch_refused d b v s s' e : io_create_branch d b v s = (s', Err e) → same_dir d s s'.
Proof.
  unfold io_create_branch. unfold io_bind at 1. destruct (ensure_writable s) as [s0 [[]|e0]] eqn:Ew; apply ensure_writable_inv in Ew as [-> _];
    [|by intros [= <- _]; apply same_dir_quiet].
  destruct (String.eqb b MAIN_BRANCH); [intros [= <- _]; by apply same_dir_quiet|]. unfold io_bind at 1, io_get.
  destruct (path_exists s (dataset_path d)); [|intros [= <- _]; by apply same_dir_quiet]. unfold io_bind at 1.
  destruct (io_open_fresh _ s) as [s1 [ds|e0]] eqn:Ef; apply io_open_fresh_inv in Ef as [Hq _];
    [|intros [= <- _]; by apply same_dir_quiet]. unfold io_bind.
  destruct (io_write _ _ _ s1) as [s2 [h|e0]] eqn:Ew; [done|]. intros [= <- _].
  apply io_write_inv in Ew as (w & [h|e1] & Hw & -> & Hr); [done|]. apply law_create_branch_err in Hw as [Ht Hh].
  eapply same_dir_trans; [by apply same_dir_quiet|]. unfold same_dir. by rewrite dir_put.
Qed.

(** Neither the look for the branch nor the attempt to fork from the tag changes
    what is cached. *)
Definition same_cache s s' : Prop := st_cache s' = st_cache s.
#[local] Instance same_cache_preorder : PreOrder same_cache.
Proof. split; [done|]. intros s1 s2 s3. unfold same_cache. congruence. Qed.
#[local] Instance cached_write {A} p m (f : W → W * result string A) : Within same_cache (io_write p m f).
Proof. intros s s' r (w & x & _ & -> & _)%io_write_inv. done. Qed.
#[local] Instance cached_writable : Within same_cache (ensure_writable (W:=W) (H:=H)).
Proof. by intros s s' r [-> _]%ensure_writable_inv. Qed.
#[local] Instance cached_fresh p : Within same_cache (io_open_fresh (W:=W) (H:=H) p).
Proof. intros s s' r. unfold io_open_fresh, io_bind, io_modify. intros [-> _]%io_read_inv. done. Qed.
#[local] Instance cached_list d : Within same_cache (io_list_branches (W:=W) (H:=H) d).
Proof. unfold io_list_branches. apply within_bind; [apply _..|]. intros s0. case_match; apply _. Qed.
#[local] Instance cached_from_tag d b c : Within same_cache (io_create_branch_from_tag (W:=W) (H:=H) d b c).
Proof.
  unfold io_create_branch_from_tag. apply within_bind; [apply _..|]. intros []. case_match; [apply _|].
  apply within_bind; [apply _..|]. intros s0. case_match; apply _.
Qed.

Lemma cached_current d s s' : same_cache s s' → same_dir d s s' → cache_current s d → cache_current s' d.
Proof. intros Hc [_ [_ Hh]] Hcur e He. rewrite Hc in He. rewrite Hh. by apply Hcur. Qed.

(** Forking from the parent's tag fails with an error that reads as [P]. *)
Definition tag_refused (domain branch parent : string) s (P : StoreError → bool) : Prop :=
  ∃ s1 s2 e, quiet s s1 ∧ io_create_branch_from_tag domain branch parent s1 = (s2, Err e) ∧ P e = true.

(** What fails in the fork from main. *)
Definition fallback_refused (domain branch : string) s (e : StoreError) : Prop :=
  (∃ s', io_branch_head_version domain MAIN_BRANCH s = (s', Err e)) ∨
  ∃ v s1 s', io_branch_head_version domain MAIN_BRANCH s = (s1, Ok v) ∧ io_create_branch domain branch v s1 = (s', Err e).

Lemma head_run d s s' r : io_open_dataset d MAIN_BRANCH s = (s', r) →
  io_branch_head_version d MAIN_BRANCH s = (s', l_version <$> r).
Proof. intros Ho. unfold io_branch_head_version, io_bind. cbn. rewrite Ho. by destruct r. Qed.

(** The fork from main. *)
Lemma fork_fallback d b s s' r : path_exists s (dataset_path d) = true →
  (let! main_version := io_branch_head_version d MAIN_BRANCH in
   io_create_branch d b main_version;! io_ret (Created main_version)) s = (s', r) →
  (∃ v, r = Ok (Created v) ∧ forked d b s s' v ∧
     (cache_current s d → ∃ h0, v_head (dir_of s (dataset_path d)) None = Some h0 ∧ l_version h0 = v ∧ forked_at d b s s' v h0)) ∨
  ∃ e, r = Err e ∧ same_dir d s s' ∧ fallback_refused d b s e.
Proof.
  intros Hx. unfold io_branch_head_version. cbn [String.eqb MAIN_BRANCH]. unfold io_bind at 1 2. cbv beta.
  destruct (io_open_dataset d MAIN_BRANCH s) as [s1 [h|e]] eqn:Ho; pose proof Ho as Hq; apply open_existing_quiet in Hq; try done.
  2: { cbn. rewrite Ho. intros [= <- <-]. right. exists e. split; [done|]. split; [by apply same_dir_quiet|]. left. exists s1. exact (head_run _ _ _ _ Ho). }
  apply (same_dir_quiet d) in Hq. cbn. rewrite Ho. unfold io_bind, io_ret. destruct (io_create_branch d b (l_version h) s1) as [s2 [[]|e]] eqn:Hb; intros [= <- <-].
  2: { right. exists e. split; [done|]. split; [by eapply same_dir_trans, create_branch_refused|]. right. exists (l_version h), s1, s2. split; [exact (head_run _ _ _ _ Ho)|done]. }
  left. exists (l_version h). split; [done|]. pose proof (io_create_branch_ok _ _ _ _ _ Hb) as Hf. apply (forked_same _ _ s) in Hf; [|done].
  split; [done|]. intros Hcur. destruct (open_dataset_current _ _ _ _ _ Hcur Ho) as [Hh _]. destruct Hq as [_ [_ Hhq]].
  exists h. split; [by rewrite <-Hhq|]. split; [done|]. split; [done|]. by apply (fork_from_main _ _ _ s1 s2 h).
Qed.

(** An error is the listing's, the fork's from the tag of the parent, or when
    there is no such tag and a dataset the fork's from main. *)
Definition branch_out_refused (domain branch parent : string) s (e : StoreError) : Prop :=
  branch ≠ MAIN_BRANCH ∧
  ((∃ s1, io_list_branches domain s = (s1, Err e)) ∨
   v_head (dir_of s (dataset_path domain)) (Some branch) = None ∧
   ∃ s1 s2 e0, quiet s s1 ∧ io_create_branch_from_tag domain branch parent s1 = (s2, Err e0) ∧ is_already_exists e0 = false ∧
     (if is_ref_not_found e0 && path_exists s2 (dataset_path domain) then fallback_refused domain branch s2 e else e = e0)).

Lemma unlisted_no_head d b s (bs : list string) :
  (if path_exists s (dataset_path d)
   then ∃ h, l_load (dir_of s (dataset_path d)) = Ok h ∧ l_list_branches (dir_of s (dataset_path d)) h = Ok bs
   else bs = []) → b ∉ bs → v_head (dir_of s (dataset_path d)) (Some b) = None.
Proof.
  destruct (path_exists s _) eqn:Ex; [|by intros _ _; apply law_not_exists in Ex as [_ ->]].
  intros (h & _ & Hl) Hin. destruct (v_head _ (Some b)) eqn:E; [|done]. destruct Hin. apply (law_list_branches _ _ _ Hl b). by eexists.
Qed.

(** C22: branch-out on every outcome.  [Created v] is answered when the branch
    was not there and is there now: it starts at the version and with the rows
    that the tag of the parent commit stands for or, when Lance answers that
    there is no such tag, with those of main's head (of the cached handle, if a
    write elsewhere has made that stale).  [AlreadyExists] is answered of main,
    of a branch that is there, or when Lance says so.  An error is that of the
    listing, or of the forks that were tried.  Every tag and every other branch
    stays; and on [AlreadyExists] and on any error all of them. *)
Theorem branch_out_spec domain branch parent s s' r :
  io_ensure_branch_forked domain branch parent s = (s', r) →
  let w := dir_of s (dataset_path domain) in
  match r with
  | Err e => same_dir domain s s' ∧ branch_out_refused domain branch parent s e
  | Ok AlreadyExists => same_dir domain s s' ∧
      (branch = MAIN_BRANCH ∨ is_Some (v_head w (Some branch)) ∨ tag_refused domain branch parent s is_already_exists)
  | Ok (Created v) => branch ≠ MAIN_BRANCH ∧ forked domain branch s s' v ∧
      ((∃ k h0, v_tags w !! encode_commit_tag parent = Some k ∧ tc_version k = v ∧
          v_version w (tc_branch k) v = Some h0 ∧ forked_at domain branch s s' v h0) ∨
       tag_refused domain branch parent s is_ref_not_found ∧
       (cache_current s domain → ∃ h0, v_head w None = Some h0 ∧ l_version h0 = v ∧ forked_at domain branch s s' v h0))
  end.
Proof.
  cbv zeta. unfold io_ensure_branch_forked. destruct (String.eqb_spec branch MAIN_BRANCH) as [->|Hne].
  { intros [= <- <-]. split; [by apply same_dir_quiet|by left]. }
  unfold io_bind at 1. destruct (io_list_branches domain s) as [s1 [bs|e]] eqn:El; pose proof El as Hcl; apply io_list_branches_inv in El as [Hq Hl].
  2: { intros [= <- <-]. split; [by apply same_dir_quiet|]. split; [done|]. left. by exists s1. }
  pose proof (same_dir_quiet domain _ _ Hq) as Hs1. case_bool_decide as Hin.
  { intros [= <- <-]. split; [done|]. right; left. specialize (Hl bs eq_refl). destruct (path_exists s _).
    - destruct Hl as (h & _ & Hl2). apply (law_list_branches _ _ _ Hl2 branch), Hin.
    - subst bs. by apply elem_of_nil in Hin. }
  pose proof (unlisted_no_head domain branch s bs (Hl bs eq_refl) Hin) as Hnew.
  destruct (io_create_branch_from_tag _ _ _ s1) as [s2 [v|e]] eqn:Hc.
  { intros [= <- <-]. split; [done|]. apply fork_from_tag in Hc as (k & h0 & Hk & Hv & Hh0 & Hf).
    unfold domain_tags in Hk. rewrite (quiet_dir s s1) in Hk, Hh0 by done.
    assert (Hf' : forked_at domain branch s s2 v h0) by (destruct Hf; split; [by eapply forked_same|done]).
    split; [apply Hf'|]. left. by exists k, h0. }
  pose proof (create_branch_from_tag_inv _ _ _ _ _ _ Hc) as Hs12. assert (Hs2 : same_dir domain s s2) by (by eapply same_dir_trans).
  destruct (is_already_exists e) eqn:Hae; [intros [= <- <-]; split; [done|]; right; right; by exists s1, s2, e|].
  assert (Href : ∀ e', (if is_ref_not_found e && path_exists s2 (dataset_path domain) then fallback_refused domain branch s2 e' else e' = e) →
    branch_out_refused domain branch parent s e') by (intros e' He; split; [done|]; right; split; [done|]; by exists s1, s2, e).
  destruct (is_ref_not_found e) eqn:Hnf; [|intros [= <- <-]; split; [done|by apply Href]].
  destruct (path_exists s2 _) eqn:Ex; [|intros [= <- <-]; split; [done|by apply Href]].
  intros [(v & -> & Hf & Hm)|(e1 & -> & Hd & Hr)]%fork_fallback; [|split; [by eapply same_dir_trans|by apply Href]|done].
  split; [done|]. split; [by apply (forked_same _ _ _ s2)|]. right. split; [by exists s1, s2, e|]. intros Hcs. destruct Hm as (h0 & Hh0 & Hv & Hfk).
  { eapply cached_current; [|exact Hs2|done]. etrans; [exact (within_run same_cache _ _ _ Hcl)|exact (within_run same_cache _ _ _ Hc)]. }
  exists h0. destruct Hfk. split_and!; [by rewrite <-(proj2 (proj2 Hs2))|done|]. split; [by apply (forked_same _ _ _ s2)|done].
Qed.
End branch_out.

(** ** On the small dataset *)

Import RunExample.

#[export] Instance fork_laws : LanceForkLaws (option RefLance.dir) RefLance.handle.
Proof.
  split. intros [w|] h b r w' h'; cbn; [|done]. destruct (RefLance.rd_heads w !! b); [done|].
  destruct r as [v|t]; cbn.
  - destruct (RefLance.rd_versions w !! (RefLance.rh_branch h, v)) as [rows|] eqn:E; cbn; [|done].
    destruct (RefLance.rd_versions w !! (Some b, v)); [done|]. intros [= <- <-].
    eexists. split; [unfold v_version; cbn; unfold RefLance.version; by rewrite E|done].
  - destruct (RefLance.rd_tags w !! t) as [c|] eqn:Et; [|done].
    destruct (RefLance.rd_versions w !! (tc_branch c, tc_version c)) as [rows|] eqn:E; cbn; [|done].
    destruct (RefLance.rd_versions w !! (Some b, tc_version c)); [done|]. intros [= <- <-].
    exists c. eexists. split_and!; [done|unfold v_version; cbn; unfold RefLance.version; by rewrite E|done].
Qed.

(** A fork from a commit's tag; and one from a commit that was never indexed,
    which falls back to main. *)
Definition tagged_store := fst (io_tag_commit "o/t" "main" "c0" 2 store1).
Definition fork_of (s : LanceStore (option RefLance.dir) RefLance.handle) (parent : string) := io_ensure_branch_forked "o/t" "feature" parent s.

Lemma branch_out_spec_witness :
  (let '(s', r) := fork_of tagged_store "c0" in r = Ok (Created 2) ∧ forked "o/t" "feature" tagged_store s' 2) ∧
  (let '(s', r) := fork_of store1 "cx" in r = Ok (Created 2) ∧
     ∃ h0, v_head (dir_of store1 (dataset_path "o/t")) None = Some h0 ∧ forked_at "o/t" "feature" store1 s' 2 h0).
Proof.
  split.
  - destruct (fork_of tagged_store "c0") as [s' r] eqn:E. assert (r = Ok (Created 2)) as -> by (by compute_as snd in E).
    split; [done|]. destruct (branch_out_spec "o/t" "feature" "c0" tagged_store s' (Ok (Created 2)) E) as (_ & Hf & _). exact Hf.
  - destruct (fork_of store1 "cx") as [s' r] eqn:E. assert (r = Ok (Created 2)) as -> by (by compute_as snd in E).
    split; [done|]. destruct (branch_out_spec "o/t" "feature" "cx" store1 s' (Ok (Created 2)) E) as (_ & _ & [(k & h0 & Hk & _)|[_ Hm]]).
    + exfalso. by vm_compute in Hk.
    + destruct Hm as (h0 & Hh & _ & Hf); [|exists h0; split; [exact Hh|exact Hf]]. destruct ready_store1 as [_ [Hb|Hc]]; [discriminate Hb|exact Hc].
Defined.
