(* ===== verification/Snapshot.v ===== *)
(** * Snapshots of commits (src/src/store/lance/search.rs)

    From a commit id to the dataset version its tag stands for, and what is
    read from such a handle besides the ranked searches: the chunks of a
    document, the representative embedding and the text of a document, the
    embedding stream.  Running a scan is Lance's ([LanceScan]); what the readers
    rely on is the law of plain scans: the rows the filter keeps, in batches, in
    any order, with the projected columns. *)

From S2P Require Import Prelude F32 RustStr Model LayerIdx Schema Dedup Lance Search DatasetCache Store Commit.

(** An empty [sr_projection] stands for a scanner on which [project] is not
    called: every column. *)
Class LanceScan (W H : Type) := l_run : W → H → ScanRequest → result ScanFailure (list RecordBatch).

Section snapshot.
Context {W H : Type} `{LanceOps W H, LanceScan W H} `{ByteSerialize} {HD : HashIter string (DatasetCacheEntry H)}.

(** The version a tag stands for, on the branch that owns it. *)
Definition checkout_tagged (path : string) (base : H) (contents : TagContents) : io W H H :=
  let version := tc_version contents in
  match tc_branch contents with
  | None => io_read path ("checkout version " +:+ pretty version +:+ " failed: ")
              (λ w, l_checkout_version w base version)
  | Some branch_name =>
      let! ds_branch := io_read path ("checkout branch '" +:+ branch_name +:+ "' for snapshot failed: ")
                          (λ w, l_checkout_branch w base branch_name) in
      io_read path ("checkout version " +:+ pretty version +:+ " on branch '" +:+ branch_name +:+ "' failed: ")
        (λ w, l_checkout_version w ds_branch version)
  end.

(** The branch is not looked at. *)
Definition io_snapshot_from_cache (domain branch commit : string) : io W H H :=
  let! cached := io_open_dataset_readonly domain in
  match cached with
  | None => io_throw (StoreInternal ("commit not indexed: domain '" +:+ domain +:+ "' has no dataset"))
  | Some base =>
      let tag := encode_commit_tag commit in
      let! tags := list_tags domain base in
      match tags !! tag with
      | None => io_throw (StoreInternal ("commit not indexed: tag '" +:+ tag +:+ "' not found"))
      | Some contents => checkout_tagged (dataset_path domain) base contents
      end
  end.

Definition io_open_snapshot (domain branch commit : string) : io W H H := io_snapshot_from_cache domain branch commit.

(** A scan, and the messages of its failures. *)
Definition failure_text (f : ScanFailure) : string :=
  match f with SetupFailed e | LimitFailed e | ProjectFailed e | StreamFailed e | CollectFailed e => e end.
Definition scan_error (project stream collect : string) (f : ScanFailure) : StoreError :=
  StoreInternal match f with
  | ProjectFailed e => project +:+ e
  | CollectFailed e => collect +:+ e
  | f => stream +:+ failure_text f
  end.
Definition io_scan (path : string) (err : ScanFailure → StoreError) (ds : H) (r : ScanRequest)
    : io W H (list RecordBatch) := λ s,
  (s, map_err err (l_run (dir_of s path) ds r)).

(** A computation that touches no state. *)
Definition io_pure {A} (r : result StoreError A) : io W H A := λ s, (s, r).

(** ** The chunks of a document *)

Definition scan_doc_chunks (path : string) (ds : H) (doc_id : string) : io W H (list ChunkHit) :=
  let! batches := io_scan path (scan_error "" "lookup stream failed: " "lookup collect failed: ") ds
                    (mkScanRequest Plain (Some (doc_id_eq_expr doc_id)) []) in
  io_pure (batches_to_vector_hits batches false).

Definition io_lookup_doc_chunks (domain branch doc_id : string) : io W H (list ChunkHit) :=
  let path := dataset_path domain in
  let! cached := io_open_dataset_readonly domain in
  match cached with
  | None => io_ret []
  | Some base =>
      if String.eqb branch MAIN_BRANCH then scan_doc_chunks path base doc_id
      else
        let! branch_ds := io_read path ("lookup checkout '" +:+ branch +:+ "' failed: ")
                            (λ w, l_checkout_branch w base branch) in
        scan_doc_chunks path branch_ds doc_id
  end.

(** ** Representative embeddings *)

Definition embedding_column (column : string) (b : RecordBatch) : option (list EmbeddingRow) :=
  if String.eqb column "embedding" then col_embedding b
  else if String.eqb column "clustering_embedding" then col_clustering_embedding b else None.

(** What one batch contributes, row by row, or why it is refused. *)
Definition result_embedding_rows (column : string) (b : RecordBatch)
    : result StoreError (list (string * (Z * list f32))) :=
  if (num_rows b =? 0)%nat then Ok []
  else
    ids ← ok_or (StoreInternal "result embedding scan: missing `doc_id` column") (col_doc_id b);
    chunk_indexes ← ok_or (StoreInternal "result embedding scan: missing `chunk_index` column") (col_chunk_index b);
    embeddings ← ok_or (StoreInternal ("result embedding scan: missing `" +:+ column +:+ "` column"))
                   (embedding_column column b);
    res_map (λ i,
      embedding ← extract_embedding_row embeddings i (value "" ids i);
      Ok (value "" ids i, (value 0%Z chunk_indexes i, embedding))) (seq 0 (num_rows b)).

(** The lowest chunk index wins, the first of equals. *)
Definition lower_chunk {A} (a b : string * (Z * A)) : bool := (a.2.1 <? b.2.1)%Z.

Definition io_fetch_result_embeddings (domain branch commit : string) (doc_ids doc_types : list string) (column : string)
    : io W H (gmap string (list f32)) :=
  let! snapshot := io_snapshot_from_cache domain branch commit in
  let! batches := io_scan (dataset_path domain)
                    (scan_error "result embedding projection failed: " "result embedding stream failed: "
                       "result embedding collect failed: ") snapshot
                    (mkScanRequest Plain (build_filter_expr doc_types doc_ids) ["doc_id"; "chunk_index"; column]) in
  let! rows := io_pure (res_map (result_embedding_rows column) batches) in
  io_ret ((λ best : string * (Z * list f32), best.2.2) <$> keep_best fst lower_chunk (concat rows)).

(** ** Texts *)

Definition content_rows (b : RecordBatch) : result StoreError (list (string * (Z * string))) :=
  if (num_rows b =? 0)%nat then Ok []
  else
    ids ← ok_or (StoreInternal "doc content scan: missing `doc_id` column") (col_doc_id b);
    chunk_indexes ← ok_or (StoreInternal "doc content scan: missing `chunk_index` column") (col_chunk_index b);
    contents ← ok_or (StoreInternal "doc content scan: missing `content` column") (col_content b);
    Ok (map (λ i, (value "" ids i, (value 0%Z chunk_indexes i, value "" contents i))) (seq 0 (num_rows b))).

(** [entry(doc_id).or_default().push(..)]. *)
Definition push_chunk (per_doc : gmap string (list (Z * string))) (r : string * (Z * string))
    : gmap string (list (Z * string)) :=
  <[r.1 := default [] (per_doc !! r.1) ++ [r.2]]> per_doc.

Definition chunk_index_cmp (a b : Z * string) : comparison := Z.compare a.1 b.1.

Definition doc_text (chunks : list (Z * string)) : string := join " " (map snd (sort_by chunk_index_cmp chunks)).

Definition io_fetch_doc_contents (domain branch commit : string) (doc_ids : list string) : io W H (gmap string string) :=
  if is_empty doc_ids then io_ret ∅
  else
    let! snapshot := io_snapshot_from_cache domain branch commit in
    let! batches := io_scan (dataset_path domain)
                      (scan_error "doc content projection failed: " "doc content stream failed: "
                         "doc content collect failed: ") snapshot
                      (mkScanRequest Plain (build_filter_expr [] doc_ids) ["doc_id"; "chunk_index"; "content"]) in
    let! rows := io_pure (res_map content_rows batches) in
    io_ret (doc_text <$> foldl push_chunk ∅ (concat rows)).

(** ** The embedding stream *)

Record EmbeddingRecord := mkEmbeddingRecord {
  er_doc_id : string;
  er_embedding : list f32;
  er_clustering_embedding : option (list f32);
}.

(** The ids of the counting scan. *)
Definition batch_ids (b : RecordBatch) : list string :=
  match col_doc_id b with Some ids => map (value "" ids) (seq 0 (num_rows b)) | None => [] end.

Definition ok_option {E A} (r : result E A) : option A := match r with Ok a => Some a | Err _ => None end.

(** What a batch contributes to the stream: rows whose embedding cannot be
    read are left out, as are batches without the columns. *)
Definition stream_rows (store_clustering : bool) (b : RecordBatch) : list (string * (Z * (list f32 * option (list f32)))) :=
  match col_doc_id b, col_chunk_index b, col_embedding b with
  | Some ids, Some chunk_indexes, Some embeddings =>
      let clustering_embeddings := if store_clustering then col_clustering_embedding b else None in
      omap (λ i,
        embedding ← ok_option (extract_embedding_row embeddings i (value "" ids i));
        let clustering_emb := ce ← clustering_embeddings;
                              match value NullRow ce i with
                              | NullRow => None
                              | _ => ok_option (extract_embedding_row ce i (value "" ids i))
                              end in
        Some (value "" ids i, (value 0%Z chunk_indexes i, (embedding, clustering_emb)))) (seq 0 (num_rows b))
  | _, _, _ => []
  end.

Context {HE : HashIter string (string * (Z * (list f32 * option (list f32))))}.

(** The records sent: an error while reading sends one error record, and
    nothing else. *)
Definition stream_records (store_clustering : bool) (r : result string (list RecordBatch)) : list EmbeddingRecord :=
  match r with
  | Err e => [mkEmbeddingRecord ("__error__: " +:+ e) [] None]
  | Ok batches =>
      map (λ p : string * (Z * (list f32 * option (list f32))), mkEmbeddingRecord p.1 p.2.2.1 p.2.2.2)
        (into_values (keep_best fst lower_chunk (concat (map (stream_rows store_clustering) batches))))
  end.

(** The count, and what the receiver gets. *)
Definition io_stream_embeddings (domain branch commit : string) (doc_ids doc_types : list string) (store_clustering : bool)
    : io W H (nat * list EmbeddingRecord) :=
  let path := dataset_path domain in
  let! snapshot := io_snapshot_from_cache domain branch commit in
  let filter := build_filter_expr doc_types doc_ids in
  let! count_batches := io_scan path (scan_error "count projection failed: " "count stream failed: " "count collect failed: ")
                          snapshot (mkScanRequest Plain filter ["doc_id"; "chunk_index"]) in
  let total_count := size (list_to_set (C:=gset string) (concat (map batch_ids count_batches))) in
  let columns := if store_clustering then ["doc_id"; "chunk_index"; "embedding"; "clustering_embedding"]
                 else ["doc_id"; "chunk_index"; "embedding"] in
  let! s := io_get in
  match l_run (dir_of s path) snapshot (mkScanRequest Plain filter columns) with
  | Err (ProjectFailed e) => io_throw (StoreInternal ("stream projection failed: " +:+ e))
  | Err (CollectFailed e) => io_ret (total_count, stream_records store_clustering (Err e))
  | Err f => io_throw (StoreInternal ("stream embeddings failed: " +:+ failure_text f))
  | Ok batches => io_ret (total_count, stream_records store_clustering (Ok batches))
  end.

(** ** Searching a commit *)

Context {HC : HashIter string ChunkHit} {HF : HashIter string FusedDoc} {HM : HashIter (string * Z) (f32 * ChunkHit)}.

(** [io_search] and [io_search_documents] of the file Search, on the store. *)
Definition store_search {A} (f : (H → ScanRequest → result ScanFailure (list RecordBatch)) → result StoreError H → result StoreError A)
    (domain branch commit : string) : io W H A := λ s,
  let '(s, snapshot) := io_snapshot_from_cache domain branch commit s in
  (s, f (λ ds r, l_run (dir_of s (dataset_path domain)) ds r) snapshot).

Definition search_chunks (domain branch commit : string) (q : SearchQuery) : io W H (list ChunkHit) :=
  store_search (λ run snapshot, Search.io_search run snapshot q) domain branch commit.
Definition search_documents (domain branch commit : string) (q : SearchQuery) : io W H (option (list SearchHit)) :=
  store_search (λ run snapshot, Search.io_search_documents run snapshot q) domain branch commit.
End snapshot.

(** ** Plain scans *)

Definition has_col (projection : list string) (c : string) : bool := is_empty projection || bool_decide (c ∈ projection).

(** A batch of rows of a plain scan. *)
Definition batch_of (projection : list string) (rows : list ChunkRow) : RecordBatch :=
  let col {A} (c : string) (f : ChunkRow → A) := if has_col projection c then Some (map f rows) else None in
  mkRecordBatch (length rows) (col "doc_id" cr_doc_id) (col "chunk_index" cr_chunk_index)
    (col "chunk_count" cr_chunk_count) (col "chunk_token_start" cr_chunk_token_start)
    (col "doc_token_len" cr_doc_token_len) (col "content" cr_content) None None
    (col "embedding" (λ r, FloatRow (cr_embedding r)))
    (col "clustering_embedding" (λ r, FloatRow (cr_clustering_embedding r))).

Class LanceScanLaws (W H : Type) `{LanceOps W H, LanceView W H, LanceScan W H} : Prop := {
  law_run_plain w h f projection batches :
    l_run w h (mkScanRequest Plain f projection) = Ok batches →
    ∃ parts, batches = map (batch_of projection) parts ∧
      concat parts ≡ₚ filter (λ r, scan_keeps f r = true) (v_rows h);
}.

(** ** Reading columns *)

Lemma value_map {A B} (d : B) (f : A → B) l i x : l !! i = Some x → value d (map f l) i = f x.
Proof.
  intros Hx. unfold value. apply nth_lookup_Some. rewrite list_lookup_fmap, Hx. done.
Qed.

Lemma map_rows {A B} (F : nat → B) (G : A → B) l :
  (∀ i x, l !! i = Some x → F i = G x) → map F (seq 0 (length l)) = map G l.
Proof.
  intros HF. apply list_eq. intros i. rewrite !list_lookup_fmap. destruct (l !! i) as [x|] eqn:Ex.
  - rewrite lookup_seq_lt by (by eapply lookup_lt_Some). cbn. by rewrite (HF i x).
  - rewrite lookup_seq_ge by (by apply lookup_ge_None). done.
Qed.

Lemma res_map_rows {A B E} (F : nat → result E B) (G : A → B) l :
  (∀ i x, l !! i = Some x → F i = Ok (G x)) → res_map F (seq 0 (length l)) = Ok (map G l).
Proof.
  intros HF. assert (Hm : map F (seq 0 (length l)) = map (λ x, Ok (G x)) l) by (by apply map_rows).
  revert Hm. generalize (seq 0 (length l)). clear HF. induction l as [|x l IH]; intros [|i k]; cbn; try done.
  intros [= Hi Hk]. rewrite Hi. cbn. by rewrite (IH k Hk).
Qed.

Lemma res_map_ok_map {A B E} (F : A → result E B) (G : A → B) l :
  (∀ x, F x = Ok (G x)) → res_map F l = Ok (map G l).
Proof. intros HF. induction l as [|x l IH]; cbn; [done|]. rewrite HF. cbn. by rewrite IH. Qed.

Lemma omap_rows {A B} (F : nat → option B) (G : A → B) l :
  (∀ i x, l !! i = Some x → F i = Some (G x)) → omap F (seq 0 (length l)) = map G l.
Proof.
  intros HF. assert (Hm : map F (seq 0 (length l)) = map (λ x, Some (G x)) l) by (by apply map_rows).
  revert Hm. generalize (seq 0 (length l)). clear HF. induction l as [|x l IH]; intros [|i k]; cbn; try done.
  intros [= Hi Hk]. rewrite Hi. by rewrite (IH k Hk).
Qed.

Definition row_embedding (column : string) (r : ChunkRow) : list f32 :=
  if String.eqb column "embedding" then cr_embedding r else cr_clustering_embedding r.

Lemma has_col_true projection c : c ∈ projection → has_col projection c = true.
Proof. intros Hc. unfold has_col. rewrite bool_decide_true by done. apply orb_true_r. Qed.

Lemma result_embedding_rows_batch column rows :
  column = "embedding" ∨ column = "clustering_embedding" →
  result_embedding_rows column (batch_of ["doc_id"; "chunk_index"; column] rows)
  = Ok (map (λ r, (cr_doc_id r, (cr_chunk_index r, row_embedding column r))) rows).
Proof.
  intros Hc. unfold result_embedding_rows. destruct rows as [|r0 rows0] eqn:Er; [done|].
  rewrite <-Er. assert ((num_rows (batch_of ["doc_id"; "chunk_index"; column] rows) =? 0)%nat = false) as -> by (by rewrite Er).
  assert (embedding_column column (batch_of ["doc_id"; "chunk_index"; column] rows)
    = Some (map (λ r, FloatRow (row_embedding column r)) rows)) as ->.
  { unfold embedding_column, row_embedding, batch_of. destruct Hc as [->| ->]; cbn [String.eqb]; done. }
  cbn [batch_of col_doc_id col_chunk_index num_rows]. rewrite !has_col_true by (rewrite !elem_of_cons; tauto).
  cbn [ok_or mbind result_mbind]. apply res_map_rows. intros i r Hr.
  unfold extract_embedding_row. by rewrite !(value_map _ _ rows i r Hr).
Qed.

Lemma content_rows_batch rows :
  content_rows (batch_of ["doc_id"; "chunk_index"; "content"] rows)
  = Ok (map (λ r, (cr_doc_id r, (cr_chunk_index r, cr_content r))) rows).
Proof.
  unfold content_rows. destruct rows as [|r0 rows0] eqn:Er; [done|]. rewrite <-Er.
  assert ((num_rows (batch_of ["doc_id"; "chunk_index"; "content"] rows) =? 0)%nat = false) as -> by (by rewrite Er).
  cbn [batch_of col_doc_id col_chunk_index col_content num_rows]. rewrite !has_col_true by (rewrite !elem_of_cons; tauto).
  cbn [ok_or mbind result_mbind]. f_equal. apply map_rows. intros i r Hr. by rewrite !(value_map _ _ rows i r Hr).
Qed.

Lemma stream_rows_batch (store_clustering : bool) rows :
  stream_rows store_clustering (batch_of (if store_clustering then ["doc_id"; "chunk_index"; "embedding"; "clustering_embedding"]
                                          else ["doc_id"; "chunk_index"; "embedding"]) rows)
  = map (λ r, (cr_doc_id r, (cr_chunk_index r, (cr_embedding r,
           if store_clustering then Some (cr_clustering_embedding r) else None)))) rows.
Proof.
  unfold stream_rows. destruct store_clustering; cbn [batch_of col_doc_id col_chunk_index col_embedding col_clustering_embedding num_rows];
    rewrite !has_col_true by (rewrite !elem_of_cons; tauto); apply omap_rows; intros i r Hr; unfold extract_embedding_row; cbn -[value];
    rewrite !(value_map _ _ rows i r Hr); cbn; done.
Qed.

Lemma batch_ids_batch projection rows :
  "doc_id" ∈ projection → batch_ids (batch_of projection rows) = map cr_doc_id rows.
Proof.
  intros Hp. unfold batch_ids. cbn [batch_of col_doc_id num_rows]. rewrite has_col_true by done.
  apply map_rows. intros i r Hr. by rewrite (value_map _ _ rows i r Hr).
Qed.

Lemma concat_map_map {A B} (f : A → B) (ls : list (list A)) : concat (map (map f) ls) = map f (concat ls).
Proof. induction ls as [|l ls IH]; cbn; [done|]. by rewrite IH, map_app. Qed.

#[export] Instance lower_chunk_better {A} : Better (lower_chunk (A:=A)).
Proof.
  split.
  - intros x. apply Z.ltb_irrefl.
  - intros x y z ?%Z.ltb_lt ?%Z.ltb_lt. apply Z.ltb_lt. lia.
Qed.

Section readers.
Context {W H : Type} `{LanceLaws W H} {HV : LanceVersions W H} {HVL : LanceVersionLaws W H}
        {HS : LanceScan W H} {HSL : LanceScanLaws W H} `{ByteSerialize}
        {HD : HashIter string (DatasetCacheEntry H)}.
Implicit Types s : LanceStore W H.

(** [h] is the version of the dataset that the tag of the commit stands for. *)
Definition snapshot_of s (domain commit : string) (h : H) : Prop :=
  ∃ k, domain_tags s domain !! encode_commit_tag commit = Some k ∧
    v_version (dir_of s (dataset_path domain)) (tc_branch k) (tc_version k) = Some h.

Lemma checkout_tagged_inv path base k s s' r :
  v_branch base = None → checkout_tagged path base k s = (s', r) →
  s' = s ∧ ∀ h, r = Ok h → v_version (dir_of s path) (tc_branch k) (tc_version k) = Some h.
Proof.
  intros Hb. unfold checkout_tagged. destruct (tc_branch k) as [b|].
  - unfold io_bind. destruct (io_read path _ _ s) as [s1 [hb|e]] eqn:Er; pose proof Er as Er';
      apply io_read_inv in Er' as [-> _]; [|intros [= <- <-]; by split].
    apply io_read_ok in Er as [_ Hco]. apply law_checkout_branch in Hco as [_ Hbr].
    intros Hv. pose proof Hv as Hv'. apply io_read_inv in Hv' as [-> _]. split; [done|]. intros h ->.
    apply io_read_ok in Hv as [_ Hv]. apply law_checkout_version in Hv. by rewrite Hbr in Hv.
  - intros Hv. pose proof Hv as Hv'. apply io_read_inv in Hv' as [-> _]. split; [done|]. intros h ->.
    apply io_read_ok in Hv as [_ Hv]. apply law_checkout_version in Hv. by rewrite Hb in Hv.
Qed.

Lemma open_readonly_main d s s' h :
  cache_on_main s → io_open_dataset_readonly d s = (s', Ok (Some h)) → v_branch h = None.
Proof.
  intros Hc. unfold io_open_dataset_readonly. intros (s1 & hit & Hh & Hrun)%io_bind_ok.
  apply io_cache_hit_inv in Hh as [_ Hr].
  destruct (dc_datasets (st_cache s) !! d) as [e|] eqn:Ee.
  { injection Hr as ->. injection Hrun as _ <-. eauto. }
  destruct Hr as [[= ->] ->]. apply io_bind_ok in Hrun as (s2 & s0 & [= <- <-] & Hrun).
  destruct (path_exists s (dataset_path d)); [|done].
  apply io_bind_ok in Hrun as (s3 & ds & Hds & Hrun). apply io_bind_ok in Hrun as (s4 & h0 & Hins & [= _ <-]).
  pose proof Hds as Hm. apply io_open_fresh_main in Hm.
  assert (dc_datasets (st_cache s3) !! d = None) as Hn.
  { unfold io_open_fresh, io_bind, io_modify in Hds. by apply io_read_ok in Hds as [-> _]. }
  apply io_insert_cached_inv in Hins as (_ & h1 & [= <-] & [->|(e & He & _)]); [|congruence|done].
  by apply main_handle_branch.
Qed.

Lemma snapshot_inv d b c s s' r :
  cache_on_main s → io_snapshot_from_cache d b c s = (s', r) →
  quiet s s' ∧ ∀ h, r = Ok h → snapshot_of s d c h.
Proof.
  intros Hcm. unfold io_snapshot_from_cache. unfold io_bind at 1.
  destruct (io_open_dataset_readonly d s) as [s1 [[base|]|e]] eqn:Eo; pose proof Eo as Eo';
    apply io_open_dataset_readonly_inv in Eo as [Hq _].
  2-3: unfold io_throw; intros [= <- <-]; split; [done|]; by intros.
  assert (Hbase : v_branch base = None) by (by eapply open_readonly_main).
  unfold io_bind. destruct (list_tags d base s1) as [s2 [tags|e]] eqn:Et; apply list_tags_inv in Et as [-> Htags];
    [|intros [= <- <-]; split; [done|]; by intros].
  rewrite (Htags tags eq_refl), (quiet_dir s s1) by done.
  destruct (v_tags _ !! encode_commit_tag c) as [k|] eqn:Ek; [|unfold io_throw; intros [= <- <-]; split; [done|]; by intros].
  intros [-> Hh]%checkout_tagged_inv; [|done]. split; [done|]. intros h ->. exists k. split; [done|].
  rewrite <-(quiet_dir s s1) by done. by apply Hh.
Qed.
End readers.

(** ** What the readers return *)

Section reader_specs.
Context {W H : Type} `{LanceLaws W H} {HV : LanceVersions W H} {HVL : LanceVersionLaws W H}
        {HS : LanceScan W H} {HSL : LanceScanLaws W H} `{ByteSerialize}
        {HD : HashIter string (DatasetCacheEntry H)}.
Implicit Types s : LanceStore W H.

(** The rows of a snapshot that a filter on types and ids keeps. *)
Definition wanted (doc_types doc_ids : list string) (r : ChunkRow) : Prop :=
  (doc_types = [] ∨ cr_doc_type r ∈ doc_types) ∧ (doc_ids = [] ∨ cr_doc_id r ∈ doc_ids).

Lemma scan_keeps_wanted doc_types doc_ids r :
  scan_keeps (build_filter_expr doc_types doc_ids) r = true ↔ wanted doc_types doc_ids r.
Proof.
  destruct (build_filter_expr_selects doc_types doc_ids) as [Hnone Hsel]. unfold wanted.
  destruct (build_filter_expr doc_types doc_ids) as [e|]; cbn [scan_keeps].
  - apply (Hsel e (row_column r) eq_refl).
  - destruct (proj1 Hnone eq_refl) as [-> ->]. tauto.
Qed.

Lemma io_scan_inv path err h f projection s s' batches :
  io_scan path err h (mkScanRequest Plain f projection) s = (s', Ok batches) →
  s' = s ∧ ∃ parts, batches = map (batch_of projection) parts ∧
    concat parts ≡ₚ filter (λ r, scan_keeps f r = true) (v_rows h).
Proof.
  unfold io_scan. intros [= <- Hr]. split; [done|].
  destruct (l_run _ h _) as [bs|] eqn:E; [|done]. injection Hr as ->. by apply law_run_plain in E.
Qed.

Lemma keep_best_rows {A} (f : ChunkRow → A) (kept rows : list ChunkRow) (P : ChunkRow → Prop) id :
  (∀ r, r ∈ kept ↔ P r ∧ r ∈ rows) →
  match (λ best : string * (Z * A), best.2.2) <$>
          keep_best fst lower_chunk (map (λ r, (cr_doc_id r, (cr_chunk_index r, f r))) kept) !! id with
  | Some v => ∃ r, r ∈ rows ∧ P r ∧ cr_doc_id r = id ∧ v = f r ∧
                   ∀ r', r' ∈ rows → P r' → cr_doc_id r' = id → (cr_chunk_index r ≤ cr_chunk_index r')%Z
  | None => ∀ r, r ∈ rows → P r → cr_doc_id r ≠ id
  end.
Proof.
  intros Hk. set (l := map _ kept).
  assert (Hl : ∀ c, c ∈ l ↔ ∃ r, c = (cr_doc_id r, (cr_chunk_index r, f r)) ∧ P r ∧ r ∈ rows).
  { intros c. unfold l. rewrite list_elem_of_fmap. by setoid_rewrite Hk. }
  pose proof (keep_best_spec fst lower_chunk l id) as Hs. destruct (keep_best _ _ l !! id) as [b|]; cbn.
  - destruct Hs as ((r & -> & HP & Hr)%Hl & Hid & Hmin). exists r. repeat split; [done..|].
    intros r' Hr' HP' Hid'. specialize (Hmin (cr_doc_id r', (cr_chunk_index r', f r'))).
    unfold lower_chunk in Hmin. cbn in Hmin. apply Z.ltb_ge, Hmin; [|done]. apply Hl. eauto.
  - intros r Hr HP Hid. eapply (Hs (_, (_, _))); [|exact Hid]. apply Hl. eauto.
Qed.

Lemma kept_rows kept doc_types doc_ids (rows : list ChunkRow) :
  kept ≡ₚ filter (λ r, scan_keeps (build_filter_expr doc_types doc_ids) r = true) rows →
  ∀ r, r ∈ kept ↔ wanted doc_types doc_ids r ∧ r ∈ rows.
Proof. intros Hp r. rewrite Hp, list_elem_of_filter, scan_keeps_wanted. done. Qed.

(** The representative embeddings of a commit: for every document with a
    row of the requested types and ids in the version that the commit's tag
    stands for, the embedding of the row with the lowest chunk index; no entry
    for any other document.  The read changes nothing but the handle cache. *)
Theorem fetch_result_embeddings_spec domain branch commit doc_ids doc_types column s s' m :
  cache_on_main s → column = "embedding" ∨ column = "clustering_embedding" →
  io_fetch_result_embeddings domain branch commit doc_ids doc_types column s = (s', Ok m) →
  quiet s s' ∧ ∃ h, snapshot_of s domain commit h ∧ ∀ id,
    match m !! id with
    | Some v => ∃ r, r ∈ v_rows h ∧ wanted doc_types doc_ids r ∧ cr_doc_id r = id ∧ v = row_embedding column r ∧
        ∀ r', r' ∈ v_rows h → wanted doc_types doc_ids r' → cr_doc_id r' = id → (cr_chunk_index r ≤ cr_chunk_index r')%Z
    | None => ∀ r, r ∈ v_rows h → wanted doc_types doc_ids r → cr_doc_id r ≠ id
    end.
Proof.
  intros Hcm Hc. unfold io_fetch_result_embeddings.
  intros (s1 & h & Hh & Hrun)%io_bind_ok. apply snapshot_inv in Hh as [Hq Hsnap]; [|done].
  apply io_bind_ok in Hrun as (s2 & bs & (-> & parts & -> & Hp)%io_scan_inv & Hrun).
  apply io_bind_ok in Hrun as (s3 & rows & Hrows & Hret). unfold io_pure in Hrows.
  injection Hrows as <- Hrows. injection Hret as <- <-. split; [done|]. exists h. split; [by apply Hsnap|]. intros id.
  assert (rows = map (map (λ r, (cr_doc_id r, (cr_chunk_index r, row_embedding column r)))) parts) as ->.
  { revert rows Hrows. clear Hp. induction parts as [|p ps IH]; intros rows; cbn [map res_map]; [by intros [= <-]|].
    rewrite result_embedding_rows_batch by done. cbn. destruct (res_map _ _) as [l|]; [|done].
    intros [= <-]. f_equal. by apply IH. }
  rewrite concat_map_map, lookup_fmap. apply keep_best_rows. by apply kept_rows.
Qed.

Lemma push_chunk_lookup l m id :
  foldl push_chunk m l !! id =
    match map snd (filter (λ r : string * (Z * string), r.1 = id) l) with
    | [] => m !! id
    | cs => Some (default [] (m !! id) ++ cs)
    end.
Proof.
  revert m. induction l as [|[i c] l IH]; intros m; cbn [foldl]; [done|]. rewrite IH. unfold push_chunk. cbn [fst snd].
  rewrite filter_cons. cbn [fst]. destruct (decide (i = id)) as [->|Hne].
  - rewrite lookup_insert_eq. cbn [map]. destruct (map snd _) as [|c' cs]; cbn; [done|]. by rewrite <-app_assoc.
  - by rewrite lookup_insert_ne.
Qed.

Instance chunk_index_cmp_order : CmpOrder (λ _, True) chunk_index_cmp.
Proof. apply (on_key_order _ (λ _, True) (λ a : Z * string, a.1)); [apply _|done]. Qed.

(** The text of the document [id] in [rows]: its chunks' contents, in the order
    of the chunk indexes. *)
Definition text_of (rows : list ChunkRow) (id : string) : string :=
  doc_text (map (λ r, (cr_chunk_index r, cr_content r)) (filter (λ r, cr_doc_id r = id) rows)).

Definition indexed_once (rows : list ChunkRow) : Prop :=
  ∀ r r', r ∈ rows → r' ∈ rows → cr_doc_id r = cr_doc_id r' → cr_chunk_index r = cr_chunk_index r' →
    cr_content r = cr_content r'.

(** The texts of a commit: exactly the requested documents that have rows in
    the version that the commit's tag stands for get an entry, and it is the
    contents of all the document's chunks joined by spaces in the order of the
    chunk indexes, whatever the order the scan delivers the rows in. *)
Theorem fetch_doc_contents_spec domain branch commit doc_ids s s' m :
  cache_on_main s → doc_ids ≠ [] →
  io_fetch_doc_contents domain branch commit doc_ids s = (s', Ok m) →
  quiet s s' ∧ ∃ h, snapshot_of s domain commit h ∧ (indexed_once (v_rows h) → ∀ id,
    m !! id = if bool_decide (id ∈ doc_ids ∧ id ∈ map cr_doc_id (v_rows h))
              then Some (text_of (v_rows h) id) else None).
Proof.
  intros Hcm Hids. unfold io_fetch_doc_contents. destruct (is_empty doc_ids) eqn:Ee; [by apply is_empty_nil in Ee|].
  intros (s1 & h & Hh & Hrun)%io_bind_ok. apply snapshot_inv in Hh as [Hq Hsnap]; [|done].
  apply io_bind_ok in Hrun as (s2 & bs & (-> & parts & -> & Hp)%io_scan_inv & Hrun).
  apply io_bind_ok in Hrun as (s3 & rows & Hrows & Hret). unfold io_pure in Hrows.
  injection Hrows as <- Hrows. injection Hret as <- <-. split; [done|]. exists h. split; [by apply Hsnap|]. intros Honce id.
  assert (rows = map (map (λ r, (cr_doc_id r, (cr_chunk_index r, cr_content r)))) parts) as ->.
  { revert rows Hrows. clear Hp. induction parts as [|p ps IH]; intros rows; cbn [map res_map]; [by intros [= <-]|].
    rewrite content_rows_batch. cbn. destruct (res_map _ _) as [l|]; [|done].
    intros [= <-]. f_equal. by apply IH. }
  rewrite concat_map_map, lookup_fmap, push_chunk_lookup, lookup_empty.
  assert (Hmf : ∀ l, map snd (filter (λ r : string * (Z * string), r.1 = id) (map (λ r, (cr_doc_id r, (cr_chunk_index r, cr_content r))) l))
     = map (λ r, (cr_chunk_index r, cr_content r)) (filter (λ r, cr_doc_id r = id) l)).
  { intros l. induction l as [|r l IH]; [done|]. cbn [map]. rewrite !filter_cons. cbn [fst]. destruct (decide _); cbn [map snd]; by rewrite IH. }
  rewrite Hmf. set (mine := filter (λ r, cr_doc_id r = id) (concat parts)).
  assert (Hk : ∀ r, r ∈ mine ↔ cr_doc_id r = id ∧ wanted [] doc_ids r ∧ r ∈ v_rows h).
  { intros r. unfold mine. rewrite list_elem_of_filter, (kept_rows _ _ _ _ Hp r). done. }
  assert (Hin : mine = [] ∨ ∃ r0 l, mine = r0 :: l) by (destruct mine; eauto).
  destruct (bool_decide_reflect (id ∈ doc_ids ∧ id ∈ map cr_doc_id (v_rows h))) as [[Hd (r & Er & Hr)%list_elem_of_fmap]|Hn].
  - destruct Hin as [Hnil|(r0 & l & Hcons)].
    { assert (r ∈ mine) as Hm by (apply Hk; unfold wanted; repeat split; subst; auto). rewrite Hnil in Hm. by apply elem_of_nil in Hm. }
    rewrite Hcons. cbn [map fmap option_fmap option_map default app]. f_equal.
    change (_ :: map _ l) with (map (λ r, (cr_chunk_index r, cr_content r)) (r0 :: l)). rewrite <-Hcons. unfold text_of, doc_text. f_equal. f_equal.
    assert (Hperm : mine ≡ₚ filter (λ r, cr_doc_id r = id) (v_rows h)).
    { unfold mine. rewrite Hp, list_filter_filter. erewrite list_filter_iff; [done|].
      intros r'. cbn. rewrite scan_keeps_wanted. unfold wanted. split; [tauto|]. intros E'. rewrite E'. tauto. }
    apply (sort_by_unique _ (λ _, True)); [|by apply Forall_true|by rewrite Hperm].
    intros x y (rx & -> & Hx)%list_elem_of_fmap (ry & -> & Hy)%list_elem_of_fmap. unfold chunk_index_cmp. cbn.
    intros Hxy%Z.compare_eq. apply Hk in Hx as (? & _ & ?), Hy as (? & _ & ?). f_equal; [done|]. apply Honce; congruence.
  - destruct Hin as [Hnil|(r0 & l & Hcons)]; [by rewrite Hnil|]. destruct Hn.
    assert (r0 ∈ mine) as (Hid & [_ [->|Hw]] & Hr)%Hk by (rewrite Hcons; by left); [done|].
    rewrite <-Hid. split; [done|]. apply list_elem_of_fmap. eauto.
Qed.
End reader_specs.

(** ** The embedding stream *)

Section stream_specs.
Context {W H : Type} `{LanceLaws W H} {HV : LanceVersions W H} {HVL : LanceVersionLaws W H}
        {HS : LanceScan W H} {HSL : LanceScanLaws W H} `{ByteSerialize}
        {HD : HashIter string (DatasetCacheEntry H)}
        {HE : HashIter string (string * (Z * (list f32 * option (list f32))))}.
Implicit Types s : LanceStore W H.

(** What one row contributes to the stream. *)
Definition stream_row (store_clustering : bool) (r : ChunkRow) : string * (Z * (list f32 * option (list f32))) :=
  (cr_doc_id r, (cr_chunk_index r, (cr_embedding r, if store_clustering then Some (cr_clustering_embedding r) else None))).

Definition record_of (store_clustering : bool) (r : ChunkRow) : EmbeddingRecord :=
  mkEmbeddingRecord (cr_doc_id r) (cr_embedding r) (if store_clustering then Some (cr_clustering_embedding r) else None).

(** The records of the rows [rows]: one per document, from a row of its lowest
    chunk index. *)
Definition streams (store_clustering : bool) (rows : list ChunkRow) (records : list EmbeddingRecord) : Prop :=
  NoDup (map er_doc_id records) ∧
  (∀ id, id ∈ map er_doc_id records ↔ id ∈ map cr_doc_id rows) ∧
  ∀ e, e ∈ records → ∃ r, r ∈ rows ∧ e = record_of store_clustering r ∧
    ∀ r', r' ∈ rows → cr_doc_id r' = cr_doc_id r → (cr_chunk_index r ≤ cr_chunk_index r')%Z.

Lemma keyed_values {A} `{HashIter string (string * A)} better `{!Better better} (l : list (string * A)) :
  map fst (into_values (keep_best fst better l)) = (hash_iter (keep_best fst better l)).*1.
Proof.
  unfold into_values. rewrite map_map. apply map_ext_in. intros [k v] Hin%list_elem_of_In%hash_iter_elem.
  by apply keep_best_lookup in Hin as (_ & <- & _).
Qed.

Lemma records_stream store_clustering (kept : list ChunkRow) :
  streams store_clustering kept
    (map (λ p : string * (Z * (list f32 * option (list f32))), mkEmbeddingRecord p.1 p.2.2.1 p.2.2.2)
       (into_values (keep_best fst lower_chunk (map (stream_row store_clustering) kept)))).
Proof.
  assert (Hids : ∀ l : list (string * (Z * (list f32 * option (list f32)))),
    map er_doc_id (map (λ p, mkEmbeddingRecord p.1 p.2.2.1 p.2.2.2) l) = map fst l) by (intros l; by rewrite map_map).
  unfold streams. rewrite Hids, keyed_values by apply _. split_and!.
  - apply hash_iter_nodup.
  - intros id. rewrite !list_elem_of_fmap. split.
    + intros ([k v] & -> & Hk%hash_iter_elem). apply keep_best_lookup in Hk as (Hin & <- & _); [|apply _].
      apply list_elem_of_fmap in Hin as (r & -> & Hr). by exists r.
    + intros (r & -> & Hr). destruct (keep_best_complete fst lower_chunk (map (stream_row store_clustering) kept)
        (stream_row store_clustering r)) as [b Hb]; [by apply list_elem_of_fmap; exists r|].
      exists (cr_doc_id r, b). split; [done|]. by apply hash_iter_elem.
  - intros e (p & -> & [k Hk]%into_values_elem)%list_elem_of_fmap.
    apply keep_best_lookup in Hk as (Hin & Hkey & Hmin); [|apply _].
    apply list_elem_of_fmap in Hin as (r & -> & Hr). exists r. split; [done|]. split; [done|].
    intros r' Hr' Hid. apply Z.ltb_ge, (Hmin (stream_row store_clustering r')).
    + apply list_elem_of_fmap. by exists r'.
    + by rewrite <-Hkey.
Qed.

Lemma concat_stream_rows store_clustering parts :
  concat (map (stream_rows store_clustering)
    (map (batch_of (if store_clustering then ["doc_id"; "chunk_index"; "embedding"; "clustering_embedding"]
                    else ["doc_id"; "chunk_index"; "embedding"])) parts))
  = map (stream_row store_clustering) (concat parts).
Proof.
  rewrite map_map. erewrite map_ext by (intros rows; apply (stream_rows_batch store_clustering rows)).
  apply concat_map_map.
Qed.

Lemma streams_perm store_clustering l l' records :
  l ≡ₚ l' → streams store_clustering l records → streams store_clustering l' records.
Proof.
  intros Hp (Hnd & Hids & Hr). split_and!; [done| |].
  - intros id. by rewrite Hids, Hp.
  - intros e He. destruct (Hr e He) as (r & Hin & -> & Hmin). exists r. rewrite <-Hp. split_and!; [done..|].
    intros r' Hr'. apply Hmin. by rewrite Hp.
Qed.

(** The embedding stream of a commit announces the number of documents and
    then sends exactly one record per document that has a row of the requested
    types and ids in the version the commit's tag stands for, from a row of the
    lowest chunk index, so that the announced count is the number of records;
    when reading fails after the stream was announced, the receiver gets a
    single error record instead. *)
Theorem stream_embeddings_spec domain branch commit doc_ids doc_types store_clustering s s' total records :
  cache_on_main s →
  io_stream_embeddings domain branch commit doc_ids doc_types store_clustering s = (s', Ok (total, records)) →
  quiet s s' ∧ ∃ h, snapshot_of s domain commit h ∧
    let rows := filter (λ r, scan_keeps (build_filter_expr doc_types doc_ids) r = true) (v_rows h) in
    total = size (list_to_set (C:=gset string) (map cr_doc_id rows)) ∧
    ((∃ e, records = [mkEmbeddingRecord ("__error__: " +:+ e) [] None]) ∨
     streams store_clustering rows records ∧ length records = total).
Proof.
  intros Hcm. unfold io_stream_embeddings.
  intros (s1 & h & Hh & Hrun)%io_bind_ok. apply snapshot_inv in Hh as [Hq Hsnap]; [|done].
  apply io_bind_ok in Hrun as (s2 & bs & (-> & parts & -> & Hp)%io_scan_inv & Hrun).
  apply io_bind_ok in Hrun as (s3 & s0 & [= <- <-] & Hrun). cbv zeta in Hrun.
  set (rows := filter (λ r, scan_keeps (build_filter_expr doc_types doc_ids) r = true) (v_rows h)) in *.
  set (n := size (list_to_set (C:=gset string) (concat (map batch_ids (map (batch_of ["doc_id"; "chunk_index"]) parts))))) in *.
  assert (Hn : n = size (list_to_set (C:=gset string) (map cr_doc_id rows))).
  { unfold n. rewrite map_map. erewrite map_ext by (intros l; apply batch_ids_batch; set_solver).
    rewrite concat_map_map. f_equal. apply list_to_set_perm_L, Permutation_map. by rewrite Hp. }
  destruct (l_run _ h _) as [batches|f] eqn:Erun.
  - injection Hrun as <- <- <-. split; [done|]. exists h. split; [by apply Hsnap|]. split; [done|]. right.
    apply law_run_plain in Erun as (parts' & -> & Hp').
    assert (Hs : streams store_clustering rows (stream_records store_clustering (Ok (map (batch_of
        (if store_clustering then ["doc_id"; "chunk_index"; "embedding"; "clustering_embedding"]
         else ["doc_id"; "chunk_index"; "embedding"])) parts')))).
    { eapply streams_perm; [exact Hp'|]. unfold stream_records. rewrite concat_stream_rows. apply records_stream. }
    split; [done|]. destruct Hs as (Hnd & Hids & _).
    rewrite Hn, <-(length_map er_doc_id), <-(size_list_to_set (C:=gset string)) by done.
    f_equal. apply leibniz_equiv. intros id. rewrite !elem_of_list_to_set. apply Hids.
  - destruct f; try done. injection Hrun as <- <- <-. split; [done|]. exists h. split; [by apply Hsnap|].
    split; [done|]. left. by eexists.
Qed.
End stream_specs.

(** ** Scans of the small dataset

    An index query returns the first rows the filter keeps, at distance zero. *)

Module RefScan.
Definition with_distance (d : f32) (b : RecordBatch) : RecordBatch :=
  mkRecordBatch (num_rows b) (col_doc_id b) (col_chunk_index b) (col_chunk_count b) (col_chunk_token_start b)
    (col_doc_token_len b) (col_content b) (Some (replicate (num_rows b) d)) (col_score b) (col_embedding b)
    (col_clustering_embedding b).

Definition run (w : option RefLance.dir) (h : RefLance.handle) (r : ScanRequest)
    : result ScanFailure (list RecordBatch) :=
  let kept := filter (λ x, scan_keeps (sr_filter r) x = true) (RefLance.rh_rows h) in
  match sr_kind r with
  | Plain => Ok [batch_of (sr_projection r) kept]
  | PlainLimit n => Ok [batch_of (sr_projection r) (take (Z.to_nat n) kept)]
  | Nearest _ _ k => Ok [with_distance F32.zero (batch_of (sr_projection r) (take (Z.to_nat k) kept))]
  | FullText _ _ => Err (StreamFailed "no INVERTED index")
  end.

#[export] Instance scan : LanceScan (option RefLance.dir) RefLance.handle := run.

#[export] Existing Instances RefLance.ops RefLance.view.
Lemma scan_laws : LanceScanLaws (option RefLance.dir) RefLance.handle.
Proof.
  split. intros w h f projection batches [= <-]. eexists [_]. split; [done|]. cbn. by rewrite app_nil_r.
Qed.
End RefScan.

#[local] Existing Instances RefLance.ops RefLance.view RefLance.laws RefLance.versions RefLance.version_laws
  RefScan.scan RefScan.scan_laws StoreExample.ident_serialize StoreExample.cache_order.

Module SnapshotExample.
Import StoreExample.
Definition arow (i : Z) (e : f32) (content : string) : ChunkRow := mkChunkRow "A" "Doc" i 2 0 2 [e] [e] content.

(** [A] in two chunks, the second written first, and [B]; tagged [c1]; then [A]
    replaced on the branch, where no commit is tagged yet. *)
Definition before := fst (io_batch_delete_append "o/t" "main" []
  [arow 1 F32.one "late"; arow 0 F32.zero "early"; row "B" "b"] store0).
Definition tagged := fst (io_tag_commit "o/t" "main" "c1" 2 before).
Definition after := fst (io_batch_delete_append "o/t" "main" ["A"] [arow 0 F32.one "new"] tagged).
#[export] Instance record_order : HashIter string (string * (Z * (list f32 * option (list f32)))) := map_order.

Lemma after_on_main : cache_on_main after.
Proof. apply CommitExample.cache_checked. by vm_compute. Qed.
End SnapshotExample.
#[local] Existing Instance SnapshotExample.record_order.

Lemma fetch_result_embeddings_spec_witness :
  let '(s', r) := io_fetch_result_embeddings "o/t" "main" "c1" ["A"] [] "embedding" SnapshotExample.after in
  r = Ok {[ "A" := [F32.zero] ]} ∧ quiet SnapshotExample.after s'.
Proof.
  destruct (io_fetch_result_embeddings _ _ _ _ _ _ _) as [s' r] eqn:E.
  assert (r = Ok {[ "A" := [F32.zero] ]}) as -> by (by apply (f_equal snd) in E; vm_compute in E).
  split; [done|]. apply fetch_result_embeddings_spec in E as [Hq _]; [done|apply SnapshotExample.after_on_main|by left].
Defined.

Lemma fetch_doc_contents_spec_witness :
  let '(s', r) := io_fetch_doc_contents "o/t" "main" "c1" ["A"; "Z"] SnapshotExample.after in
  r = Ok {[ "A" := "early late" ]} ∧ quiet SnapshotExample.after s'.
Proof.
  destruct (io_fetch_doc_contents _ _ _ _ _) as [s' r] eqn:E.
  assert (r = Ok {[ "A" := "early late" ]}) as -> by (by apply (f_equal snd) in E; vm_compute in E).
  split; [done|]. apply fetch_doc_contents_spec in E as [Hq _]; [done|apply SnapshotExample.after_on_main|done].
Defined.

Lemma stream_embeddings_spec_witness :
  let '(s', r) := io_stream_embeddings "o/t" "main" "c1" [] [] false SnapshotExample.after in
  ∃ records, r = Ok (2, records) ∧ quiet SnapshotExample.after s'.
Proof.
  destruct (io_stream_embeddings _ _ _ _ _ _ _) as [s' r] eqn:E.
  assert (∃ records, r = Ok (2, records)) as [records ->] by (apply (f_equal snd) in E; vm_compute in E; eauto).
  exists records. split; [done|]. apply stream_embeddings_spec in E as [Hq _]; [done|apply SnapshotExample.after_on_main].
Defined.

(** The probe of a similarity search ([io_lookup_doc_chunks]) is read at the
    head of the branch: it can differ from what the searched snapshot holds. *)
Lemma lookup_reads_the_head :
  (∃ hits, snd (io_lookup_doc_chunks "o/t" "main" "A" SnapshotExample.after) = Ok hits ∧ map h_embedding hits = [[F32.one]]) ∧
  snd (io_fetch_result_embeddings "o/t" "main" "c1" ["A"] [] "embedding" SnapshotExample.after) = Ok {[ "A" := [F32.zero] ]}.
Proof. split; [eexists; split; vm_compute; reflexivity|by vm_compute]. Qed.
