(* ===== verification/Isolation.v ===== *)
(** * Snapshot isolation

    The store as a step relation: pushes of both kinds that succeed, fail or are
    superseded, writes of single documents, branching, assignments, index
    maintenance, cleanups, reads, statistics, integrity checks and restarts, in any order and for any domain,
    branch and commit.  None of these steps moves or drops the version that an indexed
    commit stands for, so that what a commit is read from never changes once the
    commit is indexed.  Deleting a domain or a branch index is not a step. *)

From S2P Require Import Prelude F32 RustStr Model Distance LayerIdx Ingest Chunk Schema Rollup Dedup Files Lance Search DatasetCache Store Commit Index Maintain Integrity Stats Embed Pipeline Growth PipelineSpec PipelineRun Snapshot.

Section isolation.
Context {W H : Type} `{LanceLaws W H} {HI : LanceIndexOps W H} {HIL : LanceIndexLaws W H}
        {HV : LanceVersions W H} {HVL : LanceVersionLaws W H} {HIG : LanceIndexGrows W H}
        {HM : LanceMaintOps W H} {HML : LanceMaintLaws W H} {HB : HashIter string (list N)}
        {HS : LanceScan W H} `{ByteSerialize, FormParse}
        {HD : HashIter string (DatasetCacheEntry H)} {HT : HashIter string TagContents} {HU : HashIter string unit}
        {HE : HashIter string (string * (Z * (list f32 * option (list f32))))}.
Implicit Types s : LanceStore W H.

(** ** The readers add nothing either *)

#[export] Instance grows_checkout_tagged p (h : H) k : Grows (checkout_tagged (W:=W) p h k).
Proof. unfold checkout_tagged. apply _. Qed.
#[export] Instance grows_snapshot d b c : Grows (io_snapshot_from_cache (W:=W) (H:=H) d b c).
Proof. unfold io_snapshot_from_cache. apply _. Qed.
#[export] Instance grows_scan p err (h : H) r : Grows (io_scan (W:=W) p err h r).
Proof. intros s s' x [= <- _]. reflexivity. Qed.
#[export] Instance grows_pure {A} (r : result StoreError A) : Grows (io_pure (W:=W) (H:=H) r).
Proof. intros s s' x [= <- _]. reflexivity. Qed.
#[export] Instance grows_lookup d b i : Grows (io_lookup_doc_chunks (W:=W) (H:=H) d b i).
Proof. unfold io_lookup_doc_chunks, scan_doc_chunks. apply _. Qed.
#[export] Instance grows_fetch d b c ids tys col : Grows (io_fetch_result_embeddings (W:=W) (H:=H) d b c ids tys col).
Proof. unfold io_fetch_result_embeddings. apply _. Qed.
#[export] Instance grows_contents d b c ids : Grows (io_fetch_doc_contents (W:=W) (H:=H) d b c ids).
Proof. unfold io_fetch_doc_contents. apply _. Qed.
#[export] Instance grows_stream_embeddings d b c ids tys sc : Grows (io_stream_embeddings (W:=W) (H:=H) d b c ids tys sc).
Proof. unfold io_stream_embeddings. cbv zeta. apply _. Qed.
#[export] Instance grows_search {A} f d b c : Grows (store_search (W:=W) (H:=H) (A:=A) f d b c).
Proof.
  intros s s' x. unfold store_search. destruct (io_snapshot_from_cache d b c s) as [s1 h] eqn:Er.
  apply grows_run in Er. by intros [= <- _].
Qed.

#[export] Instance keeps_of_quiet {A} (c : io W H A) : Within quiet c → Within store_keeps c | 20.
Proof. intros Hc s s' r Hr. by eapply store_grows_keeps, quiet_grows, Hc. Qed.
#[export] Instance quiet_statistics : Within quiet (Stats.statistics (W:=W) (H:=H)).
Proof. apply answers_quiet, statistics_answers. Qed.
#[export] Instance quiet_statistics_for_domain d sc : Within quiet (Stats.statistics_for_domain (W:=W) (H:=H) d sc).
Proof. apply answers_quiet, statistics_for_domain_answers. Qed.

(** ** Steps *)

Context (vector_config : VectorIndexConfig) (clustering_config : option VectorIndexConfig) (store_clustering : bool).
(** The store's operations, other than pushes, that a request or a task runs. *)
Inductive operation : ∀ A, io W H A → Prop :=
| op_upsert d b id rows : operation _ (io_upsert_chunks d b id rows)
| op_batch d b ids rows : operation _ (io_batch_delete_append d b ids rows)
| op_delete_doc d b id : operation _ (io_delete_doc d b id)
| op_fork d b parent : operation _ (io_ensure_branch_forked d b parent)
| op_create_branch d b v : operation _ (io_create_branch d b v)
| op_list_branches d : operation _ (io_list_branches d)
| op_assign d b c c' : operation _ (io_assign_commit d b c c')
| op_tag d b c v : operation _ (io_tag_commit d b c v)
| op_reserve d b c : operation _ (io_try_reserve_commit d b c)
| op_release d b c : operation _ (io_release_commit_reservation d b c)
| op_register d b n : operation _ (cancel_previous_pipeline_and_register d b n)
| op_unregister d b : operation _ (unregister_pipeline_cancel_token d b)
| op_last_indexed d b : operation _ (last_indexed d b)
| op_resolve d b c : operation _ (io_resolve_commit d b c)
| op_list_commits d : operation _ (io_list_commit_versions d)
| op_delta d a b : operation _ (io_compute_delta_between_commits d a b)
| op_apply_delta p h delta : operation _ (io_apply_delta_on_branch p h delta)
| op_fts p h : operation _ (io_ensure_fts_index_on_dataset p h)
| op_vector p h config force : operation _ (io_ensure_vector_index p h config force)
| op_clustering p h config force : operation _ (io_ensure_clustering_vector_index p h config force)
| op_compact p h force : operation _ (io_compact_data p h force)
| op_cascade p h n : operation _ (io_cascade p h n)
| op_cleanup_old d b : operation _ (io_cleanup_old_versions d b)
| op_cleanup d b : operation _ (io_cleanup_aggressive d b)
| op_prune_stale d b : operation _ (io_prune_stale_index_dirs d b)
| op_prune_empty d : operation _ (io_prune_empty_index_dirs d)
| op_lookup d b id : operation _ (io_lookup_doc_chunks d b id)
| op_fetch d b c ids tys col : operation _ (io_fetch_result_embeddings d b c ids tys col)
| op_contents d b c ids : operation _ (io_fetch_doc_contents d b c ids)
| op_stream d b c ids tys sc : operation _ (io_stream_embeddings d b c ids tys sc)
| op_statistics : operation _ Stats.statistics
| op_statistics_for_domain d sc : operation _ (Stats.statistics_for_domain d sc)
| op_integrity d : operation _ (io_integrity_check d)
| op_search A f d b c : operation A (store_search f d b c).

Lemma operation_keeps {A} (c : io W H A) : operation A c → Within store_keeps c.
Proof. intros Hop. destruct Hop; apply _. Qed.

Inductive store_step s : LanceStore W H → Prop :=
| step_buffered E (He : Embedder E) encode params (e e' : E) d b commit ops s' r :
    io_run_index_pipeline vector_config clustering_config store_clustering encode params e d b commit ops s
      = (e', Some (s', r)) → store_step s s'
| step_stream E (He : Embedder E) encode params cancelled ebs progress (e e' : E) d b commit ops expected s' r msgs :
    io_run_index_pipeline_stream vector_config clustering_config store_clustering encode params cancelled ebs progress
      e d b commit ops expected s = (e', Some (s', r, msgs)) → store_step s s'
| step_operation A (c : io W H A) s' r : operation A c → c s = (s', r) → store_step s s'
| step_restart base dim : store_step s (open_store base dim (st_disk s)).

(** A restart: the caches are gone, hidden index directories are back. *)
Lemma restart_keeps s base dim : store_keeps s (open_store base dim (st_disk s)).
Proof.
  split; [|intros d e He; cbn in He; done]. intros p. unfold dir_of, open_store, new_store. cbn.
  unfold recover_stranded_index_backups. destruct (ff_read_dir _ _); [reflexivity|]. rewrite map_lookup_imap.
  destruct (st_disk s !! p) as [w|]; cbn; [|reflexivity]. destruct (_ && _); [|reflexivity].
  destruct (law_put_entries (recover_index_dir (l_fs p) (l_entries w)) w) as (Ht & _ & Hv).
  { intros x Hx1 Hx2. apply recover_index_dir_outside. by apply not_index_entry. }
  split; [by rewrite Ht|]. intros t c h _ Hh. by rewrite Hv.
Qed.

Lemma step_keeps s s' : store_step s s' → store_keeps s s'.
Proof.
  intros Hs. destruct Hs as [???????????? Hr|????????????????? Hr|???? Hop Hr|].
  - by eapply buffered_keeps.
  - by eapply stream_keeps.
  - by eapply (operation_keeps _ Hop).
  - apply restart_keeps.
Qed.

Lemma steps_keep s s' : rtc store_step s s' → store_keeps s s'.
Proof. induction 1 as [s|s1 s2 s3 Hs _ IH]; [reflexivity|]. etrans; [by apply step_keeps|done]. Qed.

(** ** What a commit stands for *)

Lemma snapshot_keeps s s' d c h : store_keeps s s' → snapshot_of s d c h → snapshot_of s' d c h.
Proof.
  intros Hg (k & Hk & Hv). destruct (sk_dirs _ _ Hg (dataset_path d)) as [Ht Hvs]. exists k.
  unfold domain_tags in *. split; [by eapply lookup_weaken|by eapply Hvs].
Qed.

Lemma snapshot_unique s d c h h' : snapshot_of s d c h → snapshot_of s d c h' → h = h'.
Proof. intros (k & Hk & Hv) (k' & Hk' & Hv'). congruence. Qed.

Lemma keeps_on_main s s' : store_keeps s s' → cache_on_main s → cache_on_main s'.
Proof. intros Hg. apply cache_from_on_main, Hg. Qed.

Lemma committed_snapshot d b commit rows s s' :
  committed d b commit rows s s' → ∃ h, snapshot_of s' d commit h ∧ v_rows h = rows.
Proof.
  intros C. destruct (cm_tag _ _ _ _ _ _ C) as (h & at_ & Hr & Hrec & Ht & _). exists h. split; [|done].
  eexists. rewrite Ht, lookup_insert_eq. split; [done|]. exact Hrec.
Qed.

(** Snapshot isolation: whatever is run on the store afterwards, an indexed
    commit keeps standing for the same version, and every later search,
    similarity query or stream that opens the commit gets that version. *)
Theorem snapshot_isolation d commit h s s' :
  cache_on_main s → snapshot_of s d commit h → rtc store_step s s' →
  snapshot_of s' d commit h ∧
  ∀ b s'' r, io_open_snapshot d b commit s' = (s'', r) → ∀ h', r = Ok h' → h' = h.
Proof.
  intros Hcm Hs Hg%steps_keep. assert (Hs' : snapshot_of s' d commit h) by (by eapply snapshot_keeps).
  split; [done|]. intros b s'' r Hr h' ->. apply snapshot_inv in Hr as [_ Hr]; [|by eapply keeps_on_main].
  eapply snapshot_unique; [by apply Hr|done].
Qed.

Context (encode : string → result string Encoding) (params : ChunkParams).
Context {E : Type} {He : Embedder E} (inv : E → Prop) (fd fc : string → option (list f32)).

(** C12: what was pushed is what is read: after a streamed push of a commit has
    succeeded, and whatever has been run on the store since, opening the
    commit for reading yields, if anything, a version whose rows are the ones
    the branch had before the push, less the documents deleted or replaced,
    followed by the rows of the pushed documents. *)
Theorem pushed_commit_is_served cancelled ebs progress d b commit ops expected e e' s s1 s' s'' count skipped msgs b' h :
  provider_for encode params inv fd fc s → inv e → ready s d b →
  io_run_index_pipeline_stream vector_config clustering_config store_clustering encode params cancelled ebs progress
    e d b commit ops expected s = (e', Some (s1, Ok (count, skipped), msgs)) →
  rtc store_step s1 s' → io_open_snapshot d b' commit s' = (s'', Ok h) →
  let eff := commit_effect store_clustering encode params fd fc s ops in
  v_rows h = without_docs (ef_delete eff) (head_rows s d b) ++ ef_rows eff.
Proof.
  intros Hp Hi Hr Hrun Hg%steps_keep Ho. cbv zeta. pose proof Hrun as Hg1. apply stream_keeps in Hg1.
  apply (stream_run _ _ _ _ _ inv fd fc) in Hrun as (C & _); [|done..].
  apply committed_snapshot in C as (h0 & Hs & <-). destruct Hr as [Hcm _].
  apply snapshot_inv in Ho as [_ Ho]; [|by do 2 (eapply keeps_on_main; [done|])].
  f_equal. eapply snapshot_unique; [by apply Ho|]. by eapply snapshot_keeps.
Qed.
End isolation.

(** ** On the small dataset *)

#[local] Existing Instances RefScan.scan RefScan.scan_laws.
Import RunExample.

Module IsolationExample.
#[export] Existing Instances SnapshotExample.record_order IntegrityExample.unit_order StatsExample.plain_form.

(** After the streamed push of [c1]: a document is overwritten and another one
    deleted on the branch, and the process restarts. *)
Definition pushed := match streamed with (_, Some (s, _, _)) => s | _ => store1 end.
Definition overwritten := fst (io_upsert_chunks "o/t" "main" "A" [row "A" "a3"] pushed).
Definition removed := fst (io_delete_doc "o/t" "main" "C" overwritten).
Definition later : CommitExample.St := open_store "/data" 1 (st_disk removed).

Lemma later_steps : rtc (store_step config (Some config) true) pushed later.
Proof.
  apply rtc_l with overwritten.
  { eapply step_operation; [apply (op_upsert "o/t" "main" "A" [row "A" "a3"])|]. apply surjective_pairing. }
  apply rtc_l with removed.
  { eapply step_operation; [apply (op_delete_doc "o/t" "main" "C")|]. apply surjective_pairing. }
  apply rtc_once, step_restart.
Qed.

Lemma head_moved_on : head_rows later "o/t" "main" = [row "A" "a3"].
Proof. by vm_compute. Qed.
End IsolationExample.
Import IsolationExample.

Lemma snapshot_isolation_witness :
  ∃ h, snapshot_of pushed "o/t" "c1" h ∧ snapshot_of later "o/t" "c1" h ∧ v_rows h = rows_after.
Proof.
  assert (∃ h, snapshot_of pushed "o/t" "c1" h ∧ v_rows h = rows_after) as (h & Hs & Hr).
  { eexists (RefLance.mkHandle None _ rows_after). split; [|done]. eexists. split; vm_compute; reflexivity. }
  exists h. split; [done|]. split; [|done].
  refine (proj1 (snapshot_isolation config (Some config) true "o/t" "c1" h pushed later _ Hs later_steps)).
  apply CommitExample.cache_checked. by vm_compute.
Defined.

Lemma pushed_commit_is_served_witness :
  match io_open_snapshot "o/t" "main" "c1" later with
  | (_, Ok h) => v_rows h = rows_after
  | _ => False
  end.
Proof.
  destruct (io_open_snapshot "o/t" "main" "c1" later) as [s'' [h|err]] eqn:Eo.
  2: refute_as (λ x, is_ok x.2) in Eo.
  destruct streamed as [e' [[[s1 [[count skipped]|err]] msgs]|]] eqn:Er.
  2-3: refute_as (λ x, match x.2 with Some (_, Ok _, _) => true | _ => false end) in Er.
  assert (Hs : pushed = s1) by (unfold pushed; by rewrite Er).
  pose proof later_steps as Hl. rewrite Hs in Hl.
  pose proof (pushed_commit_is_served config (Some config) true one_token window (λ _ : unit, True) unit_vector unit_vector
    _ _ _ _ _ _ _ _ _ _ _ _ _ _ _ _ _ _ _ (provider store1 eq_refl) I ready_store1 Er Hl Eo) as ->. by vm_compute.
Defined.
