(* ===== verification/Neighbours.v ===== *)
(** * Neighbours of a snapshot (src/src/store/lance/resolve.rs)

    The stateful half of the file Knn: the scans and index queries behind the
    near-duplicate scan and the cross-neighbour maps, on the snapshot of a
    commit.  [LanceNearestLaws] is what they rely on: an index query returns
    rows of the version that its filter keeps, with a distance. *)

From S2P Require Import Prelude F32 RustStr Model Distance LayerIdx Schema Dedup Lance Search Resolve Knn DatasetCache Store Commit Snapshot.

(** [count_rows] of a scan with an optional filter. *)
Class LanceCount (W H : Type) := l_count : W → H → option Expr → result string nat.

Record ResolveNeighbourMaps := mkResolveNeighbourMaps {
  rn_set_to_target : gmap string (list Neighbour);
  rn_target_to_set : gmap string (list Neighbour);
}.

Section neighbours.
Context {W H : Type} `{LanceOps W H, LanceScan W H, LanceCount W H} `{ByteSerialize}
        {HD : HashIter string (DatasetCacheEntry H)} {HU : HashIter string unit} {HI : HashIter string f32}
        {HO : HashIter (string * string) CanonicalObservation}.
Context (cosine_distance : list f32 → list f32 → f32).

(** ** The points of a population *)

Definition scan_points (w : W) (ds : H) (set_filter : option Expr) (snippet : bool) : result StoreError (list IndexedPoint) :=
  batches ← map_err (scan_error "duplicates projection failed: " "duplicates scan stream failed: "
                       "duplicates scan collect failed: ")
              (l_run w ds (mkScanRequest Plain set_filter
                 (if snippet then ["doc_id"; "embedding"; "content"] else ["doc_id"; "embedding"])));
  batches_to_points batches snippet.

Definition io_scan_points (path : string) (ds : H) (set_filter : option Expr) (snippet : bool)
    : io W H (list IndexedPoint) := λ s, (s, scan_points (dir_of s path) ds set_filter snippet).

(** ** Near duplicates *)

Definition nearest_error (scan : string) (f : ScanFailure) : StoreError :=
  StoreInternal match f with
  | SetupFailed e | LimitFailed e => scan +:+ " nearest setup failed: " +:+ e
  | ProjectFailed e => scan +:+ " nearest projection failed: " +:+ e
  | StreamFailed e => scan +:+ " nearest stream failed: " +:+ e
  | CollectFailed e => scan +:+ " nearest collect failed: " +:+ e
  end.

Definition NEIGHBOUR_K : Z := 8.

(** The query of [io_nearest_neighbour]. *)
Definition nearest_neighbour (w : W) (ds : H) (scope : DuplicateScope) (snippet : bool) (point : IndexedPoint)
    : result StoreError (list RecordBatch) :=
  map_err (nearest_error "duplicates")
    (l_run w ds (mkScanRequest (Nearest "embedding" (ip_embedding point) NEIGHBOUR_K)
       (build_neighbour_filter (ip_doc_id point) scope) (if snippet then ["doc_id"; "content"] else ["doc_id"]))).

Definition duplicate_groups (domain branch commit : string) (threshold : f32) (scope : DuplicateScope) (snippet : bool)
    (max_points : nat) : io W H (list DuplicateGroup) :=
  let! snapshot := io_open_snapshot domain branch commit in
  let set_filter := build_filter_expr (set_doc_types scope) (set_doc_ids scope) in
  λ s, let w := dir_of s (dataset_path domain) in
    (s, Knn.io_duplicate_groups
          (map_err (λ e, StoreInternal ("count_rows for duplicates failed: " +:+ e)) (l_count w snapshot set_filter))
          (map_err (scan_error "duplicates projection failed: " "duplicates scan stream failed: "
                      "duplicates scan collect failed: ")
             (l_run w snapshot (mkScanRequest Plain set_filter
                (if snippet then ["doc_id"; "embedding"; "content"] else ["doc_id"; "embedding"]))))
          (nearest_neighbour w snapshot scope snippet) threshold snippet max_points).

(** ** Cross neighbours *)

(** One batch of the candidate scan.  The source reads the stream batch by
    batch; a failed read after a batch that is refused reports the latter. *)
Definition candidate_rows (b : RecordBatch) : result StoreError (list MaterialisedCandidate) :=
  if (num_rows b =? 0)%nat then Ok []
  else
    doc_ids ← ok_or (StoreInternal "candidate scan: missing `doc_id` column") (col_doc_id b);
    embeddings ← ok_or (StoreInternal "candidate scan: missing `embedding` column") (col_embedding b);
    res_map (λ i,
      embedding ← extract_embedding_row embeddings i (value "" doc_ids i);
      Ok (mkMaterialisedCandidate (value "" doc_ids i) embedding)) (seq 0 (num_rows b)).

Definition materialise_candidates (w : W) (ds : H) (candidate_doc_ids : list string)
    : result StoreError (list MaterialisedCandidate) :=
  if is_empty candidate_doc_ids then Ok []
  else
    filter ← ok_or (StoreInternal "candidate filter unexpectedly empty (non-empty doc_ids list produced no Expr)")
               (build_filter_expr [] candidate_doc_ids);
    batches ← map_err (scan_error "candidate scan projection failed: " "candidate scan stream failed: "
                         "candidate scan stream batch failed: ")
                (l_run w ds (mkScanRequest Plain (Some filter) ["doc_id"; "embedding"]));
    rows ← res_map candidate_rows batches;
    Ok (concat rows).

(** The query of one probe of the index path. *)
Definition nearest_candidates (w : W) (ds : H) (candidate_doc_ids : list string) (point : IndexedPoint) (fetch_k : nat)
    : result StoreError (list RecordBatch) :=
  map_err (nearest_error "resolve")
    (l_run w ds (mkScanRequest (Nearest "embedding" (ip_embedding point) (Z.of_nat fetch_k))
       (Some (And (InList "doc_id" candidate_doc_ids) (NotEqLit "doc_id" (ip_doc_id point)))) ["doc_id"])).

Definition collect_top_k_cross (w : W) (ds : H) (points : list IndexedPoint) (candidate_doc_ids : list string)
    (k : nat) (threshold : f32) : result StoreError (gmap string (list Neighbour)) :=
  io_collect_top_k_cross cosine_distance (materialise_candidates w ds) (nearest_candidates w ds)
    points candidate_doc_ids k threshold.

(** The ids of the points, once each, in the order of a [HashSet]. *)
Definition point_ids (points : list IndexedPoint) : list string :=
  (hash_iter (list_to_map (map (λ p, (ip_doc_id p, tt)) points) : gmap string unit)).*1.

Definition io_resolve_cross_neighbours (domain branch commit : string) (scope : DuplicateScope) (k : nat)
    (threshold_set threshold_target : f32) (max_points : nat) : io W H ResolveNeighbourMaps :=
  let path := dataset_path domain in
  let! snapshot := io_open_snapshot domain branch commit in
  let! set_points := io_scan_points path snapshot (build_filter_expr (set_doc_types scope) (set_doc_ids scope)) false in
  let! target_points :=
    if has_target scope
    then io_scan_points path snapshot (build_filter_expr (target_doc_types scope) (target_doc_ids scope)) false
    else io_ret set_points in
  let total_points := (length set_points + length target_points)%nat in
  if (max_points <? total_points)%nat then
    io_throw (StoreInternal ("resolve refused: combined population has " +:+ pretty (N.of_nat total_points)
      +:+ " points (set=" +:+ pretty (N.of_nat (length set_points)) +:+ ", target=" +:+ pretty (N.of_nat (length target_points))
      +:+ "), exceeds the bound of " +:+ pretty (N.of_nat max_points) +:+ " — narrow the scope"))
  else
    let! set_to_target := λ s, (s, collect_top_k_cross (dir_of s path) snapshot set_points (point_ids target_points) k threshold_set) in
    let! target_to_set := λ s, (s, collect_top_k_cross (dir_of s path) snapshot target_points (point_ids set_points) k threshold_target) in
    io_ret (mkResolveNeighbourMaps set_to_target target_to_set).
End neighbours.

(** ** Index queries *)

Class LanceNearestLaws (W H : Type) `{LanceOps W H, LanceView W H, LanceScan W H} : Prop := {
  law_run_nearest w h column probe k f projection batches :
    l_run w h (mkScanRequest (Nearest column probe k) f projection) = Ok batches →
    ∃ parts, Forall2 (λ b rows, num_rows b = length rows ∧
        col_doc_id b = (if has_col projection "doc_id" then Some (map cr_doc_id rows) else None)) batches parts ∧
      ∀ r, r ∈ concat parts → r ∈ v_rows h ∧ scan_keeps f r = true;
}.

(** ** Soundness *)

Section sound.
Context {HI : HashIter string f32}.
Context (cosine_distance : list f32 → list f32 → f32).

(** Neighbours of [a] among [ids], within the threshold. *)
Definition neighbours_of (ids : list string) (threshold : f32) (a : string) (ns : list Neighbour) : Prop :=
  Forall (λ n, nb_id n ∈ ids ∧ nb_id n ≠ a ∧ F32.gt (nb_distance n) threshold = false) ns.

(** A map from ids of [sources] to such neighbours. *)
Definition cross_sound (sources ids : list string) (threshold : f32) (m : gmap string (list Neighbour)) : Prop :=
  ∀ a ns, m !! a = Some ns → a ∈ sources ∧ neighbours_of ids threshold a ns.

Lemma merge_neighbours_of ids t a existing new :
  neighbours_of ids t a existing → neighbours_of ids t a new → neighbours_of ids t a (merge_neighbours existing new).
Proof.
  intros He Hn. unfold merge_neighbours. revert existing He. induction Hn as [|n new (Hi & Hne & Hd) Hn IH]; intros existing He; [done|].
  cbn [foldl]. apply IH. clear IH. induction He as [|e existing (Hi' & Hne' & Hd') He IH]; cbn [merge_one].
  - repeat constructor; done.
  - destruct (String.eqb_spec (nb_id e) (nb_id n)) as [Heq|]; [|by constructor].
    constructor; [|done]. destruct (F32.lt _ _); [|done]. cbn. split; [|split]; [congruence|congruence|done].
Qed.

Lemma add_neighbours sources ids t acc a ns :
  a ∈ sources → neighbours_of ids t a ns → cross_sound sources ids t acc →
  cross_sound sources ids t match acc !! a with
    | Some existing => <[a := merge_neighbours existing ns]> acc
    | None => <[a := ns]> acc
    end.
Proof.
  intros Ha Hn Hacc a' ns'. destruct (acc !! a) as [existing|] eqn:E;
    (destruct (decide (a' = a)) as [->|Hne]; [rewrite lookup_insert_eq; intros [= <-]|by rewrite lookup_insert_ne; [apply Hacc|]]).
  - split; [done|]. apply merge_neighbours_of; [|done]. by apply (Hacc a).
  - done.
Qed.

Lemma sorted_top_k_of (P : string → f32 → Prop) m k :
  (∀ id d, m !! id = Some d → P id d) → Forall (λ n, P (nb_id n) (nb_distance n)) (sorted_top_k m k).
Proof.
  intros Hm. unfold sorted_top_k. apply Forall_forall. intros n ([id d] & -> & Hin%elem_of_take_in)%list_elem_of_fmap.
  rewrite sort_by_perm, hash_iter_elem in Hin. by apply Hm.
Qed.

Lemma best_fold_in l id d : foldl best_step ∅ l !! id = Some d → (id, d) ∈ l.
Proof.
  rewrite best_fold_lookup. destruct (keep_best _ _ l !! id) as [[i d']|] eqn:E; [|done]. cbn. intros [= ->].
  apply keep_best_lookup in E as (Hin & <- & _); [done|apply _].
Qed.

Lemma flat_neighbours probe self cs k t :
  neighbours_of (map mc_doc_id cs) t self (flat_knn_top_k cosine_distance probe self cs k t).
Proof.
  unfold flat_knn_top_k. rewrite flat_fold. apply (sorted_top_k_of (λ id d, id ∈ map mc_doc_id cs ∧ id ≠ self ∧ F32.gt d t = false)).
  intros id d Hd%best_fold_in. unfold flat_candidates in Hd. apply list_elem_of_filter in Hd as [[Hne Hgt] Hd].
  apply list_elem_of_fmap in Hd as (c & [= -> ->] & Hc). split; [|done]. apply list_elem_of_fmap. eauto.
Qed.

Lemma flat_cross_sound cs points k t :
  cross_sound (map ip_doc_id points) (map mc_doc_id cs) t (io_collect_top_k_cross_flat cosine_distance cs points k t).
Proof.
  unfold io_collect_top_k_cross_flat. destruct (is_empty cs); [by intros a ns; rewrite lookup_empty|].
  assert (Hsub : ∀ p, p ∈ points → ip_doc_id p ∈ map ip_doc_id points) by (intros p Hp; apply list_elem_of_fmap; eauto).
  revert Hsub. generalize (map ip_doc_id points) as sources. intros sources.
  assert (Hnil : cross_sound sources (map mc_doc_id cs) t ∅) by (intros a ns; by rewrite lookup_empty).
  revert Hnil. generalize (∅ : gmap string (list Neighbour)). induction points as [|p points IH]; intros acc Hacc Hsub; [done|].
  cbn [foldl]. apply IH; [|by intros; apply Hsub; right]. unfold collect_flat_step.
  destruct (is_empty (flat_knn_top_k _ _ _ _ _ _)); [done|]. apply add_neighbours; [apply Hsub; by left|apply flat_neighbours|done].
Qed.

(** What an index query of one probe returned. *)
Definition nearest_ok (ids : list string) (self : string) (batches : list RecordBatch) : Prop :=
  ∀ b l i, b ∈ batches → col_doc_id b = Some l → i < num_rows b → value "" l i ∈ ids ∧ value "" l i ≠ self.

Lemma extract_neighbours ids self batches k t ns :
  nearest_ok ids self batches → extract_top_k_neighbours batches k t = Ok ns → neighbours_of ids t self ns.
Proof.
  intros Hb. unfold extract_top_k_neighbours. destruct (extract_batches t batches ∅) as [m|] eqn:E; [|done]. cbn. intros [= <-].
  apply (sorted_top_k_of (λ id d, id ∈ ids ∧ id ≠ self ∧ F32.gt d t = false)). revert E.
  set (Q := λ m : gmap string f32, ∀ id d, m !! id = Some d → id ∈ ids ∧ id ≠ self ∧ F32.gt d t = false).
  assert (H0 : Q ∅) by (intros id d; by rewrite lookup_empty). revert H0. generalize (∅ : gmap string f32) as acc.
  change (∀ acc, Q acc → extract_batches t batches acc = Ok m → Q m).
  induction batches as [|b batches IH]; intros acc Hacc; cbn [extract_batches]; [by intros [= <-]|].
  assert (IH' := IH ltac:(intros b' l i Hb'; apply Hb; by right)). clear IH.
  destruct (num_rows b =? 0)%nat; [by apply IH'|]. destruct (col_doc_id b) as [l|] eqn:El; [|done].
  destruct (col_distance b) as [ds|]; [|done]. cbn. apply IH'.
  assert (Hrows : ∀ i, i ∈ seq 0 (num_rows b) → value "" l i ∈ ids ∧ value "" l i ≠ self).
  { intros i Hi%elem_of_seq. apply (Hb b l i); [by left|done|lia]. }
  revert acc Hacc. induction (seq 0 (num_rows b)) as [|i js IHi]; intros acc Hacc; [done|]. cbn [foldl].
  apply IHi; [by intros j Hj; apply Hrows; right|]. unfold extract_rows. destruct (F32.gt _ t) eqn:Eg; [done|].
  destruct (Hrows i) as [Hi Hs]; [by left|]. intros id d. unfold best_step. cbn.
  destruct (acc !! value "" l i) as [best|]; [destruct (F32.lt _ best); [|apply Hacc]|];
    (destruct (decide (id = value "" l i)) as [->|Hne];
      [rewrite lookup_insert_eq; intros [= <-]; done|rewrite lookup_insert_ne by done; apply Hacc]).
Qed.

Lemma ann_cross_sound nearest sources ids points k t acc m :
  (∀ p batches, p ∈ points → nearest p (k * 2) = Ok batches → nearest_ok ids (ip_doc_id p) batches) →
  (∀ p, p ∈ points → ip_doc_id p ∈ sources) →
  cross_sound sources ids t acc → io_collect_top_k_cross_ann nearest points k t acc = Ok m → cross_sound sources ids t m.
Proof.
  revert acc. induction points as [|p points IH]; intros acc Hn Hs Hacc; cbn [io_collect_top_k_cross_ann]; [by intros [= <-]|].
  destruct (nearest p (k * 2)) as [batches|] eqn:E; [|done]. cbn. apply Hn in E; [|by left].
  destruct (extract_top_k_neighbours batches k t) as [ns|] eqn:Ee; [|done]. cbn. apply (extract_neighbours ids (ip_doc_id p)) in Ee; [|done].
  apply IH; [by intros; eapply Hn; [right|]|by intros; apply Hs; right|]. apply add_neighbours; [apply Hs; by left|done|done].
Qed.
End sound.

Section cross.
Context {W H : Type} `{LanceLaws W H} {HV : LanceVersions W H} {HVL : LanceVersionLaws W H}
        {HS : LanceScan W H} {HSL : LanceScanLaws W H} {HN : LanceNearestLaws W H} {HCt : LanceCount W H} `{ByteSerialize}
        {HD : HashIter string (DatasetCacheEntry H)} {HU : HashIter string unit} {HI : HashIter string f32}.
Context (cosine_distance : list f32 → list f32 → f32).
Implicit Types s : LanceStore W H.

Definition point_of (r : ChunkRow) : IndexedPoint := mkIndexedPoint (cr_doc_id r) (cr_embedding r) None.

Lemma points_batch rows :
  batch_to_points false (batch_of ["doc_id"; "embedding"] rows) = Ok (map point_of rows).
Proof.
  unfold batch_to_points. destruct rows as [|r0 rows0] eqn:Er; [done|]. rewrite <-Er.
  assert ((num_rows (batch_of ["doc_id"; "embedding"] rows) =? 0)%nat = false) as -> by (by rewrite Er).
  cbn [batch_of col_doc_id col_embedding num_rows]. rewrite !has_col_true by (rewrite !elem_of_cons; tauto).
  cbn [ok_or mbind result_mbind]. apply res_map_rows. intros i r Hr.
  unfold extract_embedding_row. by rewrite !(value_map _ _ rows i r Hr).
Qed.

Lemma candidates_batch rows :
  candidate_rows (batch_of ["doc_id"; "embedding"] rows) = Ok (map (λ r, mkMaterialisedCandidate (cr_doc_id r) (cr_embedding r)) rows).
Proof.
  unfold candidate_rows. destruct rows as [|r0 rows0] eqn:Er; [done|]. rewrite <-Er.
  assert ((num_rows (batch_of ["doc_id"; "embedding"] rows) =? 0)%nat = false) as -> by (by rewrite Er).
  cbn [batch_of col_doc_id col_embedding num_rows]. rewrite !has_col_true by (rewrite !elem_of_cons; tauto).
  cbn [ok_or mbind result_mbind]. apply res_map_rows. intros i r Hr.
  unfold extract_embedding_row. by rewrite !(value_map _ _ rows i r Hr).
Qed.

Lemma res_map_batches {A B E} (F : A → result E (list B)) (G : ChunkRow → B) (mk : list ChunkRow → A) parts :
  (∀ rows, F (mk rows) = Ok (map G rows)) → res_map F (map mk parts) = Ok (map (map G) parts).
Proof. intros HF. induction parts as [|p parts IH]; [done|]. cbn. rewrite HF. cbn. by rewrite IH. Qed.

(** The points of a population are those of the rows the filter keeps. *)
Lemma scan_points_spec w h tys ids points :
  scan_points w h (build_filter_expr tys ids) false = Ok points →
  ∀ p, p ∈ points ↔ ∃ r, p = point_of r ∧ wanted tys ids r ∧ r ∈ v_rows h.
Proof.
  unfold scan_points. destruct (l_run w h _) as [batches|] eqn:E; [|done]. cbn. apply law_run_plain in E as (parts & -> & Hp).
  unfold batches_to_points. rewrite (res_map_batches _ _ _ parts points_batch). cbn. intros [= <-] p.
  rewrite concat_map_map, list_elem_of_fmap. by setoid_rewrite (kept_rows _ _ _ _ Hp).
Qed.

Lemma candidates_in w h ids cs : materialise_candidates w h ids = Ok cs → ∀ id, id ∈ map mc_doc_id cs → id ∈ ids.
Proof.
  unfold materialise_candidates. destruct ids as [|i ids']; cbn [is_empty]; [intros [= <-] id Hid; by apply elem_of_nil in Hid|].
  set (ids := i :: ids'). destruct (build_filter_expr [] ids) as [f|] eqn:Ef; [|done]. cbn.
  destruct (l_run w h _) as [batches|] eqn:E; [|done]. cbn. apply law_run_plain in E as (parts & -> & Hp).
  rewrite (res_map_batches _ _ _ parts candidates_batch). cbn. intros [= <-] id. rewrite concat_map_map, map_map.
  intros (r & -> & Hr)%list_elem_of_fmap. cbn. rewrite <-Ef in Hp. apply (kept_rows _ _ _ _ Hp) in Hr as [[_ [Hn|Hi]] _]; done.
Qed.

Lemma nearest_batches w h ids p k batches :
  nearest_candidates w h ids p k = Ok batches → nearest_ok ids (ip_doc_id p) batches.
Proof.
  unfold nearest_candidates. destruct (l_run w h _) as [bs|] eqn:E; [|done]. cbn. intros [= ->].
  apply law_run_nearest in E as (parts & Hf & Hkept). intros b l i Hb El Hi.
  apply list_elem_of_lookup in Hb as [j Hb]. destruct (Forall2_lookup_l _ _ _ _ _ Hf Hb) as (rows & Hrows & Hn & Hid).
  rewrite has_col_true in Hid by (by left). rewrite El in Hid. injection Hid as ->.
  destruct (lookup_lt_is_Some_2 rows i) as [r Hri]; [lia|]. rewrite (value_map _ _ _ _ _ Hri).
  destruct (Hkept r) as [_ Hk].
  { apply list_elem_of_In, in_concat. exists rows. split; apply list_elem_of_In, list_elem_of_lookup; eauto. }
  cbn in Hk. unfold row_selected in Hk. cbn in Hk. apply andb_true_iff in Hk as [Hin Hne].
  apply bool_decide_eq_true in Hin. apply negb_true_iff, String.eqb_neq in Hne. done.
Qed.

(** Both query paths. *)
Lemma collect_sound w h points ids k t m :
  collect_top_k_cross cosine_distance w h points ids k t = Ok m → cross_sound (map ip_doc_id points) ids t m.
Proof.
  unfold collect_top_k_cross, io_collect_top_k_cross. destruct (length ids <=? _)%nat.
  - destruct (materialise_candidates w h ids) as [cs|] eqn:E; [|done]. cbn. intros [= <-] a ns Ha.
    apply flat_cross_sound in Ha as [Ha Hn]. split; [done|]. eapply Forall_impl; [exact Hn|].
    intros n (Hi & ?). split; [by eapply candidates_in|done].
  - apply ann_cross_sound; [|by intros p Hp; apply list_elem_of_fmap; eauto|by intros a ns; rewrite lookup_empty].
    intros p batches _. apply nearest_batches.
Qed.

Lemma point_ids_elem points id : id ∈ point_ids points ↔ id ∈ map ip_doc_id points.
Proof.
  unfold point_ids. rewrite list_elem_of_fmap, list_elem_of_fmap. split.
  - intros ([i []] & -> & Hi%hash_iter_elem). apply elem_of_list_to_map_2, list_elem_of_fmap in Hi as (p & [= ->] & Hp). eauto.
  - intros (p & -> & Hp). exists (ip_doc_id p, tt). split; [done|]. apply hash_iter_elem.
    destruct (list_to_map (map (λ p, (ip_doc_id p, tt)) points) !! ip_doc_id p) as [[]|] eqn:E; [done|].
    apply not_elem_of_list_to_map_2 in E. destruct E. rewrite map_map. apply list_elem_of_fmap. by exists p.
Qed.

(** The documents a side of the scope selects in the version [h]. *)
Definition selected (tys ids : list string) (h : H) (id : string) : Prop :=
  ∃ r, r ∈ v_rows h ∧ wanted tys ids r ∧ cr_doc_id r = id.

Definition target_selected (scope : DuplicateScope) (h : H) (id : string) : Prop :=
  if has_target scope then selected (target_doc_types scope) (target_doc_ids scope) h id
  else selected (set_doc_types scope) (set_doc_ids scope) h id.

(** The cross-neighbour maps of a commit stay inside the scope, on the exact
    path and on the index path: on the version the commit's tag stands for,
    the keys of the first map are documents of the set and the neighbours
    listed for one are other documents, of the target population, within the
    threshold of the direction; and the same from target to set. *)
Theorem cross_neighbours_in_scope domain branch commit scope k threshold_set threshold_target max_points s s' maps :
  cache_on_main s →
  io_resolve_cross_neighbours cosine_distance domain branch commit scope k threshold_set threshold_target max_points s
    = (s', Ok maps) →
  quiet s s' ∧ ∃ h, snapshot_of s domain commit h ∧
    let in_set := selected (set_doc_types scope) (set_doc_ids scope) h in
    let in_target := target_selected scope h in
    (∀ a ns, rn_set_to_target maps !! a = Some ns → in_set a ∧
       Forall (λ n, in_target (nb_id n) ∧ nb_id n ≠ a ∧ F32.gt (nb_distance n) threshold_set = false) ns) ∧
    (∀ a ns, rn_target_to_set maps !! a = Some ns → in_target a ∧
       Forall (λ n, in_set (nb_id n) ∧ nb_id n ≠ a ∧ F32.gt (nb_distance n) threshold_target = false) ns).
Proof.
  intros Hcm. unfold io_resolve_cross_neighbours. cbv zeta.
  intros (s1 & h & Hh & Hrun)%io_bind_ok. apply snapshot_inv in Hh as [Hq Hsnap]; [|done]. specialize (Hsnap h eq_refl).
  apply io_bind_ok in Hrun as (s2 & sp & Hsp & Hrun). unfold io_scan_points in Hsp. injection Hsp as <- Hsp.
  apply io_bind_ok in Hrun as (s3 & tp & Htp & Hrun).
  assert (Hids : ∀ tys ids points, scan_points (dir_of s1 (dataset_path domain)) h (build_filter_expr tys ids) false = Ok points →
    ∀ id, id ∈ map ip_doc_id points ↔ selected tys ids h id).
  { intros tys ids points Hpts id. rewrite list_elem_of_fmap. setoid_rewrite (scan_points_spec _ _ _ _ _ Hpts). split.
    - intros (p & -> & r & -> & ? & ?). by exists r.
    - intros (r & ? & ? & <-). exists (point_of r). split; [done|]. by exists r. }
  assert (s3 = s1 ∧ ∀ id, id ∈ map ip_doc_id tp ↔ target_selected scope h id) as [-> Ht].
  { unfold target_selected. destruct (has_target scope).
    - unfold io_scan_points in Htp. injection Htp as <- Htp. split; [done|]. by apply Hids.
    - injection Htp as <- <-. split; [done|]. by apply Hids. }
  pose proof (Hids _ _ _ Hsp) as Hset. destruct (_ <? _)%nat; [done|].
  apply io_bind_ok in Hrun as (s4 & m1 & [= <- Hm1] & Hrun). apply io_bind_ok in Hrun as (s5 & m2 & [= <- Hm2] & [= <- <-]).
  split; [done|]. exists h. split; [done|]. cbn. apply collect_sound in Hm1, Hm2. split; intros a ns Ha.
  - destruct (Hm1 a ns Ha) as [Hk Hn]. split; [by apply Hset|]. eapply Forall_impl; [exact Hn|].
    intros n (Hi & Hr). split; [|done]. by apply Ht, point_ids_elem.
  - destruct (Hm2 a ns Ha) as [Hk Hn]. split; [by apply Ht|]. eapply Forall_impl; [exact Hn|].
    intros n (Hi & Hr). split; [|done]. by apply Hset, point_ids_elem.
Qed.
End cross.

(** ** On the small dataset *)

#[local] Existing Instances RefLance.ops RefLance.view RefLance.laws RefLance.versions RefLance.version_laws
  RefScan.scan RefScan.scan_laws StoreExample.ident_serialize StoreExample.cache_order.

Module NeighbourExample.
#[export] Instance nearest_laws : LanceNearestLaws (option RefLance.dir) RefLance.handle.
Proof.
  split. intros w h column probe k f projection batches [= <-]. eexists [_]. split.
  - constructor; [|constructor]. split; reflexivity.
  - intros r. cbn. rewrite app_nil_r. intros Hr%elem_of_take_in. by apply list_elem_of_filter in Hr as [? ?].
Qed.
#[export] Instance count : LanceCount (option RefLance.dir) RefLance.handle :=
  λ _ h f, Ok (length (filter (λ r, scan_keeps f r = true) (RefLance.rh_rows h))).
#[export] Instance unit_order : HashIter string unit := map_order.
#[export] Instance float_order : HashIter string f32 := map_order.
Definition a_to_b : DuplicateScope := mkDuplicateScope [] ["A"] [] ["B"].
Definition found := io_resolve_cross_neighbours example_cosine "o/t" "main" "c1" a_to_b 5 F32.one F32.one 100 SnapshotExample.after.
End NeighbourExample.
Import NeighbourExample.

Lemma cross_neighbours_in_scope_witness :
  match found with
  | (s', Ok maps) => map nb_id (default [] (rn_set_to_target maps !! "A")) = ["B"] ∧ rn_set_to_target maps !! "B" = None
      ∧ quiet SnapshotExample.after s'
  | _ => False
  end.
Proof.
  destruct found as [s' [maps|err]] eqn:Er.
  2: refute_as (λ x, is_ok x.2) in Er.
  assert (rn_set_to_target maps = {[ "A" := [mkNeighbour "B" F32.zero] ]}) as ->.
  { compute_as (λ x, match x.2 with Ok m => Some (rn_set_to_target m) | Err _ => None end) in Er. injection Er as Er. symmetry. exact Er. }
  split; [done|]. split; [done|].
  exact (proj1 (cross_neighbours_in_scope example_cosine _ _ _ _ _ _ _ _ _ _ _ SnapshotExample.after_on_main Er)).
Defined.
