(* ===== verification/Suggest.v ===== *)
(** * Typeahead (the suggest half of src/src/store/lance/search.rs)

    The full-text query with its substring fallback, the reduction to
    documents, the highlighted match and the completions.  [str::to_lowercase]
    is a parameter: it works on Unicode characters, so that the offsets found in
    a lowered string need not be offsets of the original; slicing there is what
    can panic.  The search loop of [extract_completions] runs on fuel. *)

From S2P Require Import Prelude F32 RustStr Model LayerIdx Schema Dedup Lance Search DatasetCache Store Commit Snapshot.

Class Lowercase := lower : string → string.

(** A loop that may not end: its value, a panic, or no more fuel. *)
Inductive outcome (A : Type) : Type :=
| Done (a : A)
| Panicked
| OutOfFuel.
Arguments Done {A}. Arguments Panicked {A}. Arguments OutOfFuel {A}.

(** ** Words

    The separators: white space and [.,;:]. *)

Definition punct (c : ascii) : bool := bool_decide (c ∈ ["."; ","; ";"; ":"]%char).

(** How many bytes of separator the string starts with (0: none). *)
Definition sep_prefix (l : list ascii) : nat :=
  match ws_prefix l with
  | 0 => match l with c :: _ => if punct c then 1 else 0 | [] => 0 end
  | n => n
  end.

(** [find] of the first separator. *)
Fixpoint find_sep (l : list ascii) : option nat :=
  match sep_prefix l with
  | 0 => match l with [] => None | _ :: l' => S <$> find_sep l' end
  | _ => Some 0
  end.

(** [str::find(separator).unwrap_or(len)]. *)
Definition word_length (s : string) : nat := default (str_len s) (find_sep (str_bytes s)).

(** [split(separator)]: the fuel is the length and one more. *)
Fixpoint split_seps (fuel : nat) (l : list ascii) : list (list ascii) :=
  match fuel with
  | 0 => []
  | S fuel => match find_sep l with
              | None => [l]
              | Some n => take n l :: split_seps fuel (drop (n + sep_prefix (drop n l)) l)
              end
  end.

Definition split_words (s : string) : list string :=
  filter (λ w, w ≠ "") (map str_of_bytes (split_seps (S (str_len s)) (str_bytes s))).

(** [trim_start_matches(separator)]; the fuel is the length. *)
Fixpoint drop_seps (fuel : nat) (l : list ascii) : list ascii :=
  match fuel with
  | 0 => l
  | S fuel => match sep_prefix l with 0 => l | n => drop_seps fuel (drop n l) end
  end.

(** [&s[i..]], which panics when [i] is no character boundary of [s]. *)
Definition slice_from (s : string) (i : nat) : option string := str_slice s i (str_len s).

Section suggest.
Context {HL : Lowercase}.

(** ** The match and the next words *)

Fixpoint next_words (n : nat) (rest : string) (cursor : nat) : option (list string) :=
  match n with
  | 0 => Some []
  | S n =>
      remaining ← slice_from rest cursor;
      let trimmed := drop_seps (str_len remaining) (str_bytes remaining) in
      let after_ws := (cursor + (str_len remaining - length trimmed))%nat in
      if (str_len rest <=? after_ws)%nat then Some []
      else
        word_rest ← slice_from rest after_ws;
        let word_end_in_rest := word_length word_rest in
        if (word_end_in_rest =? 0)%nat then Some []
        else
          word ← str_slice rest after_ws (after_ws + word_end_in_rest);
          let cursor := (after_ws + word_end_in_rest)%nat in
          if (str_len rest <=? cursor)%nat then Some [word]
          else words ← next_words n rest cursor; Some (word :: words)
  end.

(** [find_match_and_next_words]; [None] is a panic.  The source also trims
    separators off each word, which has none. *)
Definition find_match_and_next_words (content query_lower : string) : option (option nat * option nat * list string) :=
  match find_str query_lower (lower content) with
  | None => Some (None, None, [])
  | Some pos =>
      let raw_end := (pos + str_len query_lower)%nat in
      after_match ← slice_from content raw_end;
      let match_end := (raw_end + word_length after_match)%nat in
      rest ← slice_from content match_end;
      words ← next_words 5 rest 0;
      Some (Some pos, Some match_end, words)
  end.

(** ** Completions *)

(** [freq.entry(lower).or_insert((0, text)).0 += 1]. *)
Definition bump (freq : gmap string (nat * string)) (text : string) : gmap string (nat * string) :=
  let e := default (0, text) (freq !! lower text) in
  <[lower text := (S e.1, e.2)]> freq.

Definition bump_keep (freq : gmap string (nat * string)) (text : string) : gmap string (nat * string) :=
  let e := default (0, text) (freq !! lower text) in
  <[lower text := (S e.1, if String.eqb e.2 "" then text else e.2)]> freq.

(** The loop over the words that follow. *)
Fixpoint extend (query cumulative : string) (words : list string) (freq : gmap string (nat * string)) : gmap string (nat * string) :=
  match words with
  | [] => freq
  | w :: words =>
      let cumulative := cumulative +:+ " " +:+ w in
      let completion := trim cumulative in
      extend query cumulative words
        (if (str_len query <? str_len completion)%nat then bump_keep freq completion else freq)
  end.

(** One match, at [abs_pos] of the snippet. *)
Definition complete_match (query snippet : string) (abs_pos query_end : nat) (freq : gmap string (nat * string))
    : option (gmap string (nat * string)) :=
  after_match ← slice_from snippet query_end;
  let word_end := (query_end + word_length after_match)%nat in
  rest ← slice_from snippet word_end;
  let words := take 3 (split_words rest) in
  containing_word ← str_slice snippet abs_pos word_end;
  let containing_trimmed := trim containing_word in
  let freq := if (str_len query <? str_len containing_trimmed)%nat then bump freq containing_trimmed else freq in
  Some (extend query containing_trimmed words freq).

(** The search of one snippet for every occurrence. *)
Fixpoint complete_loop (fuel : nat) (query query_lower snippet snippet_lower : string) (search_from : nat)
    (freq : gmap string (nat * string)) : outcome (gmap string (nat * string)) :=
  match fuel with
  | 0 => OutOfFuel
  | S fuel =>
      match slice_from snippet_lower search_from with
      | None => Panicked
      | Some tail =>
          match find_str query_lower tail with
          | None => Done freq
          | Some pos =>
              let abs_pos := (search_from + pos)%nat in
              let query_end := (abs_pos + str_len query_lower)%nat in
              match complete_match query snippet abs_pos query_end freq with
              | None => Panicked
              | Some freq => complete_loop fuel query query_lower snippet snippet_lower query_end freq
              end
          end
      end
  end.

Fixpoint complete_all (fuel : nat) (query : string) (snippets : list string) (freq : gmap string (nat * string))
    : outcome (gmap string (nat * string)) :=
  match snippets with
  | [] => Done freq
  | snippet :: snippets =>
      match complete_loop fuel query (lower query) snippet (lower snippet) 0 freq with
      | Done freq => complete_all fuel query snippets freq
      | r => r
      end
  end.

Definition rank_cmp (a b : nat * string) : comparison :=
  then_with (then_with (Nat.compare b.1 a.1) (Nat.compare (str_len b.2) (str_len a.2))) (String.compare a.2 b.2).

Context {HK : HashIter string (nat * string)} {HC : HashIter string ChunkHit}.

Definition extract_completions (fuel : nat) (query : string) (snippets : list string) : outcome (list string) :=
  match complete_all fuel query snippets ∅ with
  | Done freq => Done (map snd (take 8 (sort_by rank_cmp (into_values freq))))
  | Panicked => Panicked
  | OutOfFuel => OutOfFuel
  end.

(** ** The result *)

Definition nearer_hit (a b : ChunkHit) : bool := F32.lt (h_distance a) (h_distance b).
Definition by_distance (a b : ChunkHit) : comparison := F32.cmp_or_eq (h_distance a) (h_distance b).

Definition suggest_hit (query_lower : string) (hit : ChunkHit) : option SuggestHit :=
  m ← find_match_and_next_words (h_content hit) query_lower;
  Some (mkSuggestHit (h_doc_id hit) (Some (h_content hit)) m.1.1 m.1.2 m.2).

Definition build_suggest_result (fuel : nat) (chunk_hits : list ChunkHit) (query : SuggestQuery) : outcome SuggestResult :=
  let best_per_doc := keep_best h_doc_id nearer_hit chunk_hits in
  let sorted_hits := sort_by by_distance (into_values best_per_doc) in
  match mapM (suggest_hit (lower (sg_query_text query))) (take (sg_count query) sorted_hits) with
  | None => Panicked
  | Some hits =>
      match extract_completions fuel (sg_query_text query) (map h_content (take 5 sorted_hits)) with
      | Done completions => Done (mkSuggestResult (size best_per_doc) completions hits)
      | Panicked => Panicked
      | OutOfFuel => OutOfFuel
      end
  end.

(** ** The queries *)

(** [usize] arithmetic, which wraps in a release build. *)
Definition scan_limit (query : SuggestQuery) : Z := Z.min (((Z.of_nat (sg_count query) + 1) * 5) `mod` 2 ^ 64) 200.

Definition substring_hits (query_lower : string) (b : RecordBatch) : list ChunkHit :=
  match hit_columns b with
  | None => []
  | Some (ids, ci, cc, cts, dtl, cnt) =>
      omap (λ i,
        if contains query_lower (lower (value "" cnt i)) then
          Some (mkChunkHit (value "" ids i) F32.zero Normalised (value 0%Z ci i) (value 0%Z cc i)
                  (value 0%Z cts i) (value 0%Z dtl i) (value "" cnt i) [] [])
        else None) (seq 0 (num_rows b))
  end.

Context {W H : Type} {HS : LanceScan W H}.

Definition substring_suggest (w : W) (ds : H) (query : SuggestQuery) : result StoreError (list ChunkHit) :=
  batches ← map_err (λ f, StoreInternal match f with
                                       | ProjectFailed e => "substring_suggest project failed: " +:+ e
                                       | LimitFailed e => "substring_suggest limit failed: " +:+ e
                                       | CollectFailed e => "substring_suggest collect failed: " +:+ e
                                       | SetupFailed e | StreamFailed e => "substring_suggest stream failed: " +:+ e
                                       end)
              (l_run w ds (mkScanRequest (PlainLimit (scan_limit query)) None search_projection));
  Ok (concat (map (substring_hits (lower (sg_query_text query))) batches)).

(** [unwrap_or_else]: a failed fallback is no hits. *)
Definition fallback (w : W) (ds : H) (query : SuggestQuery) : list ChunkHit :=
  match substring_suggest w ds query with Ok hits => hits | Err _ => [] end.

Definition suggest_hits (w : W) (ds : H) (query : SuggestQuery) : result StoreError (list ChunkHit) :=
  match l_run w ds (mkScanRequest (FullText (sg_query_text query) (scan_limit query))
                      (build_filter_expr (sg_doc_type_filter query) (sg_doc_id_filter query)) []) with
  | Ok batches =>
      let chunk_hits := batches_to_fts_hits batches in
      Ok (if is_empty chunk_hits && negb (String.eqb (sg_query_text query) "") then fallback w ds query else chunk_hits)
  | Err (SetupFailed e) => Err (StoreInternal ("suggest FTS setup failed: " +:+ e))
  | Err (LimitFailed e) => Err (StoreInternal ("suggest limit failed: " +:+ e))
  | Err (CollectFailed msg) =>
      if fts_index_missing msg then Ok (fallback w ds query) else Err (StoreInternal ("suggest collect failed: " +:+ msg))
  | Err (ProjectFailed msg) | Err (StreamFailed msg) =>
      if fts_index_missing msg then Ok (fallback w ds query) else Err (StoreInternal ("suggest stream failed: " +:+ msg))
  end.

Context {HO : LanceOps W H} {HB : ByteSerialize} {HD : HashIter string (DatasetCacheEntry H)}.

Definition io_suggest (fuel : nat) (domain branch commit : string) (query : SuggestQuery) : io W H (outcome SuggestResult) :=
  let! snapshot := io_snapshot_from_cache domain branch commit in
  λ s, (s, hits ← suggest_hits (dir_of s (dataset_path domain)) snapshot query; Ok (build_suggest_result fuel hits query)).
End suggest.

(** ** Offsets *)

Lemma prefix_length p s : String.prefix p s = true → str_len p ≤ str_len s.
Proof.
  unfold str_len. revert s. induction p as [|a p IH]; intros [|b s]; cbn; try done; try lia.
  destruct (ascii_dec a b); [|done]. intros Hp%IH. lia.
Qed.

Lemma find_str_bound pat s pos : find_str pat s = Some pos → pos + str_len pat ≤ str_len s.
Proof.
  unfold find_str. revert pos. induction s as [|b s IH]; intros pos Hi; cbn [String.index] in Hi.
  - destruct pat; [|done]. by injection Hi as <-.
  - destruct (String.prefix pat (String b s)) eqn:Ep.
    + injection Hi as <-. apply prefix_length in Ep. cbn in *. lia.
    + destruct (String.index 0 pat s) as [n|]; [|done]. injection Hi as <-. specialize (IH n eq_refl).
      unfold str_len in *. cbn. lia.
Qed.

Lemma find_sep_bound l n : find_sep l = Some n → n ≤ length l.
Proof.
  revert n. induction l as [|c l IH]; intros n; cbn [find_sep]; [by intros [= <-]|].
  destruct (sep_prefix (c :: l)); [|intros [= <-]; lia].
  intros (m & Hm & ->)%fmap_Some. apply IH in Hm. cbn. lia.
Qed.

Lemma word_length_bound s : word_length s ≤ str_len s.
Proof.
  unfold word_length. destruct (find_sep (str_bytes s)) as [n|] eqn:E; cbn; [|done].
  apply find_sep_bound in E. by rewrite str_len_bytes in E.
Qed.

Lemma str_slice_length s i j t : str_slice s i j = Some t → str_len t = j - i ∧ i ≤ j ≤ str_len s.
Proof.
  unfold str_slice. destruct (i <=? j)%nat eqn:Ele; [|done]. apply Nat.leb_le in Ele.
  destruct (is_char_boundary s i); [|done]. destruct (is_char_boundary s j) eqn:Ej; [|done]. apply is_char_boundary_le in Ej.
  intros [= <-]. split; [|lia]. clear -Ej Ele.
  unfold str_len in *. revert i j Ele Ej. induction s as [|c s IH]; intros [|i] [|j]; cbn; try lia.
  - intros _ Hj. rewrite <-(Nat.sub_0_r j) at 1. rewrite (IH 0 j); lia.
  - intros ??. rewrite (IH i j); lia.
Qed.

(** ** The completion loop *)

Section completions.
Context {HL : Lowercase} {HK : HashIter string (nat * string)}.

(** Each round moves past a match, so that the length of the snippet is fuel
    enough; the fuel left is not used. *)
Lemma complete_loop_fuel fuel query ql snippet sl from freq :
  ql ≠ "" → str_len sl - from < fuel → complete_loop fuel query ql snippet sl from freq ≠ OutOfFuel.
Proof.
  intros Hq. revert from freq. induction fuel as [|fuel IH]; intros from freq Hf; [lia|]. cbn [complete_loop].
  destruct (slice_from sl from) as [tail|] eqn:Es; [|done]. apply str_slice_length in Es as [Hl Hle].
  destruct (find_str ql tail) as [pos|] eqn:Ep; [|done]. apply find_str_bound in Ep.
  destruct (complete_match _ _ _ _ _) as [freq'|]; [|done]. apply IH.
  assert (0 < str_len ql) by (destruct ql; [done|cbn; lia]). lia.
Qed.

Lemma complete_all_fuel fuel query snippets freq :
  lower query ≠ "" → Forall (λ s, str_len (lower s) < fuel) snippets → complete_all fuel query snippets freq ≠ OutOfFuel.
Proof.
  intros Hq Hs. revert freq. induction Hs as [|s snippets Hlt Hs IH]; intros freq; [done|]. cbn [complete_all].
  pose proof (complete_loop_fuel fuel query (lower query) s (lower s) 0 freq Hq ltac:(lia)) as Hn.
  destruct (complete_loop _ _ _ _ _ _ _); [apply IH|done|done].
Qed.

(** On text whose lowering keeps every offset, no slice is out of place. *)
Definition is_ascii (s : string) : Prop := Forall (λ c, (byte_of c < 128)%N) (str_bytes s).

Lemma ascii_boundary s i : is_ascii s → i ≤ str_len s → is_char_boundary s i = true.
Proof.
  intros Ha Hi. unfold is_char_boundary. destruct (i =? 0)%nat eqn:E0; [done|]. destruct (i =? str_len s)%nat eqn:E1; [done|].
  apply Nat.eqb_neq in E0, E1. destruct (str_bytes s !! i) as [c|] eqn:Ec.
  - unfold is_ascii in Ha. rewrite Forall_lookup in Ha. apply Ha in Ec. unfold is_cont, in_range.
    destruct (128 <=? byte_of c)%N eqn:El; [|done]. apply N.leb_le in El. lia.
  - apply lookup_ge_None in Ec. rewrite str_len_bytes in Ec. lia.
Qed.

Lemma ascii_slice s i j : is_ascii s → i ≤ j ≤ str_len s → ∃ t, str_slice s i j = Some t.
Proof.
  intros Ha Hij. unfold str_slice. rewrite !ascii_boundary by (done || lia).
  destruct (Nat.leb_spec i j); [|lia]. eauto.
Qed.

Lemma complete_match_ascii query snippet i j freq :
  is_ascii snippet → i ≤ j ≤ str_len snippet → ∃ freq', complete_match query snippet i j freq = Some freq'.
Proof.
  intros Ha Hij. unfold complete_match, slice_from.
  destruct (ascii_slice snippet j (str_len snippet) Ha) as [a Ea]; [lia|]. rewrite Ea. cbn.
  apply str_slice_length in Ea as [Hl _]. pose proof (word_length_bound a).
  destruct (ascii_slice snippet (j + word_length a) (str_len snippet) Ha) as [r Er]; [lia|]. rewrite Er. cbn.
  destruct (ascii_slice snippet i (j + word_length a) Ha) as [w Ew]; [lia|]. rewrite Ew. cbn. eauto.
Qed.

Lemma complete_loop_ascii fuel query ql snippet sl from freq :
  is_ascii snippet → is_ascii sl → str_len sl = str_len snippet → from ≤ str_len sl →
  complete_loop fuel query ql snippet sl from freq ≠ Panicked.
Proof.
  intros Ha Hal Hlen. revert from freq. induction fuel as [|fuel IH]; intros from freq Hf; [done|]. cbn [complete_loop]. unfold slice_from.
  destruct (ascii_slice sl from (str_len sl) Hal) as [tail Et]; [lia|]. rewrite Et. apply str_slice_length in Et as [Hl _].
  destruct (find_str ql tail) as [pos|] eqn:Ep; [|done]. apply find_str_bound in Ep.
  destruct (complete_match_ascii query snippet (from + pos) (from + pos + str_len ql) freq) as [freq' Em]; [done|lia|].
  rewrite Em. apply IH. lia.
Qed.

(** What is collected is longer than the query. *)
Definition longer (query : string) (freq : gmap string (nat * string)) : Prop :=
  ∀ k e, freq !! k = Some e → str_len query < str_len e.2.

Lemma longer_insert query freq k e : longer query freq → str_len query < str_len e.2 → longer query (<[k := e]> freq).
Proof.
  intros Hf He k' e'. destruct (decide (k' = k)) as [->|Hne]; [rewrite lookup_insert_eq; by intros [= <-]|].
  rewrite lookup_insert_ne by done. apply Hf.
Qed.

Lemma longer_bump query freq text : longer query freq → str_len query < str_len text → longer query (bump freq text).
Proof.
  intros Hf Ht. apply longer_insert; [done|]. cbn. destruct (freq !! lower text) as [e|] eqn:E; [by apply Hf in E|done].
Qed.

Lemma longer_bump_keep query freq text : longer query freq → str_len query < str_len text → longer query (bump_keep freq text).
Proof.
  intros Hf Ht. apply longer_insert; [done|]. cbn. destruct (freq !! lower text) as [e|] eqn:E; cbn; [apply Hf in E|].
  - by destruct (String.eqb e.2 "").
  - by destruct (String.eqb text "").
Qed.

Lemma longer_extend query cumulative words freq : longer query freq → longer query (extend query cumulative words freq).
Proof.
  revert cumulative freq. induction words as [|w words IH]; intros cumulative freq Hf; [done|]. cbn [extend]. apply IH.
  destruct (Nat.ltb_spec (str_len query) (str_len (trim (cumulative +:+ " " +:+ w)))); [by apply longer_bump_keep|done].
Qed.

Lemma longer_match query snippet i j freq freq' :
  longer query freq → complete_match query snippet i j freq = Some freq' → longer query freq'.
Proof.
  intros Hf. unfold complete_match. destruct (slice_from snippet j) as [a|]; [|done]. cbn [mbind option_bind].
  destruct (slice_from snippet _) as [r|]; [|done]. cbn [mbind option_bind].
  destruct (str_slice snippet i _) as [w|]; [|done]. cbn [mbind option_bind].
  intros [= <-]. apply longer_extend. destruct (Nat.ltb_spec (str_len query) (str_len (trim w))); [by apply longer_bump|done].
Qed.

Lemma longer_loop fuel query ql snippet sl from freq freq' :
  longer query freq → complete_loop fuel query ql snippet sl from freq = Done freq' → longer query freq'.
Proof.
  revert from freq. induction fuel as [|fuel IH]; intros from freq Hf; [done|]. cbn [complete_loop].
  destruct (slice_from sl from) as [tail|]; [|done]. destruct (find_str ql tail) as [pos|]; [|by intros [= <-]].
  destruct (complete_match _ _ _ _ freq) as [freq1|] eqn:Em; [|done]. apply IH. by eapply longer_match.
Qed.

Lemma longer_all fuel query snippets freq freq' :
  longer query freq → complete_all fuel query snippets freq = Done freq' → longer query freq'.
Proof.
  revert freq. induction snippets as [|s snippets IH]; intros freq Hf; cbn [complete_all]; [by intros [= <-]|].
  destruct (complete_loop fuel query _ s _ 0 freq) as [freq1| |] eqn:El; try done. apply IH. by eapply longer_loop.
Qed.

(** C35: completing a partial query ends, for a query that is not empty and with
    the length of the longest snippet as the bound on the search; on text whose
    lowering keeps offsets (ASCII), it also never slices out of place, and
    what it returns are at most eight texts, each longer than the query. *)
Theorem completions_total fuel query snippets :
  lower query ≠ "" → Forall (λ s, str_len (lower s) < fuel) snippets →
  extract_completions fuel query snippets ≠ OutOfFuel ∧
  (Forall (λ s, is_ascii s ∧ is_ascii (lower s) ∧ str_len (lower s) = str_len s) snippets →
   ∃ texts, extract_completions fuel query snippets = Done texts) ∧
  ∀ texts, extract_completions fuel query snippets = Done texts →
    length texts ≤ 8 ∧ Forall (λ t, str_len query < str_len t) texts.
Proof.
  intros Hq Hs. unfold extract_completions. pose proof (complete_all_fuel fuel query snippets ∅ Hq Hs) as Hn.
  split_and!.
  - by destruct (complete_all _ _ _ _).
  - intros Ha. assert (complete_all fuel query snippets ∅ ≠ Panicked) as Hp.
    { clear Hn Hs. generalize (∅ : gmap string (nat * string)) as freq. induction Ha as [|s l (A1 & A2 & A3) Ha IH]; intros freq; [done|].
      cbn [complete_all]. pose proof (complete_loop_ascii fuel query (lower query) s (lower s) 0 freq A1 A2 A3 ltac:(lia)).
      destruct (complete_loop _ _ _ _ _ _ _); [apply IH|done|done]. }
    destruct (complete_all _ _ _ _); [eauto|done|done].
  - intros texts. destruct (complete_all fuel query snippets ∅) as [freq| |] eqn:E; try done. intros [= <-].
    apply longer_all in E; [|by intros k e; rewrite lookup_empty]. split; [rewrite length_map, length_take; lia|].
    apply Forall_forall. intros t (e & -> & He%elem_of_take_in)%list_elem_of_fmap. rewrite sort_by_perm in He.
    apply into_values_elem in He as [k Hk]. by eapply E.
Qed.

(** With an empty query the loop stays where it is: it never returns. *)
Lemma empty_query_diverges fuel snippet snippets texts :
  lower "" = "" → extract_completions fuel "" (snippet :: snippets) ≠ Done texts.
Proof.
  intros He. unfold extract_completions. cbn [complete_all]. rewrite He.
  assert (∀ freq freq', complete_loop fuel "" "" snippet (lower snippet) 0 freq ≠ Done freq') as Hd.
  { induction fuel as [|fuel IH]; intros freq freq'; [done|]. cbn [complete_loop].
    destruct (slice_from (lower snippet) 0) as [tail|] eqn:Es; [|done].
    assert (find_str "" tail = Some 0) as -> by (by destruct tail). cbn [Nat.add str_len String.length].
    destruct (complete_match _ _ _ _ _); [apply IH|done]. }
  specialize (Hd ∅). destruct (complete_loop _ _ _ _ _ _ _); [by edestruct Hd|done|done].
Qed.
End completions.

(** ** Documents *)

#[export] Instance nearer_hit_better : Better nearer_hit.
Proof. apply (lt_better _). Qed.

Section result.
Context {HL : Lowercase} {HK : HashIter string (nat * string)} {HC : HashIter string ChunkHit}.

Lemma keyed_hits (hits : list ChunkHit) :
  map h_doc_id (into_values (keep_best h_doc_id nearer_hit hits)) = (hash_iter (keep_best h_doc_id nearer_hit hits)).*1.
Proof.
  unfold into_values. rewrite map_map. apply map_ext_in. intros [k v] Hin%list_elem_of_In%hash_iter_elem.
  by apply keep_best_lookup in Hin as (_ & <- & _); [|apply _].
Qed.

(** The typeahead answer lists at most the requested number of documents, each
    once, each with the text of one of its nearest matching chunks, and with a
    highlight that ends inside that text; it reports the number of documents
    that matched. *)
Theorem suggest_result_spec fuel hits query r :
  build_suggest_result fuel hits query = Done r →
  sgr_total_approx r = size (list_to_set (C:=gset string) (map h_doc_id hits)) ∧
  length (sgr_hits r) = Nat.min (sg_count query) (sgr_total_approx r) ∧
  NoDup (map sgh_id (sgr_hits r)) ∧
  ∀ x, x ∈ sgr_hits r → ∃ hit, hit ∈ hits ∧ h_doc_id hit = sgh_id x ∧ sgh_snippet x = Some (h_content hit) ∧
    (∀ hit', hit' ∈ hits → h_doc_id hit' = sgh_id x → F32.lt (h_distance hit') (h_distance hit) = false) ∧
    (∀ e, sgh_match_end x = Some e → e ≤ str_len (h_content hit)).
Proof.
  unfold build_suggest_result. set (best := keep_best h_doc_id nearer_hit hits). set (sorted := sort_by by_distance (into_values best)).
  destruct (mapM _ _) as [hs|] eqn:Em; [|done]. destruct (extract_completions _ _ _) as [cs| |]; [|done|done].
  intros [= <-]. cbn. apply mapM_Some in Em.
  assert (Hlen : length sorted = size best).
  { unfold sorted. rewrite sort_by_length. unfold into_values. rewrite length_fmap, hash_iter_perm. apply length_map_to_list. }
  assert (Hids : map sgh_id hs = map h_doc_id (take (sg_count query) sorted)).
  { clear -Em. induction Em as [|h x l xs Hx Hf IH]; [done|]. cbn. f_equal; [|done]. unfold suggest_hit in Hx.
    destruct (find_match_and_next_words _ _) as [m|]; [|done]. by injection Hx as <-. }
  assert (Hnd : NoDup (map h_doc_id sorted)).
  { unfold sorted. rewrite sort_by_perm. unfold best. rewrite keyed_hits. apply hash_iter_nodup. }
  split_and!.
  - rewrite <-size_dom. f_equal. apply leibniz_equiv. intros id. rewrite elem_of_dom, elem_of_list_to_set, list_elem_of_fmap. split.
    + intros [h Hh]. apply keep_best_lookup in Hh as (Hin & <- & _); [eauto|apply _].
    + intros (h & -> & Hin). apply (keep_best_complete h_doc_id nearer_hit). done.
  - apply Forall2_length in Em. rewrite <-Em, length_take, Hlen. done.
  - rewrite Hids. rewrite <-(take_drop (sg_count query) sorted), map_app in Hnd. by apply NoDup_app in Hnd as [? _].
  - intros x Hx. apply list_elem_of_lookup in Hx as [i Hi]. destruct (Forall2_lookup_r _ _ _ _ _ Em Hi) as (h & Hh & Hs).
    assert (h ∈ sorted) as Hin by (apply (elem_of_take_in _ (sg_count query)), list_elem_of_lookup; eauto). unfold sorted in Hin.
    rewrite sort_by_perm, into_values_elem in Hin. destruct Hin as [k Hk]. apply keep_best_lookup in Hk as (Hin & <- & Hmin); [|apply _].
    unfold suggest_hit in Hs. destruct (find_match_and_next_words _ _) as [[[st en] ws]|] eqn:Ef; [|done]. injection Hs as <-. cbn.
    exists h. split_and!; [done|done|done|intros h' Hh' Hid; by apply (Hmin h')|]. intros e ->.
    unfold find_match_and_next_words in Ef. destruct (find_str _ _) as [pos|]; [|done].
    destruct (slice_from (h_content h) _) as [a|] eqn:Ea; [|done]. cbn [mbind option_bind] in Ef.
    destruct (slice_from (h_content h) (_ + word_length a)) as [rest|] eqn:Er; [|done]. cbn [mbind option_bind] in Ef.
    destruct (next_words _ _ _); [|done]. injection Ef as _ <- _. apply str_slice_length in Er as [_ ?]. lia.
Qed.
End result.

(** ** Examples *)

Module SuggestExample.
#[export] Instance ascii_lowercase : Lowercase := to_lowercase.
#[export] Instance text_order : HashIter string (nat * string) := map_order.
#[export] Instance hit_order : HashIter string ChunkHit := map_order.
Definition snippets : list string := ["The electrical engine, rebuilt."; "Electric motors"].

Definition hit (id content : string) (d : Z) : ChunkHit := mkChunkHit id (F32.of_Z d) Normalised 0 1 0 1 content [] [].
Definition hits : list ChunkHit := [hit "A" "electrical engine" 1; hit "B" "Electric motors" 0; hit "A" "elector" 0].
Definition query : SuggestQuery := mkSuggestQuery "Elect" 1 [] [].

(** Lowering as the standard library does it for the letter U+0130, which
    becomes [i] and a combining dot: one byte longer. *)
Fixpoint dotted_bytes (l : list ascii) : list ascii :=
  match l with
  | a :: l1 =>
      match l1 with
      | b :: l2 => if (byte_of a =? 196)%N && (byte_of b =? 176)%N
                   then ascii_of_N 105 :: ascii_of_N 204 :: ascii_of_N 135 :: dotted_bytes l2
                   else ascii_lower a :: dotted_bytes l1
      | [] => [ascii_lower a]
      end
  | [] => []
  end.
Definition dotted_lowercase : Lowercase := λ s, str_of_bytes (dotted_bytes (str_bytes s)).
Definition dotted_word : string := str_of_bytes [ascii_of_N 196; ascii_of_N 176; "a"%char].
End SuggestExample.
Import SuggestExample.

Lemma completions_total_witness :
  ∃ texts, extract_completions 40 "elect" snippets = Done texts ∧ length texts ≤ 8.
Proof.
  assert (Hf : Forall (λ s, str_len (lower s) < 40) snippets) by (repeat constructor; cbn; lia).
  destruct (completions_total 40 "elect" snippets) as (_ & Ht & Hl); [done|done|].
  destruct Ht as [texts Ht]. { repeat constructor; by vm_compute. }
  exists texts. split; [done|]. by apply Hl.
Defined.

Example completions_ranked :
  extract_completions 40 "elect" snippets
  = Done ["electrical engine rebuilt"; "electrical engine"; "Electric motors"; "electrical"; "Electric"].
Proof. by vm_compute. Qed.

Lemma suggest_result_spec_witness :
  match build_suggest_result 40 hits query with
  | Done r => map sgh_id (sgr_hits r) = ["A"] ∧ sgr_total_approx r = 2 ∧ NoDup (map sgh_id (sgr_hits r))
  | _ => False
  end.
Proof.
  destruct (build_suggest_result 40 hits query) as [r| |] eqn:E.
  2-3: vm_compute in E; discriminate E.
  assert (map sgh_id (sgr_hits r) = ["A"]) as Hi.
  { compute_as (λ o, match o with Done r => map sgh_id (sgr_hits r) | _ => [] end) in E. symmetry. exact E. }
  apply suggest_result_spec in E as (Ht & _ & Hn & _). split; [done|]. split; [|done]. rewrite Ht. by vm_compute.
Defined.

(** A lowered offset past the end of the original: the slice panics. *)
Lemma dotted_word_panics : find_match_and_next_words (HL:=dotted_lowercase) dotted_word "a" = None.
Proof. by vm_compute. Qed.

(** The substring fallback scans without the filters of the query: asked for
    documents of type [Other], it answers with one of type [Doc]. *)
#[local] Existing Instances RefLance.ops RefLance.view RefScan.scan StoreExample.ident_serialize StoreExample.cache_order.
Lemma fallback_ignores_filters :
  match snd (io_suggest 40 "o/t" "main" "c1" (mkSuggestQuery "ear" 5 ["Other"] []) SnapshotExample.after) with
  | Ok (Done r) => map sgh_id (sgr_hits r) = ["A"]
  | _ => False
  end ∧ map cr_doc_type (v_rows (RefLance.mkHandle None 1 [SnapshotExample.arow 0 F32.zero "early"])) = ["Doc"].
Proof. by vm_compute. Qed.
