(* ===== verification/Config.v ===== *)
(** * Configuration (src/src/config/mod.rs)

    The environment, the two embedding providers, the settings kept per domain,
    and the lock that ties a store to the parameters its vectors were made with.
    The file system and serde are parameters. *)

From S2P Require Import Prelude F32 RustStr Model LayerIdx Schema Lance DatasetCache Store Embed.

(** ** Providers *)

Definition kind (p : Provider) : string :=
  match p with
  | OpenAiCompatible _ _ _ _ => "openai_compatible"
  | OpenAi _ _ _ _ => "openai"
  | GenericHttp _ _ _ _ => "generic_http"
  end.

Definition set_prefixes (p : Provider) (t : option TaskPrefix) : Provider :=
  match p with
  | OpenAiCompatible u m d _ => OpenAiCompatible u m d t
  | OpenAi u m d _ => OpenAi u m d t
  | GenericHttp u m d _ => GenericHttp u m d t
  end.

Definition resolve_provider (kind base_url model : string) (dim : nat) (prefixes : option TaskPrefix) : Provider :=
  if String.eqb kind "openai" then OpenAi base_url model dim prefixes
  else if String.eqb kind "generic_http" then GenericHttp base_url model dim prefixes
  else OpenAiCompatible base_url model dim prefixes.

(** The environment. *)
Definition Env : Type := string → option string.

Definition resolve_prefixes (model : string) (get : Env) (ns : string) : option TaskPrefix :=
  let t := prefixes_for_model model in
  let role name (table_val : TaskPrefix → string) :=
    match get (ns +:+ "PREFIX_" +:+ name) with Some s => Some s | None => table_val <$> t end in
  let document := role "DOCUMENT" tp_document in
  let query := role "QUERY" tp_query in
  let clustering := role "CLUSTERING" tp_clustering in
  let classification := role "CLASSIFICATION" tp_classification in
  match document, query, clustering, classification with
  | None, None, None, None => None
  | _, _, _, _ => Some (mkTaskPrefix (default "" document) (default "" query) (default "" clustering) (default "" classification))
  end.

(** [parse] of an unsigned integer below [bound]: digits, after an optional
    plus sign. *)
Definition digit_value (c : ascii) : option N :=
  if in_range 48 57 c then Some (byte_of c - 48)%N else None.
Fixpoint parse_digits (acc : N) (l : list ascii) : option N :=
  match l with
  | [] => Some acc
  | c :: l => d ← digit_value c; parse_digits (acc * 10 + d)%N l
  end.
Definition parse_unsigned (bound : N) (s : string) : option N :=
  let l := match str_bytes s with "+"%char :: l => l | l => l end in
  match l with
  | [] => None
  | _ => n ← parse_digits 0 l; if (n <? bound)%N then Some n else None
  end.
Definition parse_usize : string → option N := parse_unsigned (2 ^ 64).

Definition or_else {A} (x : option A) (y : option A) : option A := match x with Some a => Some a | None => y end.

Definition resolve_provider2 (slot1 : Provider) (get : Env) : option Provider :=
  model ← get "VECTORLINK_MODEL2";
  let k := default (kind slot1) (get "VECTORLINK_MODEL2_PROVIDER") in
  let base_url := default (base_url slot1) (get "VECTORLINK_MODEL2_URL") in
  let dim := default (expected_dim slot1) (s ← get "VECTORLINK_MODEL2_DIM"; N.to_nat <$> parse_usize s) in
  Some (resolve_provider k base_url model dim (resolve_prefixes model get "VECTORLINK_MODEL2_")).

Definition non_empty (s : option string) : option string :=
  s ← s; if String.eqb s "" then None else Some s.

Definition resolve_api_key2 (get : Env) (same_endpoint : bool) : option string :=
  non_empty (or_else (get "VECTORLINK_MODEL2_API_KEY")
               (if same_endpoint then get "VECTORLINK_EMBED_API_KEY" else None)).

(** ** The configuration *)

Definition DEFAULT_EMBED_BATCH_SIZE : N := 32.

Record Config := mkConfig {
  cf_admin_user : string;
  cf_admin_secret : string;
  cf_port : N;
  embed_provider : Provider;
  provider2 : option Provider;
  embed_api_key : option string;
  api_key2 : option string;
  clustering_index : option VectorIndexConfig;
  cf_data_dir : string;
  tokenizer_path : string;
  embed_batch_size : N;
  embed_cache_size : option N;
  prometheus_port : option N;
  lance_index_cache_bytes : N;
  lance_metadata_cache_bytes : N;
  dataset_cache_max : N;
}.

Definition eq_ignore_ascii_case (a b : string) : bool := String.eqb (to_lowercase a) (to_lowercase b).

(** The parameters of the clustering index; [None] for the outer option is the
    assertion on the dimension. *)
Definition clustering_index_of (get : Env) (dim : nat) : option (option VectorIndexConfig) :=
  let disabled := match get "VECTORLINK_MODEL2_INDEX" with
                  | Some s => eq_ignore_ascii_case s "false" || String.eqb s "0"
                  | None => false
                  end in
  if disabled then Some None
  else
    cfg ← default_for_dim dim;
    let field name (d : N) := default d (s ← get ("VECTORLINK_MODEL2_INDEX_" +:+ name); parse_usize s) in
    Some (Some (mkVectorIndexConfig
      (Z.of_N (field "NUM_PARTITIONS" (Z.to_N (num_partitions cfg))))
      (N.to_nat (field "M" (N.of_nat (vic_m cfg))))
      (N.to_nat (field "EF_CONSTRUCTION" (N.of_nat (ef_construction cfg))))
      (N.to_nat (field "NPROBES" (N.of_nat (nprobes cfg))))
      (match get "VECTORLINK_MODEL2_INDEX_REFINE_FACTOR" with
       | Some v => if eq_ignore_ascii_case v "none" then None else or_else (parse_unsigned (2 ^ 32) v) (refine_factor cfg)
       | None => refine_factor cfg
       end))).

(** [Config::from_env]; [None] is a failed assertion. *)
Definition from_env (get : Env) : option Config :=
  let usize name (d : N) := default d (s ← get name; parse_usize s) in
  let provider_str := default "openai_compatible" (get "VECTORLINK_EMBED_PROVIDER") in
  let embed_url := default "http://localhost:11434" (get "VECTORLINK_EMBED_URL") in
  let model := default "multilingual-e5-base" (get "VECTORLINK_MODEL") in
  let dim := N.to_nat (usize "VECTORLINK_DIM" 768%N) in
  let embed_provider := resolve_provider provider_str embed_url model dim (resolve_prefixes model get "VECTORLINK_") in
  let provider2 := resolve_provider2 embed_provider get in
  let api_key2 := p2 ← provider2;
    resolve_api_key2 get (String.eqb (trim_end_slashes (base_url p2)) (trim_end_slashes (base_url embed_provider))) in
  let same_width := match provider2 with Some p2 => (expected_dim p2 =? dim)%nat | None => true end in
  let embed_batch_size := usize "VECTORLINK_EMBED_BATCH_SIZE" DEFAULT_EMBED_BATCH_SIZE in
  if negb same_width then None
  else if negb (0 <? embed_batch_size)%N then None
  else
    clustering_index ← clustering_index_of get dim;
    Some (mkConfig (default "admin" (get "VECTORLINK_ADMIN_USER")) (default "" (get "VECTORLINK_ADMIN_SECRET"))
      (default 7372%N (s ← get "VECTORLINK_PORT"; parse_unsigned (2 ^ 16) s))
      embed_provider provider2 (non_empty (get "VECTORLINK_EMBED_API_KEY")) api_key2 clustering_index
      (default "/data" (get "VECTORLINK_DATA_DIR")) (default "/data/tokenizer.json.bz2" (get "VECTORLINK_TOKENIZER_PATH"))
      embed_batch_size
      (match get "VECTORLINK_EMBED_CACHE_SIZE" with
       | Some s => if eq_ignore_ascii_case s "none" then None else Some (default 20000%N (parse_usize s))
       | None => Some 20000%N
       end)
      (s ← get "VECTORLINK_PROMETHEUS_PORT"; parse_unsigned (2 ^ 16) s)
      (usize "VECTORLINK_LANCE_INDEX_CACHE_BYTES" (2 * 1024 * 1024 * 1024)%N)
      (usize "VECTORLINK_LANCE_METADATA_CACHE_BYTES" (512 * 1024 * 1024)%N)
      (usize "VECTORLINK_DATASET_CACHE_MAX" (N.of_nat DEFAULT_DATASET_CACHE_MAX))).

(** [Config::new]; [None] is the assertion of [default_for_dim]. *)
Definition config_new (admin_user admin_secret : string) (port : N) : option Config :=
  clustering_index ← default_for_dim 768;
  Some (mkConfig admin_user admin_secret port (OpenAiCompatible "http://localhost:11434" "multilingual-e5-base" 768 None)
    None None None (Some clustering_index) "/tmp/vectorlink-test" "assets/tokenizer.json.bz2"
    DEFAULT_EMBED_BATCH_SIZE None None (2 * 1024 * 1024 * 1024)%N (512 * 1024 * 1024)%N (N.of_nat DEFAULT_DATASET_CACHE_MAX)).

(** [Config::default], likewise. *)
Definition config_default : option Config :=
  clustering_index ← default_for_dim 768;
  Some (mkConfig "admin" "root" 7372 (OpenAiCompatible "http://localhost:11434" "multilingual-e5-base" 768 None)
    None None None (Some clustering_index) "/tmp/vectorlink-test" "assets/tokenizer.json.bz2"
    DEFAULT_EMBED_BATCH_SIZE None None (2 * 1024 * 1024 * 1024)%N (512 * 1024 * 1024)%N (N.of_nat DEFAULT_DATASET_CACHE_MAX)).

(** ** Files *)

Class FileOps (F : Type) := {
  fs_exists : F → string → bool;
  fs_read : F → string → result string string;
  fs_write : F → string → string → F * result string unit;
  fs_create_dir_all : F → string → F * result string unit;
}.

Class FileLaws (F : Type) `{FileOps F} : Prop := {
  law_fs_write f p s f' : fs_write f p s = (f', Ok tt) → fs_exists f' p = true ∧ fs_read f' p = Ok s;
}.

(** [Path::join] of a directory and a file name. *)
Definition path_join (dir file : string) : string :=
  match reverse (str_bytes dir) with
  | [] => file
  | c :: _ => if Ascii.eqb c "/" then dir +:+ file else dir +:+ "/" +:+ file
  end.

(** ** The embedding-parameter lock *)

#[warnings="-register-all"]
Inductive LockedEmbeddingParams : Type := mkLocked {
  lp_provider : string;
  lp_base_url : string;
  lp_model : string;
  lp_dim : nat;
  lp_prefixes : option TaskPrefix;
  lp_clustering : option LockedEmbeddingParams;
}.

#[export] Instance TaskPrefix_eq_dec : EqDecision TaskPrefix. Proof. solve_decision. Defined.

Definition EMBEDDING_PARAMS_FILE : string := "vectorlink-params.json".

Definition from_provider (p : Provider) : LockedEmbeddingParams :=
  mkLocked (kind p) (trim_end_slashes (base_url p)) (model_name p) (expected_dim p) (effective_prefixes p) None.

Definition locked_effective_prefixes (l : LockedEmbeddingParams) : option TaskPrefix :=
  or_else (lp_prefixes l) (prefixes_for_model (lp_model l)).

Fixpoint params_match (a b : LockedEmbeddingParams) : bool :=
  String.eqb (lp_provider a) (lp_provider b) && String.eqb (lp_base_url a) (lp_base_url b)
  && String.eqb (lp_model a) (lp_model b) && (lp_dim a =? lp_dim b)%nat
  && bool_decide (locked_effective_prefixes a = locked_effective_prefixes b)
  && match a, b with
     | mkLocked _ _ _ _ _ None, mkLocked _ _ _ _ _ None => true
     | mkLocked _ _ _ _ _ (Some a), mkLocked _ _ _ _ _ (Some b) => params_match a b
     | _, _ => false
     end.

(** serde_json on the parameters. *)
Class ParamsJson := {
  params_of_json : string → result string LockedEmbeddingParams;
  params_to_json : LockedEmbeddingParams → result string string;
}.
Class ParamsJsonLaws `{ParamsJson} : Prop := {
  law_params_json p s : params_to_json p = Ok s → params_of_json (s +:+ String newline "") = Ok p;
}.

(** What a configuration would lock. *)
Definition current_params (provider : Provider) (provider2 : option Provider) : LockedEmbeddingParams :=
  let l := from_provider provider in
  mkLocked (lp_provider l) (lp_base_url l) (lp_model l) (lp_dim l) (lp_prefixes l) (from_provider <$> provider2).

Section lock.
Context {F : Type} `{FileOps F, ParamsJson}.

Definition params_text (p : LockedEmbeddingParams) : string := match params_to_json p with Ok s => s | Err _ => "" end.

Definition verify_or_lock_embedding_params (data_dir : string) (provider : Provider) (provider2 : option Provider) (f : F)
    : F * result string unit :=
  let path := path_join data_dir EMBEDDING_PARAMS_FILE in
  let current := current_params provider provider2 in
  if fs_exists f path then
    (f,
     contents ← map_err (λ e, "failed to read " +:+ path +:+ ": " +:+ e) (fs_read f path);
     locked ← map_err (λ e, "corrupt " +:+ path +:+ ": " +:+ e +:+ " — the store's embedding parameters cannot be verified. "
                +:+ "Restore the file or recreate the store with `vectorlink drop-store --yes`.") (params_of_json contents);
     if params_match locked current then Ok tt
     else Err ("embedding parameters mismatch: the vectorlink store at " +:+ data_dir +:+ " was created with"
       +:+ String newline "" +:+ params_text locked +:+ String newline "" +:+ "but the current configuration resolves to"
       +:+ String newline "" +:+ params_text current +:+ String newline ""
       +:+ "All stored embeddings are only valid for the locked parameters. Restore the original parameters, or drop and "
       +:+ "recreate the entire store with `vectorlink drop-store --yes` — embedded in TerminusDB, delete the vectorlink "
       +:+ "directory under the storage path instead (deletes all indexed vectors)."))
  else
    match fs_create_dir_all f data_dir with
    | (f, Err e) => (f, Err ("failed to create " +:+ data_dir +:+ ": " +:+ e))
    | (f, Ok _) =>
        match params_to_json current with
        | Err e => (f, Err ("failed to serialize embedding parameters: " +:+ e))
        | Ok json =>
            let '(f, r) := fs_write f path (json +:+ String newline "") in
            (f, map_err (λ e, "failed to write " +:+ path +:+ ": " +:+ e) r)
        end
    end.
End lock.

(** ** Settings per domain *)

Record DomainSettings := mkDomainSettings { store_clustering : bool }.
#[export] Instance DomainSettings_eq_dec : EqDecision DomainSettings. Proof. solve_decision. Defined.

Record DomainSettingsMap := mkDomainSettingsMap {
  dm_settings : gmap string DomainSettings;
  dm_path : string;
}.

Class SettingsJson := {
  settings_of_json : string → result string (gmap string DomainSettings);
  settings_to_json : gmap string DomainSettings → result string string;
}.

Section settings.
Context {F : Type} `{FileOps F, SettingsJson}.

Definition settings_load (data_dir : string) (f : F) : DomainSettingsMap :=
  let path := path_join data_dir "domain_settings.json" in
  mkDomainSettingsMap
    (if fs_exists f path then
       match fs_read f path with
       | Ok contents => match settings_of_json contents with Ok m => m | Err _ => ∅ end
       | Err _ => ∅
       end
     else ∅) path.

Definition settings_new_empty : DomainSettingsMap := mkDomainSettingsMap ∅ "".

Definition settings_get (m : DomainSettingsMap) (domain : string) : DomainSettings :=
  default (mkDomainSettings false) (dm_settings m !! domain).

(** A failed write is ignored. *)
Definition settings_set (domain : string) (settings : DomainSettings) (m : DomainSettingsMap) (f : F) : DomainSettingsMap * F :=
  let m := mkDomainSettingsMap (<[domain := settings]> (dm_settings m)) (dm_path m) in
  (m,
   if String.eqb (dm_path m) "" then f
   else match settings_to_json (dm_settings m) with
        | Ok json => (fs_write f (dm_path m) json).1
        | Err _ => f
        end).

Definition domain_clustering (m : DomainSettingsMap) (domain : string) : bool := store_clustering (settings_get m domain).
End settings.

(** ** Properties *)

(** Matching compares providers, addresses, models, widths and effective
    prefixes, slot by slot. *)
Fixpoint lp_slots (a : LockedEmbeddingParams) : list (string * string * string * nat * option TaskPrefix) :=
  match a with
  | mkLocked p u m d t c =>
      (p, u, m, d, or_else t (prefixes_for_model m)) :: match c with Some c => lp_slots c | None => [] end
  end.

Lemma params_match_slots : ∀ a b, params_match a b = true ↔ lp_slots a = lp_slots b.
Proof.
  fix IH 1. intros [p u m d t [c|]] [p' u' m' d' t' [c'|]]; cbn [params_match lp_slots lp_provider lp_base_url lp_model lp_dim];
    rewrite !andb_true_iff, !String.eqb_eq, Nat.eqb_eq, bool_decide_eq_true; unfold locked_effective_prefixes; cbn [lp_prefixes lp_model].
  - rewrite (IH c c'). split; [intros [[[[[-> ->] ->] ->] Ht] ->]; by rewrite Ht|intros [= -> -> -> -> Ht ->]; done].
  - split; [by intros [_ [=]]|]. destruct c. cbn. intros [=].
  - split; [by intros [_ [=]]|]. destruct c'. cbn. intros [=].
  - split; [intros [[[[[-> ->] ->] ->] Ht] _]; by rewrite Ht|intros [= -> -> -> -> Ht]; done].
Qed.

#[export] Instance params_match_equivalence : Equivalence (λ a b, params_match a b = true).
Proof.
  split.
  - intros a. by apply params_match_slots.
  - intros a b Hab%params_match_slots. by apply params_match_slots.
  - intros a b c Hab%params_match_slots Hbc%params_match_slots. apply params_match_slots. congruence.
Qed.

Section lock_spec.
Context {F : Type} `{FileLaws F, ParamsJsonLaws}.

(** C32: the lock ties a store to the parameters of its first start: a first start
    that succeeds writes them, and every later start, on those files, succeeds
    exactly with a configuration that agrees with them on the provider kind,
    the address up to trailing slashes, the model, the width and the effective
    prefixes of both slots, and leaves the files alone whatever it answers. *)
Theorem embedding_params_locked data_dir provider provider2 (f f' : F) :
  fs_exists f (path_join data_dir EMBEDDING_PARAMS_FILE) = false →
  verify_or_lock_embedding_params data_dir provider provider2 f = (f', Ok tt) →
  ∀ q q2, ∃ r, verify_or_lock_embedding_params data_dir q q2 f' = (f', r) ∧
    (r = Ok tt ↔ lp_slots (current_params q q2) = lp_slots (current_params provider provider2)).
Proof.
  intros Hx Hv q q2. unfold verify_or_lock_embedding_params in Hv. rewrite Hx in Hv.
  destruct (fs_create_dir_all f data_dir) as [f1 [[]|e]]; [|done]. destruct (params_to_json _) as [json|e] eqn:Ej; [|done].
  destruct (fs_write f1 _ _) as [f2 [[]|e]] eqn:Ew; [|done]. cbn in Hv. injection Hv as <-.
  apply law_fs_write in Ew as [Hx2 Hr2]. apply law_params_json in Ej. unfold verify_or_lock_embedding_params.
  rewrite Hx2, Hr2. cbn [map_err mbind result_mbind]. rewrite Ej. cbn [map_err mbind result_mbind].
  eexists. split; [done|]. destruct (params_match _ _) eqn:Em.
  - apply params_match_slots in Em. done.
  - split; [done|]. intros Hs. symmetry in Hs. apply params_match_slots in Hs. congruence.
Qed.
End lock_spec.

(** C33: a configuration that is accepted is consistent: both slots have the width
    of the store, batches are not empty, and the key sent to the second
    endpoint is its own key, or the first slot's when the two addresses are
    the same up to trailing slashes: the first slot's key never goes to
    another host. *)
Theorem config_consistent get c :
  from_env get = Some c →
  (0 < embed_batch_size c)%N ∧
  (∀ p2, provider2 c = Some p2 → expected_dim p2 = expected_dim (embed_provider c)) ∧
  (∀ k, api_key2 c = Some k → k ≠ "" ∧
     (get "VECTORLINK_MODEL2_API_KEY" = Some k ∨
      get "VECTORLINK_EMBED_API_KEY" = Some k ∧ ∃ p2, provider2 c = Some p2 ∧
        trim_end_slashes (base_url p2) = trim_end_slashes (base_url (embed_provider c)))).
Proof.
  assert (Hdim : ∀ k u m d t, expected_dim (resolve_provider k u m d t) = d).
  { intros. unfold resolve_provider. by repeat case_match. }
  unfold from_env. cbv zeta. set (dim := N.to_nat _). set (p1 := resolve_provider _ _ _ dim _).
  destruct (negb match resolve_provider2 p1 get with _ => _ end) eqn:Ew; [done|].
  destruct (negb (0 <? _)%N) eqn:Eb; [done|]. destruct (clustering_index_of get dim); [|done]. cbn [mbind option_bind].
  intros [= <-]. cbn. split_and!.
  - apply negb_false_iff, N.ltb_lt in Eb. done.
  - intros p2 Hp2. rewrite Hp2 in Ew. apply negb_false_iff, Nat.eqb_eq in Ew. rewrite Ew. unfold p1. by rewrite Hdim.
  - intros k. destruct (resolve_provider2 p1 get) as [p2|]; [|done]. cbn. unfold resolve_api_key2, non_empty.
    destruct (get "VECTORLINK_MODEL2_API_KEY") as [k2|]; cbn.
    + destruct (String.eqb_spec k2 ""); [done|]. intros [= ->]. split; [done|]. by left.
    + destruct (String.eqb_spec (trim_end_slashes (base_url p2)) (trim_end_slashes (base_url p1))) as [Hs|]; [|done].
      destruct (get "VECTORLINK_EMBED_API_KEY") as [k1|]; [|done]. cbn. destruct (String.eqb_spec k1 ""); [done|].
      intros [= ->]. split; [done|]. right. split; [done|]. by exists p2.
Qed.

(** Settings: set, then read. *)
Lemma settings_set_get `{FileOps F, SettingsJson} domain d settings m (f : F) :
  settings_get (settings_set domain settings m f).1 d = if String.eqb d domain then settings else settings_get m d.
Proof.
  unfold settings_get, settings_set. cbn. destruct (String.eqb_spec d domain) as [->|Hne].
  - by rewrite lookup_insert_eq.
  - by rewrite lookup_insert_ne.
Qed.

(** ** Examples *)

Module ConfigExample.
(** Files as a map; the parameters written one per line. *)
Definition Files : Type := gmap string string.
#[export] Instance file_ops : FileOps Files := {|
  fs_exists f p := match f !! p with Some _ => true | None => false end;
  fs_read f p := ok_or "not found" (f !! p);
  fs_write f p s := (<[p := s]> f, Ok tt);
  fs_create_dir_all f _ := (f, Ok tt) |}.
#[export] Instance file_laws : FileLaws Files.
Proof.
  split. intros f p s f' [= <-]. assert (Hl : (<[p:=s]> f : Files) !! p = Some s) by apply lookup_insert_eq.
  unfold fs_exists, fs_read, file_ops. rewrite Hl. by split.
Qed.

(** The two configurations of the example, by name. *)
Definition e5 : Provider := OpenAiCompatible "http://localhost:11434" "multilingual-e5-base" 768 None.
Definition nomic : Provider := OpenAiCompatible "http://localhost:11434/" "nomic-embed-v2" 768 None.
Definition known : list (string * LockedEmbeddingParams) :=
  [("e5", current_params e5 None); ("nomic", current_params nomic None)].
Definition named (known : list (string * LockedEmbeddingParams)) (s : string) : result string LockedEmbeddingParams :=
  match list_find (λ kv : string * LockedEmbeddingParams, s = kv.1 +:+ String newline "") known with
  | Some (_, kv) => Ok kv.2
  | None => Err "expected value"
  end.
#[export] Instance params_json : ParamsJson := {|
  params_of_json := named known;
  params_to_json p := if bool_decide (lp_slots p = lp_slots (current_params e5 None)) && bool_decide (lp_prefixes p = lp_prefixes (current_params e5 None)) then Ok "e5" else Err "unsupported" |}.
#[export] Instance params_json_laws : ParamsJsonLaws.
Proof.
  split. intros [p u m d t [c|]] s; unfold params_to_json, params_json; [|].
  - destruct (bool_decide_reflect (lp_slots (mkLocked p u m d t (Some c)) = lp_slots (current_params e5 None))) as [Hs|]; [|done].
    exfalso. destruct c. by injection Hs.
  - destruct (bool_decide_reflect (lp_slots (mkLocked p u m d t None) = lp_slots (current_params e5 None))) as [Hs|]; [|done].
    destruct (bool_decide_reflect (lp_prefixes (mkLocked p u m d t None) = lp_prefixes (current_params e5 None))) as [Ht|]; [|done].
    cbn in Ht. subst t. injection Hs as -> -> -> ->. intros [= <-]. by vm_compute.
Qed.

Definition env (k : string) : option string :=
  if String.eqb k "VECTORLINK_MODEL2" then Some "nomic-embed-v2"
  else if String.eqb k "VECTORLINK_EMBED_API_KEY" then Some "secret"
  else if String.eqb k "VECTORLINK_MODEL2_URL" then Some "http://localhost:11434/" else None.
End ConfigExample.
Import ConfigExample.

(** A store locked with e5 starts again with e5 and refuses nomic. *)
Lemma embedding_params_locked_witness :
  let f1 := (verify_or_lock_embedding_params "/data" e5 None (∅ : Files)).1 in
  (verify_or_lock_embedding_params "/data" e5 None f1).2 = Ok tt ∧ (verify_or_lock_embedding_params "/data" nomic None f1).2 ≠ Ok tt.
Proof.
  cbv zeta. destruct (verify_or_lock_embedding_params "/data" e5 None (∅ : Files)) as [f1 r1] eqn:E.
  assert (r1 = Ok tt) as -> by (apply (f_equal snd) in E; by vm_compute in E).
  assert (Hx : fs_exists (∅ : Files) (path_join "/data" EMBEDDING_PARAMS_FILE) = false) by (by vm_compute).
  destruct (embedding_params_locked "/data" e5 None ∅ f1 Hx E e5 None) as (r & Er & Hr).
  destruct (embedding_params_locked "/data" e5 None ∅ f1 Hx E nomic None) as (r' & Er' & Hr'). cbn.
  rewrite Er, Er'. split; [by apply Hr|]. intros Hok%Hr'. vm_compute in Hok. discriminate Hok.
Defined.

Lemma config_consistent_witness :
  match from_env env with
  | Some c => api_key2 c = Some "secret" ∧ (0 < embed_batch_size c)%N
  | None => False
  end.
Proof.
  destruct (from_env env) as [c|] eqn:E.
  - assert (api_key2 c = Some "secret") as Hk by (compute_as (λ o, o ≫= api_key2) in E; by symmetry).
    split; [done|]. by apply config_consistent in E as [? _].
  - refute_as (λ o, match o with Some _ => true | None => false end) in E.
Defined.

Example default_is_new : config_default = config_new "admin" "root" 7372.
Proof. reflexivity. Qed.

(** [Config::default] is not the configuration of an empty environment: it has an
    admin secret, and no embedding cache. *)
Example default_is_not_from_env :
  (λ c, (cf_admin_secret c, embed_cache_size c)) <$> config_default = Some ("root", None) ∧
  (λ c, (cf_admin_secret c, embed_cache_size c)) <$> from_env (λ _, None) = Some ("", Some 20000%N).
Proof. split; vm_compute; reflexivity. Qed.
