(* ===== verification/Body.v ===== *)
(** * The body of a push as it arrives (src/src/http_api/handlers.rs, [handle_push])

    The body comes in pieces, cut by the transport and not by lines.  The
    handler keeps a buffer, cuts complete lines off it, parses each and sends
    the operation to the pipeline, in two loops: one for a plain push, one in
    the task it spawns for a streamed answer.  [from_str] is serde_json with
    the deserialiser of [Operation]; [accepts n] says that the channel takes
    one more operation after [n]. *)

From S2P Require Import Prelude F32 RustStr Model Ingest.

(** ** [str::from_utf8] with its error

    Where the first byte sequence that is not UTF-8 starts, and how long it is;
    no length for a sequence the input ends in. *)
Fixpoint utf8_error (i : nat) (l : list ascii) : option (nat * option nat) :=
  let bad n := Some (i, Some n) in
  let cut := Some (i, None) in
  match l with
  | [] => None
  | b0 :: l1 =>
      if in_range 0 127 b0 then utf8_error (i + 1) l1
      else if in_range 194 223 b0 then
        match l1 with [] => cut | b1 :: l2 => if is_cont b1 then utf8_error (i + 2) l2 else bad 1 end
      else if in_range 224 239 b0 then
        match l1 with
        | [] => cut
        | b1 :: l2 =>
            if in_range (if (byte_of b0 =? 224)%N then 160 else 128) (if (byte_of b0 =? 237)%N then 159 else 191) b1 then
              match l2 with [] => cut | b2 :: l3 => if is_cont b2 then utf8_error (i + 3) l3 else bad 2 end
            else bad 1
        end
      else if in_range 240 244 b0 then
        match l1 with
        | [] => cut
        | b1 :: l2 =>
            if in_range (if (byte_of b0 =? 240)%N then 144 else 128) (if (byte_of b0 =? 244)%N then 143 else 191) b1 then
              match l2 with
              | [] => cut
              | b2 :: l3 =>
                  if is_cont b2 then
                    match l3 with [] => cut | b3 :: l4 => if is_cont b3 then utf8_error (i + 4) l4 else bad 3 end
                  else bad 2
              end
            else bad 1
        end
      else bad 1
  end.

(** [Display] of [Utf8Error]. *)
Definition utf8_error_text (e : nat * option nat) : string :=
  match e.2 with
  | Some n => "invalid utf-8 sequence of " +:+ pretty n +:+ " bytes from index " +:+ pretty e.1
  | None => "incomplete utf-8 byte sequence from index " +:+ pretty e.1
  end.

(** [std::str::from_utf8(&chunk)] and the message of the handler. *)
Definition from_utf8 (chunk : string) : result string string :=
  match utf8_error 0 (str_bytes chunk) with
  | None => Ok chunk
  | Some e => Err ("invalid UTF-8 in push body at byte offset " +:+ pretty e.1 +:+ ": " +:+ utf8_error_text e)
  end.

(** ** Reading *)

(** One item of the body's data stream: bytes, or an error. *)
Definition BodyChunk : Type := result string string.

Inductive LineResult :=
| LineBlank
| LineAbort
| LineOp (op : Operation)
| LineBad (message : string).

Record Reader := mkReader { rd_buf : string; rd_line : nat; rd_sent : list Operation }.

(** How reading the body of a plain push ends. *)
Inductive BodyEnd :=
| EndAborted (line : nat)
| EndMalformed (message : string)
| EndBroken (message : string)
| EndRead.

Section reading.
Context (from_str : string → result string Operation).
Context (accepts : nat → bool).

Definition malformed (line_num : nat) (detail : string) : string :=
  "malformed NDJSON at line " +:+ pretty line_num +:+ ": " +:+ detail.

Definition read_line (line_num : nat) (line : string) : LineResult :=
  let trimmed := trim line in
  if String.eqb trimmed "" then LineBlank
  else match from_str trimmed with
       | Ok OpAbort => LineAbort
       | Ok op => LineOp op
       | Err e => LineBad (malformed line_num e)
       end.

(** [let _ = op_tx.send(op).await]. *)
Definition try_send (op : Operation) (sent : list Operation) : list Operation :=
  if accepts (length sent) then sent ++ [op] else sent.

Definition push_str (s : Reader) (text : string) : Reader := mkReader (rd_buf s +:+ text) (rd_line s) (rd_sent s).

(** The inner loop of a plain push; a send that fails ends this loop only. *)
Fixpoint read_lines (fuel : nat) (s : Reader) : Reader + list Operation * BodyEnd :=
  match fuel with
  | 0 => inl s
  | S fuel =>
      match split_once newline (rd_buf s) with
      | None => inl s
      | Some (line, rest) =>
          let line_num := S (rd_line s) in
          match read_line line_num line with
          | LineBlank => read_lines fuel (mkReader rest line_num (rd_sent s))
          | LineAbort => inr (try_send OpAbort (rd_sent s), EndAborted line_num)
          | LineOp op =>
              if accepts (length (rd_sent s)) then read_lines fuel (mkReader rest line_num (rd_sent s ++ [op]))
              else inl (mkReader rest line_num (rd_sent s))
          | LineBad message => inr (rd_sent s, EndMalformed message)
          end
      end
  end.

(** The line without a newline at the end. *)
Definition read_remaining (s : Reader) (stream_error : option string) : list Operation * BodyEnd :=
  match stream_error with
  | Some message => (rd_sent s, EndBroken message)
  | None =>
      match read_line (S (rd_line s)) (rd_buf s) with
      | LineBlank => (rd_sent s, EndRead)
      | LineAbort => (try_send OpAbort (rd_sent s), EndAborted (S (rd_line s)))
      | LineOp op => (try_send op (rd_sent s), EndRead)
      | LineBad message => (rd_sent s, EndMalformed message)
      end
  end.

Fixpoint read_chunks (chunks : list BodyChunk) (s : Reader) : list Operation * BodyEnd :=
  match read_lines (S (str_len (rd_buf s))) s with
  | inr r => r
  | inl s =>
      match chunks with
      | [] => read_remaining s None
      | Ok chunk :: chunks =>
          match from_utf8 chunk with
          | Ok text => read_chunks chunks (push_str s text)
          | Err message => read_remaining s (Some message)
          end
      | Err e :: _ => read_remaining s (Some ("broken stream: " +:+ e))
      end
  end.

(** The operations a plain push sends, and how its body ended. *)
Definition read_body (chunks : list BodyChunk) : list Operation * BodyEnd := read_chunks chunks (mkReader "" 0 []).

(** The task that reads the body of a streamed push: the operations it sends
    and the error it records under the push task before it closes the channel. *)
Fixpoint task_lines (fuel : nat) (s : Reader) : Reader + list Operation * option string :=
  match fuel with
  | 0 => inl s
  | S fuel =>
      match split_once newline (rd_buf s) with
      | None => inl s
      | Some (line, rest) =>
          let line_num := S (rd_line s) in
          match read_line line_num line with
          | LineBlank => task_lines fuel (mkReader rest line_num (rd_sent s))
          | LineAbort => inr (try_send OpAbort (rd_sent s), None)
          | LineOp op =>
              if accepts (length (rd_sent s)) then task_lines fuel (mkReader rest line_num (rd_sent s ++ [op]))
              else inr (rd_sent s, None)
          | LineBad message => inr (try_send (OpError message) (rd_sent s), Some message)
          end
      end
  end.

Fixpoint task_chunks (chunks : list BodyChunk) (s : Reader) : list Operation * option string :=
  match task_lines (S (str_len (rd_buf s))) s with
  | inr r => r
  | inl s =>
      match chunks with
      | [] =>
          match read_line (S (rd_line s)) (rd_buf s) with
          | LineBlank => (rd_sent s, None)
          | LineAbort => (try_send OpAbort (rd_sent s), None)
          | LineOp op => (try_send op (rd_sent s), None)
          | LineBad message => (rd_sent s, Some message)
          end
      | Ok chunk :: chunks =>
          match from_utf8 chunk with
          | Ok text => task_chunks chunks (push_str s text)
          | Err message => (rd_sent s, Some message)
          end
      | Err _ :: _ => (rd_sent s, None)
      end
  end.

Definition read_stream_body (chunks : list BodyChunk) : list Operation * option string := task_chunks chunks (mkReader "" 0 []).
End reading.

(** ** Lines and pieces *)

Lemma ws_prefix_cr c l : ws_prefix ((c :: l) ++ [carriage_return]) = ws_prefix (c :: l).
Proof.
  destruct l as [|b [|d l]]; cbn [app]; unfold ws_prefix; cbn [map]; repeat case_match; simplify_eq/=; try done;
    by (unfold ws_ascii, in_range in *; match goal with H : byte_of ?a = 226%N, H2 : _ = true |- _ => rewrite H in H2 end).
Qed.

Lemma ws_suffix_cr l : ws_suffix (l ++ [carriage_return]) = 1.
Proof.
  assert (Hnot : ∀ n, n = 2 ∨ n = 3 → (n <=? length (l ++ [carriage_return]))%nat &&
    (ws_prefix (drop (length (l ++ [carriage_return]) - n) (l ++ [carriage_return])) =? n)%nat = false).
  { intros n Hn. rewrite length_app. cbn [length]. destruct (Nat.leb_spec n (length l + 1)); [cbn|done].
    rewrite drop_app_le by lia. apply Nat.eqb_neq.
    assert (Hlen : length (drop (length l + 1 - n) l) = n - 1) by (rewrite length_drop; lia).
    destruct (drop (length l + 1 - n) l) as [|a [|b [|d r]]]; cbn [length] in Hlen; try lia;
      cbn [app]; unfold ws_prefix; cbn [map]; repeat case_match; simplify_eq/=; lia. }
  unfold ws_suffix. cbv zeta. rewrite (Hnot 3), (Hnot 2) by auto.
  rewrite length_app, Nat.add_1_r. cbn [length Nat.leb]. rewrite drop_app_le, drop_ge by lia. done.
Qed.

Lemma trim_start_cr fuel l :
  length l ≤ fuel →
  trim_start_bytes (S fuel) (l ++ [carriage_return]) =
    match trim_start_bytes fuel l with [] => [] | l' => l' ++ [carriage_return] end.
Proof.
  revert l; induction fuel as [|fuel IH]; intros l Hl.
  { destruct l; [done|cbn in Hl; lia]. }
  destruct l as [|c l]; [done|].
  change (trim_start_bytes (S fuel) (c :: l)) with
    (match ws_prefix (c :: l) with 0 => c :: l | n => trim_start_bytes fuel (drop n (c :: l)) end).
  change (trim_start_bytes (S (S fuel)) ((c :: l) ++ [carriage_return])) with
    (match ws_prefix ((c :: l) ++ [carriage_return]) with
     | 0 => (c :: l) ++ [carriage_return]
     | n => trim_start_bytes (S fuel) (drop n ((c :: l) ++ [carriage_return])) end).
  rewrite ws_prefix_cr. pose proof (ws_prefix_le (c :: l)) as Hle. destruct (ws_prefix (c :: l)) as [|n]; [done|].
  rewrite drop_app_le by lia. apply IH. rewrite length_drop. cbn [length] in *. lia.
Qed.

Lemma trim_cr line : trim (line +:+ str_of_bytes [carriage_return]) = trim line.
Proof.
  unfold trim. cbv zeta. rewrite str_bytes_app.
  change (str_bytes (str_of_bytes [carriage_return])) with [carriage_return].
  rewrite length_app. cbn [length]. rewrite Nat.add_1_r, trim_start_cr by done.
  destruct (trim_start_bytes _ _) as [|c l]; [done|]. f_equal.
  rewrite length_app, Nat.add_1_r. cbn [trim_end_bytes]. rewrite ws_suffix_cr.
  by rewrite take_app_length' by (rewrite length_app; cbn [length]; lia).
Qed.

Lemma trim_strip_cr line : trim (strip_cr line) = trim line.
Proof.
  unfold strip_cr. destruct (reverse (str_bytes line)) as [|c l] eqn:E; [done|].
  destruct (Ascii.eqb_spec c carriage_return) as [->|]; [|done].
  rewrite <-trim_cr. f_equal. apply str_bytes_inj. rewrite str_bytes_app, !list_ascii_of_string_of_list_ascii.
  by rewrite <-(reverse_involutive (str_bytes line)), E, reverse_cons.
Qed.

Lemma split_once_split c s :
  match split_once c s with
  | Some (line, rest) => split_char c s = line :: split_char c rest ∧ str_len rest < str_len s
  | None => split_char c s = [s]
  end.
Proof.
  induction s as [|a s IH]; [done|]. cbn [split_once split_char].
  destruct (Ascii.eqb a c); [split; [done|unfold str_len; cbn; lia]|].
  destruct (split_once c s) as [[line rest]|]; [|by rewrite IH].
  destruct IH as [-> Hl]. split; [done|]. unfold str_len in *. cbn. lia.
Qed.

Lemma split_once_app c s t line rest : split_once c s = Some (line, rest) → split_once c (s +:+ t) = Some (line, rest +:+ t).
Proof.
  revert line; induction s as [|a s IH]; intros line; [done|].
  change (String a s +:+ t) with (String a (s +:+ t)). cbn [split_once].
  destruct (Ascii.eqb a c); [by intros [= <- <-]|].
  destruct (split_once c s) as [[l r]|]; [|done]. intros [= <- <-]. by rewrite (IH l eq_refl).
Qed.

Lemma utf8_error_valid i l : utf8_error i l = None ↔ utf8_valid l = true.
Proof.
  remember (length l) as n eqn:Hn. assert (length l ≤ n) as Hle by lia. clear Hn.
  revert i l Hle; induction n as [|n IH]; intros i [|b0 l] Hle; cbn in Hle; try done; try lia.
  cbn [utf8_error utf8_valid]. cbv zeta.
  destruct (in_range 0 127 b0); [apply IH; lia|].
  destruct (in_range 194 223 b0).
  { destruct l as [|b1 l]; [done|]. cbn in Hle. destruct (is_cont b1); [apply IH; lia|done]. }
  destruct (in_range 224 239 b0).
  { destruct l as [|b1 [|b2 l]]; [done|by destruct (in_range _ _ b1)|]. cbn in Hle.
    destruct (in_range _ _ b1), (is_cont b2); try done. apply IH; lia. }
  destruct (in_range 240 244 b0); [|done].
  destruct l as [|b1 [|b2 [|b3 l]]]; [done|by destruct (in_range _ _ b1)| |].
  { destruct (in_range _ _ b1), (is_cont b2); done. }
  cbn in Hle. destruct (in_range _ _ b1), (is_cont b2), (is_cont b3); try done. apply IH; lia.
Qed.

Lemma from_utf8_valid chunk : utf8_valid (str_bytes chunk) = true → from_utf8 chunk = Ok chunk.
Proof. intros Hv%(utf8_error_valid 0). unfold from_utf8. by rewrite Hv. Qed.

Lemma join_nil_cons s l : join "" (s :: l) = s +:+ join "" l.
Proof. destruct l; [|done]. symmetry. apply str_bytes_inj. by rewrite str_bytes_app, app_nil_r. Qed.

(** ** What reading a body means *)

Section reading_props.
Context (from_str : string → result string Operation).
Abbreviation open_channel := (λ _ : nat, true).

(** Line by line, with no regard to how the body came. *)
Fixpoint read_pieces (n : nat) (sent : list Operation) (pieces : list string) : list Operation * BodyEnd :=
  match pieces with
  | [] => (sent, EndRead)
  | line :: pieces =>
      match read_line from_str (S n) line with
      | LineBlank => read_pieces (S n) sent pieces
      | LineAbort => (sent ++ [OpAbort], EndAborted (S n))
      | LineOp op => read_pieces (S n) (sent ++ [op]) pieces
      | LineBad message => (sent, EndMalformed message)
      end
  end.

Definition read_on (s : Reader) (text : string) : list Operation * BodyEnd :=
  read_pieces (rd_line s) (rd_sent s) (split_char newline (rd_buf s +:+ text)).

Lemma read_lines_pieces fuel s :
  str_len (rd_buf s) < fuel →
  match read_lines from_str open_channel fuel s with
  | inl s' => split_once newline (rd_buf s') = None ∧ ∀ text, read_on s text = read_on s' text
  | inr r => ∀ text, read_on s text = r
  end.
Proof.
  revert s; induction fuel as [|fuel IH]; intros s Hl; [lia|]. cbn [read_lines].
  pose proof (split_once_split newline (rd_buf s)) as Hs.
  destruct (split_once newline (rd_buf s)) as [[line rest]|] eqn:Eo; [|done].
  assert (Hon : ∀ text, read_on s text =
    read_pieces (rd_line s) (rd_sent s) (line :: split_char newline (rest +:+ text))).
  { intros text. unfold read_on. apply (split_once_app _ _ text) in Eo.
    pose proof (split_once_split newline (rd_buf s +:+ text)) as H. rewrite Eo in H. by destruct H as [-> _]. }
  destruct Hs as [_ Hr]. cbn [read_pieces] in Hon. destruct (read_line from_str _ line) as [| |op|m]; [|done| |done].
  - specialize (IH (mkReader rest (S (rd_line s)) (rd_sent s))). cbn [rd_buf] in IH.
    destruct (read_lines _ _ _ _) as [s'|r].
    + destruct IH as [? IH]; [lia|]. split; [done|]. intros text. rewrite Hon. apply IH.
    + intros text. rewrite Hon. apply IH. lia.
  - specialize (IH (mkReader rest (S (rd_line s)) (rd_sent s ++ [op]))). cbn [rd_buf] in IH.
    destruct (read_lines _ _ _ _) as [s'|r].
    + destruct IH as [? IH]; [lia|]. split; [done|]. intros text. rewrite Hon. apply IH.
    + intros text. rewrite Hon. apply IH. lia.
Qed.

Lemma read_remaining_pieces s :
  split_once newline (rd_buf s) = None → read_remaining from_str open_channel s None = read_on s "".
Proof.
  intros Ho. unfold read_on. assert (rd_buf s +:+ "" = rd_buf s) as ->.
  { apply str_bytes_inj. by rewrite str_bytes_app, app_nil_r. }
  pose proof (split_once_split newline (rd_buf s)) as H. rewrite Ho in H. rewrite H. cbn.
  by destruct (read_line _ _ _).
Qed.

Lemma read_chunks_pieces chunks s :
  Forall (λ c, utf8_valid (str_bytes c) = true) chunks →
  read_chunks from_str open_channel (map Ok chunks) s = read_on s (join "" chunks).
Proof.
  intros Hv. revert s; induction Hv as [|chunk chunks Hc Hv IH]; intros s; cbn [map read_chunks];
    pose proof (read_lines_pieces (S (str_len (rd_buf s))) s (Nat.lt_succ_diag_r _)) as Hl;
    (destruct (read_lines _ _ _ s) as [s'|r]; [destruct Hl as [Ho Hl]|by rewrite Hl]).
  - rewrite read_remaining_pieces by done. by rewrite Hl.
  - rewrite from_utf8_valid by done. rewrite IH, Hl, join_nil_cons. unfold read_on, push_str. cbn [rd_buf rd_line rd_sent].
    do 2 f_equal. apply str_bytes_inj. by rewrite !str_bytes_app, <-app_assoc.
Qed.

(** ** Pieces, lines and the parser of whole bodies *)

Lemma read_line_strip_cr n line : read_line from_str n (strip_cr line) = read_line from_str n line.
Proof. unfold read_line. by rewrite trim_strip_cr. Qed.

Lemma read_pieces_strip_cr n sent pieces last :
  read_pieces n sent (map strip_cr pieces ++ last) = read_pieces n sent (pieces ++ last).
Proof.
  revert n sent; induction pieces as [|line pieces IH]; intros n sent; [done|]. cbn. rewrite read_line_strip_cr.
  by destruct (read_line _ _ _).
Qed.

Lemma read_pieces_lines n sent text : read_pieces n sent (split_char newline text) = read_pieces n sent (lines text).
Proof.
  unfold lines. rewrite <-(reverse_involutive (split_char newline text)) at 1.
  destruct (reverse (split_char newline text)) as [|last init]; [done|].
  rewrite reverse_cons, read_pieces_strip_cr. destruct last as [|c last]; [|done].
  rewrite app_nil_r. revert n sent. induction (reverse init) as [|line pieces IH]; intros n sent; [done|]. cbn.
  by destruct (read_line _ _ _).
Qed.

Lemma read_pieces_blank n sent line pieces :
  blank line = true → read_pieces n sent (line :: pieces) = read_pieces (S n) sent pieces.
Proof. intros Hb. cbn. unfold read_line. unfold blank in Hb. by rewrite Hb. Qed.

Lemma read_pieces_parsed n sent pre ops rest :
  parsed_as from_str pre ops → OpAbort ∉ ops →
  read_pieces n sent (pre ++ rest) = read_pieces (n + length pre) (sent ++ ops) rest.
Proof.
  intros Hp. revert n sent. induction Hp as [|line pre ops Hb Hp IH|line pre op ops Hb Hop Hp IH]; intros n sent Hna.
  - by rewrite app_nil_r, Nat.add_0_r.
  - cbn [app]. rewrite read_pieces_blank, IH by done. cbn [length]. by rewrite Nat.add_succ_r.
  - apply not_elem_of_cons in Hna as [Hne Hna]. cbn. unfold read_line. unfold blank in Hb. rewrite Hb, Hop.
    rewrite Nat.add_succ_r. destruct op; try done; by rewrite IH, <-app_assoc.
Qed.

(** What the streamed reader does is what the plain one does, but for how it
    reports the end. *)
Definition task_end (plain : list Operation * BodyEnd) (task : list Operation * option string) : Prop :=
  match plain.2 with
  | EndRead | EndAborted _ => task = (plain.1, None)
  | EndMalformed m => task = (plain.1 ++ [OpError m], Some m) ∨ task = (plain.1, Some m)
  | EndBroken m => task = (plain.1, Some m) ∨ task = (plain.1, None)
  end.

Lemma task_lines_plain fuel s :
  match read_lines from_str open_channel fuel s with
  | inl s' => task_lines from_str open_channel fuel s = inl s'
  | inr plain => ∃ task, task_lines from_str open_channel fuel s = inr task ∧ task_end plain task
  end.
Proof.
  revert s; induction fuel as [|fuel IH]; intros s; [done|]. cbn [read_lines task_lines].
  destruct (split_once _ _) as [[line rest]|]; [|done]. destruct (read_line _ _ _); [apply IH| |apply IH|].
  - by eexists.
  - eexists. split; [done|]. by left.
Qed.

Lemma task_chunks_plain chunks s :
  task_end (read_chunks from_str open_channel chunks s) (task_chunks from_str open_channel chunks s).
Proof.
  revert s; induction chunks as [|[chunk|e] chunks IH]; intros s; cbn [read_chunks task_chunks];
    pose proof (task_lines_plain (S (str_len (rd_buf s))) s) as Ht;
    (destruct (read_lines _ _ _ s) as [s'|r]; [rewrite Ht|destruct Ht as (task & -> & Ht); exact Ht]).
  - cbn. destruct (read_line _ _ _); [done..|by right].
  - destruct (from_utf8 chunk); [apply IH|by left].
  - by right.
Qed.

Lemma read_body_pieces chunks :
  Forall (λ c, utf8_valid (str_bytes c) = true) chunks →
  read_body from_str open_channel (map Ok chunks) = read_pieces 0 [] (lines (join "" chunks)).
Proof. intros Hv. unfold read_body. rewrite read_chunks_pieces by done. apply read_pieces_lines. Qed.

Lemma read_body_parsed chunks ops :
  Forall (λ c, utf8_valid (str_bytes c) = true) chunks →
  parse_ndjson_body from_str (join "" chunks) = Ok ops → OpAbort ∉ ops →
  read_body from_str open_channel (map Ok chunks) = (ops, EndRead) ∧
  read_stream_body from_str open_channel (map Ok chunks) = (ops, None).
Proof.
  intros Hv Hp%parse_lines_ok Hna.
  assert (Hb : read_body from_str open_channel (map Ok chunks) = (ops, EndRead)).
  { rewrite read_body_pieces, <-(app_nil_r (lines _)) by done. by rewrite (read_pieces_parsed _ _ _ ops). }
  split; [done|]. pose proof (task_chunks_plain (map Ok chunks) (mkReader "" 0 [])) as Ht.
  unfold read_body in Hb. by rewrite Hb in Ht.
Qed.

(** C11: however the transport cuts a push body, as long as no cut is inside a
    character, both readers send the pipeline what the parser of whole bodies
    reads: all operations of a body that parses, without an abort; up to and
    with an abort; and before the first malformed line, which is reported under
    its number in the body. *)
Theorem push_body_read chunks :
  Forall (λ c, utf8_valid (str_bytes c) = true) chunks →
  let body := join "" chunks in
  let plain := read_body from_str open_channel (map Ok chunks) in
  task_end plain (read_stream_body from_str open_channel (map Ok chunks)) ∧
  (∀ ops, parse_ndjson_body from_str body = Ok ops → OpAbort ∉ ops → plain = (ops, EndRead)) ∧
  (∀ pre line post ops, lines body = pre ++ line :: post → parsed_as from_str pre ops → OpAbort ∉ ops →
     (from_str (trim line) = Ok OpAbort → blank line = false → plain = (ops ++ [OpAbort], EndAborted (S (length pre)))) ∧
     (∀ detail, from_str (trim line) = Err detail → blank line = false →
        parse_ndjson_body from_str body = Err (MalformedLine (S (length pre)) detail) ∧
        plain = (ops, EndMalformed (malformed (S (length pre)) detail)))).
Proof.
  intros Hv body plain. split; [apply task_chunks_plain|]. pose proof (read_body_pieces chunks Hv) as Hplain. split.
  - intros ops Hp Hna. by apply read_body_parsed.
  - intros pre line post ops Hl Hp Hna. unfold plain. rewrite Hplain. fold body. rewrite Hl, (read_pieces_parsed _ _ _ ops) by done.
    cbn. unfold read_line, blank. split.
    + intros -> ->. done.
    + intros detail Hd Hb. rewrite Hb, Hd. split; [|done]. apply (parse_lines_err from_str _ 0).
      exists pre, line, post, ops, detail. split_and!; try done. f_equal. lia.
Qed.
End reading_props.

(** ** Instances *)

Definition nl : string := str_of_bytes [newline].
(** Two deletions and a bad line, cut inside the lines. *)
Definition cut_body : list string := ["D:"; "a" +:+ nl +:+ "  "; nl +:+ "D"; ":b" +:+ nl +:+ "x"].

Lemma push_body_read_witness :
  read_body example_from_str (λ _, true) (map Ok cut_body)
    = ([Deleted "a"; Deleted "b"], EndMalformed "malformed NDJSON at line 4: expected value").
Proof.
  apply (proj2 (proj2 (push_body_read example_from_str cut_body ltac:(repeat constructor)))
           ["D:a"; "  "; "D:b"] "x" [] [Deleted "a"; Deleted "b"]).
  - vm_compute. reflexivity.
  - apply parsed_op; [vm_compute; reflexivity..|]. apply parsed_blank; [vm_compute; reflexivity|].
    apply parsed_op; [vm_compute; reflexivity..|]. constructor.
  - intros Ha. apply elem_of_cons in Ha as [Ha|Ha]; [done|]. by apply list_elem_of_singleton in Ha.
  - vm_compute. reflexivity.
  - vm_compute. reflexivity.
Defined.

(** A valid body is refused when the transport cuts it inside a character. *)
Definition e_acute : list ascii := [ascii_of_N 195; ascii_of_N 169].
Lemma cut_character_refused :
  read_body example_from_str (λ _, true) [Ok ("D:" +:+ str_of_bytes e_acute)]
    = ([Deleted (str_of_bytes e_acute)], EndRead) ∧
  read_body example_from_str (λ _, true) [Ok ("D:" +:+ str_of_bytes (take 1 e_acute)); Ok (str_of_bytes (drop 1 e_acute))]
    = ([], EndBroken "invalid UTF-8 in push body at byte offset 2: incomplete utf-8 byte sequence from index 2").
Proof. vm_compute. by split. Qed.
