(* ===== verification/Service.v ===== *)
(** * The service (src/src/service/mod.rs, [SearchService])

    The transport-agnostic API over the store, the configuration and the
    embedding providers: readiness, resolution of the commit that is served,
    the search, similarity, duplicate and candidate requests, the embedding
    readers, pushes, assignment, deletion and comparison.

    A request runs here from its first step to its last; how requests interleave
    at the locks they take is the subject of Locks and Push.  The permit of the
    heavy-scan semaphore, which is never closed, has no effect on one request.
    Formatting of floats and quoted strings, and the text of a join error, are
    parameters. *)

From S2P Require Import Integrity Stats Prelude F32 RustStr Model Distance LayerIdx Ingest Chunk Schema Rollup Dedup Lance Search Resolve Knn DatasetCache Store Commit Tasks Index Maintain Embed Pipeline Growth PipelineSpec PipelineRun Snapshot Neighbours Suggest Config.

(** ** Formatting *)

Class Formats := {
  debug_str : string → string;
  show_f32 : f32 → string;
  join_error : string;
}.

Definition parse_error_to_string `{Formats} (e : ParseError) : string :=
  match e with
  | InvalidDomain s => "invalid domain: expected at least org/db, got " +:+ debug_str s
  | InvalidRefKind s => "invalid reference kind: expected 'branch' or 'commit', got " +:+ debug_str s
  | IncompleteRef s => "incomplete reference: missing value after '" +:+ s +:+ "'"
  end.

Definition layer_error_to_string (e : LayerIdxError) : string :=
  match e with
  | LayerInternal m => "layer index error: " +:+ m
  | DecodeError m => "tag decode error: " +:+ m
  end.

Definition internal (e : StoreError) : ServiceError := ServiceInternal (store_error_to_string e).

(** ** State *)

Record Service (W H N D : Type) := mkService {
  sv_store : LanceStore W H;
  sv_settings : DomainSettingsMap;
  sv_config : Config;
  sv_chunk_params : ChunkParams;
  sv_net : N;
  sv_embed_cache : EmbedCache D;
  sv_ready_index : bool;
  sv_ready_search : bool;
  sv_tasks : Tasks;
  sv_active_tasks : Z;
  sv_clock_reads : nat;
}.
Arguments mkService {W H N D}.
Arguments sv_store {W H N D}. Arguments sv_settings {W H N D}. Arguments sv_config {W H N D}.
Arguments sv_chunk_params {W H N D}. Arguments sv_net {W H N D}. Arguments sv_embed_cache {W H N D}.
Arguments sv_ready_index {W H N D}. Arguments sv_ready_search {W H N D}. Arguments sv_tasks {W H N D}.
Arguments sv_active_tasks {W H N D}. Arguments sv_clock_reads {W H N D}.

Section setters.
Context {W H N D : Type} (sv : Service W H N D).
Definition with_store (s : LanceStore W H) : Service W H N D :=
  mkService s (sv_settings sv) (sv_config sv) (sv_chunk_params sv) (sv_net sv) (sv_embed_cache sv)
    (sv_ready_index sv) (sv_ready_search sv) (sv_tasks sv) (sv_active_tasks sv) (sv_clock_reads sv).
Definition with_embedding (e : N * option (EmbedCache D)) : Service W H N D :=
  mkService (sv_store sv) (sv_settings sv) (sv_config sv) (sv_chunk_params sv) e.1 (default (sv_embed_cache sv) e.2)
    (sv_ready_index sv) (sv_ready_search sv) (sv_tasks sv) (sv_active_tasks sv) (sv_clock_reads sv).
Definition with_tasks (t : Tasks) (clock_reads : nat) : Service W H N D :=
  mkService (sv_store sv) (sv_settings sv) (sv_config sv) (sv_chunk_params sv) (sv_net sv) (sv_embed_cache sv)
    (sv_ready_index sv) (sv_ready_search sv) t (sv_active_tasks sv) clock_reads.
Definition with_active (n : Z) : Service W H N D :=
  mkService (sv_store sv) (sv_settings sv) (sv_config sv) (sv_chunk_params sv) (sv_net sv) (sv_embed_cache sv)
    (sv_ready_index sv) (sv_ready_search sv) (sv_tasks sv) n (sv_clock_reads sv).
Definition set_search_ready (ready : bool) : Service W H N D :=
  mkService (sv_store sv) (sv_settings sv) (sv_config sv) (sv_chunk_params sv) (sv_net sv) (sv_embed_cache sv)
    (sv_ready_index sv) ready (sv_tasks sv) (sv_active_tasks sv) (sv_clock_reads sv).
Definition set_index_ready (ready : bool) : Service W H N D :=
  mkService (sv_store sv) (sv_settings sv) (sv_config sv) (sv_chunk_params sv) (sv_net sv) (sv_embed_cache sv)
    ready (sv_ready_search sv) (sv_tasks sv) (sv_active_tasks sv) (sv_clock_reads sv).
Definition is_index_ready : bool := sv_ready_index sv.
Definition is_search_ready : bool := sv_ready_search sv.
Definition is_read_only : bool := st_read_only (sv_store sv).
(** The state of an embedding call: every call is given the cache. *)
Definition embedding_state : N * option (EmbedCache D) := (sv_net sv, Some (sv_embed_cache sv)).
End setters.

(** ** Requests

    A request may answer, fail, panic, or run a loop that does not end. *)

Section monad.
Context {W H N D : Type}.
Definition srv (A : Type) : Type := Service W H N D → Service W H N D * outcome (result ServiceError A).

Definition srv_ret {A} (a : A) : srv A := λ sv, (sv, Done (Ok a)).
Definition srv_throw {A} (e : ServiceError) : srv A := λ sv, (sv, Done (Err e)).
Definition srv_bind {A B} (c : srv A) (k : A → srv B) : srv B := λ sv,
  match c sv with
  | (sv, Done (Ok a)) => k a sv
  | (sv, Done (Err e)) => (sv, Done (Err e))
  | (sv, Panicked) => (sv, Panicked)
  | (sv, OutOfFuel) => (sv, OutOfFuel)
  end.
Definition srv_modify (f : Service W H N D → Service W H N D) : srv unit := λ sv, (f sv, Done (Ok tt)).
Definition srv_reads {A} (f : Service W H N D → A) : srv A := λ sv, (sv, Done (Ok (f sv))).
(** [result.map_err(err)?]. *)
Definition srv_lift {A} (r : result ServiceError A) : srv A := λ sv, (sv, Done r).
Definition srv_io {A} (err : StoreError → ServiceError) (c : io W H A) : srv A := λ sv,
  let '(s, r) := c (sv_store sv) in (with_store sv s, Done (map_err err r)).
Definition srv_outcome {A} (o : outcome A) : srv A := λ sv,
  (sv, match o with Done a => Done (Ok a) | Panicked => Panicked | OutOfFuel => OutOfFuel end).
End monad.
Arguments srv : clear implicits.

Declare Scope srv_scope.
Delimit Scope srv_scope with srv.
Notation "'let*' x ':=' c 'in' k" := (srv_bind c (λ x, k))
  (at level 10, x binder, c at level 100, k at level 200) : srv_scope.
Notation "c ';*' k" := (srv_bind c (λ _, k)) (at level 100, k at level 200, right associativity) : srv_scope.
Open Scope srv_scope.

(** The HTTP client of an API key: its requests carry the key. *)
Class Clients (N : Type) := client : option string → Http N.

Section embedding.
Context {W H N D : Type} `{SledOps D, Codec, JsonVectors} {HC : Clients N}.
Abbreviation Srv := (srv W H N D).

(** [io_embed] with the client of [key], and what its callers do with an error. *)
Definition srv_embed (label : string) (provider : Provider) (key : option string) (texts : list string) (role : EmbeddingRole)
    : Srv (list (list f32)) := λ sv,
  let '(e, r) := io_embed (H2:=client key) (embedding_state sv) provider texts role in
  (with_embedding sv e,
   match r with
   | None => Panicked
   | Some r => Done (map_err (λ err, ServiceInternal (label +:+ " failed: " +:+ embed_error_to_string err)) r)
   end).

Definition first_embedding (missing : string) (l : list (list f32)) : Srv (list f32) :=
  srv_lift (ok_or (ServiceInternal missing) (head l)).

(** The provider and the key of the clustering role. *)
Definition clustering_provider (c : Config) : Provider := default (embed_provider c) (provider2 c).
Definition clustering_key (c : Config) : option string :=
  match provider2 c with Some _ => api_key2 c | None => embed_api_key c end.

(** [embed_route]. *)
Definition embed_route (c : Config) (role : EmbeddingRole) : Provider * option string :=
  match role, provider2 c with
  | RoleClustering, Some p2 => (p2, api_key2 c)
  | _, _ => (embed_provider c, embed_api_key c)
  end.

(** The two embedding calls of a pipeline context. *)
Definition service_embedder (c : Config) : Embedder (N * option (EmbedCache D)) := {|
  embed_document e texts :=
    io_embed_batched (H2:=client (embed_api_key c)) e (embed_provider c) texts (N.to_nat (embed_batch_size c)) RoleDocument;
  embed_clustering e texts :=
    io_embed_batched (H2:=client (clustering_key c)) e (clustering_provider c) texts (N.to_nat (embed_batch_size c)) RoleClustering;
|}.

Definition model_names (c : Config) : string * string :=
  (model_name (embed_provider c), model_name (clustering_provider c)).
End embedding.

(** ** Results *)

(** Of [InternalStats], the sizes of the lock maps, the chunk counters of the
    pipelines and the configured capacities of Lance's caches. *)
Record Gauges := mkGauges {
  gg_pipeline_locks : nat;
  gg_domain_guards : nat;
  gg_pipeline_pending_chunks : BinNums.N;
  gg_pipeline_embedded_chunks : BinNums.N;
  gg_pipeline_written_chunks : BinNums.N;
  gg_lance_index_cache_capacity_bytes : BinNums.N;
  gg_lance_metadata_cache_capacity_bytes : BinNums.N;
}.
Record InternalStats := mkInternalStats {
  is_cached_datasets : nat;
  is_tasks : nat;
  is_branch_indexes : nat;
  is_inflight_commits : nat;
  is_pipeline_active_tasks : Z;
  is_fresh_open_count : BinNums.N;
  is_embed_cache_entries : Z;
  is_embed_cache_size_bytes : Z;
  is_gauges : Gauges;
}.
Definition with_cache_sizes (i : InternalStats) (entries size_bytes : Z) : InternalStats :=
  mkInternalStats (is_cached_datasets i) (is_tasks i) (is_branch_indexes i) (is_inflight_commits i)
    (is_pipeline_active_tasks i) (is_fresh_open_count i) entries size_bytes (is_gauges i).
Record SearchOutcome := mkSearchOutcome { so_hits : list SearchHit; so_served_commit : string }.
Record SimilarOutcome := mkSimilarOutcome { si_hits : list SearchHit; si_served_commit : string }.
Record CompareResult := mkCompareResult { cr_distance : f32; cr_source_role : string; cr_target_role : string }.
Record SuggestOutcome := mkSuggestOutcome {
  su_served_commit : string; su_total_approx : nat; su_completions : list string; su_hits : list SuggestHit;
}.
Record EmbeddingsResult := mkEmbeddingsResult {
  em_doc_embeddings : gmap string (list f32);
  em_clustering_embeddings : gmap string (list f32);
  em_store_clustering : bool;
  em_served_commit : string;
  em_embedding_model : string;
  em_clustering_model : string;
}.
(** The receiver as the list of what it yields. *)
Record EmbeddingsStreamResult := mkEmbeddingsStreamResult {
  es_served_commit : string;
  es_store_clustering : bool;
  es_total_count : nat;
  es_embedding_model : string;
  es_clustering_model : string;
  es_receiver : list EmbeddingRecord;
}.
Record CandidateEntry := mkCandidateEntry {
  ce_id : string; ce_distance : f32; ce_clustering_distance : option f32;
  ce_embedding : option (list f32); ce_content : option string;
}.
Record CandidatesStats := mkCandidatesStats {
  cs_elapsed_ms : Z; cs_set_points : nat; cs_target_points : nat;
  cs_set_to_target_edges : nat; cs_target_to_set_edges : nat; cs_store_clustering : bool;
}.
Record CandidatesResult := mkCandidatesResult {
  ca_set_to_target : gmap string (list CandidateEntry);
  ca_target_to_set : gmap string (list CandidateEntry);
  ca_stats : CandidatesStats;
}.

Definition role_name (role : EmbeddingRole) : string :=
  match role with
  | RoleDocument => "document" | RoleQuery => "query"
  | RoleClustering => "clustering" | RoleClassification => "classification"
  end.

Definition set_hit_distance (d : f32) (h : SearchHit) : SearchHit :=
  mkSearchHit (sh_id h) d (sh_chunk h) (sh_rrf_score h) (sh_vector h) (sh_fts h).
Definition set_group_distance (d : f32) (g : DuplicateGroup) : DuplicateGroup := mkDuplicateGroup (dg_group g) d.

(** [iter().skip(start).take(count)]. *)
Definition page {A} (start count : nat) (l : list A) : list A := take count (drop start l).

(** The override of [similar_with_options] and the order it sorts by. *)
Definition override_hit (probe : list f32) (result_embeddings : gmap string (list f32)) (hit : SearchHit) : SearchHit :=
  match result_embeddings !! sh_id hit with
  | Some result_emb => if vectors_equal probe result_emb then set_hit_distance F32.zero hit else hit
  | None => hit
  end.
Definition hit_distance_cmp (a b : SearchHit) : comparison := F32.cmp_or_eq (sh_distance a) (sh_distance b).

(** The override of [duplicates_with_options]. *)
Definition override_group (doc_embeddings : gmap string (list f32)) (g : DuplicateGroup) : DuplicateGroup :=
  match dg_group g with
  | [a; b] =>
      match doc_embeddings !! dm_id a, doc_embeddings !! dm_id b with
      | Some ea, Some eb => if vectors_equal ea eb then set_group_distance F32.zero g else g
      | _, _ => g
      end
  | _ => g
  end.

(** [1.0 - dot].max(0.0), the dot product summed in order. *)
Definition clustering_distance_of (src nbr : list f32) : f32 :=
  F32.max (F32.sub F32.one (f32_sum (map (λ p, F32.mul p.1 p.2) (zip src nbr)))) F32.zero.

(** The closure [convert] of [candidates_gather]. *)
Definition convert (store_clustering include_embeddings include_content : bool)
    (clustering_embeddings doc_embeddings : gmap string (list f32)) (doc_contents : gmap string string)
    (src_id : string) (nbrs : list Neighbour) : list CandidateEntry :=
  map (λ n, mkCandidateEntry (nb_id n) (nb_distance n)
    (if store_clustering then
       match clustering_embeddings !! src_id, clustering_embeddings !! nb_id n with
       | Some src, Some nbr => Some (clustering_distance_of src nbr)
       | _, _ => None
       end
     else None)
    (if include_embeddings then doc_embeddings !! nb_id n else None)
    (if include_content then doc_contents !! nb_id n else None)) nbrs.

Definition edges (m : gmap string (list CandidateEntry)) : nat := sum_list (map (λ kv, length kv.2) (map_to_list m)).

(** The ids a neighbour map mentions. *)
Definition neighbour_ids (m : gmap string (list Neighbour)) : gset string :=
  list_to_set (concat (map (λ kv, map nb_id kv.2) (map_to_list m))) ∪ dom m.

Section requests.
Context {W H N D : Type} `{LanceOps W H, LanceScan W H, LanceCount W H} `{LanceIndexOps W H, LanceMaintOps W H} `{ByteSerialize} {HB : HashIter string (list BinNums.N)}
        `{SledOps D, Codec, JsonVectors} {HCl : Clients N} `{Formats}
        {HD : HashIter string (DatasetCacheEntry H)} {HT : HashIter string TagContents} {HU : HashIter string unit}
        {HF : HashIter string f32} {HO : HashIter (string * string) CanonicalObservation}
        {HE : HashIter string (string * (Z * (list f32 * option (list f32))))}
        {HCh : HashIter string ChunkHit} {HFd : HashIter string FusedDoc} {HM : HashIter (string * Z) (f32 * ChunkHit)}
        {HL : Lowercase} {HK : HashIter string (nat * string)} {HTs : HashIter string (TaskStatus * Z)}.
Context (cosine_distance : list f32 → list f32 → f32).
(** The clock, by reads, in nanoseconds. *)
Context (clock : nat → Z).
Abbreviation Srv := (srv W H N D).

Definition now : Srv Z := λ sv, (with_tasks sv (sv_tasks sv) (S (sv_clock_reads sv)), Done (Ok (clock (sv_clock_reads sv)))).

Definition srv_record_task (task_id : string) (status : TaskStatus) : Srv unit :=
  let* t := now in srv_modify (λ sv, with_tasks sv (record_task task_id status t (sv_tasks sv)) (sv_clock_reads sv)).

Definition parse_request (domain_raw : string) : Srv ResourcePath :=
  srv_lift (map_err (λ e, Validation (parse_error_to_string e)) (parse_domain domain_raw)).

Definition require_search_ready : Srv unit := λ sv,
  (sv, Done (if is_search_ready sv then Ok tt
             else Err (Unavailable "search capability not ready (embedding backend cold)"))).

Definition last_indexed (domain_raw branch_raw : string) : Srv LastIndexed :=
  let* rp := parse_request domain_raw in
  srv_io internal (Commit.last_indexed (from_resource_path rp) (mkBranchName branch_raw)).

Definition resolve_commit_or_branch (domain_raw commit : string) (branch : option string) : Srv string :=
  if negb (String.eqb commit "") then srv_ret commit
  else
    match non_empty branch with
    | None => srv_throw (Validation "missing required query parameter: commit or branch")
    | Some branch_name =>
        let* last := last_indexed domain_raw branch_name in
        srv_lift (ok_or (NotFound ("no indexed commit for branch " +:+ branch_name +:+ " on domain " +:+ domain_raw))
          (li_commit last))
    end.

Definition check_task (task_id : string) : Srv TaskStatus := λ sv,
  (sv, Done (ok_or (NotFound ("unknown task: " +:+ task_id)) (Tasks.check_task task_id (sv_tasks sv)))).

Definition assign (domain_raw source_commit target_commit : string) : Srv unit :=
  let* rp := parse_request domain_raw in
  let domain_str := domain_str (from_resource_path rp) in
  srv_io (λ e, let msg := store_error_to_string e in
               if contains "is not indexed" msg
               then NotFound ("source commit " +:+ source_commit +:+ " is not indexed")
               else ServiceInternal msg)
    (io_assign_commit domain_str (extract_branch rp) source_commit target_commit);*
  srv_ret tt.

(** ** The commit that is served *)

Definition branch_has_indexed_lineage (domain : Domain) (branch : string) : Srv bool :=
  let* last := srv_io internal (Commit.last_indexed domain (mkBranchName branch)) in
  srv_ret (bool_decide (is_Some (li_commit last))).

Definition resolve_searchable_commit (domain : Domain) (branch requested_commit : string) (ancestors : list string)
    : Srv string :=
  let* commit_versions := srv_io internal (io_list_commit_versions (domain_str domain)) in
  if bool_decide (is_Some (commit_versions !! requested_commit)) then srv_ret requested_commit
  else
    let* lineage := branch_has_indexed_lineage domain branch in
    if negb lineage then
      srv_throw (NotFound ("no indexed lineage for branch " +:+ branch +:+ " (commit " +:+ requested_commit +:+ ")"))
    else
      let* resolved := srv_lift (map_err (λ e, ServiceInternal (layer_error_to_string e))
        (resolve_nearest_layer requested_commit ancestors (λ c, Ok (commit_versions !! c)))) in
      match resolved with
      | Exact commit _ => srv_ret commit
      | Ancestor served_commit _ => srv_ret served_commit
      | NoLayer => srv_throw (NotFound ("no indexed ancestor for commit " +:+ requested_commit +:+ " on branch "
          +:+ branch +:+ " within the supplied window"))
      end.

(** The opening steps of every reading request: the domain, the branch and the
    commit that is served. *)
Definition open_request (domain_raw commit : string) (ancestors : list string) : Srv (string * string * string) :=
  let* rp := parse_request domain_raw in
  require_search_ready;*
  let domain := from_resource_path rp in
  let branch := extract_branch rp in
  let* served_commit := resolve_searchable_commit domain branch commit ancestors in
  srv_ret (domain_str domain, branch, served_commit).

(** ** Searching *)

Definition search_with_options (domain_raw commit q : string) (mode : SearchMode) (start count : nat)
    (doc_type_filter doc_id_filter : list string) (snippet : bool) (ancestors : list string) : Srv SearchOutcome :=
  let* r := open_request domain_raw commit ancestors in
  let '(domain_str, branch, served_commit) := r in
  let* config := srv_reads sv_config in
  let* embeddings := srv_embed "embedding" (embed_provider config) (embed_api_key config) [q] RoleQuery in
  let* query_embedding := first_embedding "no embedding returned" embeddings in
  let search_query := mkSearchQuery (l2_normalize query_embedding) q mode start count doc_type_filter doc_id_filter snippet in
  let* results := srv_io internal (search_documents domain_str branch served_commit search_query) in
  let* results := srv_outcome (match results with Some hits => Done hits | None => Panicked end) in
  srv_ret (mkSearchOutcome (page start count results) served_commit).

Definition search (domain_raw commit q : string) : Srv SearchOutcome :=
  search_with_options domain_raw commit q Hybrid 0 10 [] [] false [].

(** The suggestions of the store may not come: see the file Suggest. *)
Definition suggest (fuel : nat) (domain_raw commit q : string) (count : nat)
    (doc_type_filter doc_id_filter ancestors : list string) : Srv SuggestOutcome :=
  let* r := open_request domain_raw commit ancestors in
  let '(domain_str, branch, served_commit) := r in
  let* result := srv_io internal
    (io_suggest fuel domain_str branch served_commit (mkSuggestQuery q count doc_type_filter doc_id_filter)) in
  let* result := srv_outcome result in
  srv_ret (mkSuggestOutcome served_commit (sgr_total_approx result) (sgr_completions result) (sgr_hits result)).

(** The norm check of a stored vector. *)
Definition milli : f32 := F32.div F32.one (F32.of_Z 1000).
Definition f32_abs (x : f32) : f32 := SFabs x.
Definition norm_sq (v : list f32) : f32 := f32_sum (map (λ x, F32.mul x x) v).
Definition unit_norm (v : list f32) : bool := negb (F32.gt (f32_abs (F32.sub (norm_sq v) F32.one)) milli).

Definition similar_with_options (domain_raw commit id : string) (start count : nat)
    (doc_type_filter doc_id_filter : list string) (snippet : bool) (ancestors : list string) : Srv SimilarOutcome :=
  let* r := open_request domain_raw commit ancestors in
  let '(domain_str, branch, served_commit) := r in
  let* doc_chunks := srv_io internal (io_lookup_doc_chunks domain_str branch id) in
  match doc_chunks with
  | [] => srv_throw (NotFound ("document " +:+ id +:+ " not found in index"))
  | chunk :: _ =>
      let probe_embedding := h_embedding chunk in
      let* config := srv_reads sv_config in
      let dim := expected_dim (embed_provider config) in
      if negb (length probe_embedding =? dim)%nat then
        srv_throw (ServiceInternal ("stored embedding for " +:+ id +:+ " has dimension "
          +:+ pretty (N.of_nat (length probe_embedding)) +:+ ", expected " +:+ pretty (N.of_nat dim)))
      else if negb (unit_norm probe_embedding) then
        srv_throw (ServiceInternal ("stored embedding for " +:+ id +:+ " is not L2-normalised (norm^2 = "
          +:+ show_f32 (norm_sq probe_embedding) +:+ "); the insert-time normalisation invariant is violated"))
      else
        let search_query := mkSearchQuery probe_embedding "" Vector start (S count) doc_type_filter doc_id_filter snippet in
        let* chunk_hits := srv_io internal (search_chunks domain_str branch served_commit search_query) in
        let all_results := dedup_chunks_to_documents chunk_hits snippet in
        let paginated := page start count (List.filter (λ hit, negb (String.eqb (sh_id hit) id)) all_results) in
        if negb (is_empty paginated) && negb (is_empty probe_embedding) then
          let* result_embeddings := srv_io internal
            (io_fetch_result_embeddings domain_str branch served_commit (map sh_id paginated) [] "embedding") in
          srv_ret (mkSimilarOutcome (sort_by hit_distance_cmp (map (override_hit probe_embedding result_embeddings) paginated))
                     served_commit)
        else srv_ret (mkSimilarOutcome paginated served_commit)
  end.

Definition similar (domain_raw commit id : string) : Srv SimilarOutcome :=
  similar_with_options domain_raw commit id 0 10 [] [] false [].

Definition similar_with_text (domain_raw commit text : string) (start count : nat)
    (doc_type_filter doc_id_filter : list string) (snippet : bool) (ancestors : list string) : Srv SimilarOutcome :=
  let* r := open_request domain_raw commit ancestors in
  let '(domain_str, branch, served_commit) := r in
  let* config := srv_reads sv_config in
  let* embeddings := srv_embed "embedding" (embed_provider config) (embed_api_key config) [text] RoleDocument in
  let* probe_embedding := first_embedding "no embedding returned" embeddings in
  let search_query :=
    mkSearchQuery (l2_normalize probe_embedding) text Vector start count doc_type_filter doc_id_filter snippet in
  let* chunk_hits := srv_io internal (search_chunks domain_str branch served_commit search_query) in
  srv_ret (mkSimilarOutcome (page start count (dedup_chunks_to_documents chunk_hits snippet)) served_commit).

(** ** Duplicates and candidates *)

Definition group_members (groups : list DuplicateGroup) : gset string :=
  list_to_set (concat (map (λ g, map dm_id (dg_group g)) groups)).

Definition duplicates_with_options (domain_raw commit : string) (threshold : f32) (scope : DuplicateScope) (snippet : bool)
    (start count : nat) (ancestors : list string) : Srv (list DuplicateGroup) :=
  let* r := open_request domain_raw commit ancestors in
  let '(domain_str, branch, served_commit) := r in
  let* groups := srv_io internal
    (duplicate_groups domain_str branch served_commit threshold scope snippet DEFAULT_DUPLICATE_MAX_POINTS) in
  let* groups :=
    if is_empty groups then srv_ret groups
    else
      let* doc_embeddings := srv_io internal
        (io_fetch_result_embeddings domain_str branch served_commit (set_order (group_members groups)) [] "embedding") in
      srv_ret (sort_by group_cmp (map (override_group doc_embeddings) groups)) in
  srv_ret (page start count groups).

Definition duplicates (domain_raw commit : string) : Srv (list DuplicateGroup) :=
  duplicates_with_options domain_raw commit F32.zero (mkDuplicateScope [] [] [] []) false 0 (Z.to_nat usize_max) [].

(** An optional read. *)
Definition when {A} (b : bool) (c : Srv (gmap string A)) : Srv (gmap string A) := if b then c else srv_ret ∅.

Definition candidates_gather (domain_raw commit : string) (scope : DuplicateScope) (k : nat)
    (threshold_set threshold_target : f32) (include_embeddings include_content : bool) (ancestors : list string)
    : Srv CandidatesResult :=
  let* r := open_request domain_raw commit ancestors in
  let '(domain_str, branch, served_commit) := r in
  let* start_time := now in
  let* maps := srv_io internal (io_resolve_cross_neighbours cosine_distance domain_str branch served_commit scope k
                 threshold_set threshold_target DEFAULT_DUPLICATE_MAX_POINTS) in
  let s2t := rn_set_to_target maps in
  let t2s := rn_target_to_set maps in
  let all_doc_ids := if include_embeddings || include_content then neighbour_ids s2t ∪ neighbour_ids t2s else ∅ in
  let* doc_embeddings := when include_embeddings (srv_io internal
    (io_fetch_result_embeddings domain_str branch served_commit (set_order all_doc_ids) [] "embedding")) in
  let* doc_contents := when include_content (srv_io internal
    (io_fetch_doc_contents domain_str branch served_commit (set_order all_doc_ids))) in
  let* store_clustering := srv_reads (λ sv, domain_clustering (sv_settings sv) domain_str) in
  let* clustering_embeddings := when store_clustering (srv_io internal
    (io_fetch_result_embeddings domain_str branch served_commit (set_order (all_doc_ids ∪ dom s2t ∪ dom t2s)) []
       "clustering_embedding")) in
  let entries := convert store_clustering include_embeddings include_content clustering_embeddings doc_embeddings doc_contents in
  let set_to_target := map_imap (λ id nbrs, Some (entries id nbrs)) s2t in
  let target_to_set := map_imap (λ id nbrs, Some (entries id nbrs)) t2s in
  let* end_time := now in
  srv_ret (mkCandidatesResult set_to_target target_to_set
    (mkCandidatesStats (duration_since end_time start_time `div` 1000000)%Z (size s2t) (size t2s)
       (edges set_to_target) (edges target_to_set) store_clustering)).

(** ** Embeddings *)

Definition fetch_embeddings (domain_raw commit : string) (doc_ids doc_types ancestors : list string) : Srv EmbeddingsResult :=
  let* r := open_request domain_raw commit ancestors in
  let '(domain_str, branch, served_commit) := r in
  let* doc_embeddings := srv_io internal
    (io_fetch_result_embeddings domain_str branch served_commit doc_ids doc_types "embedding") in
  let* store_clustering := srv_reads (λ sv, domain_clustering (sv_settings sv) domain_str) in
  let* clustering_embeddings := when store_clustering (srv_io internal
    (io_fetch_result_embeddings domain_str branch served_commit doc_ids doc_types "clustering_embedding")) in
  let* names := srv_reads (λ sv, model_names (sv_config sv)) in
  srv_ret (mkEmbeddingsResult doc_embeddings clustering_embeddings store_clustering served_commit names.1 names.2).

Definition fetch_embeddings_stream (domain_raw commit : string) (doc_ids doc_types ancestors : list string)
    : Srv EmbeddingsStreamResult :=
  let* r := open_request domain_raw commit ancestors in
  let '(domain_str, branch, served_commit) := r in
  let* store_clustering := srv_reads (λ sv, domain_clustering (sv_settings sv) domain_str) in
  let* streamed := srv_io internal
    (io_stream_embeddings domain_str branch served_commit doc_ids doc_types store_clustering) in
  let* names := srv_reads (λ sv, model_names (sv_config sv)) in
  srv_ret (mkEmbeddingsStreamResult served_commit store_clustering streamed.1 names.1 names.2 streamed.2).

(** ** Deletion, comparison, validation *)

Definition delete_domain (domain_raw : string) : Srv unit :=
  let* rp := parse_request domain_raw in
  srv_io internal (io_delete_domain (domain_str (from_resource_path rp))).

Definition delete_branch_index (domain_raw branch : string) : Srv unit :=
  let* rp := parse_request domain_raw in
  srv_io internal (io_delete_branch_index (domain_str (from_resource_path rp)) branch).

Definition compare_with_roles (source target : string) (source_role target_role : EmbeddingRole) : Srv CompareResult :=
  if String.eqb source target then srv_ret (mkCompareResult F32.zero (role_name source_role) (role_name target_role))
  else
    require_search_ready;*
    let* config := srv_reads sv_config in
    let '(source_provider, source_client) := embed_route config source_role in
    let '(target_provider, target_client) := embed_route config target_role in
    let* source_embeddings := srv_embed "embedding source" source_provider source_client [source] source_role in
    let* target_embeddings := srv_embed "embedding target" target_provider target_client [target] target_role in
    let* source_vec := first_embedding "no embedding returned for source" source_embeddings in
    let* target_vec := first_embedding "no embedding returned for target" target_embeddings in
    srv_ret (mkCompareResult
      (cosine_distance_normalized cosine_distance (l2_normalize source_vec) (l2_normalize target_vec))
      (role_name source_role) (role_name target_role)).

Definition compare (source target : string) : Srv CompareResult := compare_with_roles source target RoleDocument RoleDocument.

Definition validate_domain (domain_raw : string) : result ServiceError unit :=
  map_err (λ e, Validation (parse_error_to_string e)) (parse_domain domain_raw);; Ok tt.

Definition record_error_task (task_id error : string) : Srv unit := srv_record_task task_id (TaskError error).

(** ** Statistics and the integrity check *)

Context {HFP : FormParse}.

Definition statistics : Srv Statistics := srv_io internal Stats.statistics.

Definition statistics_for_domain (domain_raw : string) : Srv Statistics :=
  let* rp := parse_request domain_raw in
  let domain := domain_str (from_resource_path rp) in
  let* sc := srv_reads (λ sv, domain_clustering (sv_settings sv) domain) in
  srv_io internal (Stats.statistics_for_domain domain sc).

(** The sizes the store knows; [gauges]: those of what the state here leaves out. *)
Definition store_internal_stats (gauges : Gauges) (sv : Service W H N D) : InternalStats := {|
  is_cached_datasets := size (dc_datasets (st_cache (sv_store sv)));
  is_tasks := size (sv_tasks sv);
  is_branch_indexes := size (st_branch_indexes (sv_store sv));
  is_inflight_commits := size (st_inflight (sv_store sv));
  is_pipeline_active_tasks := sv_active_tasks sv;
  is_fresh_open_count := st_fresh_open_count (sv_store sv);
  is_embed_cache_entries := 0;
  is_embed_cache_size_bytes := 0;
  is_gauges := gauges |}.

Definition internal_stats (gauges : Gauges) : Srv InternalStats := λ sv,
  let '(cache, entries) := cache_len (sv_embed_cache sv) in
  (with_embedding sv (sv_net sv, Some cache),
   Done (Ok (with_cache_sizes (store_internal_stats gauges sv) entries (entries * Z.of_nat (st_dim (sv_store sv)) * 4)%Z))).

Definition integrity_check (domain_raw : string) : Srv IntegrityReport :=
  let* rp := parse_request domain_raw in
  srv_io internal (io_integrity_check (domain_str (from_resource_path rp))).

(** ** Pushes *)

Context (vector_config : VectorIndexConfig) (encode : string → result string Encoding).

(** The error of a fork, by its text. *)
Definition fork_error (e : StoreError) : ServiceError :=
  let msg := store_error_to_string e in
  if contains "not indexed" msg || contains "does not exist" msg then NotFound msg else ServiceInternal msg.

Definition release (domain branch commit : string) : Srv unit := srv_io internal (io_release_commit_reservation domain branch commit).

(** The opening steps of both pushes: the reservation, the fork, the task. *)
Definition accept_push (domain_raw branch commit : string) (parent_commit : option string) (uuid : string)
    : Srv (string * string) :=
  let* rp := parse_request domain_raw in
  let domain_str := domain_str (from_resource_path rp) in
  let* reserved := srv_io internal (io_try_reserve_commit domain_str branch commit) in
  if negb reserved then
    srv_throw (Conflict ("commit " +:+ commit +:+ " already pushed (in-flight or indexed)"))
  else
    (match parent_commit with
     | Some parent =>
         if String.eqb branch MAIN_BRANCH then srv_ret tt
         else λ sv,
           match io_ensure_branch_forked domain_str branch parent (sv_store sv) with
           | (s, Ok _) => (with_store sv s, Done (Ok tt))
           | (s, Err e) => (release domain_str branch commit;* srv_throw (fork_error e)) (with_store sv s)
           end
     | None => srv_ret tt
     end);*
    let task_id := "task-" +:+ uuid in
    srv_record_task task_id (Pending F32.zero);*
    srv_ret (domain_str, task_id).

Definition busy_error (domain branch : string) : ServiceError :=
  Unavailable ("pipeline lock busy for " +:+ domain +:+ "/" +:+ branch +:+ ", retry later").

(** The error text of a pipeline. *)
Definition pipeline_error (e : StoreError) : string := match e with StoreInternal m | ReadOnly m => m end.

Definition task_result (r : result StoreError (N.t * list SkippedDoc)) : TaskStatus :=
  match r with
  | Ok (indexed, skipped) => Complete indexed skipped
  | Err e => TaskError (pipeline_error e)
  end.

Definition add_active (n : Z) : Srv unit := srv_modify (λ sv, with_active sv (sv_active_tasks sv + n)%Z).

(** The pipeline task and its join: what is recorded under the task, the
    release of the reservation.  The pipeline panics before it writes. *)
Definition push_task (domain branch commit task_id : string) (operations : list Operation) : Srv unit :=
  add_active 1;*
  let* panicked := λ sv,
    let config := sv_config sv in
    let '(e, r) := io_run_index_pipeline (H4:=service_embedder config) vector_config (clustering_index config)
                     (domain_clustering (sv_settings sv) domain) encode (sv_chunk_params sv) (embedding_state sv)
                     domain branch commit operations (sv_store sv) in
    let sv := with_embedding sv e in
    match r with
    | None => (sv, Done (Ok None))
    | Some (s, r) => (with_store sv s, Done (Ok (Some (task_result r))))
    end in
  match panicked with
  | Some status => add_active (-1);* srv_record_task task_id status;* release domain branch commit
  | None =>
      srv_record_task task_id (TaskError ("pipeline panicked: " +:+ join_error));*
      release domain branch commit;* add_active (-1)
  end.

(** [push]; [busy]: the pipeline lock was not had in thirty seconds. *)
Definition push (busy : bool) (uuid domain_raw branch commit : string) (parent_commit : option string)
    (operations : list Operation) : Srv string :=
  let* accepted := accept_push domain_raw branch commit parent_commit uuid in
  let '(domain, task_id) := accepted in
  if busy then release domain branch commit;* srv_throw (busy_error domain branch)
  else push_task domain branch commit task_id operations;* srv_ret task_id.

(** [push_stream], up to the spawn of its task; [token] is the fresh
    cancellation token. *)
Definition push_stream (busy : bool) (token : nat) (uuid domain_raw branch commit : string) (parent_commit : option string)
    : Srv (string * string) :=
  let* accepted := accept_push domain_raw branch commit parent_commit uuid in
  let '(domain, task_id) := accepted in
  srv_io internal (cancel_previous_pipeline_and_register domain branch token);*
  if busy then
    release domain branch commit;*
    srv_io internal (cancel_previous_pipeline_and_register domain branch token);*
    srv_throw (busy_error domain branch)
  else srv_ret (domain, task_id).

(** The task it spawns and the monitor of its panics; [cancelled]: the reads of
    the token.  A panic is in the collect phase, which leaves the store as
    [stream_open] does.  The progress messages sent are the result. *)
Definition push_stream_task (cancelled : nat → bool) (progress : bool) (domain branch commit task_id : string)
    (operations : list Operation) (expected_docs : option N.t) : Srv (list ProgressUpdate) :=
  add_active 1;*
  let* outcome := λ sv,
    let config := sv_config sv in
    let '(e, r) := io_run_index_pipeline_stream (H4:=service_embedder config) vector_config (clustering_index config)
                     (domain_clustering (sv_settings sv) domain) encode (sv_chunk_params sv) cancelled
                     (N.to_nat (embed_batch_size config)) progress (embedding_state sv)
                     domain branch commit operations expected_docs (sv_store sv) in
    let sv := with_embedding sv e in
    match r with
    | None => (with_store sv (fst (stream_open domain branch (sv_store sv))), Done (Ok None))
    | Some (s, r, msgs) => (with_store sv s, Done (Ok (Some (task_result r, msgs))))
    end in
  match outcome with
  | Some (status, msgs) =>
      srv_io internal (unregister_pipeline_cancel_token domain branch);*
      srv_record_task task_id status;* release domain branch commit;* add_active (-1);* srv_ret msgs
  | None =>
      srv_record_task task_id (TaskError ("pipeline panicked: " +:+ join_error));*
      release domain branch commit;*
      srv_io internal (unregister_pipeline_cancel_token domain branch);* add_active (-1);* srv_ret []
  end.
End requests.

(** ** Construction *)

(** [Iterator::min_by_key]: the first of the smallest. *)
Definition min_by_key {A} (key : A → nat) (l : list A) : option A :=
  foldl (λ best x, match best with
                   | None => Some x
                   | Some b => if (key x <? key b)%nat then Some x else best
                   end) None l.

Definition default_chunk_params : ChunkParams := mkChunkParams 480 64.

(** The prefixes a chunk is embedded under. *)
Definition chunk_prefixes (config : Config) : list string :=
  omap id [ (λ p, prefix_for_role p RoleDocument) <$> effective_prefixes (embed_provider config);
            (λ p, prefix_for_role p RoleClustering) <$> effective_prefixes (clustering_provider config) ].

Definition chunk_budget (encode : string → result string Encoding) (config : Config) : ChunkParams :=
  default default_chunk_params
    (min_by_key max_tokens (omap (λ p, ok_option (params_for_window encode p)) (chunk_prefixes config))).

(** [new_with_cache]; [header_ok]: which strings are header values, [None] the
    panic on a key that is not one. *)
Definition new_with_cache {W H N D} (header_ok : string → bool) (encode : string → result string Encoding) (get : Env)
    (store : LanceStore W H) (settings : DomainSettingsMap) (config : Config) (net : N) (embed_cache : EmbedCache D)
    : option (Service W H N D) :=
  let store := if ec_locked_elsewhere embed_cache then set_read_only store true else store in
  let search_ready := default true ((λ v, negb (String.eqb v "false")) <$> get "VECTORLINK_SEARCH_READY") in
  let valid key := match key with Some k => header_ok ("Bearer " +:+ k) | None => true end in
  if valid (embed_api_key config) && valid (api_key2 config)
  then Some (mkService store settings config (chunk_budget encode config) net embed_cache true search_ready ∅ 0 0)
  else None.

(** [SearchService::new]; [sled_open]: opening the tree in a directory. *)
Definition service_new {W H N D} `{SledOps D, Codec} (sled_open : string → result SledError D) (header_ok : string → bool)
    (encode : string → result string Encoding) (get : Env) (store : LanceStore W H) (settings : DomainSettingsMap)
    (config : Config) (net : N) : option (Service W H N D) :=
  embed_cache ← open (sled_open (path_join (cf_data_dir config) "embed_cache")) (N.to_nat <$> embed_cache_size config);
  new_with_cache header_ok encode get store settings config net embed_cache.
