(* ===== verification/ServiceSpec.v ===== *)
(** * Properties of the service

    What a request may change, which commit it is served from, and what a push
    leaves behind. *)

From S2P Require Import Integrity Stats Prelude F32 RustStr Model Distance LayerIdx Ingest Chunk Schema Rollup Dedup Lance Search Resolve Knn DatasetCache Store Commit Tasks Index Maintain Embed Pipeline Growth PipelineSpec PipelineRun Snapshot Isolation Neighbours Suggest Config Service.

(** ** Reading the store *)

Section reads.
Context {W H : Type} `{LanceLaws W H}.
Implicit Types s : LanceStore W H.

(** Nothing on disk, no reservation; caches may fill. *)
Record reads s s' : Prop := {
  rd_disk : st_disk s' = st_disk s;
  rd_inflight : st_inflight s' = st_inflight s;
  rd_read_only : st_read_only s' = st_read_only s;
  rd_dim : st_dim s' = st_dim s;
  rd_cache : cache_from (st_cache s) (st_cache s');
}.

#[export] Instance reads_preorder : PreOrder reads.
Proof.
  split.
  - intros s. split; [done..|apply cache_from_refl].
  - intros s1 s2 s3 [] []. split; [congruence..|]. by eapply cache_from_trans.
Qed.

Lemma quiet_reads s s' : quiet s s' → reads s s'.
Proof. by intros (n & c & -> & ?). Qed.

Lemma reads_on_main s s' : reads s s' → cache_on_main s → cache_on_main s'.
Proof.
  intros Hr Hc d e He. destruct (rd_cache _ _ Hr d e He) as [(e0 & He0 & ->)|]; [eauto|].
  by apply main_handle_branch.
Qed.

Lemma reads_dir s s' p : reads s s' → dir_of s' p = dir_of s p.
Proof. intros Hr. unfold dir_of. by rewrite (rd_disk _ _ Hr). Qed.

Lemma reads_snapshot {HV : LanceVersions W H} `{ByteSerialize} s s' d c h :
  reads s s' → snapshot_of s' d c h ↔ snapshot_of s d c h.
Proof. intros Hr. unfold snapshot_of, domain_tags. by rewrite (reads_dir s s'). Qed.

Class Reads {A} (c : io W H A) : Prop := reads_run s s' r : c s = (s', r) → reads s s'.

#[export] Instance reads_ret {A} (a : A) : Reads (io_ret a).
Proof. intros s s' r [= <- _]. reflexivity. Qed.
#[export] Instance reads_throw {A} e : Reads (io_throw (A:=A) e).
Proof. intros s s' r [= <- _]. reflexivity. Qed.
#[export] Instance reads_get : Reads io_get.
Proof. intros s s' r [= <- _]. reflexivity. Qed.
#[export] Instance reads_bind {A B} (c : io W H A) (k : A → io W H B) :
  Reads c → (∀ a, Reads (k a)) → Reads (io_bind c k).
Proof.
  intros Hc Hk s s' r. unfold io_bind. destruct (c s) as [s1 [a|e]] eqn:E; apply Hc in E.
  - intros Hr. apply Hk in Hr. by etrans.
  - by intros [= <- _].
Qed.
#[export] Instance reads_read {A} p m (f : W → result string A) : Reads (io_read p m f).
Proof. intros s s' r [= <- _]. reflexivity. Qed.
#[export] Instance reads_pure_of {A} (f : LanceStore W H → result StoreError A) : Reads (λ s, (s, f s)).
Proof. intros s s' r [= <- _]. reflexivity. Qed.
Lemma reads_quiet {A} (c : io W H A) : (∀ s s' r, c s = (s', r) → quiet s s') → Reads c.
Proof. intros Hc s s' r E. by eapply quiet_reads, Hc. Qed.
Lemma reads_modify (f : LanceStore W H → LanceStore W H) : (∀ s, reads s (f s)) → Reads (io_modify f).
Proof. intros Hf s s' r [= <- _]. apply Hf. Qed.
End reads.

#[export] Hint Extern 2 (Reads (match ?x with _ => _ end)) => destruct x : typeclass_instances.

Section readers.
Context {W H : Type} `{LanceLaws W H} {HS : LanceScan W H} {HCo : LanceCount W H} `{ByteSerialize}
        {HD : HashIter string (DatasetCacheEntry H)} {HT : HashIter string TagContents} {HU : HashIter string unit}
        {HF : HashIter string f32} {HO : HashIter (string * string) CanonicalObservation}
        {HE : HashIter string (string * (Z * (list f32 * option (list f32))))}
        {HCh : HashIter string ChunkHit} {HFd : HashIter string FusedDoc} {HM : HashIter (string * Z) (f32 * ChunkHit)}
        {HL : Lowercase} {HK : HashIter string (nat * string)}.
Implicit Types s : LanceStore W H.

#[export] Instance reads_open_readonly d : Reads (io_open_dataset_readonly (W:=W) (H:=H) d).
Proof. apply reads_quiet. by intros s s' r [? _]%io_open_dataset_readonly_inv. Qed.
#[export] Instance reads_list_tags d (h : H) : Reads (list_tags (W:=W) d h).
Proof. unfold list_tags. apply _. Qed.
#[export] Instance reads_resolve d b c : Reads (io_resolve_commit (W:=W) (H:=H) d b c).
Proof. unfold io_resolve_commit. apply _. Qed.
#[export] Instance reads_commits d : Reads (io_list_commit_versions (W:=W) (H:=H) d).
Proof. unfold io_list_commit_versions. apply _. Qed.
#[export] Instance reads_derive d b : Reads (io_derive_last_indexed (W:=W) (H:=H) d b).
Proof. unfold io_derive_last_indexed. apply _. Qed.
#[export] Instance reads_last d b : Reads (Commit.last_indexed (W:=W) (H:=H) d b).
Proof.
  unfold Commit.last_indexed. cbv zeta. apply reads_bind; [apply _|]. intros s. destruct (st_branch_indexes s !! _); [apply _|].
  apply reads_bind; [apply _|]. intros [[c v]|]; [|apply _]. apply reads_bind; [|apply _].
  apply reads_modify. intros s1. destruct (st_branch_indexes s1 !! _); [reflexivity|]. by split; [..|apply cache_from_refl].
Qed.
#[export] Instance reads_checkout p (h : H) k : Reads (checkout_tagged (W:=W) p h k).
Proof. unfold checkout_tagged. apply _. Qed.
#[export] Instance reads_open_snapshot d b c : Reads (io_snapshot_from_cache (W:=W) (H:=H) d b c).
Proof. unfold io_snapshot_from_cache. apply _. Qed.
#[export] Instance reads_scan p err (h : H) r : Reads (io_scan (W:=W) p err h r).
Proof. intros s s' x [= <- _]. reflexivity. Qed.
#[export] Instance reads_pure {A} (r : result StoreError A) : Reads (io_pure (W:=W) (H:=H) r).
Proof. intros s s' x [= <- _]. reflexivity. Qed.
#[export] Instance reads_lookup d b i : Reads (io_lookup_doc_chunks (W:=W) (H:=H) d b i).
Proof. unfold io_lookup_doc_chunks, scan_doc_chunks. apply _. Qed.
#[export] Instance reads_fetch d b c ids tys col : Reads (io_fetch_result_embeddings (W:=W) (H:=H) d b c ids tys col).
Proof. unfold io_fetch_result_embeddings. apply _. Qed.
#[export] Instance reads_contents d b c ids : Reads (io_fetch_doc_contents (W:=W) (H:=H) d b c ids).
Proof. unfold io_fetch_doc_contents. apply _. Qed.
#[export] Instance reads_stream d b c ids tys sc : Reads (io_stream_embeddings (W:=W) (H:=H) d b c ids tys sc).
Proof. unfold io_stream_embeddings. cbv zeta. apply _. Qed.
#[export] Instance reads_search {A} f d b c : Reads (store_search (W:=W) (H:=H) (A:=A) f d b c).
Proof.
  intros s s' x. unfold store_search. destruct (io_snapshot_from_cache d b c s) as [s1 h] eqn:Er.
  apply reads_run in Er. by intros [= <- _].
Qed.
#[export] Instance reads_suggest fuel d b c q : Reads (io_suggest (W:=W) (H:=H) fuel d b c q).
Proof. unfold io_suggest. apply _. Qed.
#[export] Instance reads_points p (h : H) f sn : Reads (io_scan_points (W:=W) p h f sn).
Proof. unfold io_scan_points. apply _. Qed.
#[export] Instance reads_duplicates d b c t scope sn n : Reads (duplicate_groups (W:=W) (H:=H) d b c t scope sn n).
Proof. unfold duplicate_groups, io_open_snapshot. cbv zeta. apply _. Qed.
#[export] Instance reads_cross cosine d b c scope k t1 t2 n :
  Reads (io_resolve_cross_neighbours (W:=W) (H:=H) cosine d b c scope k t1 t2 n).
Proof. unfold io_resolve_cross_neighbours, io_open_snapshot. cbv zeta. apply _. Qed.
End readers.

(** ** Requests that only read *)

Section requests.
Context {W H N D : Type} `{LanceLaws W H} {HS : LanceScan W H} {HCo : LanceCount W H} `{ByteSerialize}
        `{SledOps D, Codec, JsonVectors} {HCl : Clients N} `{Formats}
        {HD : HashIter string (DatasetCacheEntry H)} {HT : HashIter string TagContents} {HU : HashIter string unit}
        {HF : HashIter string f32} {HO : HashIter (string * string) CanonicalObservation}
        {HE : HashIter string (string * (Z * (list f32 * option (list f32))))}
        {HCh : HashIter string ChunkHit} {HFd : HashIter string FusedDoc} {HM : HashIter (string * Z) (f32 * ChunkHit)}
        {HL : Lowercase} {HK : HashIter string (nat * string)} {HTs : HashIter string (TaskStatus * Z)}
        {HI : LanceIndexOps W H} {HMO : LanceMaintOps W H} {HB : HashIter string (list BinNums.N)} {HFP : FormParse}.
Context (cosine_distance : list f32 → list f32 → f32) (clock : nat → Z).
Implicit Types sv : Service W H N D.

(** The store is read, the provider may be called, embeddings may be cached:
    the cache, which is on disk, gains the vectors of texts. *)
Record reading sv sv' : Prop := {
  rq_store : reads (sv_store sv) (sv_store sv');
  rq_settings : sv_settings sv' = sv_settings sv;
  rq_config : sv_config sv' = sv_config sv;
  rq_params : sv_chunk_params sv' = sv_chunk_params sv;
  rq_ready : sv_ready_index sv' = sv_ready_index sv ∧ sv_ready_search sv' = sv_ready_search sv;
  rq_tasks : sv_tasks sv' = sv_tasks sv;
  rq_active : sv_active_tasks sv' = sv_active_tasks sv;
  rq_cache : rtc cache_step (sv_embed_cache sv) (sv_embed_cache sv');
}.

#[export] Instance reading_preorder : PreOrder reading.
Proof.
  split.
  - intros sv. split; try done; reflexivity.
  - intros s1 s2 s3 [R1 ? ? ? [] ? ? ?] [R2 ? ? ? [] ? ? ?]. split; try congruence; [by etrans|split; congruence|by etrans].
Qed.

Class Reading {A} (c : srv W H N D A) : Prop := reading_run sv sv' r : c sv = (sv', r) → reading sv sv'.

#[export] Instance reading_ret {A} (a : A) : Reading (srv_ret a).
Proof. intros s s' r [= <- _]. reflexivity. Qed.
#[export] Instance reading_throw {A} e : Reading (srv_throw (A:=A) e).
Proof. intros s s' r [= <- _]. reflexivity. Qed.
#[export] Instance reading_reads {A} (f : Service W H N D → A) : Reading (srv_reads f).
Proof. intros s s' r [= <- _]. reflexivity. Qed.
#[export] Instance reading_lift {A} (r : result ServiceError A) : Reading (srv_lift r).
Proof. intros s s' x [= <- _]. reflexivity. Qed.
#[export] Instance reading_outcome {A} (o : outcome A) : Reading (srv_outcome o).
Proof. intros s s' x [= <- _]. reflexivity. Qed.
#[export] Instance reading_bind {A B} (c : srv W H N D A) (k : A → srv W H N D B) :
  Reading c → (∀ a, Reading (k a)) → Reading (srv_bind c k).
Proof.
  intros Hc Hk s s' r. unfold srv_bind. destruct (c s) as [s1 [[a|e]| |]] eqn:E; apply Hc in E; try by intros [= <- _].
  intros Hr. apply Hk in Hr. by etrans.
Qed.
#[export] Instance reading_io {A} err (c : io W H A) : Reads c → Reading (srv_io err c).
Proof.
  intros Hc sv sv' r. unfold srv_io. destruct (c (sv_store sv)) as [s x] eqn:E. apply Hc in E.
  intros [= <- _]. by split.
Qed.
#[export] Instance reading_parse d : Reading (parse_request (W:=W) (H:=H) (N:=N) (D:=D) d).
Proof. unfold parse_request. apply _. Qed.
#[export] Instance reading_ready : Reading (require_search_ready (W:=W) (H:=H) (N:=N) (D:=D)).
Proof. intros s s' x [= <- _]. reflexivity. Qed.
#[export] Instance reading_now : Reading (now (W:=W) (H:=H) (N:=N) (D:=D) clock).
Proof. intros s s' x [= <- _]. split; try done; reflexivity. Qed.
#[export] Instance reading_embed m p key ts role : Reading (srv_embed (W:=W) (H:=H) (N:=N) (D:=D) m p key ts role).
Proof.
  intros s s' x. unfold srv_embed, embedding_state. destruct (io_embed _ _ _ _) as [e r] eqn:E.
  apply io_embed_steps in E as (c & Ec & Hc). intros [= <- _]. split; try done. cbn. by rewrite Ec.
Qed.
#[export] Instance reading_first m l : Reading (first_embedding (W:=W) (H:=H) (N:=N) (D:=D) m l).
Proof. unfold first_embedding. apply _. Qed.
#[export] Instance reading_last d b : Reading (last_indexed (W:=W) (H:=H) (N:=N) (D:=D) d b).
Proof. unfold last_indexed. apply _. Qed.
#[export] Instance reading_lineage d b : Reading (branch_has_indexed_lineage (W:=W) (H:=H) (N:=N) (D:=D) d b).
Proof. unfold branch_has_indexed_lineage. apply _. Qed.
#[local] Hint Extern 2 (Reading (match ?x with _ => _ end)) => destruct x : typeclass_instances.
#[export] Instance reading_resolve d b c anc : Reading (resolve_searchable_commit (W:=W) (H:=H) (N:=N) (D:=D) d b c anc).
Proof. unfold resolve_searchable_commit. apply _. Qed.
#[export] Instance reading_open d c anc : Reading (open_request (W:=W) (H:=H) (N:=N) (D:=D) d c anc).
Proof. unfold open_request. cbv zeta. apply _. Qed.
#[export] Instance reading_when {A} b (c : srv W H N D (gmap string A)) : Reading c → Reading (when b c).
Proof. intros Hc. unfold when. apply _. Qed.

#[local] Instance reads_statistics : Reads (Stats.statistics (W:=W) (H:=H)).
Proof. apply reads_quiet, answers_quiet, statistics_answers. Qed.
#[local] Instance reads_domain_statistics d sc : Reads (Stats.statistics_for_domain (W:=W) (H:=H) d sc).
Proof. apply reads_quiet, answers_quiet, statistics_for_domain_answers. Qed.
#[local] Instance reads_integrity d : Reads (io_integrity_check (W:=W) (H:=H) d).
Proof. apply reads_quiet, (_ : Within quiet (io_integrity_check d)). Qed.

(** The requests that read, of any parameters. *)
Inductive read_request : ∀ A, srv W H N D A → Prop :=
| rr_last d b : read_request _ (last_indexed d b)
| rr_commit d c b : read_request _ (resolve_commit_or_branch d c b)
| rr_task id : read_request _ (check_task id)
| rr_search d c q mode start count tys ids sn anc : read_request _ (search_with_options d c q mode start count tys ids sn anc)
| rr_suggest fuel d c q count tys ids anc : read_request _ (suggest fuel d c q count tys ids anc)
| rr_similar d c id start count tys ids sn anc : read_request _ (similar_with_options d c id start count tys ids sn anc)
| rr_similar_text d c t start count tys ids sn anc : read_request _ (similar_with_text d c t start count tys ids sn anc)
| rr_duplicates d c t scope sn start count anc : read_request _ (duplicates_with_options d c t scope sn start count anc)
| rr_candidates d c scope k t1 t2 emb content anc :
    read_request _ (candidates_gather cosine_distance clock d c scope k t1 t2 emb content anc)
| rr_embeddings d c ids tys anc : read_request _ (fetch_embeddings d c ids tys anc)
| rr_embeddings_stream d c ids tys anc : read_request _ (fetch_embeddings_stream d c ids tys anc)
| rr_compare a b r1 r2 : read_request _ (compare_with_roles cosine_distance a b r1 r2)
| rr_statistics : read_request _ statistics
| rr_domain_statistics d : read_request _ (statistics_for_domain d)
| rr_internal_stats gauges : read_request _ (internal_stats gauges)
| rr_integrity d : read_request _ (integrity_check d).

Lemma read_request_reading {A} (c : srv W H N D A) : read_request A c → Reading c.
Proof.
  intros Hc. destruct Hc.
  - apply _.
  - unfold resolve_commit_or_branch. apply _.
  - intros s s' x [= <- _]. reflexivity.
  - unfold search_with_options, search_documents. apply _.
  - unfold suggest. apply _.
  - unfold similar_with_options, search_chunks. cbv zeta. apply _.
  - unfold similar_with_text, search_chunks. apply _.
  - unfold duplicates_with_options. apply _.
  - unfold candidates_gather. cbv zeta. apply _.
  - unfold fetch_embeddings. apply _.
  - unfold fetch_embeddings_stream. apply _.
  - unfold compare_with_roles. apply _.
  - apply _.
  - unfold statistics_for_domain. apply _.
  - intros s s' x. unfold internal_stats. destruct (cache_len _) as [cache n] eqn:E. intros [= <- _]. split; try done.
    cbn. replace cache with (cache_len (sv_embed_cache s)).1 by (by rewrite E). apply rtc_once, cs_len.
  - unfold integrity_check. apply _.
Qed.

(** A reading request, whatever it is asked and however it ends, leaves the
    dataset directories, the reservations, the tasks, the settings and the
    readiness as they were, and puts only vectors into the embedding cache. *)
Theorem read_requests_only_read {A} (c : srv W H N D A) sv sv' r :
  read_request A c → c sv = (sv', r) → reading sv sv'.
Proof. intros Hc. by apply read_request_reading. Qed.

(** ** The commit that is served *)

Lemma srv_bind_done {A B} (c : srv W H N D A) (k : A → srv W H N D B) sv sv' r :
  srv_bind c k sv = (sv', Done r) →
  (∃ e, c sv = (sv', Done (Err e)) ∧ r = Err e) ∨ ∃ sv1 a, c sv = (sv1, Done (Ok a)) ∧ k a sv1 = (sv', Done r).
Proof.
  unfold srv_bind. destruct (c sv) as [sv1 [[a|e]| |]]; [|intros [= <- <-]; eauto|done|done].
  intros Hk. right. eauto.
Qed.

Lemma srv_bind_ok {A B} (c : srv W H N D A) (k : A → srv W H N D B) sv sv' b :
  srv_bind c k sv = (sv', Done (Ok b)) → ∃ sv1 a, c sv = (sv1, Done (Ok a)) ∧ k a sv1 = (sv', Done (Ok b)).
Proof. intros [(e & _ & [=])|Hr]%srv_bind_done. done. Qed.

Lemma srv_io_done {A} err (c : io W H A) sv sv' r :
  srv_io err c sv = (sv', Done r) →
  ∃ x, c (sv_store sv) = (sv_store sv', x) ∧ sv' = with_store sv (sv_store sv') ∧ r = map_err err x.
Proof. unfold srv_io. destruct (c (sv_store sv)) as [s x]. intros [= <- <-]. by exists x. Qed.

Lemma srv_io_ok {A} err (c : io W H A) sv sv' a :
  srv_io err c sv = (sv', Done (Ok a)) → c (sv_store sv) = (sv_store sv', Ok a) ∧ sv' = with_store sv (sv_store sv').
Proof. intros ([x|e] & Hc & Hs & Hr)%srv_io_done; simplify_eq/=. done. Qed.

(** A commit is indexed when it has a tag. *)
Definition indexed sv (domain commit : string) : Prop :=
  is_Some (domain_tags (sv_store sv) domain !! encode_commit_tag commit).

#[export] Instance indexed_dec sv domain commit : Decision (indexed sv domain commit).
Proof. unfold indexed. apply _. Defined.

Lemma listed_iff_indexed sv domain sv' (m : gmap string N.t) c :
  canonical_tags (domain_tags (sv_store sv) domain) → utf8_valid (str_bytes c) = true →
  srv_io internal (io_list_commit_versions domain) sv = (sv', Done (Ok m)) →
  is_Some (m !! c) ↔ indexed sv domain c.
Proof.
  intros Hcan Hu [Hl _]%srv_io_ok. apply (read_tags_inv ∅ commit_versions) in Hl as [_ Hl]. specialize (Hl _ eq_refl).
  unfold indexed, domain_tags in *. set (tags := v_tags _) in *.
  assert (Hm : is_Some (commit_versions tags !! c) ↔ is_Some (tags !! encode_commit_tag c)).
  { destruct (commit_versions_spec tags) as [Hs Hc]. split.
    - intros [v (t & k & Ht & Hd & _)%Hs]. apply Hcan in Hd as ->; [done|by rewrite Ht].
    - intros [k Hk]. eapply Hc; [done|]. by apply decode_encode. }
  destruct Hl as [[He ->]| ->]; [|done]. unfold path_exists in He. apply law_not_exists in He as [He _].
  unfold tags. rewrite He, !lookup_empty. done.
Qed.

(** The branch has no commit: none on record, and none among the tags. *)
Definition no_lineage sv (domain branch : string) : Prop :=
  match st_branch_indexes (sv_store sv) !! (domain, branch) with
  | Some bi => bi_commit bi = None
  | None => ∀ t c k, ¬ tag_on (dir_of (sv_store sv) (dataset_path domain)) branch t c k
  end.

Lemma last_indexed_none domain branch s s' li :
  Commit.last_indexed domain (mkBranchName branch) s = (s', Ok li) → li_commit li = None →
  match st_branch_indexes s !! (domain_str domain, branch) with
  | Some bi => bi_commit bi = None
  | None => ∀ t c k, ¬ tag_on (dir_of s (dataset_path (domain_str domain))) branch t c k
  end.
Proof.
  unfold Commit.last_indexed. cbv zeta. intros (s1 & s0 & [= <- <-] & Hr)%io_bind_ok. cbn [branch_str] in Hr.
  destruct (st_branch_indexes s !! _) as [bi|]; [by injection Hr as _ <-|].
  apply io_bind_ok in Hr as (s2 & [[c v]|] & Hd & Hr).
  - apply io_bind_ok in Hr as (? & ? & _ & [= _ <-]). done.
  - intros _ t c k Ht. apply derive_last_indexed_spec in Hd as [_ [He|Hn]]; [|by eapply Hn].
    destruct Ht as [Ht _]. apply law_not_exists in He as [He _]. by rewrite He, lookup_empty in Ht.
Qed.

(** The commit a request is served from is the requested one when that is
    indexed, and otherwise the nearest of the supplied ancestors that is; a 404
    means that the requested commit is not indexed and that the branch has no
    indexed commit or no supplied ancestor is indexed.  In particular no commit
    is ever served that was neither requested nor supplied, however recent. *)
Theorem resolve_searchable_spec domain branch requested ancestors sv sv' r :
  canonical_tags (domain_tags (sv_store sv) (domain_str domain)) →
  Forall (λ c, utf8_valid (str_bytes c) = true) (requested :: ancestors) →
  resolve_searchable_commit domain branch requested ancestors sv = (sv', Done r) →
  let idx := indexed sv (domain_str domain) in
  (∀ served, r = Ok served →
     idx served ∧
     (served = requested ∨
      ¬ idx requested ∧ ∃ nearer farther, ancestors = nearer ++ served :: farther ∧ Forall (λ c, ¬ idx c) nearer)) ∧
  (∀ msg, r = Err (NotFound msg) →
     ¬ idx requested ∧
     (Forall (λ c, ¬ idx c) ancestors ∨ no_lineage sv (domain_str domain) branch)).
Proof.
  intros Hcan Hu Hr idx. unfold resolve_searchable_commit in Hr.
  apply srv_bind_done in Hr as [(e & He & ->)|(sv1 & m & Hm & Hr)].
  { split; [done|]. intros msg [= ->]. apply srv_io_done in He as ([a|err] & _ & _ & [=]). }
  assert (Hl : ∀ c, c ∈ requested :: ancestors → is_Some (m !! c) ↔ idx c).
  { intros c Hc. rewrite Forall_forall in Hu. by eapply listed_iff_indexed; [|apply Hu|]. }
  assert (Hq : is_Some (m !! requested) ↔ idx requested) by (apply Hl; by left).
  case_bool_decide as Hb.
  { injection Hr as <- <-. split; [|done]. intros served [= <-]. split; [by apply Hq|by left]. }
  assert (Hnq : ¬ idx requested) by (by rewrite <-Hq).
  apply srv_bind_done in Hr as [(e & He & ->)|(sv2 & lineage & Hlin & Hr)].
  { split; [done|]. intros msg [= ->]. unfold branch_has_indexed_lineage in He.
    apply srv_bind_done in He as [(e & He & [= <-])|(? & ? & _ & [=])].
    apply srv_io_done in He as ([|err] & _ & _ & [=]). }
  destruct lineage; cbn [negb] in Hr.
  2: { injection Hr as <- <-. split; [done|]. intros msg _. split; [done|]. right.
       unfold branch_has_indexed_lineage in Hlin. apply srv_bind_ok in Hlin as (sv3 & li & Hli & [= _ Hn]).
       apply srv_io_ok in Hli as [Hli _]. apply bool_decide_eq_false in Hn. rewrite <-eq_None_not_Some in Hn.
       pose proof (last_indexed_none _ _ _ _ _ Hli Hn) as Hno'. apply srv_io_ok in Hm as [Hq' _].
       apply (read_tags_inv ∅ commit_versions) in Hq' as [Hq' _]. unfold no_lineage.
       by rewrite <-(quiet_branch_indexes _ _ Hq'), <-(quiet_dir _ _ _ Hq'). }
  apply srv_bind_done in Hr as [(e & He & ->)|(sv3 & res & Hres & Hr)].
  { split; [done|]. intros msg [= ->]. unfold srv_lift in He. injection He as _ He.
    by destruct (resolve_nearest_layer _ _ _). }
  assert (Hn : resolve_nearest_layer requested ancestors (λ c, Ok (m !! c)) = Ok res).
  { unfold srv_lift in Hres. injection Hres as _ Hres. by destruct (resolve_nearest_layer _ _ _); simplify_eq/=. }
  apply resolve_nearest_layer_spec in Hn.
  assert (Hnone : ∀ l, (∀ c, c ∈ l → c ∈ ancestors) → Forall (λ a, @Ok LayerIdxError _ (m !! a) = Ok None) l →
    Forall (λ c, ¬ idx c) l).
  { intros l Hin. rewrite !Forall_forall. intros Hf c Hc. rewrite <-Hl by (right; by apply Hin).
    apply eq_None_not_Some. specialize (Hf c Hc). by injection Hf. }
  destruct res as [c v|c v|].
  - destruct Hn as [_ [= Hv]]. by rewrite Hv in Hb; destruct Hb.
  - destruct Hn as (_ & pre & post & Ha & Hpre & [= Hv]). injection Hr as <- <-. split; [|done]. intros served [= <-].
    split; [apply Hl; [right; rewrite Ha; apply elem_of_app; right; by left|by rewrite Hv]|].
    right. split; [done|]. exists pre, post. split; [done|]. apply Hnone; [|done].
    intros c' Hc'. rewrite Ha. apply elem_of_app. by left.
  - injection Hr as <- <-. split; [done|]. intros msg _. split; [done|]. left.
    inversion Hn; subst. by apply Hnone.
Qed.

Context {HV : LanceVersions W H} {HVL : LanceVersionLaws W H}.
Lemma open_request_ok domain_raw commit ancestors sv sv' d b served :
  open_request domain_raw commit ancestors sv = (sv', Done (Ok (d, b, served))) →
  ∃ rp, parse_domain domain_raw = Ok rp ∧ is_search_ready sv = true ∧
    d = domain_str (from_resource_path rp) ∧ b = extract_branch rp ∧ reading sv sv' ∧
    resolve_searchable_commit (from_resource_path rp) b commit ancestors sv = (sv', Done (Ok served)).
Proof.
  unfold open_request. intros (sv1 & rp & Hp & Hr)%srv_bind_ok. unfold parse_request, srv_lift in Hp.
  injection Hp as <- Hp. destruct (parse_domain domain_raw) as [rp'|]; [|done]. injection Hp as ->.
  apply srv_bind_ok in Hr as (sv2 & [] & Hrd & Hr). unfold require_search_ready in Hrd.
  injection Hrd as <- Hrd. destruct (is_search_ready sv) eqn:Er; [|done].
  apply srv_bind_ok in Hr as (sv3 & c & Hc & [= <- <- <- <-]). exists rp. split_and!; try done.
  by eapply reading_resolve.
Qed.

Lemma store_search_ok {A} f d b c (s s' : LanceStore W H) (a : A) :
  cache_on_main s → (∀ run e, is_ok (f run (Err e)) = false) → store_search f d b c s = (s', Ok a) →
  ∃ h, snapshot_of s d c h ∧ f (λ ds r, l_run (dir_of s (dataset_path d)) ds r) (Ok h) = Ok a.
Proof.
  intros Hc Hf. unfold store_search. destruct (io_snapshot_from_cache d b c s) as [s1 h] eqn:Es.
  intros [= _ Hr]. pose proof Es as Es'. apply snapshot_inv in Es as [Hq Hs]; [|done].
  destruct h as [h|e]; [|by specialize (Hf (λ ds r, l_run (dir_of s1 (dataset_path d)) ds r) e); rewrite Hr in Hf].
  exists h. split; [by apply Hs|]. by rewrite <-(quiet_dir s s1).
Qed.

Lemma resolve_searchable_among domain branch requested ancestors sv sv' served :
  resolve_searchable_commit domain branch requested ancestors sv = (sv', Done (Ok served)) → served ∈ requested :: ancestors.
Proof.
  unfold resolve_searchable_commit. intros (sv1 & m & _ & Hr)%srv_bind_ok. case_bool_decide; [injection Hr as _ <-; by left|].
  apply srv_bind_ok in Hr as (sv2 & lineage & _ & Hr). destruct (negb lineage); [done|].
  apply srv_bind_ok in Hr as (sv3 & layer & Hl & Hr). injection Hl as _ Hl.
  destruct (resolve_nearest_layer _ _ _) as [r|e] eqn:En; [|done]. injection Hl as ->.
  apply resolve_nearest_layer_spec in En. destruct layer as [c v|c v|]; [|destruct En as (_ & pre & post & -> & _)|done].
  - destruct En as [-> _]. injection Hr as _ <-. by left.
  - injection Hr as _ <-. apply elem_of_cons. right. apply elem_of_app. right. by left.
Qed.

Lemma search_run domain_raw commit q mode start count tys ids snippet ancestors sv sv' out :
  cache_on_main (sv_store sv) →
  search_with_options domain_raw commit q mode start count tys ids snippet ancestors sv = (sv', Done (Ok out)) →
  ∃ rp h v hits, parse_domain domain_raw = Ok rp ∧ is_search_ready sv = true ∧
    so_served_commit out ∈ commit :: ancestors ∧
    let d := domain_str (from_resource_path rp) in
    snapshot_of (sv_store sv) d (so_served_commit out) h ∧
    Search.io_search_documents (λ ds r, l_run (dir_of (sv_store sv) (dataset_path d)) ds r) (Ok h)
      (mkSearchQuery (l2_normalize v) q mode start count tys ids snippet) = Ok (Some hits) ∧
    so_hits out = page start count hits.
Proof.
  intros Hcm. unfold search_with_options. intros (sv1 & [[d b] served] & Ho & Hr)%srv_bind_ok.
  apply open_request_ok in Ho as (rp & Hp & Hready & -> & -> & Hrd & Hamong%resolve_searchable_among).
  apply srv_bind_ok in Hr as (? & config & [= <- <-] & Hr). apply srv_bind_ok in Hr as (sv2 & embs & He & Hr).
  apply reading_embed in He. apply srv_bind_ok in Hr as (sv3 & v & Hv & Hr). apply reading_first in Hv.
  apply srv_bind_ok in Hr as (sv4 & res & Hs & Hr). apply srv_io_ok in Hs as [Hs _].
  assert (Hr3 : reads (sv_store sv) (sv_store sv3)) by (do 2 (etrans; [|by apply rq_store]); by apply rq_store).
  apply store_search_ok in Hs as (h & Hh & Hs); [|by eapply reads_on_main|intros run e; by destruct mode].
  apply srv_bind_ok in Hr as (sv5 & hits & Hres & [= <- <-]).
  destruct res as [hits'|]; [|done]. injection Hres as _ ->.
  exists rp, h, v, hits. split_and!; try done; cbn [so_served_commit].
  - by apply (reads_snapshot _ _ _ _ _ Hr3).
  - by rewrite <-(reads_dir _ _ _ Hr3).
Qed.

(** What a search answers is computed from the version the served commit
    stands for, and nothing else of the store: the page asked for of the hits of
    the query, embedded and normalised, on that version.  That commit is the
    requested one or one of the supplied ancestors. *)
Theorem search_reads_served_commit domain_raw commit q mode start count tys ids snippet ancestors sv sv' out :
  cache_on_main (sv_store sv) →
  search_with_options domain_raw commit q mode start count tys ids snippet ancestors sv = (sv', Done (Ok out)) →
  ∃ rp h v hits, parse_domain domain_raw = Ok rp ∧ is_search_ready sv = true ∧
    so_served_commit out ∈ commit :: ancestors ∧
    let d := domain_str (from_resource_path rp) in
    snapshot_of (sv_store sv) d (so_served_commit out) h ∧
    Search.io_search_documents (λ ds r, l_run (dir_of (sv_store sv) (dataset_path d)) ds r) (Ok h)
      (mkSearchQuery (l2_normalize v) q mode start count tys ids snippet) = Ok (Some hits) ∧
    so_hits out = page start count hits.
Proof. apply search_run. Qed.

(** ** Pushes *)

Context {HIL : LanceIndexLaws W H} {HIG : LanceIndexGrows W H} {HML : LanceMaintLaws W H}.
Context (vector_config : VectorIndexConfig) (encode : string → result string Encoding).

Lemma record_task_self id status t (tasks : Tasks) e : record_task id status t tasks !! id = Some e → e.1 = status.
Proof.
  unfold record_task. intros He. destruct (evict_stale_facts (<[id := (status, t)]> tasks) t) as (_ & Hsub & _).
  apply Hsub, map_lookup_filter_Some in He as [He _]. rewrite lookup_insert_eq in He. by injection He as <-.
Qed.

(** *** The dimension, and the cached handle of a domain, through the opening steps *)

Class KeepsDim {A} (c : io W H A) : Prop := keeps_run s s' r : c s = (s', r) → st_dim s' = st_dim s.

#[export] Instance dim_ret {A} (a : A) : KeepsDim (io_ret a).
Proof. by intros s s' r [= <- _]. Qed.
#[export] Instance dim_throw {A} e : KeepsDim (io_throw (A:=A) e).
Proof. by intros s s' r [= <- _]. Qed.
#[export] Instance dim_get : KeepsDim io_get.
Proof. by intros s s' r [= <- _]. Qed.
#[export] Instance dim_bind {A B} (c : io W H A) (k : A → io W H B) :
  KeepsDim c → (∀ a, KeepsDim (k a)) → KeepsDim (io_bind c k).
Proof.
  intros Hc Hk s s' r. unfold io_bind. destruct (c s) as [s1 [a|e]] eqn:E; apply Hc in E.
  - intros Hr. apply Hk in Hr. congruence.
  - by intros [= <- _].
Qed.
#[export] Instance dim_read {A} p m (f : W → result string A) : KeepsDim (io_read p m f).
Proof. by intros s s' r [= <- _]. Qed.
#[export] Instance dim_write {A} p m (f : W → W * result string A) : KeepsDim (io_write p m f).
Proof. intros s s' r (w & r0 & _ & -> & _)%io_write_inv. done. Qed.
Lemma dim_modify f : (∀ s, st_dim (f s) = st_dim s) → KeepsDim (io_modify f).
Proof. intros Hf s s' r [= <- _]. apply Hf. Qed.
Lemma dim_quiet {A} (c : io W H A) : (∀ s s' r, c s = (s', r) → quiet s s') → KeepsDim c.
Proof. intros Hc s s' r E. by eapply quiet_dim, Hc. Qed.
#[export] Instance dim_writable : KeepsDim (ensure_writable (W:=W) (H:=H)).
Proof. by intros s s' r [-> _]%ensure_writable_inv. Qed.
#[export] Instance dim_open_readonly d : KeepsDim (io_open_dataset_readonly (W:=W) (H:=H) d).
Proof. apply dim_quiet. by intros s s' r [? _]%io_open_dataset_readonly_inv. Qed.
#[export] Instance dim_open_fresh p : KeepsDim (io_open_fresh (W:=W) (H:=H) p).
Proof. apply dim_quiet. by intros s s' r [? _]%io_open_fresh_inv. Qed.
#[local] Hint Extern 2 (KeepsDim (match ?x with _ => _ end)) => destruct x : typeclass_instances.
#[export] Instance dim_lift {A} m (x : LanceStore W H → result string A) : KeepsDim (λ s, io_lift m (x s) s).
Proof. by intros s s' r [= <- _]. Qed.
#[export] Instance dim_cache_hit d : KeepsDim (io_cache_hit (W:=W) (H:=H) d).
Proof. apply dim_quiet. by intros s s' r [? _]%io_cache_hit_inv. Qed.
#[export] Instance dim_insert d h : KeepsDim (io_insert_cached (W:=W) d h).
Proof. intros s s' r. unfold io_insert_cached. destruct (insert_cached_dataset _ _ _). by intros [= <- _]. Qed.
#[export] Instance dim_create_branch d b v : KeepsDim (io_create_branch (W:=W) (H:=H) d b v).
Proof. unfold io_create_branch. apply _. Qed.
#[export] Instance dim_from_tag d b c : KeepsDim (io_create_branch_from_tag (W:=W) (H:=H) d b c).
Proof. unfold io_create_branch_from_tag. apply _. Qed.
#[export] Instance dim_head_version d b : KeepsDim (io_branch_head_version (W:=W) (H:=H) d b).
Proof. unfold io_branch_head_version, io_open_branch_for_write, io_open_dataset. apply _. Qed.
#[export] Instance dim_list_branches d : KeepsDim (io_list_branches (W:=W) (H:=H) d).
Proof. unfold io_list_branches. apply _. Qed.
#[export] Instance dim_forked d b p : KeepsDim (io_ensure_branch_forked (W:=W) (H:=H) d b p).
Proof.
  unfold io_ensure_branch_forked. destruct (String.eqb _ _); [apply _|]. apply dim_bind; [apply _|]. intros existing.
  case_bool_decide; [apply _|]. intros s s' r. destruct (io_create_branch_from_tag d b p s) as [s1 [v|e]] eqn:E; apply keeps_run in E.
  { by intros [= <- _]. }
  destruct (is_already_exists e); [by intros [= <- _]|]. destruct (is_ref_not_found e); [|by intros [= <- _]].
  destruct (path_exists _ _); [|by intros [= <- _]]. intros Hr. rewrite <-E. revert Hr.
  apply (keeps_run (c:=(let! v := io_branch_head_version d MAIN_BRANCH in io_create_branch d b v;! io_ret (Created v)))).
Qed.

Lemma open_readonly_err d (s s' : LanceStore W H) e :
  io_open_dataset_readonly d s = (s', Err e) → ∃ n, s' = set_fresh_open_count s n.
Proof.
  unfold io_open_dataset_readonly. intros [Hc|(s1 & hit & Hc & Hr)]%io_bind_err.
  { unfold io_cache_hit in Hc. by destruct (cache_hit _ _) as [[? ?]|]. }
  apply io_cache_hit_inv in Hc as [_ Hc]. destruct (dc_datasets (st_cache s) !! d); [by injection Hc as ->|].
  destruct Hc as [[= ->] ->]. apply io_bind_err in Hr as [Hr|(s1 & s2 & [= <- <-] & Hr)]; [done|].
  destruct (path_exists s (dataset_path d)); [|done]. apply io_bind_err in Hr as [Hf|(s2 & ds & _ & Hr)].
  - unfold io_open_fresh, io_bind, io_modify in Hf. apply io_read_inv in Hf as [-> _]. by eexists.
  - apply io_bind_err in Hr as [Hi|(? & ? & _ & [=])]. unfold io_insert_cached in Hi. by destruct (insert_cached_dataset _ _ _).
Qed.

Lemma open_readonly_current d s s' r :
  cache_current s d → io_open_dataset_readonly d s = (s', r) → cache_current s' d.
Proof.
  intros Hcur Hr. destruct r as [[h|]|e].
  2: { apply io_open_dataset_readonly_inv in Hr as [_ Hn]. by destruct (Hn eq_refl) as (_ & _ & ->). }
  2: { apply open_readonly_err in Hr as (n & ->). exact Hcur. }
  assert (He : ∀ e, dc_datasets (st_cache s') !! d = Some e → ce_ds e = h ∧ v_head (dir_of s' (dataset_path d)) None = Some h).
  2: { intros e0 He0. by destruct (He e0 He0) as [-> ?]. }
  revert Hr. unfold io_open_dataset_readonly. intros (s1 & hit & Hc & Hr)%io_bind_ok.
  unfold io_cache_hit, cache_hit in Hc. destruct (dc_datasets (st_cache s) !! d) as [e0|] eqn:Ee; cbn in Hc.
  { injection Hc as <- <-. injection Hr as <- <-. intros e. cbn. rewrite lookup_insert_eq. intros [= <-].
    split; [done|]. by apply (Hcur e0 Ee). }
  injection Hc as <- <-. apply io_bind_ok in Hr as (s2 & s0 & [= <- <-] & Hr).
  destruct (path_exists s (dataset_path d)); [|done].
  apply io_bind_ok in Hr as (s3 & ds & Hds & Hr). apply io_bind_ok in Hr as (s4 & h0 & Hins & [= <- <-]).
  assert (Hn : dc_datasets (st_cache s3) !! d = None).
  { unfold io_open_fresh, io_bind, io_modify in Hds. by apply io_read_ok in Hds as [-> _]. }
  apply io_open_fresh_inv in Hds as [Hq Hl]. specialize (Hl ds eq_refl). apply law_load in Hl as (_ & Hh & _).
  apply insert_cached_current in Hins as (Hdir & Hce & Hh0). specialize (Hh0 Hn) as ->.
  intros e He. split; [by apply Hce|]. by rewrite Hdir, (quiet_dir s s3).
Qed.

Lemma reserve_current d b c s s' r :
  cache_current s d → io_try_reserve_commit d b c s = (s', r) → cache_current s' d.
Proof.
  intros Hcur. unfold io_try_reserve_commit, io_resolve_commit, list_tags. cbn [io_bind io_get]. case_bool_decide; [by intros [= <- _]|].
  unfold io_bind. destruct (io_open_dataset_readonly d s) as [s1 r1] eqn:Eo. apply open_readonly_current in Eo; [|done].
  destruct r1 as [[ds|]|e]; cbn; [|by intros [= <- _]..].
  destruct (l_list_tags _ _) as [tags|e]; cbn; [|by intros [= <- _]].
  destruct (tags !! _); cbn; by intros [= <- _].
Qed.

(** [s] without the reservation of a push. *)
Definition released (d b c : string) (s : LanceStore W H) : LanceStore W H :=
  set_inflight s (st_inflight s ∖ {[(d, b, c)]}).

Lemma released_not_held d b c (s : LanceStore W H) : (d, b, c) ∉ st_inflight (released d b c s).
Proof. cbn. rewrite elem_of_difference, elem_of_singleton. by intros []. Qed.

(** What the pipeline task of a push comes to. *)
Definition pipeline_ran (d b c : string) (ops : list Operation) sv (s : LanceStore W H) (status : TaskStatus) : Prop :=
  let config := sv_config sv in
  ∃ e r, io_run_index_pipeline (H4:=service_embedder config) vector_config (clustering_index config)
           (domain_clustering (sv_settings sv) d) encode (sv_chunk_params sv) (embedding_state sv) d b c ops (sv_store sv) = (e, r) ∧
    match r with
    | None => s = sv_store sv ∧ status = TaskError ("pipeline panicked: " +:+ join_error)
    | Some (s', r) => s = s' ∧ status = task_result r
    end.

Lemma push_task_run d b c id ops sv sv' r :
  push_task clock vector_config encode d b c id ops sv = (sv', r) →
  r = Done (Ok tt) ∧ sv_active_tasks sv' = sv_active_tasks sv ∧
  ∃ s status t, pipeline_ran d b c ops sv s status ∧ sv_store sv' = released d b c s ∧
    sv_tasks sv' = record_task id status t (sv_tasks sv).
Proof.
  unfold push_task, pipeline_ran, add_active, srv_record_task, release, now. cbv zeta.
  unfold srv_bind at 1. cbn [srv_modify]. unfold srv_bind at 1. cbn [sv_config sv_settings sv_chunk_params sv_store with_active].
  change (embedding_state (with_active sv _)) with (embedding_state sv).
  destruct (io_run_index_pipeline _ _ _ _ _ _ _ _ _ _ _) as [e [[s r0]|]] eqn:Er.
  all: cbn; intros [= <- <-]; split; [done|]; split; [cbn; lia|]; eexists _, _, _; (split; [|by split]);
    eexists _, _; split; [first [exact Er|reflexivity]|by split].
Qed.

Lemma reserve_inv d b c (s s' : LanceStore W H) r :
  io_try_reserve_commit d b c s = (s', r) →
  let key := (d, b, c) in
  match r with
  | Ok true => (key ∉ st_inflight s) ∧ ∃ s0, quiet s s0 ∧ s' = set_inflight s0 ({[key]} ∪ st_inflight s0) ∧
                 v_tags (dir_of s (dataset_path d)) !! encode_commit_tag c = None
  | Ok false => quiet s s' ∧ (key ∈ st_inflight s ∨ is_Some (v_tags (dir_of s (dataset_path d)) !! encode_commit_tag c))
  | Err _ => quiet s s' ∧ key ∉ st_inflight s
  end.
Proof.
  cbv zeta. unfold io_try_reserve_commit. cbn [io_bind io_get]. case_bool_decide as Hin.
  { intros [= <- <-]. split; [reflexivity|by left]. }
  unfold io_bind. destruct (io_resolve_commit d b c s) as [s1 [v|e]] eqn:Er; apply io_resolve_commit_inv in Er as [Hq Hv].
  2: intros [= <- <-]; by split.
  specialize (Hv v eq_refl). destruct v as [v|]; cbn; intros [= <- <-].
  - split; [done|]. right. destruct Hv as [[_ [=]]|Hv]. symmetry in Hv. apply fmap_Some in Hv as (k & -> & _). by eexists.
  - split; [done|]. exists s1. split; [done|]. split; [done|]. destruct Hv as [[He _]|Hv].
    + unfold path_exists in He. apply law_not_exists in He as [He _]. by rewrite He, lookup_empty.
    + symmetry in Hv. by apply fmap_None in Hv.
Qed.

(** The parts of the service that the opening steps of a push leave alone. *)
Definition same_setup sv sv' : Prop :=
  sv_active_tasks sv' = sv_active_tasks sv ∧ sv_config sv' = sv_config sv ∧ sv_settings sv' = sv_settings sv ∧
  sv_chunk_params sv' = sv_chunk_params sv ∧ embedding_state sv' = embedding_state sv.

(** A push that was accepted: its store is that of the request with the
    reservation, on a branch that may have been forked for it. *)
Definition accepted (d b c : string) (parent : option string) (s s' : LanceStore W H) : Prop :=
  ((d, b, c) ∉ st_inflight s) ∧ v_tags (dir_of s (dataset_path d)) !! encode_commit_tag c = None ∧ store_grows s s' ∧
  (String.eqb b MAIN_BRANCH = true ∨ parent = None →
     ∃ s0, quiet s s0 ∧ s' = set_inflight s0 ({[(d, b, c)]} ∪ st_inflight s0) ∧ (cache_current s d → cache_current s0 d)) ∧
  st_dim s' = st_dim s.

Definition refused (d b c : string) (s s' : LanceStore W H) (e : ServiceError) : Prop :=
  match e with
  | Conflict _ => quiet s s' ∧ ((d, b, c) ∈ st_inflight s ∨ is_Some (v_tags (dir_of s (dataset_path d)) !! encode_commit_tag c))
  | Validation _ => False
  | _ => ((d, b, c) ∉ st_inflight s) ∧ ((d, b, c) ∉ st_inflight s')
  end.

Lemma set_inflight_grows (s : LanceStore W H) i : store_grows s (set_inflight s i).
Proof. by apply same_grows. Qed.

Lemma fork_error_not_conflict e : (∃ m, fork_error e = NotFound m) ∨ ∃ m, fork_error e = ServiceInternal m.
Proof. unfold fork_error. cbv zeta. destruct (_ || _); eauto. Qed.

Lemma accept_push_run d_raw b c parent uuid sv sv' r :
  accept_push clock d_raw b c parent uuid sv = (sv', r) →
  match parse_domain d_raw with
  | Err e => r = Done (Err (Validation (parse_error_to_string e))) ∧ sv' = sv
  | Ok rp =>
      let d := domain_str (from_resource_path rp) in
      same_setup sv sv' ∧
      ((∃ e, r = Done (Err e) ∧ refused d b c (sv_store sv) (sv_store sv') e ∧ sv_tasks sv' = sv_tasks sv) ∨
       r = Done (Ok (d, "task-" +:+ uuid)) ∧ accepted d b c parent (sv_store sv) (sv_store sv'))
  end.
Proof.
  unfold accept_push, parse_request. unfold srv_bind at 1, srv_lift. cbv beta iota.
  destruct (parse_domain d_raw) as [rp|e]; cbn [map_err]; [|by intros [= <- <-]].
  cbv zeta. set (d := domain_str (from_resource_path rp)). unfold srv_bind at 1, srv_io.
  destruct (io_try_reserve_commit d b c (sv_store sv)) as [s [[]|e]] eqn:Er;
    pose proof (λ Hc, reserve_current d b c _ _ _ Hc Er) as Hcur; apply reserve_inv in Er; cbn [map_err negb].
  2: intros [= <- <-]; split; [done|]; left; by eexists.
  2: { intros [= <- <-]. split; [done|]. left. eexists. split; [done|]. split; [|done]. cbn. destruct Er as [Hq Hn].
       split; [done|]. by rewrite (quiet_inflight _ _ Hq). }
  destruct Er as (Hn & s0 & Hq & -> & Hnt). set (s1 := set_inflight s0 _).
  assert (Hg1 : store_grows (sv_store sv) s1) by (etrans; [by apply quiet_grows|apply set_inflight_grows]).
  assert (Hacc : ∀ s2, store_grows s1 s2 → st_dim s2 = st_dim s1 →
    (String.eqb b MAIN_BRANCH = true ∨ parent = None → s2 = s1) → accepted d b c parent (sv_store sv) s2).
  { intros s2 Hg Hdim Hs. split; [done|]. split; [done|]. split; [by etrans|]. split; [|by rewrite Hdim; apply quiet_dim in Hq].
    intros Hm. exists s0. split; [done|]. split; [by apply Hs|]. exact Hcur. }
  unfold srv_bind at 1. destruct parent as [p|]; [destruct (String.eqb b MAIN_BRANCH) eqn:Eb|]; cbn [srv_ret sv_store with_store].
  1, 3: intros [= <- <-]; split; [done|]; right; split; [done|]; apply Hacc; [reflexivity|done..].
  destruct (io_ensure_branch_forked d b p s1) as [s2 [o|e]] eqn:Ef; pose proof (dim_forked d b p _ _ _ Ef) as Hdim;
    apply (grows_ensure_forked d b p) in Ef.
  - intros [= <- <-]. split; [done|]. right. split; [done|]. apply Hacc; [done..|]. by intros [|].
  - unfold srv_bind, release, srv_io, io_release_commit_reservation, io_modify. cbn. intros [= <- <-].
    split; [done|]. left. eexists. split; [done|]. split; [|done]. cbn.
    destruct (fork_error_not_conflict e) as [[m ->]|[m ->]]; (split; [done|apply released_not_held]).
Qed.

Lemma task_result_terminal r : is_terminal (task_result r) = true.
Proof. by destruct r as [[? ?]|?]. Qed.

Lemma pipeline_ran_terminal d b c ops sv s status : pipeline_ran d b c ops sv s status → is_terminal status = true.
Proof. intros (e & [[s' r]|] & _ & [_ ->]); [apply task_result_terminal|done]. Qed.

(** C16: what a push leaves behind, whatever happens to it: it always returns; a
    bad domain changes nothing; a conflict means that the commit is in flight or
    indexed, and changes nothing; otherwise the commit was free, no reservation
    of it is left, and if a task id is returned the task has ended.  The count
    of running pipelines is as before. *)
Theorem push_settles busy uuid domain_raw b c parent ops sv sv' r :
  push clock vector_config encode busy uuid domain_raw b c parent ops sv = (sv', r) →
  match parse_domain domain_raw with
  | Err e => r = Done (Err (Validation (parse_error_to_string e))) ∧ sv' = sv
  | Ok rp =>
      let d := domain_str (from_resource_path rp) in
      sv_active_tasks sv' = sv_active_tasks sv ∧
      ((∃ m, r = Done (Err (Conflict m)) ∧ quiet (sv_store sv) (sv_store sv') ∧
          ((d, b, c) ∈ st_inflight (sv_store sv) ∨ indexed sv d c)) ∨
       ((d, b, c) ∉ st_inflight (sv_store sv)) ∧ ((d, b, c) ∉ st_inflight (sv_store sv')) ∧
       ((∃ e, r = Done (Err e)) ∨
        r = Done (Ok ("task-" +:+ uuid)) ∧
        ∀ status, Tasks.check_task ("task-" +:+ uuid) (sv_tasks sv') = Some status → is_terminal status = true))
  end.
Proof.
  unfold push. unfold srv_bind at 1. destruct (accept_push clock domain_raw b c parent uuid sv) as [sv1 r1] eqn:Ea.
  apply accept_push_run in Ea. destruct (parse_domain domain_raw) as [rp|e]; [|by destruct Ea as [-> ->]; intros [= <- <-]].
  cbv zeta in Ea |- *. set (d := domain_str _) in *. destruct Ea as ((Ea & _) & [(e & -> & Hf & _)|[-> (Hn & _)]]).
  { intros [= <- <-]. split; [done|]. destruct e as [m|m|m|m|m|m].
    1: done. 2: left; exists m; split; [done|exact Hf]. all: right; destruct Hf; eauto. }
  destruct busy.
  { unfold srv_bind, release, srv_io, io_release_commit_reservation, io_modify. cbn. intros [= <- <-].
    split; [done|]. right. split; [done|]. split; [apply released_not_held|]. left. by eexists. }
  unfold srv_bind. destruct (push_task clock vector_config encode d b c _ ops sv1) as [sv2 r2] eqn:Et.
  apply push_task_run in Et as (-> & Eact & s & status & t & Hran & Hs & Ht). intros [= <- <-].
  split; [congruence|]. right. split; [done|]. split; [rewrite Hs; apply released_not_held|]. right. split; [done|].
  unfold Tasks.check_task. rewrite Ht. intros st Hst. apply fmap_Some in Hst as (en & Hen & ->).
  apply record_task_self in Hen as ->. by eapply pipeline_ran_terminal.
Qed.

(** C15: a push whose task reads complete has indexed the commit: on the store it
    was accepted with, the commit is done as the pipeline specifies, with the
    counts the task reports; and then only the reservation was given up. *)
Theorem completed_push_commits uuid domain_raw rp b c parent ops sv sv' id n skipped
    (inv : N * option (EmbedCache D) → Prop) fd fc :
  let d := domain_str (from_resource_path rp) in
  let clustering := domain_clustering (sv_settings sv) d in
  parse_domain domain_raw = Ok rp → cache_on_main (sv_store sv) →
  (String.eqb b MAIN_BRANCH = false ∨ cache_current (sv_store sv) d) →
  provider_for (H4:=service_embedder (sv_config sv)) encode (sv_chunk_params sv) inv fd fc (sv_store sv) →
  inv (embedding_state sv) →
  push clock vector_config encode false uuid domain_raw b c parent ops sv = (sv', Done (Ok id)) →
  Tasks.check_task id (sv_tasks sv') = Some (Complete n skipped) →
  ∃ s1 s2, accepted d b c parent (sv_store sv) s1 ∧
    commit_done clustering encode (sv_chunk_params sv) fd fc d b c ops s1 s2 n skipped ∧
    sv_store sv' = released d b c s2.
Proof.
  intros d clustering Hp Hcm Hcur Hprov Hinv. unfold push. unfold srv_bind at 1.
  destruct (accept_push clock domain_raw b c parent uuid sv) as [sv1 r1] eqn:Ea.
  apply accept_push_run in Ea. rewrite Hp in Ea. cbv zeta in Ea. fold d in Ea.
  destruct Ea as ((_ & Ec & Es & Ep & Ee) & [(e & -> & _)|[-> Hacc]]); [done|].
  unfold srv_bind. destruct (push_task clock vector_config encode d b c _ ops sv1) as [sv2 r2] eqn:Et.
  apply push_task_run in Et as (-> & _ & s & status & t & Hran & Hs & Ht). intros [= <- <-].
  unfold Tasks.check_task. rewrite Ht. intros Hst. apply fmap_Some in Hst as ([st tm] & Hen & Hst). cbn in Hst.
  apply record_task_self in Hen. cbn in Hen. subst st.
  destruct Hran as (e & r & Hrun & Hr). rewrite Ec, Es, Ep, Ee in Hrun.
  exists (sv_store sv1). pose proof Hacc as (_ & _ & Hg & Hmain & Hdim).
  destruct r as [[s' r]|]; destruct Hr as [-> Hr]; [|by rewrite Hr in Hst].
  exists s'. split; [done|]. split; [|done].
  destruct r as [[n' sk']|err]; rewrite Hr in Hst; [|done]. injection Hst as -> ->.
  eapply (buffered_run _ _ _ _ _ (H4:=service_embedder (sv_config sv))); [|exact Hinv| |exact Hrun].
  - destruct Hprov as [? ? Hf1 Hf2]. split; [done|done|intros ??; rewrite Hdim; eauto..].
  - split; [by eapply cache_from_on_main; [apply Hg|]|]. destruct (String.eqb b MAIN_BRANCH) eqn:Eb; [|by left].
    destruct Hcur as [|Hcur]; [done|]. right. destruct (Hmain (or_introl eq_refl)) as (s0 & _ & -> & Hk). exact (Hk Hcur).
Qed.

(** *** The streaming push *)

(** What the task of a streaming push comes to. *)
Definition stream_ran (cancelled : nat → bool) (progress : bool) (d b c : string) (ops : list Operation) (expected : option N.t)
    sv (s : LanceStore W H) (status : TaskStatus) (msgs : list ProgressUpdate) : Prop :=
  let config := sv_config sv in
  ∃ e r, io_run_index_pipeline_stream (H4:=service_embedder config) vector_config (clustering_index config)
           (domain_clustering (sv_settings sv) d) encode (sv_chunk_params sv) cancelled (N.to_nat (embed_batch_size config))
           progress (embedding_state sv) d b c ops expected (sv_store sv) = (e, r) ∧
    match r with
    | None => s = fst (stream_open d b (sv_store sv)) ∧ status = TaskError ("pipeline panicked: " +:+ join_error) ∧ msgs = []
    | Some (s', r, msgs') => s = s' ∧ status = task_result r ∧ msgs = msgs'
    end.

(** [s] with neither the reservation nor a token of the branch. *)
Definition finished (d b c : string) (s : LanceStore W H) : LanceStore W H :=
  released d b c (set_tokens s (delete (d, b) (st_cancel_tokens s)) (st_cancelled s)).

Lemma push_stream_task_run cancelled progress d b c id ops expected sv sv' r :
  push_stream_task clock vector_config encode cancelled progress d b c id ops expected sv = (sv', r) →
  sv_active_tasks sv' = sv_active_tasks sv ∧
  ∃ s status t msgs, r = Done (Ok msgs) ∧ stream_ran cancelled progress d b c ops expected sv s status msgs ∧
    sv_store sv' = finished d b c s ∧ sv_tasks sv' = record_task id status t (sv_tasks sv).
Proof.
  unfold push_stream_task, stream_ran, add_active, srv_record_task, release, now. cbv zeta.
  unfold srv_bind at 1. cbn [srv_modify]. unfold srv_bind at 1. cbn [sv_config sv_settings sv_chunk_params sv_store with_active].
  change (embedding_state (with_active sv _)) with (embedding_state sv).
  destruct (io_run_index_pipeline_stream _ _ _ _ _ _ _ _ _ _ _ _ _ _) as [e [[[s r0] msgs]|]] eqn:Er.
  all: cbn; intros [= <- <-]; split; [cbn; lia|]; eexists _, _, _, _; split; [done|]; (split; [|by split]);
    eexists _, _; split; [first [exact Er|reflexivity]|by split].
Qed.

Lemma stream_ran_commits cancelled progress d b c ops expected sv s msgs n skipped
    (inv : N * option (EmbedCache D) → Prop) fd fc :
  stream_ran cancelled progress d b c ops expected sv s (Complete n skipped) msgs →
  provider_for (H4:=service_embedder (sv_config sv)) encode (sv_chunk_params sv) inv fd fc (sv_store sv) →
  inv (embedding_state sv) → ready (sv_store sv) d b →
  commit_done (domain_clustering (sv_settings sv) d) encode (sv_chunk_params sv) fd fc d b c ops (sv_store sv) s n skipped.
Proof.
  intros (e & x & Hrun & Hr) Hprov Hinv Hready. destruct x as [[[s' r0] m]|]; destruct Hr as (-> & Hst & _); [|done].
  destruct r0 as [[n' sk']|err]; [|done]. injection Hst as -> ->.
  by eapply (stream_run _ _ _ _ _ (H4:=service_embedder (sv_config sv))).
Qed.

Lemma stream_ran_terminal cancelled progress d b c ops expected sv s status msgs :
  stream_ran cancelled progress d b c ops expected sv s status msgs → is_terminal status = true.
Proof. intros (e & [[[s' r0] m]|] & _ & _ & -> & _); [apply task_result_terminal|done]. Qed.

(** The task of a streaming push always ends: it leaves no reservation of the
    commit and no cancellation token of the branch, the count of running
    pipelines is as before, and the status it recorded is final.  A task that
    reads complete has indexed the commit as the pipeline specifies, with the
    counts the task reports. *)
Theorem stream_push_settles cancelled progress d b c id ops expected sv sv' r
    (inv : N * option (EmbedCache D) → Prop) fd fc :
  let clustering := domain_clustering (sv_settings sv) d in
  push_stream_task clock vector_config encode cancelled progress d b c id ops expected sv = (sv', r) →
  (∃ msgs, r = Done (Ok msgs)) ∧ sv_active_tasks sv' = sv_active_tasks sv ∧
  ((d, b, c) ∉ st_inflight (sv_store sv')) ∧ st_cancel_tokens (sv_store sv') !! (d, b) = None ∧
  (∀ status, Tasks.check_task id (sv_tasks sv') = Some status → is_terminal status = true) ∧
  ∀ n skipped, Tasks.check_task id (sv_tasks sv') = Some (Complete n skipped) →
    provider_for (H4:=service_embedder (sv_config sv)) encode (sv_chunk_params sv) inv fd fc (sv_store sv) →
    inv (embedding_state sv) → ready (sv_store sv) d b →
    ∃ s', commit_done clustering encode (sv_chunk_params sv) fd fc d b c ops (sv_store sv) s' n skipped ∧
      sv_store sv' = finished d b c s'.
Proof.
  intros clustering (Eact & s & status & t & msgs & -> & Hran & Hs & Ht)%push_stream_task_run.
  split; [by eexists|]. split; [done|]. rewrite Hs. split; [apply released_not_held|].
  split; [cbn; apply lookup_delete_eq|].
  assert (Hst : ∀ st, Tasks.check_task id (sv_tasks sv') = Some st → st = status).
  { unfold Tasks.check_task. rewrite Ht. intros st (en & Hen & ->)%fmap_Some. by apply record_task_self in Hen. }
  split.
  - intros st ->%Hst. by eapply stream_ran_terminal.
  - intros n sk <-%Hst Hprov Hinv Hready. exists s. split; [|done]. by eapply stream_ran_commits.
Qed.
End requests.

(** ** The providers of the service, text by text *)

Section providers.
Context {N D : Type} `{SledLaws D, CodecLaws, JsonVectors} {HCl : Clients N}.
Context (config : Config) (f1 f2 : string → option (list f32)).
Let p1 := embed_provider config.
Let p2 := clustering_provider config.

(** What the cache holds is what the two providers would give. *)
Definition faithful (e : N * option (EmbedCache D)) : Prop :=
  ∀ c, e.2 = Some c → ∀ t v,
    (cache_get c (cache_key (model_name p1) t) (expected_dim p1) = Some v → f1 t = Some v) ∧
    (cache_get c (cache_key (model_name p2) t) (expected_dim p2) = Some v → f2 t = Some v).

(** Entries under one key come from one text of one model: the keys are digests
    of both, and providers of one model agree. *)
Definition keys_apart : Prop := ∀ p f p' f',
  (p, f) ∈ [(p1, f1); (p2, f2)] → (p', f') ∈ [(p1, f1); (p2, f2)] →
  ∀ t t', cache_key (model_name p) t = cache_key (model_name p') t' → f t = f' t'.

Lemma put_faithful n c p f t v :
  keys_apart → (p, f) ∈ [(p1, f1); (p2, f2)] → Forall f32_wf v → f t = Some v →
  faithful (n, Some c) → faithful (n, Some (cache_put c (cache_key (model_name p) t) v)).
Proof.
  intros Hk Hp Hwf Hf Hc c' [= <-] u w. destruct (Hc c eq_refl u w) as [H1' H2'].
  assert (E : ∀ p' f', (p', f') ∈ [(p1, f1); (p2, f2)] →
    cache_key (model_name p') u = cache_key (model_name p) t → f' u = Some v) by (intros p' f' Hp' Ek; by rewrite <-Hf; eapply Hk).
  split; intros [[Ek ->]|Hg]%cache_get_put; [|by apply H1'|done| |by apply H2'|done].
  - apply (E p1 f1); [by left|done].
  - apply (E p2 f2); [by right; left|done].
Qed.

(** One call of either kind. *)
Lemma batched_textwise p f key role batch (e : N * option (EmbedCache D)) texts :
  0 < batch → keys_apart → (p, f) ∈ [(p1, f1); (p2, f2)] → provider_textwise (H2:=client key) p f → faithful e →
  ∃ e' rs, io_embed_batched (H2:=client key) e p texts batch role = (e', Some rs) ∧ faithful e' ∧
    Forall2 (text_result (λ t, f (prefixed_text p role t))) texts rs.
Proof.
  intros Hb Hk Hp Htw Hfa.
  destruct (io_embed_batched_gen (H2:=client key) p role (λ t v, f t = Some v) (map (prefixed_text p role) texts)
    (λ c, faithful (e.1, Some c))) with (F := λ t, f t = None) (st := e) (texts := texts) (batch_size := batch)
    as (e' & rs & Hr & Hc' & Hf).
  - intros c t v _ Hc Hg. destruct (Hc c eq_refl t v) as [H1' H2'].
    by apply elem_of_cons in Hp as [[= -> ->]|[[= -> ->]|[]%elem_of_nil]%elem_of_cons]; [apply H1'|apply H2'].
  - intros c t v _ Hc Hv. eapply put_faithful; [done..| |done|done]. by eapply tw_vector.
  - intros n n' mp embs _ Er. pose proof (request_textwise (H2:=client key) p f n mp Htw) as Hr. rewrite Er in Hr. by apply mapM_Some.
  - intros n n' t err _ Er. pose proof (request_textwise (H2:=client key) p f n [t] Htw) as Hr. rewrite Er in Hr. cbn in Hr. by destruct (f t).
  - done.
  - destruct e as [n [c|]]; [|done]. exact Hfa.
  - intros t Ht. by apply list_elem_of_fmap_2.
  - exists e', rs. split; [done|]. split.
    + destruct e' as [n' [c'|]]; [|done]. intros c [= <-]. by apply Hc'.
    + eapply Forall2_impl; [exact Hf|]. intros t [v|msg]; unfold text_result; cbn; [by intros ->|intros ->; by exists msg].
Qed.

(** The service's embedding calls are those of a provider that embeds text by
    text, as the pipelines take it. *)
Lemma service_textwise :
  (0 < embed_batch_size config)%N → keys_apart →
  provider_textwise (H2:=client (embed_api_key config)) p1 f1 →
  provider_textwise (H2:=client (clustering_key config)) p2 f2 →
  textwise (H:=service_embedder config) faithful
    (λ t, f1 (prefixed_text p1 RoleDocument t)) (λ t, f2 (prefixed_text p2 RoleClustering t)).
Proof.
  intros Hb Hk Ht1 Ht2. split; intros e texts He.
  - apply batched_textwise; [lia|done|by left|done..].
  - apply batched_textwise; [lia|done|by right; left|done..].
Qed.
End providers.

(** ** Comparison and construction *)

(** Comparing two texts: equal texts are at distance zero, whatever the
    roles, the readiness and the provider, and nothing is called; a distance of
    different texts is in [0, 1] when the kernel's cosine distance of their
    vectors is a number. *)
Theorem compare_spec {W H N D} `{SledOps D, Codec, JsonVectors} {HCl : Clients N} cosine a b r1 r2
    (sv sv' : Service W H N D) res :
  (∀ u v, F32.num (F32.div (cosine u v) F32.two)) →
  compare_with_roles cosine a b r1 r2 sv = (sv', res) →
  (a = b → sv' = sv ∧ res = Done (Ok (mkCompareResult F32.zero (role_name r1) (role_name r2)))) ∧
  (a ≠ b → is_search_ready sv = false → sv' = sv ∧ ∃ m, res = Done (Err (Unavailable m))) ∧
  ∀ out, res = Done (Ok out) → F32.le F32.zero (cr_distance out) = true ∧ F32.le (cr_distance out) F32.one = true.
Proof.
  intros Hnum. unfold compare_with_roles. destruct (String.eqb_spec a b) as [->|Hne].
  { intros [= <- <-]. split; [done|]. split; [done|]. intros out [= <-]. by split. }
  intros Hr. split; [done|]. split.
  { intros _ Hn. unfold srv_bind, require_search_ready in Hr. rewrite Hn in Hr. injection Hr as <- <-. by eauto. }
  intros out ->. apply srv_bind_ok in Hr as (sv1 & [] & _ & Hr). apply srv_bind_ok in Hr as (sv2 & config & _ & Hr).
  destruct (embed_route config r1) as [p1 k1], (embed_route config r2) as [p2 k2].
  do 4 apply srv_bind_ok in Hr as (? & ? & _ & Hr). injection Hr as _ <-. cbn.
  unfold cosine_distance_normalized, normalized_cosine_from_lance. apply clamp_range; [apply Hnum|done].
Qed.

Lemma min_by_key_spec {A} (key : A → nat) l :
  match min_by_key key l with
  | None => l = []
  | Some x => x ∈ l ∧ ∀ y, y ∈ l → key x ≤ key y
  end.
Proof.
  unfold min_by_key. induction l as [|y l IH] using rev_ind; [done|]. rewrite foldl_snoc.
  destruct (foldl _ None l) as [x|].
  - destruct IH as [Hx Hmin]. destruct (Nat.ltb_spec (key y) (key x)).
    + split; [apply elem_of_app; right; by left|]. intros z [Hz| ->%list_elem_of_singleton]%elem_of_app; [|done].
      specialize (Hmin z Hz). lia.
    + split; [apply elem_of_app; by left|]. intros z [Hz| ->%list_elem_of_singleton]%elem_of_app; [by apply Hmin|done].
  - subst l. split; [by left|]. by intros z ->%list_elem_of_singleton.
Qed.

(** The chunk length of a service is that of the prefix that leaves least. *)
Lemma chunk_budget_smallest {W H N D} header_ok encode get (store : LanceStore W H) settings config (net : N) (cache : EmbedCache D)
    sv provider role t e :
  new_with_cache header_ok encode get store settings config net cache = Some sv →
  (provider, role) ∈ [(embed_provider config, RoleDocument); (clustering_provider config, RoleClustering)] →
  effective_prefixes provider = Some t → encode (prefix_for_role t role) = Ok e → length (get_ids e) ≤ WINDOW →
  length (get_ids e) + max_tokens (sv_chunk_params sv) ≤ WINDOW.
Proof.
  unfold new_with_cache. destruct (_ && _); [|done]. intros [= <-] Hin Ht He Hle. cbn [sv_chunk_params].
  unfold chunk_budget. set (candidates := omap _ _).
  assert (Hc : ∃ p, p ∈ candidates ∧ max_tokens p = WINDOW - length (get_ids e)).
  { eexists. split; [apply list_elem_of_omap|].
    - exists (prefix_for_role t role). split; [|unfold params_for_window; rewrite He; done].
      unfold chunk_prefixes. apply list_elem_of_omap. eexists. split; [|done].
      apply elem_of_cons in Hin as [[= -> ->]|[[= -> ->]|[]%elem_of_nil]%elem_of_cons].
      + rewrite Ht. by left.
      + rewrite Ht. right. by left.
    - done. }
  destruct Hc as (p & Hp & Hm). pose proof (min_by_key_spec max_tokens candidates) as Hs.
  destruct (min_by_key max_tokens candidates) as [best|]; [|by rewrite Hs in Hp; apply elem_of_nil in Hp].
  destruct Hs as [_ Hmin]. specialize (Hmin p Hp). cbn. lia.
Qed.

(** C34: what a service embeds of a document stays within the token window the
    budget is computed for.  For each prefix a chunk is embedded with, of either
    provider, that itself fits in the window of 512 tokens: the tokens of the
    document a chunk spans, and those of the prefix, are together at most 512,
    for every chunk of every text the service chunks, the tokenizer's offsets
    being one per token and in order.  Tokens are counted as the program does,
    in the encoding of the whole text. *)
Theorem chunk_budget_holds {W H N D} header_ok encode get (store : LanceStore W H) settings config (net : N) (cache : EmbedCache D)
    sv provider role t e text te chunks c :
  new_with_cache header_ok encode get store settings config net cache = Some sv →
  (provider, role) ∈ [(embed_provider config, RoleDocument); (clustering_provider config, RoleClustering)] →
  effective_prefixes provider = Some t → encode (prefix_for_role t role) = Ok e → length (get_ids e) ≤ WINDOW →
  encode text = Ok te → offsets_ok te → chunk_text encode text (sv_chunk_params sv) = Some (Ok chunks) → c ∈ chunks →
  ∃ a b, a ≤ b ∧ b ≤ length (get_ids te) ∧ chunk_tokens text te c a b ∧ length (get_ids e) + (b - a) ≤ WINDOW.
Proof.
  intros Hnew Hin Ht He Hle Hte Hok Hch Hc.
  pose proof (chunk_budget_smallest _ _ _ _ _ _ _ _ _ _ _ _ _ Hnew Hin Ht He Hle) as Hmax.
  destruct (chunk_text_within _ _ _ _ _ _ Hte Hok Hch Hc) as (a & b & ? & ? & ? & ?).
  exists a, b. split_and!; [lia|lia|done|lia].
Qed.

(** ** On the small dataset *)

#[local] Existing Instances RefScan.scan RefScan.scan_laws.
Import RunExample.

Module ServiceExample.
Export EmbedExample NeighbourExample SuggestExample.
#[export] Existing Instances SnapshotExample.record_order StatsExample.plain_form.
#[export] Instance chunk_order : HashIter string ChunkHit := map_order.
#[export] Instance fused_order : HashIter string FusedDoc := map_order.
#[export] Instance scored_order : HashIter (string * Z) (f32 * ChunkHit) := map_order.
#[export] Instance pair_order : HashIter (string * string) CanonicalObservation := map_order.
#[export] Instance words_order : HashIter string (nat * string) := map_order.
#[export] Instance task_order : HashIter string (TaskStatus * Z) := map_order.
#[export] Instance plain_lowercase : Lowercase := to_lowercase.
#[export] Instance plain_formats : Formats := {| debug_str := id; show_f32 _ := "?"; join_error := "join" |}.
#[export] Instance one_net : Clients nat := λ _, counting_net.

Definition settings : DomainSettingsMap := mkDomainSettingsMap {[ "o/t" := mkDomainSettings true ]} "".
Definition cfg : Config :=
  mkConfig "admin" "" 7372 nomic None None None (Some RunExample.config) "/data" "" 2 None None 0 0 0.
Definition serve (s : CommitExample.St) : Service (option RefLance.dir) RefLance.handle nat (gmap string string) :=
  mkService s settings cfg window 0 fresh_cache true true ∅ 0 0.
Definition ticks (n : nat) : Z := Z.of_nat n.

(** A search of [c9], of which [c1] is an ancestor. *)
Definition searched := search_with_options "o/t" "c9" "new" Vector 0 10 [] [] false ["c8"; "c1"] (serve SnapshotExample.after).
Definition pushed := push ticks RunExample.config one_token false "1" "o/t" "main" "c2" None ops (serve store1).
Definition streamed_task := push_stream_task ticks RunExample.config one_token (λ _, false) true "o/t" "main" "c2" "task-1" ops
  (Some 4%N) (serve store1).

Lemma vector_of_width t v : vector_of t = Some v → length v = 1.
Proof. unfold vector_of. destruct (first_byte t); [|done]. by intros [= <-]. Qed.

(** The digest of the example is the text itself: keys tell texts apart. *)
Lemma keys_apart_example : keys_apart cfg vector_of vector_of.
Proof.
  intros p f p' f' Hp Hp' t t' Hk.
  apply elem_of_cons in Hp as [[= -> ->]|[[= -> ->]|[]%elem_of_nil]%elem_of_cons];
    apply elem_of_cons in Hp' as [[= -> ->]|[[= -> ->]|[]%elem_of_nil]%elem_of_cons];
    vm_compute in Hk; by injection Hk as ->.
Qed.

Lemma example_provider s : st_dim s = 1 →
  provider_for (H4:=service_embedder cfg) one_token window (faithful cfg vector_of vector_of)
    (λ t, vector_of (prefixed_text (embed_provider cfg) RoleDocument t))
    (λ t, vector_of (prefixed_text (clustering_provider cfg) RoleClustering t)) (s : CommitExample.St).
Proof.
  intros Hd. split.
  - apply service_textwise; [done|apply keys_apart_example|apply nomic_textwise..].
  - apply one_token_safe.
  - intros t v. rewrite Hd. apply vector_of_width.
  - intros t v. rewrite Hd. apply vector_of_width.
Qed.

Lemma fresh_faithful s : faithful cfg vector_of vector_of (embedding_state (serve s)).
Proof. intros c [= <-] t v. split; intros Hg; vm_compute in Hg; discriminate Hg. Qed.

Lemma domain_parsed : parse_domain "o/t" = Ok (mkResourcePath "o" "t" "local" (RefBranch (mkBranchName "main"))).
Proof. by vm_compute. Qed.

Lemma after_canonical : canonical_tags (domain_tags SnapshotExample.after "o/t").
Proof. apply CommitExample.canonical_checked. by vm_compute. Qed.
End ServiceExample.
Import ServiceExample.

Lemma read_requests_only_read_witness :
  is_ok (match searched.2 with Done r => r | _ => Err (NotFound "") end) = true ∧ reading (serve SnapshotExample.after) searched.1.
Proof.
  split; [by vm_compute|].
  refine (read_requests_only_read (N:=nat) (D:=gmap string string) example_cosine ticks
    (search_with_options "o/t" "c9" "new" Vector 0 10 [] [] false ["c8"; "c1"]) _ _ searched.2 _ (surjective_pairing searched)).
  constructor.
Defined.

Lemma resolve_searchable_spec_witness :
  (resolve_searchable_commit (mkDomain "o/t") "main" "c9" ["c8"; "c1"] (serve SnapshotExample.after)).2 = Done (Ok "c1") ∧
  indexed (serve SnapshotExample.after) "o/t" "c1".
Proof.
  destruct (resolve_searchable_commit _ _ _ _ _) as [sv' o] eqn:E. pose proof (f_equal snd E) as Ho. vm_compute in Ho. subst o.
  split; [done|].
  apply (resolve_searchable_spec (mkDomain "o/t") "main" "c9" ["c8"; "c1"] (serve SnapshotExample.after)) in E as [Hs _].
  - by destruct (Hs "c1" eq_refl).
  - exact after_canonical.
  - repeat constructor; by vm_compute.
Defined.

Lemma search_reads_served_commit_witness :
  match searched.2 with
  | Done (Ok out) => map sh_id (so_hits out) = ["A"; "B"] ∧ ∃ h, snapshot_of SnapshotExample.after "o/t" (so_served_commit out) h
  | _ => False
  end.
Proof.
  destruct searched as [sv' o] eqn:E. pose proof (f_equal snd E) as Ho. vm_compute in Ho. subst o. cbn [snd].
  split; [done|]. unfold searched in E. apply search_reads_served_commit in E as (rp & h & v & hits & Hp & _ & _ & Hs & _);
    [|apply SnapshotExample.after_on_main].
  exists h. vm_compute in Hp. injection Hp as <-. exact Hs.
Defined.

Lemma push_settles_witness :
  pushed.2 = Done (Ok "task-1") ∧ ("o/t", "main", "c2") ∉ st_inflight (sv_store pushed.1).
Proof.
  destruct pushed as [sv' o] eqn:E. pose proof (f_equal snd E) as Ho. vm_compute in Ho. subst o. split; [done|].
  apply (push_settles ticks RunExample.config one_token false "1" "o/t" "main" "c2" None ops (serve store1)) in E.
  destruct E as (_ & [(m & Hm & _)|(_ & Hn & _)]); [discriminate Hm|exact Hn].
Defined.

Lemma completed_push_commits_witness :
  Tasks.check_task "task-1" (sv_tasks pushed.1) = Some (Complete 3 []) ∧ indexed pushed.1 "o/t" "c2".
Proof.
  assert (Tasks.check_task "task-1" (sv_tasks pushed.1) = Some (Complete 3 [])) as Hc by by vm_compute.
  split; [done|]. destruct pushed as [sv' o] eqn:E. pose proof (f_equal snd E) as Ho. vm_compute in Ho. subst o. cbn [fst] in *.
  unfold pushed in E.
  destruct (completed_push_commits ticks RunExample.config one_token "1" "o/t" (mkResourcePath "o" "t" "local" (RefBranch (mkBranchName "main")))
    "main" "c2" None ops (serve store1) sv' "task-1" 3 [] (faithful cfg vector_of vector_of)
    (λ t, vector_of (prefixed_text (embed_provider cfg) RoleDocument t))
    (λ t, vector_of (prefixed_text (clustering_provider cfg) RoleClustering t))) as (s1 & s2 & _ & (C & _) & Hs); [..|done|done|].
  - exact domain_parsed.
  - exact (proj1 ready_store1).
  - exact (proj2 ready_store1).
  - by apply example_provider.
  - apply fresh_faithful.
  - destruct (cm_tag _ _ _ _ _ _ C) as (h & at_ & _ & _ & Ht & _).
    unfold indexed. rewrite Hs. change (domain_tags (released _ _ _ s2) "o/t") with (domain_tags s2 "o/t").
    assert (domain_tags s2 "o/t" = _) as -> by exact Ht. rewrite lookup_insert_eq. by eexists.
Defined.

Lemma stream_push_settles_witness :
  Tasks.check_task "task-1" (sv_tasks streamed_task.1) = Some (Complete 3 []) ∧
  ∃ s', head_rows s' "o/t" "main" = head_rows (sv_store streamed_task.1) "o/t" "main" ∧ length (head_rows s' "o/t" "main") = 3.
Proof.
  assert (Tasks.check_task "task-1" (sv_tasks streamed_task.1) = Some (Complete 3 [])) as Hc by by vm_compute.
  assert (length (head_rows (sv_store streamed_task.1) "o/t" "main") = 3) as Hl by by vm_compute.
  split; [done|]. destruct streamed_task as [sv' o] eqn:E. unfold streamed_task in E.
  apply (stream_push_settles _ _ _ _ _ _ _ _ _ _ _ _ _ _ (faithful cfg vector_of vector_of)
    (λ t, vector_of (prefixed_text (embed_provider cfg) RoleDocument t))
    (λ t, vector_of (prefixed_text (clustering_provider cfg) RoleClustering t))) in E as (_ & _ & _ & _ & _ & Hd).
  destruct (Hd _ _ Hc) as (s' & C & Hs); [by apply example_provider|apply fresh_faithful|apply ready_store1|].
  exists s'. cbn [fst] in *. rewrite Hs in Hl |- *. by split.
Defined.

Lemma compare_spec_witness :
  compare_with_roles (λ _ _, F32.one) "a" "a" RoleDocument RoleQuery (set_search_ready (serve store1) false)
  = (set_search_ready (serve store1) false, Done (Ok (mkCompareResult F32.zero "document" "query"))).
Proof.
  destruct (compare_with_roles _ _ _ _ _ _) as [sv' res] eqn:E.
  apply compare_spec in E as [He _]; [|done].
  by destruct (He eq_refl) as [-> ->].
Defined.

(** A text of 600 tokens makes two chunks beside a prefix of 17. *)
Lemma chunk_budget_holds_witness :
  let text := join "" (replicate 600 "a") in
  ∃ sv te chunks, new_with_cache (W:=option RefLance.dir) (H:=RefLance.handle) (λ _, true) byte_tokenizer (λ _, None) store1 settings cfg 0
      fresh_cache = Some sv ∧
    byte_tokenizer text = Ok te ∧ chunk_text byte_tokenizer text (sv_chunk_params sv) = Some (Ok chunks) ∧ length chunks = 2 ∧
    ∀ c, c ∈ chunks → ∃ a b, a ≤ b ∧ b ≤ length (get_ids te) ∧ chunk_tokens text te c a b ∧ 17 + (b - a) ≤ WINDOW.
Proof.
  set (text := join "" _). destruct (new_with_cache _ _ _ _ _ _ _ _) as [sv|] eqn:E; [|discriminate E].
  destruct (byte_tokenizer text) as [te|] eqn:Et; [|vm_compute in Et; discriminate Et].
  assert (Hsv : sv_chunk_params sv = mkChunkParams 495 70) by (injection E as <-; vm_compute; reflexivity).
  destruct (chunk_text byte_tokenizer text (sv_chunk_params sv)) as [[chunks|]|] eqn:Ec;
    [|rewrite Hsv in Ec; vm_compute in Ec; discriminate Ec..].
  exists sv, te, chunks. split_and!; [reflexivity|exact Et|exact Ec| |].
  - rewrite Hsv in Ec. vm_compute in Ec. injection Ec as <-. reflexivity.
  - intros c Hc. refine (chunk_budget_holds _ _ _ _ _ _ _ _ sv nomic RoleDocument _
      (mkEncoding (map (λ c, byte_of c) (str_bytes "search_document: ")) _) text te chunks c E _ eq_refl _ _ Et _ Ec Hc).
    + by left.
    + reflexivity.
    + by vm_compute; lia.
    + by eapply byte_tokenizer_offsets.
Defined.

(** Without the embeddings or the contents asked for, a neighbour that is the
    source of no candidate gets no clustering distance, though its vector is
    stored; asking for the contents brings the distance. *)
Lemma clustering_distance_depends_on_include :
  let distances content :=
    match (candidates_gather example_cosine ticks "o/t" "c1" a_to_b 5 F32.one (F32.of_Z (-1)) false content []
             (serve SnapshotExample.after)).2 with
    | Done (Ok r) => map ce_clustering_distance <$> ca_set_to_target r !! "A"
    | _ => None
    end in
  distances false = Some [None] ∧ distances true = Some [Some F32.one].
Proof. by vm_compute. Qed.
