(* ===== verification/Metrics.v ===== *)
(** * Metrics (src/src/metrics.rs)

    The text the metrics endpoint answers with, in the Prometheus exposition
    format, and a reader of that format: what is scraped from the text are the
    statistics and the sizes it was rendered from.  The gauges of the state the
    model leaves out are an argument.  The server itself is axum's. *)

From S2P Require Import Body Resolve Knn Search Neighbours Integrity Prelude F32 RustStr Model LayerIdx Suggest Lance DatasetCache Store Commit Tasks Index Maintain Embed Stats Config Snapshot Service.

(** ** Rendering *)

(** The three lines [push_str] adds for one metric. *)
Definition metric (kind name help : string) (value : N) : string :=
  "# HELP " +:+ name +:+ " " +:+ help +:+ String newline
  ("# TYPE " +:+ name +:+ " " +:+ kind +:+ String newline
  (name +:+ " " +:+ pretty value +:+ String newline EmptyString)).
Definition gauge : string → string → N → string := metric "gauge".
Definition counter : string → string → N → string := metric "counter".

(** A counter kept as an integer, read as the [u64] or [usize] it is. *)
Definition as_u64 (z : Z) : N := Z.to_N (z mod 2 ^ 64).

Definition render_text (stats : Statistics) (internal : InternalStats) : string :=
  let g := is_gauges internal in
  gauge "vectorlink_domains" "Total number of indexed domains" (stat_domains stats) +:+
  gauge "vectorlink_branches" "Total number of indexed branches" (stat_branches stats) +:+
  gauge "vectorlink_indexed_commits" "Total number of indexed commits" (stat_indexed_commits stats) +:+
  gauge "vectorlink_documents" "Total number of indexed documents" (stat_documents stats) +:+
  gauge "vectorlink_chunks" "Total number of live indexed chunks (excludes soft-deleted)" (stat_chunks stats) +:+
  gauge "vectorlink_pending_index_fragments" "Fragments not yet covered by vector ANN index" (stat_pending_index_fragments stats) +:+
  gauge "vectorlink_pending_index_documents" "Rows in fragments not yet covered by vector ANN index" (stat_pending_index_documents stats) +:+
  gauge "vectorlink_cached_datasets" "Number of cached Lance Dataset handles" (N.of_nat (is_cached_datasets internal)) +:+
  gauge "vectorlink_tasks" "Number of tracked tasks in the tasks HashMap" (N.of_nat (is_tasks internal)) +:+
  gauge "vectorlink_branch_indexes" "Number of per-(domain, branch) index entries" (N.of_nat (is_branch_indexes internal)) +:+
  gauge "vectorlink_pipeline_locks" "Number of per-(domain, branch) pipeline locks" (N.of_nat (gg_pipeline_locks g)) +:+
  gauge "vectorlink_domain_guards" "Number of per-domain guard mutexes" (N.of_nat (gg_domain_guards g)) +:+
  gauge "vectorlink_inflight_commits" "Number of in-flight commit reservations" (N.of_nat (is_inflight_commits internal)) +:+
  gauge "vectorlink_pipeline_pending_chunks" "Chunks chunked but not yet written to Lance" (gg_pipeline_pending_chunks g) +:+
  gauge "vectorlink_pipeline_embedded_chunks" "Chunks embedded (embedding result received)" (gg_pipeline_embedded_chunks g) +:+
  gauge "vectorlink_pipeline_written_chunks" "Chunks written to Lance (append committed)" (gg_pipeline_written_chunks g) +:+
  gauge "vectorlink_pipeline_active_tasks" "Number of pipeline tasks currently running (spawned but not completed)" (as_u64 (is_pipeline_active_tasks internal)) +:+
  counter "vectorlink_fresh_open_count_total" "Total count of fresh Dataset::open calls (cumulative)" (is_fresh_open_count internal) +:+
  gauge "vectorlink_embed_cache_entries" "Number of entries in the embedding cache" (as_u64 (is_embed_cache_entries internal)) +:+
  gauge "vectorlink_embed_cache_size_bytes" "Approximate memory usage of the embedding cache in bytes" (as_u64 (is_embed_cache_size_bytes internal)) +:+
  gauge "vectorlink_lance_index_cache_capacity_bytes" "Configured Lance index cache capacity in bytes" (gg_lance_index_cache_capacity_bytes g) +:+
  gauge "vectorlink_lance_metadata_cache_capacity_bytes" "Configured Lance metadata cache capacity in bytes" (gg_lance_metadata_cache_capacity_bytes g).

Definition no_statistics : Statistics := mkStatistics 0 0 0 0 0 0 0 None.

Section render.
Context {W H Net D : Type} `{LanceOps W H, LanceIndexOps W H, LanceMaintOps W H} `{ByteSerialize, FormParse} `{SledOps D, Codec}
        {HC : LanceCount W H} {HD : HashIter string (DatasetCacheEntry H)}.

(** [unwrap_or]. *)
Definition srv_unwrap_or {A} (a : A) (c : srv W H Net D A) : srv W H Net D A := λ sv,
  match c sv with
  | (sv, Done (Err _)) => (sv, Done (Ok a))
  | r => r
  end.

(** The statistics, zeros when they fail, then the sizes. *)
Definition render_metrics (gauges : Gauges) : srv W H Net D string :=
  srv_bind (srv_unwrap_or no_statistics Service.statistics) (λ stats,
  srv_bind (internal_stats gauges) (λ internal,
  srv_ret (render_text stats internal))).
End render.


(** ** Reading the exposition format *)

(** Names of metrics: letters, digits, underscores and colons, no digit first. *)
Definition name_start (c : ascii) : bool :=
  in_range 65 90 c || in_range 97 122 c || Ascii.eqb c "_" || Ascii.eqb c ":".
Definition name_char (c : ascii) : bool := name_start c || in_range 48 57 c.
Definition metric_name (s : string) : bool :=
  match str_bytes s with
  | c :: l => name_start c && forallb name_char l
  | [] => false
  end.
Definition metric_kind (s : string) : bool := String.eqb s "gauge" || String.eqb s "counter".

(** A family of one sample, over its three lines. *)
Definition read_family (help kind sample : string) : option (string * string * N) :=
  help ← strip_prefix "# HELP " help;
  '(name, _) ← split_once " " help;
  kind ← strip_prefix "# TYPE " kind;
  '(name1, kind) ← split_once " " kind;
  '(name2, value) ← split_once " " sample;
  if metric_name name && String.eqb name1 name && String.eqb name2 name && metric_kind kind then
    match str_bytes value with
    | [] => None
    | l => n ← parse_digits 0 l; Some (name, kind, n)
    end
  else None.

Fixpoint read_families (ls : list string) : option (list (string * string * N)) :=
  match ls with
  | [s] => if String.eqb s "" then Some [] else None
  | help :: kind :: sample :: ls => f ← read_family help kind sample; fs ← read_families ls; Some (f :: fs)
  | _ => None
  end.

(** Every line ends in a newline, and no name is announced twice. *)
Definition scrape (text : string) : option (list (string * string * N)) :=
  fs ← read_families (split_char newline text);
  if bool_decide (NoDup (map (λ f, f.1.1) fs)) then Some fs else None.

(** What there is to scrape, in the order it is rendered in. *)
Definition samples (stats : Statistics) (internal : InternalStats) : list (string * string * N) :=
  let g := is_gauges internal in
  [ ("vectorlink_domains", "gauge", stat_domains stats);
    ("vectorlink_branches", "gauge", stat_branches stats);
    ("vectorlink_indexed_commits", "gauge", stat_indexed_commits stats);
    ("vectorlink_documents", "gauge", stat_documents stats);
    ("vectorlink_chunks", "gauge", stat_chunks stats);
    ("vectorlink_pending_index_fragments", "gauge", stat_pending_index_fragments stats);
    ("vectorlink_pending_index_documents", "gauge", stat_pending_index_documents stats);
    ("vectorlink_cached_datasets", "gauge", N.of_nat (is_cached_datasets internal));
    ("vectorlink_tasks", "gauge", N.of_nat (is_tasks internal));
    ("vectorlink_branch_indexes", "gauge", N.of_nat (is_branch_indexes internal));
    ("vectorlink_pipeline_locks", "gauge", N.of_nat (gg_pipeline_locks g));
    ("vectorlink_domain_guards", "gauge", N.of_nat (gg_domain_guards g));
    ("vectorlink_inflight_commits", "gauge", N.of_nat (is_inflight_commits internal));
    ("vectorlink_pipeline_pending_chunks", "gauge", gg_pipeline_pending_chunks g);
    ("vectorlink_pipeline_embedded_chunks", "gauge", gg_pipeline_embedded_chunks g);
    ("vectorlink_pipeline_written_chunks", "gauge", gg_pipeline_written_chunks g);
    ("vectorlink_pipeline_active_tasks", "gauge", as_u64 (is_pipeline_active_tasks internal));
    ("vectorlink_fresh_open_count_total", "counter", is_fresh_open_count internal);
    ("vectorlink_embed_cache_entries", "gauge", as_u64 (is_embed_cache_entries internal));
    ("vectorlink_embed_cache_size_bytes", "gauge", as_u64 (is_embed_cache_size_bytes internal));
    ("vectorlink_lance_index_cache_capacity_bytes", "gauge", gg_lance_index_cache_capacity_bytes g);
    ("vectorlink_lance_metadata_cache_capacity_bytes", "gauge", gg_lance_metadata_cache_capacity_bytes g) ].

(** ** What is read is what was rendered *)

Lemma digit_value_pretty x : (x < 10)%N → digit_value (pretty_N_char x) = Some x.
Proof.
  intros Hx. assert (Ha : ∀ k, (k < 10)%nat → digit_value (pretty_N_char (N.of_nat k)) = Some (N.of_nat k)).
  { intros k Hk. do 10 (destruct k as [|k]; [reflexivity|]). lia. }
  specialize (Ha (N.to_nat x)). rewrite N2Nat.id in Ha. apply Ha. lia.
Qed.

(** The digits [pretty] puts before [s] are read back, and none is another
    character. *)
Lemma parse_pretty_go x s : parse_digits 0 (str_bytes (pretty_N_go x s)) = parse_digits x (str_bytes s).
Proof.
  revert s. induction (N.lt_wf_0 x) as [x _ IH]. intros s. destruct (decide (x = 0)%N) as [->|Hx].
  { by rewrite pretty_N_go_0. }
  rewrite pretty_N_go_step by lia. rewrite IH by (apply N.div_lt; lia). cbn [str_bytes parse_digits].
  rewrite digit_value_pretty by (apply N.mod_lt; lia). cbn.
  f_equal. rewrite (N.div_mod x 10) at 3 by lia. lia.
Qed.

Lemma no_char_pretty_go c x s :
  in_range 48 57 c = false → no_char c s → no_char c (pretty_N_go x s).
Proof.
  intros Hc. revert s. induction (N.lt_wf_0 x) as [x _ IH]. intros s Hs. destruct (decide (x = 0)%N) as [->|Hx].
  { by rewrite pretty_N_go_0. }
  rewrite pretty_N_go_step by lia. apply IH; [apply N.div_lt; lia|].
  unfold no_char in *. cbn. apply not_elem_of_cons. split; [|done]. intros ->.
  pose proof (digit_value_pretty (x mod 10) ltac:(apply N.mod_lt; lia)) as Hd.
  unfold digit_value in Hd. by rewrite Hc in Hd.
Qed.

Lemma parse_pretty (n : N) : parse_digits 0 (str_bytes (pretty n)) = Some n.
Proof. unfold pretty, pretty_N. case_decide as E; [by rewrite E|]. by rewrite parse_pretty_go. Qed.

Lemma no_char_pretty c (n : N) : in_range 48 57 c = false → no_char c (pretty n).
Proof.
  intros Hc. unfold pretty, pretty_N. case_decide; [|by apply no_char_pretty_go, not_elem_of_nil].
  intros Hin. apply list_elem_of_singleton in Hin as ->. done.
Qed.

Lemma str_app_nil (s : string) : s +:+ "" = s.
Proof. apply str_bytes_inj. by rewrite str_bytes_app, app_nil_r. Qed.

Lemma str_cons_app c (s t : string) : String c s +:+ t = String c (s +:+ t).
Proof. reflexivity. Qed.
Lemma str_app_assoc (s t u : string) : s +:+ t +:+ u = (s +:+ t) +:+ u.
Proof. apply str_bytes_inj. by rewrite !str_bytes_app, app_assoc. Qed.


Definition plain (s : string) : bool := forallb (λ c, negb (Ascii.eqb c newline)) (str_bytes s).

Lemma no_char_plain s : plain s = true → no_char newline s.
Proof.
  unfold plain, no_char. rewrite forallb_forall. intros Hs Hin. apply list_elem_of_In, Hs in Hin.
  by rewrite Ascii.eqb_refl in Hin.
Qed.

Lemma no_char_name c s : name_char c = false → metric_name s = true → no_char c s.
Proof.
  unfold metric_name, no_char. intros Hc Hs Hin. destruct (str_bytes s) as [|a l]; [done|].
  apply andb_true_iff in Hs as [Ha Hl]. rewrite forallb_forall in Hl.
  apply list_elem_of_In in Hin as [->|Hin]; [|apply Hl in Hin; congruence].
  unfold name_char in Hc. by rewrite Ha in Hc.
Qed.

Definition metric_ok (kind name help : string) : bool := metric_name name && metric_kind kind && plain help.

Lemma metric_kind_plain kind : metric_kind kind = true → plain kind = true.
Proof. unfold metric_kind. intros [->%String.eqb_eq| ->%String.eqb_eq]%orb_true_iff; reflexivity. Qed.

(** The lines of a metric, then those of the rest. *)
Lemma split_metric kind name help v rest :
  metric_ok kind name help = true →
  split_char newline (metric kind name help v +:+ rest) =
    ("# HELP " +:+ name +:+ " " +:+ help) :: ("# TYPE " +:+ name +:+ " " +:+ kind) ::
    (name +:+ " " +:+ pretty v) :: split_char newline rest.
Proof.
  intros [[Hn Hk]%andb_true_iff Hh]%andb_true_iff.
  assert (metric kind name help v +:+ rest =
    ("# HELP " +:+ name +:+ " " +:+ help) +:+ String newline (("# TYPE " +:+ name +:+ " " +:+ kind) +:+
      String newline ((name +:+ " " +:+ pretty v) +:+ String newline rest))) as ->.
  { unfold metric. rewrite <-!str_app_assoc, !(str_cons_app newline), <-!str_app_assoc, !(str_cons_app newline), <-!str_app_assoc. reflexivity. }
  assert (no_char newline name) by by apply no_char_name.
  pose proof (no_char_pretty newline v eq_refl). pose proof (no_char_plain _ (metric_kind_plain _ Hk)).
  pose proof (no_char_plain _ Hh). assert (Hs : no_char newline " ") by by apply no_char_plain.
  rewrite !split_char_app_sep; [done|..].
  all: repeat apply no_char_app; try assumption; by apply no_char_plain.
Qed.

Lemma read_metric kind name help v rest :
  metric_ok kind name help = true →
  read_families (split_char newline (metric kind name help v +:+ rest)) =
  (fs ← read_families (split_char newline rest); Some ((name, kind, v) :: fs)).
Proof.
  intros Hok. rewrite split_metric by done.
  apply andb_true_iff in Hok as [[Hn Hk]%andb_true_iff _]. assert (Hs : no_char " " name) by by apply no_char_name.
  assert (read_family ("# HELP " +:+ name +:+ " " +:+ help) ("# TYPE " +:+ name +:+ " " +:+ kind)
            (name +:+ " " +:+ pretty v) = Some (name, kind, v)) as Hf.
  { unfold read_family. rewrite !strip_prefix_app. cbn [mbind option_bind].
    change (" " +:+ help) with (String " " help). change (" " +:+ kind) with (String " " kind).
    change (" " +:+ pretty v) with (String " " (pretty v)).
    rewrite !(λ l r Hl, proj2 (split_once_inv " " _ l r) (conj eq_refl Hl)) by done. cbn [mbind option_bind]. rewrite Hn, Hk, String.eqb_refl. cbn [andb].
    pose proof (parse_pretty v) as Hv. destruct (str_bytes (pretty v)) eqn:Ev; [|by rewrite Hv].
    change (str_bytes (pretty v) = str_bytes "") in Ev. apply str_bytes_inj in Ev.
    exfalso. unfold pretty, pretty_N in Ev. case_decide; [done|].
    pose proof (parse_pretty_go v "") as Hg. rewrite Ev in Hg. by injection Hg as <-. }
  cbn [read_families]. by rewrite Hf.
Qed.

Lemma samples_distinct stats internal : NoDup (map (λ f, f.1.1) (samples stats internal)).
Proof. cbn [map samples fst]. by apply (bool_decide_eq_true_1 (NoDup _)); vm_compute. Qed.

(** What a scrape of the rendered text reads, every family announced once
    with a legal name and kind and every line complete, is exactly the
    statistics and the sizes: names, kinds and values, in order. *)
Lemma scrape_render stats internal : scrape (render_text stats internal) = Some (samples stats internal).
Proof.
  unfold scrape.
  assert (read_families (split_char newline (render_text stats internal)) = Some (samples stats internal)) as ->.
  { unfold render_text, gauge, counter. rewrite <-(str_app_nil (metric "gauge" "vectorlink_lance_metadata_cache_capacity_bytes" _ _)).
    repeat (rewrite read_metric by reflexivity). reflexivity. }
  cbn [mbind option_bind]. rewrite bool_decide_eq_true_2; [done|]. apply samples_distinct.
Qed.

Section render_spec.
Context {W H Net D : Type} `{LanceOps W H, LanceIndexOps W H, LanceMaintOps W H} `{ByteSerialize, FormParse} `{SledOps D, Codec}
        {HC : LanceCount W H} {HD : HashIter string (DatasetCacheEntry H)}.

Lemma service_statistics_answers (sv : Service W H Net D) : ∃ sv1 r, Service.statistics sv = (sv1, Done r).
Proof. unfold Service.statistics, srv_io. destruct (Stats.statistics _) as [s r]. eauto. Qed.

Lemma internal_stats_answers (sv : Service W H Net D) gauges :
  ∃ sv1 internal, internal_stats gauges sv = (sv1, Done (Ok internal)).
Proof. unfold internal_stats. destruct (cache_len _). eauto. Qed.

(** The endpoint always answers, also when the statistics fail, and its
    text reads as the statistics of that moment, zeros in their place when they
    fail, with the sizes read after them. *)
Theorem render_metrics_answers (sv : Service W H Net D) gauges :
  let '(sv1, st) := Service.statistics sv in
  let '(sv2, sizes) := internal_stats gauges sv1 in
  ∃ stats internal text,
    (st = Done (Ok stats) ∨ (∃ e, st = Done (Err e)) ∧ stats = no_statistics) ∧
    sizes = Done (Ok internal) ∧
    render_metrics gauges sv = (sv2, Done (Ok text)) ∧ scrape text = Some (samples stats internal).
Proof.
  unfold render_metrics, srv_bind, srv_unwrap_or.
  destruct (service_statistics_answers sv) as (sv1 & r & Es). rewrite Es.
  destruct (internal_stats_answers sv1 gauges) as (sv2 & internal & Ei).
  rewrite Ei. destruct r as [st|e]; rewrite Ei.
  - exists st, internal, (render_text st internal). split_and!; [by left|done|done|apply scrape_render].
  - exists no_statistics, internal, (render_text no_statistics internal).
    split_and!; [right; eauto|done|done|apply scrape_render].
Qed.
End render_spec.
