(* ===== verification/Stub.v ===== *)
(** * The in-memory stub store (src/src/store/mod.rs, [InMemoryStore])

    The store contract tests run against: a push completes at once, with no
    document, and moves the branch; assignments are recorded and never read.
    The uuid of a task and the clock are arguments. *)

From S2P Require Import Prelude F32 RustStr Model Lance DatasetCache Store Commit Stats.

Record StoreInner := mkStoreInner {
  tasks : gmap string (TaskStatus * Z);
  pending : gmap (string * string) string;
  assignments : gmap (string * string) string;
  last_indexed_map : gmap (string * string) (option string * N);
}.

Definition new : StoreInner := mkStoreInner ∅ ∅ ∅ ∅.

Definition last_indexed (inner : StoreInner) (domain branch : string) : LastIndexed :=
  match last_indexed_map inner !! (domain, branch) with
  | Some (commit, version) => mkLastIndexed branch commit version
  | None => mkLastIndexed branch None 0
  end.

Definition start_push (inner : StoreInner) (uuid : string) (now : Z) (domain branch target_commit : string)
    : StoreInner * result string string :=
  let key := (domain, branch) in
  match pending inner !! key with
  | Some _ => (inner, Err ("a push for " +:+ domain +:+ "/" +:+ branch +:+ " is already in progress"))
  | None =>
      let task_id := "task-" +:+ uuid in
      let pending' := <[key := task_id]> (pending inner) in
      let tasks' := <[task_id := (Complete 0 [], now)]> (tasks inner) in
      let version := match last_indexed_map inner !! key with Some (_, v) => u64_add v 1 | None => 1%N end in
      let indexed := <[key := (Some target_commit, version)]> (last_indexed_map inner) in
      (mkStoreInner tasks' (delete key pending') (assignments inner) indexed, Ok task_id)
  end.

Definition check_task (inner : StoreInner) (task_id : string) : option TaskStatus := fst <$> tasks inner !! task_id.

Definition assign (inner : StoreInner) (domain source_commit target_commit : string) : StoreInner * result string unit :=
  (mkStoreInner (tasks inner) (pending inner) (<[(domain, target_commit) := source_commit]> (assignments inner))
     (last_indexed_map inner), Ok tt).

Definition search (inner : StoreInner) : list SearchHit := [].
Definition similar (inner : StoreInner) : list SearchHit := [].
Definition duplicates (inner : StoreInner) : list (string * string) := [].

Definition record_error_task (inner : StoreInner) (now : Z) (task_id error : string) : StoreInner :=
  mkStoreInner (<[task_id := (TaskError error, now)]> (tasks inner)) (pending inner) (assignments inner) (last_indexed_map inner).

Definition statistics (inner : StoreInner) : Statistics := mkStatistics 0 0 0 0 0 0 0 None.

(** ** Sequences of operations *)

Inductive Op : Type :=
| OpStartPush (uuid : string) (now : Z) (domain branch target_commit : string)
| OpAssign (domain source_commit target_commit : string)
| OpErrorTask (now : Z) (task_id error : string).

Definition step (inner : StoreInner) (op : Op) : StoreInner :=
  match op with
  | OpStartPush uuid now d b c => (start_push inner uuid now d b c).1
  | OpAssign d s t => (assign inner d s t).1
  | OpErrorTask now t e => record_error_task inner now t e
  end.
Definition run (ops : list Op) : StoreInner := foldl step new ops.

(** The commits pushed to a branch, oldest first. *)
Definition pushed (domain branch : string) (ops : list Op) : list string :=
  omap (λ op, match op with
              | OpStartPush _ _ d b c => if bool_decide ((d, b) = (domain, branch)) then Some c else None
              | _ => None
              end) ops.

(** The last thing said of a task. *)
Definition said (task_id : string) (op : Op) : option TaskStatus :=
  match op with
  | OpStartPush uuid _ _ _ _ => if String.eqb ("task-" +:+ uuid) task_id then Some (Complete 0 []) else None
  | OpErrorTask _ t e => if String.eqb t task_id then Some (TaskError e) else None
  | OpAssign _ _ _ => None
  end.

(** ** The stub as a history *)

Section stub_spec.

Lemma run_snoc ops op : run (ops ++ [op]) = step (run ops) op.
Proof. unfold run. by rewrite foldl_app. Qed.

(** The state after [ops], in terms of [ops]. *)
Record replays (ops : list Op) (inner : StoreInner) : Prop := mkReplays {
  rp_pending : pending inner = ∅;
  rp_tasks : ∀ t, fst <$> tasks inner !! t = last (omap (said t) ops);
  rp_indexed : ∀ d b,
    last_indexed_map inner !! (d, b) =
    match last (pushed d b ops) with
    | Some c => Some (Some c, N.of_nat (length (pushed d b ops)) mod 2 ^ 64)%N
    | None => None
    end;
}.

Lemma u64_add_one n : u64_add (N.of_nat n mod 2 ^ 64) 1 = (N.of_nat (S n) mod 2 ^ 64)%N.
Proof. unfold u64_add. rewrite N.Div0.add_mod_idemp_l, Nat2N.inj_succ. f_equal. lia. Qed.

Lemma last_omap_snoc {A B} (f : A → option B) l x :
  last (omap f (l ++ [x])) = match f x with Some y => Some y | None => last (omap f l) end.
Proof. rewrite omap_app. cbn. destruct (f x) as [y|]; [by rewrite last_snoc|by rewrite app_nil_r]. Qed.

Lemma length_omap_snoc {A B} (f : A → option B) l x :
  length (omap f (l ++ [x])) = match f x with Some _ => S (length (omap f l)) | None => length (omap f l) end.
Proof. rewrite omap_app, length_app. cbn. destruct (f x); cbn; lia. Qed.

Lemma length_last {A} (l : list A) : last l = None → length l = 0.
Proof. by intros ->%last_None. Qed.

Lemma start_push_accepts inner uuid now d b c :
  pending inner = ∅ → (start_push inner uuid now d b c).2 = Ok ("task-" +:+ uuid).
Proof. unfold start_push. by intros ->. Qed.

Lemma replays_step ops inner op : replays ops inner → replays (ops ++ [op]) (step inner op).
Proof.
  intros [Hp Ht Hi]. constructor.
  - destruct op; cbn; [|done..]. unfold start_push. rewrite Hp. cbn. apply delete_insert_id, lookup_empty.
  - intros t. rewrite last_omap_snoc, <-Ht. destruct op as [uuid now d b c| |now t0 e]; cbn [step said]; [|done|].
    + unfold start_push. rewrite Hp, lookup_empty. cbn [tasks fst].
      destruct (String.eqb_spec ("task-" +:+ uuid) t) as [<-|Hn]; [by rewrite lookup_insert_eq|by rewrite lookup_insert_ne].
    + unfold record_error_task. cbn [tasks].
      destruct (String.eqb_spec t0 t) as [<-|Hn]; [by rewrite lookup_insert_eq|by rewrite lookup_insert_ne].
  - intros d b. unfold pushed. rewrite last_omap_snoc, length_omap_snoc. fold (pushed d b ops).
    destruct op as [uuid now d0 b0 c| |]; [|apply Hi..]. cbn [step]. unfold start_push. rewrite Hp, lookup_empty. cbn [last_indexed_map fst].
    destruct (decide ((d0, b0) = (d, b))) as [[= -> ->]|Hn].
    + rewrite bool_decide_eq_true_2, lookup_insert_eq by done. rewrite Hi.
      destruct (last (pushed d b ops)) eqn:El; [by rewrite u64_add_one|]. by rewrite (length_last _ El).
    + rewrite bool_decide_eq_false_2, lookup_insert_ne by done. apply Hi.
Qed.

Lemma run_replays ops : replays ops (run ops).
Proof.
  induction ops as [|op ops IH] using rev_ind; [by constructor|]. rewrite run_snoc. by apply replays_step.
Qed.

(** Whatever was done to the stub, a push is accepted and known as complete
    by its id, a branch stands at the commit pushed to it last with as many
    versions as pushes, and a task has the status it was given last. *)
Theorem stub_is_its_history ops uuid now d b c t :
  let inner := run ops in
  (start_push inner uuid now d b c).2 = Ok ("task-" +:+ uuid) ∧
  check_task (start_push inner uuid now d b c).1 ("task-" +:+ uuid) = Some (Complete 0 []) ∧
  last_indexed inner d b =
    mkLastIndexed b (last (pushed d b ops)) (N.of_nat (length (pushed d b ops)) mod 2 ^ 64)%N ∧
  check_task inner t = last (omap (said t) ops).
Proof.
  destruct (run_replays ops) as [Hp Ht Hi]. split_and!.
  - by apply start_push_accepts.
  - unfold check_task, start_push. rewrite Hp, lookup_empty. cbn [fst tasks]. by rewrite lookup_insert_eq.
  - unfold last_indexed. rewrite Hi. destruct (last (pushed d b ops)) eqn:El; [done|].
    by rewrite (length_last _ El).
  - apply Ht.
Qed.
End stub_spec.
