(* ===== verification/Load.v ===== *)
(** * The offline load tool (src/src/bin/load.rs)

    Command-line arguments, and the run of the tool over a data directory: it
    embeds and stores the operations of a file one document at a time, builds
    the full-text index, tags the commit, and exits with a code.

    The tool is a process of its own, so its store starts from what is on disk.
    The pipeline lock it takes is one of that store: no other task holds it.
    Messages to the terminal are not modelled; reading a file, loading a
    tokenizer and serde are arguments. *)

From S2P Require Import Prelude F32 RustStr Model Distance LayerIdx Ingest Chunk Schema Lance DatasetCache Store Commit Index Maintain Embed Pipeline Growth PipelineSpec PipelineRun Config Service ServiceSpec.

(** ** Arguments *)

Record LoadArgs := mkLoadArgs {
  la_directory : string; la_domain : string; la_commit : string; la_branch : string; la_input : string;
  la_embed_url : string; la_model : string; la_dim : nat; la_tokenizer_path : string;
}.

(** The variables of the loop of [parse_args]. *)
Record LoadOpts := mkLoadOpts {
  lo_directory : option string; lo_domain : option string; lo_commit : option string; lo_branch : string;
  lo_input : option string;
}.

Inductive ParsedArgs : Type := ArgsOk (a : LoadArgs) | ArgsHelp | ArgsErr (e : string).

(** A flag takes the next argument, if there is one. *)
Fixpoint parse_opts (o : LoadOpts) (args : list string) : LoadOpts + ParsedArgs :=
  let '(mkLoadOpts directory domain commit branch input) := o in
  match args with
  | [] => inl o
  | arg :: args =>
      let value (set : option string → LoadOpts) :=
        match args with v :: args => parse_opts (set (Some v)) args | [] => inl (set None) end in
      if String.eqb arg "--directory" || String.eqb arg "-d" then value (λ v, mkLoadOpts v domain commit branch input)
      else if String.eqb arg "--domain" then value (λ v, mkLoadOpts directory v commit branch input)
      else if String.eqb arg "--commit" then value (λ v, mkLoadOpts directory domain v branch input)
      else if String.eqb arg "--previous" then value (λ _, o)
      else if String.eqb arg "--branch" then value (λ v, mkLoadOpts directory domain commit (default branch v) input)
      else if String.eqb arg "--input" then value (λ v, mkLoadOpts directory domain commit branch v)
      else if String.eqb arg "--help" || String.eqb arg "-h" then inr ArgsHelp
      else inr (ArgsErr ("unknown argument: " +:+ arg))
  end.

(** [args]: the arguments after the program's name. *)
Definition parse_args (get : Env) (args : list string) : ParsedArgs :=
  match parse_opts (mkLoadOpts None None None "main" None) args with
  | inr p => p
  | inl o =>
      match lo_directory o, lo_domain o, lo_commit o, lo_input o with
      | None, _, _, _ => ArgsErr "--directory is required"
      | _, None, _, _ => ArgsErr "--domain is required"
      | _, _, None, _ => ArgsErr "--commit is required"
      | _, _, _, None => ArgsErr "--input is required"
      | Some directory, Some domain, Some commit, Some input =>
          ArgsOk (mkLoadArgs directory domain commit (lo_branch o) input
            (default "http://localhost:11434" (get "VECTORLINK_EMBED_URL"))
            (default "nomic-embed-text-v2-moe" (get "VECTORLINK_MODEL"))
            (default 768 (s ← get "VECTORLINK_DIM"; N.to_nat <$> parse_usize s))
            (default "assets/tokenizer.json.bz2" (get "VECTORLINK_TOKENIZER_PATH")))
      end
  end.

(** ** Exit codes *)

Inductive ExitCode : Type := SUCCESS | FAILURE | ExitFrom (n : N).

Definition exit_code_for (skipped_count : N) : ExitCode := if (0 <? skipped_count)%N then FAILURE else SUCCESS.

(** ** The run *)

Section load.
Context {W H D Net : Type} `{LanceOps W H, LanceIndexOps W H, LanceMaintOps W H} `{ByteSerialize}
        `{SledOps D, Codec, JsonVectors} {HC : Clients Net}
        {HD : HashIter string (DatasetCacheEntry H)} {HT : HashIter string TagContents} {HB : HashIter string (list N)}.

(** The two providers with the keys of their clients. *)
Record LoadProviders := mkLoadProviders {
  lp_provider : Provider; lp_key : option string; lp_clustering : Provider; lp_clustering_key : option string;
}.

(** [io_embed] without a cache. *)
Definition load_embed (n : Net) (provider : Provider) (key : option string) (texts : list string) (role : EmbeddingRole)
    : Net * option (result EmbedError (list (list f32))) :=
  let '(st, r) := io_embed (D:=D) (H2:=client key) (n, None) provider texts role in (st.1, r).

Definition count_mismatch (which : string) (expected got : nat) : string :=
  which +:+ " embedding count mismatch: expected " +:+ pretty (N.of_nat expected) +:+ ", got " +:+ pretty (N.of_nat got).

(** [None]: a panic in the chunker or in an embedding call. *)
Definition io_index_one (encode : string → result string Encoding) (params : ChunkParams) (p : LoadProviders)
    (domain branch doc_id text : string) (n : Net) (s : LanceStore W H)
    : Net * LanceStore W H * option (result string N) :=
  match chunk_text encode text params with
  | None => (n, s, None)
  | Some (Err e) => (n, s, Some (Err ("chunking failed: " +:+ chunk_error_to_string e)))
  | Some (Ok chunks) =>
      if is_empty chunks then (n, s, Some (Err "chunking produced zero chunks"))
      else
        let chunk_texts := map ch_text chunks in
        match load_embed n (lp_provider p) (lp_key p) chunk_texts RoleDocument with
        | (n, None) => (n, s, None)
        | (n, Some (Err e)) => (n, s, Some (Err ("embedding (doc) failed: " +:+ embed_error_to_string e)))
        | (n, Some (Ok embeddings_doc)) =>
            match load_embed n (lp_clustering p) (lp_clustering_key p) chunk_texts RoleClustering with
            | (n, None) => (n, s, None)
            | (n, Some (Err e)) => (n, s, Some (Err ("embedding (query) failed: " +:+ embed_error_to_string e)))
            | (n, Some (Ok embeddings_query)) =>
                if negb (length embeddings_doc =? length chunks)%nat
                then (n, s, Some (Err (count_mismatch "doc" (length chunks) (length embeddings_doc))))
                else if negb (length embeddings_query =? length chunks)%nat
                then (n, s, Some (Err (count_mismatch "query" (length chunks) (length embeddings_query))))
                else
                  let rows := doc_rows_of (mkDocToEmbed doc_id chunks true) embeddings_doc embeddings_query in
                  let '(s, r) := io_upsert_chunks domain branch doc_id rows s in
                  (n, s, Some (map_err (λ e, "upsert failed: " +:+ store_error_to_string e) r))
            end
        end
  end.

(** The network, the store and the three counters of the loop. *)
Record Load := mkLoad {
  ld_net : Net; ld_store : LanceStore W H; ld_indexed : N; ld_skipped : N; ld_version : N;
}.

Fixpoint load_ops (encode : string → result string Encoding) (params : ChunkParams) (p : LoadProviders)
    (domain branch : string) (operations : list Operation) (st : Load) : option Load :=
  match operations with
  | [] => Some st
  | op :: operations =>
      let load := load_ops encode params p domain branch operations in
      match op with
      | Inserted id text | Changed id text =>
          match io_index_one encode params p domain branch id text (ld_net st) (ld_store st) with
          | (n, s, None) => None
          | (n, s, Some (Ok version)) => load (mkLoad n s (ld_indexed st + 1) (ld_skipped st) version)
          | (n, s, Some (Err _)) => load (mkLoad n s (ld_indexed st) (ld_skipped st + 1) (ld_version st))
          end
      | Deleted id =>
          match io_delete_doc domain branch id (ld_store st) with
          | (s, Ok version) => load (mkLoad (ld_net st) s (ld_indexed st) (ld_skipped st) version)
          | (s, Err _) => load (mkLoad (ld_net st) s (ld_indexed st) (ld_skipped st + 1) (ld_version st))
          end
      | OpError _ => load (mkLoad (ld_net st) (ld_store st) (ld_indexed st) (ld_skipped st + 1) (ld_version st))
      | OpAbort => Some st
      end
  end.

(** After the loop: the full-text index, the tag, the last-indexed commit. *)
Definition load_finish (domain branch commit : string) (st : Load) : LanceStore W H * ExitCode :=
  if (0 <? ld_version st)%N then
    let '(s, r) := io_ensure_fts_index domain branch (ld_store st) in
    let last_version := match r with
                        | Ok fts_version => if (0 <? fts_version)%N then fts_version else ld_version st
                        | Err _ => ld_version st
                        end in
    match io_tag_commit domain branch commit last_version s with
    | (s, Err _) => (s, FAILURE)
    | (s, Ok _) => ((update_last_indexed domain branch commit last_version s).1, exit_code_for (ld_skipped st))
    end
  else (ld_store st, exit_code_for (ld_skipped st)).

Definition load_run (encode : string → result string Encoding) (params : ChunkParams) (p : LoadProviders)
    (domain branch commit : string) (operations : list Operation) (n : Net) (s : LanceStore W H)
    : option (Net * LanceStore W H * ExitCode) :=
  st ← load_ops encode params p domain branch operations (mkLoad n s 0 0 0);
  let '(s, code) := load_finish domain branch commit st in
  Some (ld_net st, s, code).

(** ** [main] *)

(** The providers of the environment. *)
Definition load_providers (get : Env) (args : LoadArgs) : LoadProviders :=
  let provider := OpenAiCompatible (la_embed_url args) (la_model args) (la_dim args)
                    (resolve_prefixes (la_model args) get "VECTORLINK_") in
  let provider2 := resolve_provider2 provider get in
  let same_endpoint := default true ((λ p2, String.eqb (trim_end_slashes (base_url p2)) (trim_end_slashes (base_url provider))) <$> provider2) in
  let api_key2 := resolve_api_key2 get same_endpoint in
  mkLoadProviders provider None (default provider provider2) (match provider2 with Some _ => api_key2 | None => None end).

Context (load_tokenizer : string → result string (string → result string Encoding))
        (read_to_string : string → result string string) (from_str : string → result string Operation)
        (header_ok : string → bool).

(** The exit code, and what is then in the data directory; [None]: a panic, of
    the assertion on the dimension, in the loop, or on a key that is no header
    value. *)
Definition load_main (get : Env) (argv : list string) (n : Net) (disk : gmap string W)
    : option (Net * gmap string W * ExitCode) :=
  match parse_args get argv with
  | ArgsHelp => Some (n, disk, SUCCESS)
  | ArgsErr _ => Some (n, disk, ExitFrom 2)
  | ArgsOk args =>
      match load_tokenizer (la_tokenizer_path args) with
      | Err _ => Some (n, disk, FAILURE)
      | Ok encode =>
          let prefix := match prefixes_for_model (la_model args) with
                        | Some p => prefix_for_role p RoleDocument
                        | None => ""
                        end in
          match params_for_window encode prefix with
          | Err _ => Some (n, disk, FAILURE)
          | Ok params =>
              match read_to_string (la_input args) with
              | Err _ => Some (n, disk, FAILURE)
              | Ok body =>
                  match parse_ndjson_body from_str body with
                  | Err _ => Some (n, disk, FAILURE)
                  | Ok operations =>
                      _ ← default_for_dim (la_dim args);
                      let store := open_store (la_directory args) (la_dim args) disk in
                      let p := load_providers get args in
                      let key2 := resolve_api_key2 get
                        (default true ((λ p2, String.eqb (trim_end_slashes (base_url p2)) (trim_end_slashes (la_embed_url args)))
                                       <$> resolve_provider2 (lp_provider p) get)) in
                      if match key2 with Some k => header_ok ("Bearer " +:+ k) | None => true end then
                        '(n, s, code) ← load_run encode params p (la_domain args) (la_branch args) (la_commit args) operations n store;
                        Some (n, st_disk s, code)
                      else None
                  end
              end
          end
      end
  end.
End load.

(** ** The full-text index on the cached handle *)

Section cached_fts.
Context {W H : Type} `{LanceLaws W H} {HI : LanceIndexOps W H} {HIL : LanceIndexLaws W H}
        {HV : LanceVersions W H} {HVL : LanceVersionLaws W H} {HIG : LanceIndexGrows W H} `{ByteSerialize}
        {HD : HashIter string (DatasetCacheEntry H)} {HT : HashIter string TagContents}.
Implicit Types s : LanceStore W H.

(** It works on the head of main, whatever the branch it is asked for, and
    leaves the rows, the tags and the other branches as they are. *)
Record fts_done (d : string) s s' (r : result StoreError N) : Prop := {
  fd_main : cache_on_main s';
  fd_tags : domain_tags s' d = domain_tags s d;
  fd_index : st_branch_indexes s' = st_branch_indexes s;
  fd_others b : b ≠ None → v_head (dir_of s' (dataset_path d)) b = v_head (dir_of s (dataset_path d)) b;
  fd_paths p : p ≠ dataset_path d → dir_of s' p = dir_of s p;
  fd_grows : grows (dir_of s (dataset_path d)) (dir_of s' (dataset_path d));
  fd_head h0 : v_head (dir_of s (dataset_path d)) None = Some h0 →
    ∃ h, v_head (dir_of s' (dataset_path d)) None = Some h ∧ v_rows h = v_rows h0;
  fd_version h0 v : v_head (dir_of s (dataset_path d)) None = Some h0 → r = Ok v →
    ∃ h, v_head (dir_of s' (dataset_path d)) None = Some h ∧ v_rows h = v_rows h0 ∧ l_version h = v;
}.

Lemma ensure_fts_steps d b :
  ∀ s, io_ensure_fts_index (W:=W) d b s =
  (ensure_writable;! let! ds := io_open_dataset d b in
   let! r := io_ensure_fts_index_on_dataset (dataset_path d) ds in io_advance_cached d r.1;! io_ret r.2) s.
Proof.
  intros s. unfold io_ensure_fts_index, io_ensure_fts_index_on_dataset, io_bind.
  destruct (ensure_writable s) as [s1 [[]|e]]; [|done]. destruct (io_open_dataset d b s1) as [s2 [ds|e]]; [|done].
  destruct (io_read _ _ _ s2) as [s3 [idx|e]]; [|done]. destruct (negb _).
  - by destruct (io_write _ _ _ s3) as [s4 [ds'|e]].
  - by destruct (io_write _ _ _ s3) as [s4 [ds'|e]].
Qed.

Lemma load_open_quiet d b s s' r :
  path_exists s (dataset_path d) = true → io_open_dataset (W:=W) d b s = (s', r) → quiet s s'.
Proof.
  intros Hx. destruct r as [h|e]; [by intros Ho; eapply open_dataset_existing|].
  unfold io_open_dataset. unfold io_bind at 1. destruct (io_cache_hit d s) as [s1 r1] eqn:E. apply io_cache_hit_inv in E as [Hq Hr].
  destruct (dc_datasets (st_cache s) !! d) as [en|]; [by rewrite Hr|]. destruct Hr as [-> ->].
  unfold io_bind at 1, io_get. rewrite Hx. unfold io_bind.
  destruct (io_open_fresh _ s) as [s2 [h|e2]] eqn:E2; pose proof E2 as Hm; apply io_open_fresh_inv in E2 as [Hq2 _].
  - apply io_open_fresh_main in Hm. intros [Hq3 _]%io_insert_cached_inv; [|done]. by etrans.
  - by intros [= <- _].
Qed.

Lemma quiet_fts_done d s s' e : cache_on_main s → quiet s s' → fts_done d s s' (Err e).
Proof.
  intros Hc Hq. split.
  - eapply touches_on_main; [by apply (quiet_touches "")|done].
  - unfold domain_tags. by rewrite (quiet_dir s s').
  - by apply quiet_branch_indexes.
  - intros b _. by rewrite (quiet_dir s s').
  - intros p _. by apply quiet_dir.
  - by rewrite (quiet_dir s s').
  - intros h0 Hh. exists h0. by rewrite (quiet_dir s s').
  - done.
Qed.

Lemma ensure_fts_done d b s s' r :
  cache_on_main s → cache_current s d → path_exists s (dataset_path d) = true →
  io_ensure_fts_index d b s = (s', r) → fts_done d s s' r.
Proof.
  intros Hc Hcur Hx. rewrite ensure_fts_steps. unfold io_bind at 1.
  destruct (ensure_writable s) as [s1 [[]|e]] eqn:E; apply ensure_writable_inv in E as [-> _].
  2: { intros [= <- <-]. by apply quiet_fts_done. }
  unfold io_bind at 1. destruct (io_open_dataset d b s) as [s2 [ds|e]] eqn:Eo.
  2: { intros [= <- <-]. apply quiet_fts_done; [done|]. by eapply load_open_quiet. }
  pose proof (open_dataset_existing _ _ _ _ _ Eo Hx) as Hq. pose proof (open_dataset_main _ _ _ _ _ Hc Eo) as Hb. apply open_dataset_current in Eo as [Hh _]; [|done].
  assert (Hc2 : cache_on_main s2) by (eapply touches_on_main; [by apply (quiet_touches "")|done]).
  unfold io_bind at 1. destruct (io_ensure_fts_index_on_dataset _ ds s2) as [s3 r3] eqn:Ef.
  assert (Hver : ∀ x, r3 = Ok x → l_version x.1 = x.2).
  { intros x ->. apply io_bind_ok in Ef as (? & ? & _ & (? & ? & _ & [= _ <-])%io_bind_ok). done. }
  pose proof Ef as Hg. apply grows_run in Hg.
  apply (keeps_fts _ None) in Ef as [(Ht & Hts & Ho & Hrk) Hv]; [|by split].
  assert (Hdone : ∀ s4 r4, st_disk s4 = st_disk s3 → st_branch_indexes s4 = st_branch_indexes s3 → cache_on_main s4 →
    (∀ v, r4 = Ok v → ∃ h, v_head (dir_of s3 (dataset_path d)) None = Some h ∧ v_rows h = v_rows ds ∧ l_version h = v) →
    fts_done d s s4 r4).
  { intros s4 r4 Ed Ei Hc4 Hv4. assert (Hdir : ∀ p, dir_of s4 p = dir_of s3 p) by (intros p; unfold dir_of; by rewrite Ed).
    assert (Hhd : ∀ h0, v_head (dir_of s (dataset_path d)) None = Some h0 → h0 = ds).
    { intros h0. rewrite <-(quiet_dir s s2) by done. congruence. }
    split; unfold domain_tags; intros; rewrite ?Hdir, ?Ei; [done| | | | | | |].
    - by rewrite Hts, (quiet_dir s s2).
    - rewrite (touches_branch_indexes _ _ _ Ht). by apply quiet_branch_indexes.
    - by rewrite Ho, (quiet_dir s s2).
    - rewrite (touches_dir _ _ _ _ Ht) by done. by apply quiet_dir.
    - rewrite <-(quiet_dir s s2) by done. apply (sg_dirs _ _ Hg).
    - rewrite (Hhd h0) by done. destruct (Hrk ds Hh) as (h' & ? & ? & _). by exists h'.
    - rewrite (Hhd h0) by done. auto. }
  destruct r3 as [[ds' v']|e].
  - destruct (Hv _ eq_refl) as [[Hh' Hb'] _]. cbn in Hh', Hb'. intros [= <- <-]. apply Hdone; [done|done| |].
    + intros k en Hk. cbn in Hk. apply lookup_alter_Some in Hk as [(-> & e0 & He0 & ->)|[_ Hk]]; [done|].
      eapply touches_on_main in Hc2; [|exact Ht]. by eapply Hc2.
    + intros v [= <-]. destruct (Hrk ds Hh) as (h' & Hh1 & Hr1 & _). exists ds'. rewrite Hh' in Hh1. injection Hh1 as <-.
      split_and!; [done|done|]. by apply (Hver (ds', v')).
  - intros [= <- <-]. apply Hdone; [done|done| |done]. by eapply touches_on_main.
Qed.
End cached_fts.

(** ** What a load does *)

(** The operations up to an abort. *)
Fixpoint until_abort (operations : list Operation) : list Operation :=
  match operations with
  | [] | OpAbort :: _ => []
  | op :: operations => op :: until_abort operations
  end.

Section load_spec.
Context {W H D Net : Type} `{LanceLaws W H} {HI : LanceIndexOps W H} {HIL : LanceIndexLaws W H}
        {HV : LanceVersions W H} {HVL : LanceVersionLaws W H} {HIG : LanceIndexGrows W H} {HM : LanceMaintOps W H} {HML : LanceMaintLaws W H}
        `{ByteSerialize} `{SledOps D, Codec, JsonVectors} {HC : Clients Net}
        {HD : HashIter string (DatasetCacheEntry H)} {HT : HashIter string TagContents} {HB : HashIter string (list N)}.
Context (encode : string → result string Encoding) (params : ChunkParams) (p : LoadProviders)
        (embed_d embed_c : string → option (list f32)).
Implicit Types s : LanceStore W H.

(** The vectors of a text. *)
Definition load_fd (t : string) : option (list f32) := embed_d (prefixed_text (lp_provider p) RoleDocument t).
Definition load_fc (t : string) : option (list f32) := embed_c (prefixed_text (lp_clustering p) RoleClustering t).

(** The rows of a document, when all of its chunks can be embedded. *)
Definition load_doc (dim : nat) (id text : string) : Effect := text_effect encode params dim true load_fd load_fc id text true.

(** One operation on the rows of the branch: every document is replaced. *)
Definition load_op (dim : nat) (rows : list ChunkRow) (op : Operation) : list ChunkRow :=
  match op with
  | Inserted id text | Changed id text => without_docs [id] rows ++ ef_rows (load_doc dim id text)
  | Deleted id => without_docs [id] rows
  | OpError _ | OpAbort => rows
  end.

(** The operation can be carried out. *)
Definition loadable (dim : nat) (op : Operation) : Prop :=
  match op with
  | Inserted id text | Changed id text => ef_skipped (load_doc dim id text) = []
  | Deleted _ => True
  | OpError _ | OpAbort => False
  end.

(** Both models embed text by text, and the chunker does not panic. *)
Record load_setting : Prop := {
  ls_chunk : chunk_safe encode params;
  ls_document : provider_textwise (N:=Net) (H2:=client (lp_key p)) (lp_provider p) embed_d;
  ls_clustering : provider_textwise (N:=Net) (H2:=client (lp_clustering_key p)) (lp_clustering p) embed_c;
}.

Lemma load_embed_spec (n : Net) provider key embed texts role :
  provider_textwise (N:=Net) (H2:=client key) provider embed →
  ∃ n' r, load_embed (D:=D) n provider key texts role = (n', Some r) ∧
    ∀ vs, r = Ok vs → mapM (λ t, embed (prefixed_text provider role t)) texts = Some vs.
Proof.
  intros Htw. unfold load_embed.
  destruct (io_embed_gen (D:=D) (H2:=client key) provider role (λ t v, embed t = Some v) (map (prefixed_text provider role) texts) (λ _, False)
    ltac:(done) ltac:(done)
    ltac:(intros n1 n2 mp embs _ Er; pose proof (request_textwise (H2:=client key) provider embed n1 mp Htw) as Hr;
          rewrite Er in Hr; by apply mapM_Some) (n, None) texts) as (st' & r & -> & _ & Hr); [done|by intros t Ht; apply list_elem_of_fmap; exists t|].
  exists st'.1, r. split; [done|]. intros vs Hvs. apply mapM_Some. by apply Hr.
Qed.

Lemma load_doc_width dim id text :
  load_setting → expected_dim (lp_provider p) = dim → expected_dim (lp_clustering p) = dim →
  Forall (row_width dim) (ef_rows (load_doc dim id text)).
Proof.
  intros Hs Hd Hc. unfold load_doc, text_effect. destruct (chunk_doc encode params id text true) as [[d|m]|]; [|constructor..].
  unfold doc_effect. destruct (doc_rows _ _ _ _ d) as [rows|] eqn:Er; [|constructor]. cbn.
  unfold doc_rows in Er. destruct (mapM load_fd _) as [vs|] eqn:Ev; [|done]. cbn in Er.
  destruct (mapM (clustering_vector _ _ _) _) as [ws|] eqn:Ew; [|done]. injection Er as <-.
  apply doc_rows_of_width; (eapply mapM_lengths; [|done]); intros t v Hv.
  - rewrite <-Hd. by apply (tw_vector _ _ (ls_document Hs)) in Hv as (? & _).
  - rewrite <-Hc. by apply (tw_vector _ _ (ls_clustering Hs)) in Hv as (? & _).
Qed.

(** An upsert that succeeds appends, so its version is positive. *)
Lemma upsert_version d b id rows s s' v :
  rows ≠ [] → io_upsert_chunks d b id rows s = (s', Ok v) → (0 < v)%N.
Proof.
  intros Hne. unfold io_upsert_chunks. intros (s0 & [] & _ & Hr)%io_bind_ok. destruct rows as [|r rows]; [done|]. cbn [is_empty] in Hr.
  apply io_bind_ok in Hr as (s1 & ? & _ & Hr). apply io_bind_ok in Hr as (s2 & ds & _ & Hr).
  apply io_bind_ok in Hr as (s3 & hd & _ & Hr). apply io_bind_ok in Hr as (s4 & batch & _ & Hr).
  apply io_bind_ok in Hr as (s5 & ha & (w & Ha & _)%io_write_ok & Hr). apply io_bind_ok in Hr as (s6 & [] & _ & [= _ <-]).
  apply law_append_ok in Ha as (_ & _ & _ & ?). lia.
Qed.

(** A write of the branch leaves the handle cache current. *)
Lemma refreshed_current d b s s1 s2 h rows :
  moved_to d b s s2 h rows → io_refresh_cached_dataset d b s1 = (s2, Ok tt) → cache_current s2 d.
Proof.
  intros Hmv Hrf. apply (refresh_current d b s1); [|done]. destruct (path_exists s1 (dataset_path d)) eqn:Ex; [done|].
  apply io_refresh_inv in Hrf as Hq. apply law_not_exists in Ex as [_ Hn]. pose proof (mv_head _ _ _ _ _ _ Hmv) as Hh.
  rewrite (quiet_dir s1 s2) in Hh by done. congruence.
Qed.

Lemma upsert_current d b id rows s s' v h rows' :
  rows ≠ [] → io_upsert_chunks d b id rows s = (s', Ok v) → moved_to d b s s' h rows' → cache_current s' d.
Proof.
  intros Hne Hr Hmv. unfold io_upsert_chunks in Hr. apply io_bind_ok in Hr as (s0 & [] & _ & Hr). destruct rows as [|r rows]; [done|]. cbn [is_empty] in Hr.
  apply io_bind_ok in Hr as (s1 & ? & _ & Hr). apply io_bind_ok in Hr as (s2 & ds & _ & Hr).
  apply io_bind_ok in Hr as (s3 & hd & _ & Hr). apply io_bind_ok in Hr as (s4 & batch & _ & Hr).
  apply io_bind_ok in Hr as (s5 & ha & _ & Hr). apply io_bind_ok in Hr as (s6 & [] & Hrf & [= <- _]).
  by eapply refreshed_current.
Qed.

(** A deletion that finds the dataset. *)
Lemma delete_doc_moved d b id s s' v :
  io_delete_doc d b id s = (s', Ok v) →
  (path_exists s (dataset_path d) = false ∧ v = 0%N ∧ s' = s) ∨
  ∃ h, moved_to d b s s' h (without_docs [id] (head_rows s d b)) ∧ l_version h = v ∧ cache_current s' d ∧
    ∀ h0, v_head (dir_of s (dataset_path d)) (want_branch b) = Some h0 → (l_version h0 ≤ v)%N.
Proof.
  intros Hr. destruct (delete_doc_spec _ _ _ _ _ _ Hr) as [?|(h & Hmv & Hv)]; [by left|]. right. exists h. split; [done|]. split; [done|].
  unfold io_delete_doc in Hr. apply io_bind_ok in Hr as (s0 & [] & [-> _]%ensure_writable_ok & Hr).
  apply io_bind_ok in Hr as (s1 & opened & Ho & Hr). apply io_open_dataset_readonly_inv in Ho as [Hq Hn].
  destruct opened as [h1|].
  2: { injection Hr as <- <-. exfalso. destruct (Hn eq_refl) as (Ex & _). apply law_not_exists in Ex as [_ Hno].
       pose proof (mv_head _ _ _ _ _ _ Hmv) as Hh. rewrite (quiet_dir s s1) in Hh by done. congruence. }
  apply io_bind_ok in Hr as (s2 & ds & Hw & Hr). apply open_for_write_head in Hw as (_ & _ & Hh & _).
  apply io_bind_ok in Hr as (s3 & hd & (w & Hd & _)%io_write_ok & Hr). apply io_bind_ok in Hr as (s4 & [] & Hrf & [= <- Hlv]).
  split; [by eapply refreshed_current|]. intros h0. rewrite (quiet_dir s s1) in Hh by done. rewrite Hh. intros [= <-].
  apply law_delete_rows_ok in Hd as (_ & _ & _ & ?). by rewrite <-Hlv.
Qed.

(** One document: whatever happens the tool goes on; when it is stored, its
    rows are the ones specified. *)
Lemma index_one_spec d b id text n s :
  load_setting → ∃ n' s' r, io_index_one (D:=D) encode params p d b id text n s = (n', s', Some r) ∧
    ∀ v, r = Ok v → expected_dim (lp_provider p) = st_dim s → expected_dim (lp_clustering p) = st_dim s →
      ef_skipped (load_doc (st_dim s) id text) = [] ∧ (0 < v)%N ∧
      ∃ h, moved_to d b s s' h (without_docs [id] (head_rows s d b) ++ ef_rows (load_doc (st_dim s) id text)) ∧
        l_version h = v ∧ cache_current s' d.
Proof.
  intros Hs. unfold io_index_one. destruct (ls_chunk Hs text) as [[chunks|e] Hch].
  2: { rewrite Hch. by eexists _, _, _. }
  rewrite Hch. destruct chunks as [|c0 chunks0] eqn:Ec; [by eexists _, _, _|]. rewrite <-Ec in *. assert (Hne : chunks ≠ []) by (by subst).
  assert (is_empty chunks = false) as -> by (by subst). cbv zeta.
  destruct (load_embed_spec n _ _ _ (map ch_text chunks) RoleDocument (ls_document Hs)) as (n1 & r1 & E1 & H1d). rewrite E1.
  destruct r1 as [vs|e]; [|by eexists _, _, _]. specialize (H1d vs eq_refl).
  destruct (load_embed_spec n1 _ _ _ (map ch_text chunks) RoleClustering (ls_clustering Hs)) as (n2 & r2 & E2 & H2d). rewrite E2.
  destruct r2 as [ws|e]; [|by eexists _, _, _]. specialize (H2d ws eq_refl).
  destruct (negb _); [by eexists _, _, _|]. destruct (negb _); [by eexists _, _, _|].
  set (rows := doc_rows_of _ vs ws). destruct (io_upsert_chunks d b id rows s) as [s' r] eqn:Eu.
  eexists _, _, _. split; [done|]. intros v Hv Hd1 Hd2. destruct r as [v'|e]; [|done]. injection Hv as ->.
  assert (Hdoc : load_doc (st_dim s) id text = mkEffect rows [id] [] 1).
  { unfold load_doc, text_effect, chunk_doc. rewrite Hch. cbn [mbind option_bind].
    rewrite Ec. rewrite <-Ec. unfold doc_effect, doc_rows. cbn [de_chunks de_changed de_id].
    assert (mapM load_fd (map ch_text chunks) = Some vs) as -> by exact H1d.
    assert (mapM (clustering_vector (st_dim s) true load_fc) (map ch_text chunks) = Some ws) as -> by exact H2d.
    done. }
  assert (Hw : Forall (row_width (st_dim s)) rows).
  { pose proof (load_doc_width (st_dim s) id text Hs Hd1 Hd2) as Hw. by rewrite Hdoc in Hw. }
  assert (Hrne : rows ≠ []).
  { unfold rows, doc_rows_of. intros E. apply (f_equal length) in E. revert E. cbn [de_chunks].
    apply mapM_Some, Forall2_length in H1d as L1. apply mapM_Some, Forall2_length in H2d as L2. rewrite length_map in L1, L2.
    rewrite length_map, !length_zip_with, !length_map, <-L1, <-L2. subst chunks. cbn. lia. }
  rewrite Hdoc. split; [done|]. split; [by eapply upsert_version|].
  destruct (upsert_chunks_spec _ _ _ _ _ _ _ Hrne Hw Eu) as (h & Hmv & Hv). exists h. split; [done|]. split; [done|].
  by eapply upsert_current.
Qed.

(** *** The loop *)

Lemma moved_then d b s s1 s2 h1 rows1 h rows :
  moved_to d b s s1 h1 rows1 → moved_to d b s1 s2 h rows → moved_to d b s s2 h rows.
Proof.
  intros M1 M2. split; [apply M2|apply M2|apply M2|..].
  - by rewrite (mv_tags _ _ _ _ _ _ M2), (mv_tags _ _ _ _ _ _ M1).
  - intros c Hc. by rewrite (mv_others _ _ _ _ _ _ M2), (mv_others _ _ _ _ _ _ M1).
  - etrans; [apply M1|apply M2].
Qed.

(** Where a loop in which nothing was skipped stands: nothing has been written,
    or the branch has been moved to [rows]; a stored document leaves a positive
    version. *)
Inductive progress (d b : string) s (rows : list ChunkRow) (stored : bool) (st : Load (W:=W) (H:=H) (Net:=Net)) : Prop :=
| progress_none : ld_store st = s → ld_version st = 0%N → rows = head_rows s d b → stored = false → progress d b s rows stored st
| progress_moved h : moved_to d b s (ld_store st) h rows → l_version h = ld_version st → cache_current (ld_store st) d →
    (stored = true → (0 < ld_version st)%N) → progress d b s rows stored st.

Definition stores (op : Operation) : bool := match op with Inserted _ _ | Changed _ _ => true | _ => false end.

Lemma progress_rows d b s rows stored (st : Load (Net:=Net)) : progress d b s rows stored st → head_rows (ld_store st) d b = rows ∧ st_dim (ld_store st) = st_dim s.
Proof.
  intros [-> _ -> _|h Hmv _ _ _]; [done|]. split; [by eapply moved_head_rows|]. by eapply touches_dim, (mv_touches _ _ _ _ _ _ Hmv).
Qed.

Lemma progress_step d b s rows stored st n s' i h rows' v stored' :
  progress d b s rows stored st → moved_to d b (ld_store st) s' h rows' → l_version h = v → cache_current s' d →
  (stored' = true → (0 < v)%N) → progress d b s rows' stored' (mkLoad n s' i (ld_skipped st) v).
Proof.
  intros Hp Hmv Hv Hc Hs. apply progress_moved with h; cbn; [|done..].
  destruct Hp as [Es _ _ _|h0 Hmv0 _ _ _]; [by rewrite <-Es|by eapply moved_then].
Qed.

Lemma load_ops_spec d b s operations (st : Load (Net:=Net)) rows stored :
  load_setting → expected_dim (lp_provider p) = st_dim s → expected_dim (lp_clustering p) = st_dim s →
  ∃ st', load_ops (D:=D) encode params p d b operations st = Some st' ∧ (ld_skipped st ≤ ld_skipped st')%N ∧
    (ld_skipped st' = 0%N → progress d b s rows stored st →
      Forall (loadable (st_dim s)) (until_abort operations) ∧
      progress d b s (foldl (load_op (st_dim s)) rows (until_abort operations)) (stored || existsb stores (until_abort operations)) st').
Proof.
  intros Hs Hd1 Hd2. revert st rows stored. induction operations as [|op operations IH]; intros st rows stored.
  { exists st. split; [done|]. split; [lia|]. intros _ Hp. cbn. rewrite orb_false_r. by split; [constructor|]. }
  assert (Hskip : ∀ n s1, ∃ st', load_ops (D:=D) encode params p d b operations (mkLoad n s1 (ld_indexed st) (ld_skipped st + 1) (ld_version st)) = Some st' ∧
    (ld_skipped st ≤ ld_skipped st')%N ∧ ld_skipped st' ≠ 0%N).
  { intros n s1. destruct (IH (mkLoad n s1 (ld_indexed st) (ld_skipped st + 1) (ld_version st)) rows stored) as (st' & -> & Hle & _).
    cbn in Hle. exists st'. split; [done|]. lia. }
  assert (Hdoc : ∀ id text, op = Inserted id text ∨ op = Changed id text →
    ∃ st', load_ops (D:=D) encode params p d b (op :: operations) st = Some st' ∧ (ld_skipped st ≤ ld_skipped st')%N ∧
      (ld_skipped st' = 0%N → progress d b s rows stored st →
        Forall (loadable (st_dim s)) (op :: until_abort operations) ∧
        progress d b s (foldl (load_op (st_dim s)) rows (op :: until_abort operations)) (stored || existsb stores (op :: until_abort operations)) st')).
  { intros id text Hop. destruct (index_one_spec d b id text (ld_net st) (ld_store st) Hs) as (n & s1 & r & E & Hr).
    assert (load_ops (D:=D) encode params p d b (op :: operations) st = match r with
      | Ok version => load_ops (D:=D) encode params p d b operations (mkLoad n s1 (ld_indexed st + 1) (ld_skipped st) version)
      | Err _ => load_ops (D:=D) encode params p d b operations (mkLoad n s1 (ld_indexed st) (ld_skipped st + 1) (ld_version st)) end) as ->.
    { destruct Hop as [-> | ->]; cbn [load_ops]; rewrite E; by destruct r. }
    destruct r as [v|e]; [|destruct (Hskip n s1) as (st' & -> & ? & ?); by exists st'].
    destruct (IH (mkLoad n s1 (ld_indexed st + 1) (ld_skipped st) v) (load_op (st_dim s) rows op) true) as (st' & -> & Hle & Hgo).
    exists st'. split; [done|]. split; [done|]. intros Hz Hp. destruct (progress_rows _ _ _ _ _ _ Hp) as [Hrows Hdim].
    destruct (Hr v eq_refl) as (Hsk & Hpos & h & Hmv & Hv & Hc); [by rewrite Hdim..|]. rewrite Hdim, Hrows in *.
    destruct Hgo as [Hl Hgo]; [done| |].
    - eapply progress_step; [exact Hp| |exact Hv|exact Hc|done]. by destruct Hop as [-> | ->].
    - split; [constructor; [by destruct Hop as [-> | ->]|done]|]. cbn.
      assert (stores op = true) as -> by (by destruct Hop as [-> | ->]). cbn. by rewrite orb_true_r. }
  destruct op as [id text|id text|id|m|]; [by apply (Hdoc id text); left|by apply (Hdoc id text); right|..]; clear Hdoc; cbn [load_ops until_abort].
  - destruct (io_delete_doc d b id (ld_store st)) as [s1 [v|e]] eqn:E; [|destruct (Hskip (ld_net st) s1) as (st' & -> & ? & ?); by exists st'].
    destruct (IH (mkLoad (ld_net st) s1 (ld_indexed st) (ld_skipped st) v) (without_docs [id] rows) stored) as (st' & -> & Hle & Hgo).
    exists st'. split; [done|]. split; [done|]. intros Hz Hp. destruct (progress_rows _ _ _ _ _ _ Hp) as [Hrows Hdim].
    destruct Hgo as [Hl Hgo]; [done| |by split; [constructor|]].
    apply delete_doc_moved in E as [(Ex & -> & ->)|(h & Hmv & Hv & Hc & Hmono)].
    + apply law_not_exists in Ex as [_ Hn]. destruct Hp as [Es Ev -> ->|h Hmv _ _ _].
      * apply progress_none; [done|done| |done]. unfold head_rows. rewrite Es in Hn. by rewrite Hn.
      * exfalso. pose proof (mv_head _ _ _ _ _ _ Hmv) as Hh. congruence.
    + rewrite Hrows in Hmv. eapply progress_step; [exact Hp|exact Hmv|exact Hv|exact Hc|]. intros ->.
      destruct Hp as [_ _ _ [=]|h0 Hmv0 Hv0 _ Hpos]. specialize (Hmono h0 (mv_head _ _ _ _ _ _ Hmv0)). specialize (Hpos eq_refl). lia.
  - destruct (Hskip (ld_net st) (ld_store st)) as (st' & -> & ? & ?). by exists st'.
  - exists st. split; [done|]. split; [lia|]. intros _ Hp. cbn. rewrite orb_false_r. by split; [constructor|].
Qed.

(** *** The run *)

(** On main, a run that ends well has stored every operation up to an abort,
    and tagged the commit at the rows it left, unless it stored nothing. *)
Lemma load_run_spec d commit operations n s :
  load_setting → expected_dim (lp_provider p) = st_dim s → expected_dim (lp_clustering p) = st_dim s → cache_on_main s →
  ∃ n' s' code, load_run (D:=D) encode params p d MAIN_BRANCH commit operations n s = Some (n', s', code) ∧
    let ops := until_abort operations in
    let rows := foldl (load_op (st_dim s)) (head_rows s d MAIN_BRANCH) ops in
    (code = SUCCESS →
       Forall (loadable (st_dim s)) ops ∧ head_rows s' d MAIN_BRANCH = rows ∧
       (committed d MAIN_BRANCH commit rows s s' ∨ existsb stores ops = false ∧ domain_tags s' d = domain_tags s d)).
Proof.
  intros Hs Hd1 Hd2 Hc. unfold load_run.
  destruct (load_ops_spec d MAIN_BRANCH s operations (mkLoad n s 0 0 0) (head_rows s d MAIN_BRANCH) false Hs Hd1 Hd2) as (st & -> & _ & Hgo).
  cbn [mbind option_bind]. destruct (load_finish d MAIN_BRANCH commit st) as [s' code] eqn:Ef.
  exists (ld_net st), s', code. split; [done|]. cbv zeta. intros ->. unfold load_finish in Ef.
  assert (Hcode : ∀ s2, (s2, exit_code_for (ld_skipped st)) = (s', SUCCESS) → s' = s2 ∧ ld_skipped st = 0%N).
  { intros s2. unfold exit_code_for. destruct (N.ltb_spec 0 (ld_skipped st)); intros [= ->]. split; [done|lia]. }
  destruct (N.ltb_spec 0 (ld_version st)) as [Hpos|Hz].
  2: { apply Hcode in Ef as [-> Hsk]. destruct Hgo as [Hl Hp]; [done|by apply progress_none|]. split; [done|].
       split; [by eapply progress_rows|]. right. cbn in Hp. destruct Hp as [-> _ _ ->|h Hmv _ _ Hst]; [done|]. split.
       - destruct (existsb stores (until_abort operations)); [|done]. specialize (Hst eq_refl). lia.
       - unfold domain_tags. by rewrite (mv_tags _ _ _ _ _ _ Hmv). }
  destruct (io_ensure_fts_index d MAIN_BRANCH (ld_store st)) as [s1 r] eqn:Efts.
  set (v := match r with Ok _ => _ | Err _ => _ end) in Ef.
  destruct (io_tag_commit d MAIN_BRANCH commit v s1) as [s2 [[]|e]] eqn:Et; [|done].
  apply Hcode in Ef as [-> Hsk]. destruct Hgo as [Hl Hp]; [done|by apply progress_none|]. split; [done|]. cbn in Hp.
  set (rows := foldl _ _ _) in *. destruct Hp as [_ Hv0 _ _|h Hmv Hv Hcur _]; [lia|].
  assert (Hc1 : cache_on_main (ld_store st)) by (eapply touches_on_main; [apply (mv_touches _ _ _ _ _ _ Hmv)|done]).
  pose proof (mv_head _ _ _ _ _ _ Hmv) as Hh. pose proof (mv_rows _ _ _ _ _ _ Hmv) as Hr.
  change (want_branch MAIN_BRANCH) with (@None string) in Hh.
  assert (Hx : path_exists (ld_store st) (dataset_path d) = true).
  { destruct (path_exists _ _) eqn:Ex; [done|]. apply law_not_exists in Ex as [_ Hn]. congruence. }
  apply ensure_fts_done in Efts as [Fm Ft Fi Fo Fp Fg Fh Fv]; [|done..].
  assert (∃ hv, v_rows hv = rows ∧ recorded d MAIN_BRANCH s1 hv ∧ l_version hv = v) as (hv & Hhv & Hrec & Hvv).
  { assert (Hold : v_rows h = rows ∧ recorded d MAIN_BRANCH s1 h ∧ l_version h = ld_version st).
    { split; [done|]. split; [|done]. apply Fg, law_head_version. exact Hh. }
    subst v. destruct r as [fts|e]; [|by exists h]. destruct (N.ltb_spec 0 fts); [|by exists h].
    destruct (Fv h fts Hh eq_refl) as (h' & Hh' & Hr' & Hv'). exists h'. split; [congruence|]. split; [|done]. by apply law_head_version. }
  assert (C : committed d MAIN_BRANCH commit rows s (update_last_indexed d MAIN_BRANCH commit v s2).1).
  { apply (tag_committed d MAIN_BRANCH commit hv v rows s s1 _ ""); [done|..|exact Hhv|exact Hrec|exact Hvv|].
    - rewrite Ft. apply (mv_tags _ _ _ _ _ _ Hmv).
    - rewrite Fi. eapply touches_branch_indexes, (mv_touches _ _ _ _ _ _ Hmv).
    - intros c Hne. rewrite Fo by done. by apply (mv_others _ _ _ _ _ _ Hmv).
    - intros q Hq. rewrite Fp by done. eapply touches_dir; [|done]. apply (mv_touches _ _ _ _ _ _ Hmv).
    - destruct (Fh h Hh) as (h' & Hh' & Hr'). exists h'. split; [done|congruence].
    - unfold io_bind, io_ctx. rewrite Et. done. }
  split; [by apply cm_rows in C|by left].
Qed.

(** C14: the tool always exits, unless it is told of a key that is no header; and
    when, on main, it exits with 0, every operation up to an abort could be
    carried out, the branch holds what they leave one after the other, and the
    commit is tagged at exactly these rows, all the rest of the store being as
    before, unless no document was to be stored: then there may be no tag. *)
Theorem load_commits d commit operations n s :
  load_setting → expected_dim (lp_provider p) = st_dim s → expected_dim (lp_clustering p) = st_dim s → cache_on_main s →
  ∃ n' s' code, load_run (D:=D) encode params p d MAIN_BRANCH commit operations n s = Some (n', s', code) ∧
    let ops := until_abort operations in
    let rows := foldl (load_op (st_dim s)) (head_rows s d MAIN_BRANCH) ops in
    (code = SUCCESS →
       Forall (loadable (st_dim s)) ops ∧ head_rows s' d MAIN_BRANCH = rows ∧
       (committed d MAIN_BRANCH commit rows s s' ∨ existsb stores ops = false ∧ domain_tags s' d = domain_tags s d)).
Proof. apply load_run_spec. Qed.

(** *** The tool and the service *)

Definition op_ids (op : Operation) : list string :=
  match op with Inserted id _ | Changed id _ | Deleted id => [id] | OpError _ | OpAbort => [] end.

Lemma without_docs_app ids ids' (rows : list ChunkRow) : without_docs ids' (without_docs ids rows) = without_docs (ids ++ ids') rows.
Proof.
  unfold without_docs. rewrite list_filter_filter. apply list_filter_iff. intros r. rewrite elem_of_app. tauto.
Qed.

Lemma without_docs_absent ids (rows : list ChunkRow) :
  (∀ r, r ∈ rows → cr_doc_id r ∉ ids) → without_docs ids rows = rows.
Proof. intros Hn. unfold without_docs. induction rows as [|r rows IH]; [done|]. rewrite filter_cons_True by (apply Hn; by left). f_equal. apply IH. intros x Hx. apply Hn. by right. Qed.

Lemma load_doc_ids dim id text r : r ∈ ef_rows (load_doc dim id text) → cr_doc_id r = id.
Proof.
  unfold load_doc, text_effect. destruct (chunk_doc encode params id text true) as [[d|m]|] eqn:Ed; [|by intros ?%elem_of_nil..].
  assert (de_id d = id) as <-.
  { unfold chunk_doc in Ed. by destruct (chunk_text encode text params) as [[[|c cs]|e]|]; simplify_eq/=. }
  unfold doc_effect. destruct (doc_rows _ _ _ _ d) as [rows|] eqn:Er; [|by intros ?%elem_of_nil]. cbn.
  unfold doc_rows in Er. destruct (mapM load_fd _) as [vs|]; [|done]. cbn in Er.
  destruct (mapM (clustering_vector _ _ _) _) as [ws|]; [|done]. injection Er as <-.
  unfold doc_rows_of. by intros ((c & x) & -> & _)%list_elem_of_fmap.
Qed.

(** The effect of a push that replaces or adds a document. *)
Lemma text_effect_rows dim id text ch : ef_skipped (load_doc dim id text) = [] →
  text_effect encode params dim true load_fd load_fc id text ch = mkEffect (ef_rows (load_doc dim id text)) (if ch then [id] else []) [] 1.
Proof.
  unfold load_doc, text_effect, chunk_doc. destruct (chunk_text encode text params) as [[[|c cs]|e]|]; cbn [mbind option_bind ef_skipped]; [done| |done..].
  unfold doc_effect, doc_rows. cbn [de_chunks de_changed de_id].
  destruct (mapM load_fd _) as [vs|]; cbn [mbind option_bind]; [|done].
  destruct (mapM (clustering_vector dim true load_fc) _) as [ws|]; cbn [mbind option_bind]; [|done]. done.
Qed.

Abbreviation spec_effect dim := (effects (op_effect encode params dim true load_fd load_fc)).

Lemma load_text_step dim ds rows acc op ops id text (ch : bool) :
  op_ids op = [id] → ef_skipped (load_doc dim id text) = [] →
  op_effect encode params dim true load_fd load_fc op = text_effect encode params dim true load_fd load_fc id text ch →
  (ch = false → ∀ r, r ∈ rows → cr_doc_id r ≠ id) →
  without_docs (ds ++ [id] ++ ef_delete (spec_effect dim ops)) rows ++ (acc ++ ef_rows (load_doc dim id text)) ++ ef_rows (spec_effect dim ops) =
  without_docs (ds ++ ef_delete (spec_effect dim (op :: ops))) rows ++ acc ++ ef_rows (spec_effect dim (op :: ops)).
Proof.
  intros Hid Hsk Heff Hnew. cbn [effects]. rewrite Heff, text_effect_rows by done. cbn [ef_delete ef_rows effect_app].
  rewrite <-!(assoc_L (++)). f_equal. destruct ch; [done|]. cbn [app].
  rewrite <-!(without_docs_app ds). match goal with |- context [id :: ?l] => change (id :: l) with ([id] ++ l) end.
  rewrite <-(without_docs_app [id] (ef_delete _) (without_docs ds rows)). f_equal.
  apply without_docs_absent. intros r [_ Hr]%list_elem_of_filter Hx%list_elem_of_singleton. by apply (Hnew eq_refl r).
Qed.

Lemma load_ops_batch_gen dim rows ops : Forall (loadable dim) ops → NoDup (flat_map op_ids ops) →
  (∀ id text r, Inserted id text ∈ ops → r ∈ rows → cr_doc_id r ≠ id) →
  ∀ ds acc, (∀ r id, r ∈ acc → id ∈ flat_map op_ids ops → cr_doc_id r ≠ id) →
    foldl (load_op dim) (without_docs ds rows ++ acc) ops =
    without_docs (ds ++ ef_delete (spec_effect dim ops)) rows ++ acc ++ ef_rows (spec_effect dim ops).
Proof.
  induction ops as [|op ops IH]; intros Hl Hnd Hins ds acc Hacc; [by rewrite !app_nil_r|]. apply Forall_cons in Hl as [Hop Hl].
  cbn [flat_map] in Hnd. apply NoDup_app in Hnd as (_ & Hdis & Hnd).
  assert (Hins' : ∀ id text r, Inserted id text ∈ ops → r ∈ rows → cr_doc_id r ≠ id) by (intros id text r Hin; apply (Hins id text); by right).
  specialize (IH Hl Hnd Hins').
  assert (Hdrop : ∀ id, op_ids op = [id] → without_docs [id] (without_docs ds rows ++ acc) = without_docs (ds ++ [id]) rows ++ acc).
  { intros id Hid. unfold without_docs at 1. rewrite filter_app. fold (without_docs [id] (without_docs ds rows)) (without_docs [id] acc).
    rewrite without_docs_app. f_equal. apply without_docs_absent. intros r Hr Hx%list_elem_of_singleton.
    apply (Hacc r (cr_doc_id r)); [done| |done]. cbn. rewrite Hid, Hx. by left. }
  assert (Hmore : ∀ id text r i, op_ids op = [id] → r ∈ acc ++ ef_rows (load_doc dim id text) → i ∈ flat_map op_ids ops → cr_doc_id r ≠ i).
  { intros id text r i Hid [Hr|Hr%load_doc_ids]%elem_of_app Hi; [apply Hacc; [done|]; cbn; apply elem_of_app; by right|].
    rewrite Hr. intros ->. apply (Hdis i); [rewrite Hid; by left|done]. }
  destruct op as [id text|id text|id|m|]; [| | |done..]; cbn [foldl load_op]; rewrite Hdrop by done.
  - rewrite <-!(assoc_L (++)), IH by (intros r i; by apply Hmore). rewrite <-!(assoc_L (++) ds).
    rewrite (load_text_step dim ds rows acc (Inserted id text) ops id text false); [done..|]. intros _ r Hr. apply (Hins id text); [by left|done].
  - rewrite <-!(assoc_L (++)), IH by (intros r i; by apply Hmore). rewrite <-!(assoc_L (++) ds).
    by rewrite (load_text_step dim ds rows acc (Changed id text) ops id text true).
  - rewrite IH; [by rewrite <-(assoc_L (++))|]. intros r i Hr Hi. apply Hacc; [done|]. cbn. by right.
Qed.

(** Of distinct documents, the inserted ones new, the operations one by one
    leave what they leave as one batch. *)
Lemma load_ops_batch dim rows ops : Forall (loadable dim) ops → NoDup (flat_map op_ids ops) →
  (∀ id text r, Inserted id text ∈ ops → r ∈ rows → cr_doc_id r ≠ id) →
  foldl (load_op dim) rows ops = without_docs (ef_delete (spec_effect dim ops)) rows ++ ef_rows (spec_effect dim ops).
Proof.
  intros Hl Hnd Hins. pose proof (load_ops_batch_gen dim rows ops Hl Hnd Hins [] []) as Hg.
  rewrite without_docs_nil, app_nil_r in Hg. apply Hg. by intros r id ?%elem_of_nil.
Qed.

Lemma until_abort_all ops : OpAbort ∉ ops → until_abort ops = ops.
Proof.
  induction ops as [|op ops IH]; [done|]. intros [Hne Hn]%not_elem_of_cons. destruct op; cbn; by rewrite ?IH.
Qed.

(** For a commit whose documents are distinct, the inserted ones new to the
    branch, a load into main that exits with 0 and a push with clustering that
    completes leave the same rows, from the same store and with providers that
    agree text by text. *)
Theorem load_agrees_with_push {E : Type} `{Embedder E} (inv : E → Prop) vector_config clustering_config d commit ops n n1 e e2 s s1 s2 count skipped :
  load_setting → cache_on_main s → cache_current s d → expected_dim (lp_provider p) = st_dim s → expected_dim (lp_clustering p) = st_dim s →
  provider_for encode params inv load_fd load_fc s → inv e →
  NoDup (flat_map op_ids ops) → (∀ id text r, Inserted id text ∈ ops → r ∈ head_rows s d MAIN_BRANCH → cr_doc_id r ≠ id) →
  load_run (D:=D) encode params p d MAIN_BRANCH commit ops n s = Some (n1, s1, SUCCESS) →
  io_run_index_pipeline vector_config clustering_config true encode params e d MAIN_BRANCH commit ops s = (e2, Some (s2, Ok (count, skipped))) →
  head_rows s1 d MAIN_BRANCH = head_rows s2 d MAIN_BRANCH.
Proof.
  intros Hs Hc Hcur Hd1 Hd2 Hp He Hnd Hins Hl Hr.
  apply buffered_run with (1:=Hp) in Hr as (C & _ & _ & Hna); [|done|split; [done|by right]].
  destruct (load_run_spec d commit ops n s Hs Hd1 Hd2 Hc) as (n' & s' & code & E' & Hok). rewrite Hl in E'. injection E' as <- <- <-.
  cbv zeta in Hok. rewrite until_abort_all in Hok by done. destruct (Hok eq_refl) as (Hload & -> & _).
  rewrite (cm_rows _ _ _ _ _ _ C). by apply load_ops_batch.
Qed.
End load_spec.

(** ** On the small dataset *)

Module LoadExample.
Import StoreExample CommitExample RunExample ServiceExample.
#[export] Existing Instances ServiceExample.one_net EmbedExample.map_sled EmbedExample.plain_codec EmbedExample.byte_vectors.

Definition providers : LoadProviders := mkLoadProviders nomic None nomic None.
Definition load (branch commit : string) (ops : list Operation) (s : St) :=
  load_run (D:=gmap string string) one_token window providers "o/t" branch commit ops 0 s.
Definition tag_of (r : option (nat * St * ExitCode)) (commit : string) : option (ExitCode * option (option string * N)) :=
  '(n, s, code) ← r; Some (code, (λ c, (tc_branch c, tc_version c)) <$> domain_tags s "o/t" !! encode_commit_tag commit).

Definition new_ops : list Operation := [Inserted "C" "c"; Changed "A" "a2"; Deleted "B"].

(** An abort leaves a partial commit tagged, with exit code 0; a skipped
    document leaves it tagged with exit code 1; nothing to do leaves no tag. *)
Example load_tags_partial_commits :
  tag_of (load "main" "c2" [Inserted "C" "c"; OpAbort; Deleted "B"] store1) "c2" = Some (SUCCESS, Some (None, 5%N)) ∧
  tag_of (load "main" "c2" [Inserted "C" "c"; OpError "no"] store1) "c2" = Some (FAILURE, Some (None, 5%N)) ∧
  tag_of (load "main" "c2" [] store1) "c2" = Some (SUCCESS, None).
Proof. vm_compute. auto. Qed.

(** On a branch other than main the tag takes the version of main's index: the
    commit of three documents stands for a snapshot without any of them. *)
Definition forked : St := fst (io_create_branch "o/t" "feature" 2 store1).
Definition branch_load := load "feature" "f1" [Inserted "C" "c"; Inserted "D" "d"; Inserted "E" "e"] forked.
Definition snapshot_ids (r : option (nat * St * ExitCode)) (commit : string) : option (list string) :=
  '(n, s, code) ← r;
  match snd (io_checkout_commit_snapshot "o/t" commit s) with Ok h => Some (map cr_doc_id (RefLance.rh_rows h)) | Err _ => None end.
Example branch_load_tags_old_version :
  tag_of branch_load "f1" = Some (SUCCESS, Some (Some "feature", 3%N)) ∧
  (('(n, s, code) ← branch_load; Some (map cr_doc_id (head_rows s "o/t" "feature"))) = Some ["A"; "B"; "C"; "D"; "E"]) ∧
  snapshot_ids branch_load "f1" = Some ["A"; "B"].
Proof. vm_compute. auto. Qed.

Lemma setting : load_setting (Net:=nat) one_token window providers vector_of vector_of.
Proof. split; [apply one_token_safe|apply nomic_textwise..]. Qed.
End LoadExample.
Import LoadExample StoreExample CommitExample RunExample ServiceExample.

Lemma load_commits_witness :
  match load "main" "c2" new_ops store1 with
  | Some (_, s', code) => code = SUCCESS ∧ map cr_doc_id (head_rows s' "o/t" "main") = ["C"; "A"]
  | None => False
  end.
Proof.
  destruct (load_commits (D:=gmap string string) one_token window providers vector_of vector_of "o/t" "c2" new_ops 0 store1)
    as (n' & s' & code & E & Hok); [apply setting|done|done|apply CommitExample.cache_checked; by vm_compute|].
  change (load_run (D:=gmap string string) one_token window providers "o/t" MAIN_BRANCH "c2" new_ops 0 store1) with (load "main" "c2" new_ops store1) in E.
  rewrite E. assert (code = SUCCESS) as ->.
  { compute_as (λ r, match r with Some (_, _, c) => c | None => FAILURE end) in E. by symmetry. }
  split; [done|]. destruct (Hok eq_refl) as (_ & Hr & _). change "main" with MAIN_BRANCH. rewrite Hr. by vm_compute.
Defined.

Lemma load_agrees_with_push_witness :
  let push := io_run_index_pipeline (H4:=service_embedder cfg) config (Some config) true one_token window (embedding_state (serve store1)) "o/t" "main" "c2" new_ops store1 in
  match load "main" "c2" new_ops store1, push.2 with
  | Some (_, s1, SUCCESS), Some (s2, Ok _) => head_rows s1 "o/t" "main" = head_rows s2 "o/t" "main"
  | _, _ => False
  end.
Proof.
  cbv zeta. destruct (load "main" "c2" new_ops store1) as [[[n1 s1] code]|] eqn:El.
  2: { refute_as (λ r, match r with Some _ => true | None => false end) in El. }
  assert (code = SUCCESS) as ->.
  { compute_as (λ r, match r with Some (_, _, c) => c | None => FAILURE end) in El. by symmetry. }
  destruct (io_run_index_pipeline _ _ _ _ _ _ _ _ _ _ _) as [e2 [[s2 [[count skipped]|err]]|]] eqn:Er.
  2-3: refute_as (λ x, match x.2 with Some (_, Ok _) => true | _ => false end) in Er.
  cbn [snd].
  apply (load_agrees_with_push (D:=gmap string string) (H7:=service_embedder cfg) one_token window providers vector_of vector_of (faithful cfg vector_of vector_of)
    config (Some config) "o/t" "c2" new_ops 0 n1 (embedding_state (serve store1)) e2 store1 s1 s2 count skipped);
    [apply setting|apply ready_store1| |vm_compute; reflexivity|vm_compute; reflexivity|apply example_provider; vm_compute; reflexivity|apply fresh_faithful| | |exact El|exact Er].
  - destruct ready_store1 as [_ [E|E]]; [discriminate E|exact E].
  - apply (bool_decide_unpack _). by vm_compute.
  - intros id text r Hin Hr. assert (id = "C") as ->.
    { apply elem_of_cons in Hin as [[= -> ->]|Hin]; [done|]. apply elem_of_cons in Hin as [[=]|Hin]. apply elem_of_cons in Hin as [[=]|[]%elem_of_nil]. }
    assert (Forall (λ r, cr_doc_id r ≠ "C") (head_rows store1 "o/t" MAIN_BRANCH)) as Hf by (apply (bool_decide_unpack _); by vm_compute).
    rewrite Forall_forall in Hf. by apply Hf.
Defined.
