(* ===== verification/Start.v ===== *)
(** * Start-up and shutdown (src/src/main.rs)

    The start of the server up to the point where it listens: configuration,
    the lock on the embedding parameters, the tokenizer, the store, the
    embedding cache whose lock decides whether the process may write, and the
    clean-up of branches a crash left; the wait of the shutdown for pipeline
    tasks; dropping the store; and filling the embedding cache from a dataset.

    Binding the ports, signals and terminal messages are not modelled. *)

From S2P Require Import Prelude F32 RustStr Model Distance Chunk Schema Files Lance DatasetCache Store Commit Index Maintain Integrity Stats Embed Pipeline Growth PipelineSpec PipelineRun Retag Config Service ServiceSpec.

(** ** The subcommands *)

(** What the arguments after the program's name ask for, with what is left. *)
Inductive MainMode := PrimeEmbedCache (args : list string) | DropStore (args : list string) | RunServer.
Definition main_mode (args : list string) : MainMode :=
  match args with
  | arg :: args =>
      if String.eqb arg "prime-embed-cache" then PrimeEmbedCache args
      else if String.eqb arg "drop-store" then DropStore args
      else RunServer
  | [] => RunServer
  end.

(** ** The server *)

Section start.
Context {W H D Net F : Type} `{LanceOps W H, LanceIndexOps W H, LanceMaintOps W H} `{ByteSerialize, FormParse}
        `{SledOps D, Codec, JsonVectors} {HC : Clients Net} `{FileOps F, ParamsJson, SettingsJson}
        {HD : HashIter string (DatasetCacheEntry H)} {HT : HashIter string TagContents} {HB : HashIter string (list N)}.
Context (load_tokenizer : string → result string (string → result string Encoding))
        (sled_open : string → result SledError D) (header_ok : string → bool).

Definition NO_SECRET : string :=
  "VECTORLINK_ADMIN_SECRET is not set — the server requires an admin secret and there is no default. Set it in the environment or in .env (see .env.example)".

(** [main] creates the store with the cache bound of the configuration. *)
Definition server_store (config : Config) (disk : gmap string W) : LanceStore W H :=
  let store := open_store (cf_data_dir config) (expected_dim (embed_provider config)) disk in
  set_cache store (set_dataset_cache_max (st_cache store) (N.to_nat (dataset_cache_max config))).

(** The index parameters the server's store is left with: those of its
    dimension, and the configured ones for clustering. *)
Definition server_index_configs (config : Config) : option IndexConfigs :=
  configs ← new_index_configs (expected_dim (embed_provider config));
  Some (set_clustering_index_config configs (clustering_index config)).

(** What is then in the files and the data directory, and the service that is
    about to be served; [None]: a panic (an assertion on the configuration, a
    key that is no header value, an error of sled other than its lock). *)
Definition start_server (get : Env) (net : Net) (f : F) (disk : gmap string W)
    : option (F * gmap string W * result string (Service W H Net D)) :=
  config ← from_env get;
  if String.eqb (cf_admin_secret config) "" then Some (f, disk, Err NO_SECRET)
  else
    let '(f, locked) := verify_or_lock_embedding_params (cf_data_dir config) (embed_provider config) (provider2 config) f in
    match locked with
    | Err e => Some (f, disk, Err e)
    | Ok _ =>
        match load_tokenizer (tokenizer_path config) with
        | Err e => Some (f, disk, Err ("failed to load tokenizer from " +:+ tokenizer_path config +:+ ": " +:+ e))
        | Ok encode =>
            _ ← server_index_configs config;
            let store := server_store config disk in
            embed_cache ← open (sled_open (path_join (cf_data_dir config) "embed_cache")) (N.to_nat <$> embed_cache_size config);
            service ← new_with_cache header_ok encode get store (settings_load (cf_data_dir config) f) config net embed_cache;
            if negb (is_read_only service) then
              match io_cleanup_compaction_branches (sv_store service) with
              | (s, Err e) => Some (f, st_disk s, Err (store_error_to_string e))
              | (s, Ok _) => Some (f, st_disk s, Ok (with_store service s))
              end
            else Some (f, st_disk (sv_store service), Ok service)
        end
    end.

(** ** Shutdown *)

(** The polls of the wait loop: [active k] and [elapsed k] (in milliseconds) are
    what the [k]-th poll reads. *)
Inductive Shutdown : Type := Graceful (polls : nat) | Forced (polls : nat).

Definition MAX_WAIT_MS : N := 120000.
Definition POLL_MS : N := 200.

Fixpoint shutdown_wait (active elapsed : nat → N) (fuel k : nat) : option Shutdown :=
  match fuel with
  | 0 => None
  | S fuel =>
      if (active k =? 0)%N then Some (Graceful k)
      else if (MAX_WAIT_MS <? elapsed k)%N then Some (Forced k)
      else shutdown_wait active elapsed fuel (S k)
  end.

(** ** Dropping the store *)

(** [remove_dir_all] on the data directory and what it holds. *)
Definition drop_store (remove_dir_all : F → string → F * gmap string W * result string unit)
    (get : Env) (args : list string) (f : F) (disk : gmap string W) : option (F * gmap string W * result string unit) :=
  if negb (existsb (String.eqb "--yes") args)
  then Some (f, disk, Err "refusing to drop the store: pass --yes to delete all indexed vectors")
  else
    config ← from_env get;
    let data_dir := cf_data_dir config in
    let '(f, disk, removed) := if fs_exists f data_dir then remove_dir_all f data_dir else (f, disk, Ok tt) in
    match removed with
    | Err e => Some (f, disk, Err e)
    | Ok _ => let '(f, r) := fs_create_dir_all f data_dir in Some (f, disk, r)
    end.

(** ** Filling the embedding cache *)

Record PrimeCacheArgs := mkPrimeCacheArgs { from_domain : string; include_clustering : bool }.

Fixpoint parse_prime_loop (from_domain : option string) (include_clustering : bool) (args : list string)
    : result string (option string * bool) :=
  match args with
  | [] => Ok (from_domain, include_clustering)
  | arg :: args =>
      if String.eqb arg "--from-domain" then
        match args with
        | v :: args => parse_prime_loop (Some v) include_clustering args
        | [] => Ok (None, include_clustering)
        end
      else if String.eqb arg "--include-clustering" then parse_prime_loop from_domain true args
      else Err ("unknown argument: " +:+ arg)
  end.

Definition parse_prime_cache_args (args : list string) : result string PrimeCacheArgs :=
  r ← parse_prime_loop None false args;
  d ← ok_or "--from-domain is required" r.1;
  Ok (mkPrimeCacheArgs d r.2).

(** One vector of a row, when it has the model's dimension: the new cache, and
    whether it was put. *)
Definition prime_vector (provider : Provider) (role : EmbeddingRole) (model : string) (dim : nat) (text : string) (v : list f32)
    (cn : EmbedCache D * N) : EmbedCache D * N :=
  if (length v =? dim)%nat then
    match apply_prefix [text] (effective_prefixes provider) role with
    | prefixed :: _ => (cache_put cn.1 (cache_key model prefixed) v, (cn.2 + 1)%N)
    | [] => cn
    end
  else cn.

(** The cache and the count after the rows. *)
Definition prime_row (config : Config) (with_clustering : bool) (cn : EmbedCache D * N) (r : ChunkRow) : EmbedCache D * N :=
  let model := model_name (embed_provider config) in
  let clustering_model := default model (model_name <$> provider2 config) in
  let dim := expected_dim (embed_provider config) in
  let cn := prime_vector (embed_provider config) RoleDocument model dim (cr_content r) (cr_embedding r) cn in
  if with_clustering
  then prime_vector (default (embed_provider config) (provider2 config)) RoleClustering clustering_model dim (cr_content r)
         (cr_clustering_embedding r) cn
  else cn.

Definition prime_rows (config : Config) (with_clustering : bool) (rows : list ChunkRow) (cache : EmbedCache D) : EmbedCache D * N :=
  foldl (prime_row config with_clustering) (cache, 0%N) rows.

(** [prime_embed_cache]: the cache it leaves and the number of vectors put in
    it; the scan is in one batch, with the columns it projects. *)
Definition prime_embed_cache (parse_error : ParseError → string) (get : Env) (args : list string) (disk : gmap string W)
    : option (result string (EmbedCache D * N)) :=
  match parse_prime_cache_args args with
  | Err e => Some (Err e)
  | Ok parsed =>
      config ← from_env get;
      match parse_domain (from_domain parsed) with
      | Err e => Some (Err ("invalid --from-domain '" +:+ from_domain parsed +:+ "': " +:+ parse_error e))
      | Ok rp =>
          let domain_str := domain_str (from_resource_path rp) in
          let path := dataset_path domain_str in
          let w := default l_absent (disk !! path) in
          if negb (l_exists w)
          then Some (Err ("dataset not found: " +:+ path_join (cf_data_dir config) path +:+ " (domain=" +:+ domain_str +:+ ")"))
          else
            let cache_size := match get "VECTORLINK_EMBED_CACHE_SIZE" with
                              | Some s => if eq_ignore_ascii_case s "none" then None else Some (default 20000%N (parse_usize s))
                              | None => Some 20000%N
                              end in
            cache ← open (sled_open (path_join (cf_data_dir config) "embed_cache")) (N.to_nat <$> cache_size);
            if negb (ec_enabled cache)
            then Some (Err "cache is disabled (VECTORLINK_EMBED_CACHE_SIZE=None). Cannot prime.")
            else
              match l_load w with
              | Err e => Some (Err e)
              | Ok ds =>
                  match l_scan w ds None with
                  | Err e => Some (Err e)
                  | Ok rows => Some (Ok (prime_rows config (include_clustering parsed) rows cache))
                  end
              end
      end
  end.
End start.

(** ** Start *)

Section start_spec.
Context {W H D Net F : Type} `{LanceLaws W H} {HV : LanceVersions W H} {HVL : LanceVersionLaws W H} {HBL : LanceBranchLaws W H}
        {HI : LanceIndexOps W H} {HM : LanceMaintOps W H} {HML : LanceMaintLaws W H} `{ByteSerialize, FormParse}
        `{SledOps D, Codec, JsonVectors} {HC : Clients Net} `{FileOps F, ParamsJson, SettingsJson}
        {HD : HashIter string (DatasetCacheEntry H)} {HT : HashIter string TagContents} {HB : HashIter string (list N)}.
Context (load_tokenizer : string → result string (string → result string Encoding))
        (sled_open : string → result SledError D) (header_ok : string → bool).

Definition disk_dir (disk : gmap string W) (p : string) : W := default l_absent (disk !! p).

Lemma recover_spares (disk : gmap string W) p : spares (disk_dir disk p) (disk_dir (recover_stranded_index_backups disk) p).
Proof.
  unfold recover_stranded_index_backups, disk_dir. destruct (ff_read_dir (l_fs "") []); [reflexivity|].
  rewrite map_lookup_imap. destruct (disk !! p) as [w|] eqn:E; cbn; [|reflexivity].
  destruct (negb _ && _ && _); [|reflexivity].
  destruct (law_put_entries (recover_index_dir (l_fs p) (l_entries w)) w) as (Ht & Hh & Hv).
  { intros x Hx1 Hx2. apply recover_index_dir_outside. unfold index_entries. intros [->|[->|[]%elem_of_nil]%elem_of_cons]%elem_of_cons; done. }
  apply same_heads_spares; [done|done|]. split; [by rewrite Ht|]. intros t c h _. by rewrite Hv.
Qed.

(** The lock of the embedding cache is held by another process. *)
Definition locked_elsewhere (config : Config) : Prop :=
  is_Some (embed_cache_size config) ∧
  ∃ msg, sled_open (path_join (cf_data_dir config) "embed_cache") = Err (SledIo msg) ∧ contains "could not acquire lock" msg = true.

Lemma open_locked (config : Config) cache :
  open (sled_open (path_join (cf_data_dir config) "embed_cache")) (N.to_nat <$> embed_cache_size config) = Some cache →
  ec_locked_elsewhere cache = true ↔ locked_elsewhere config.
Proof.
  unfold locked_elsewhere, open. destruct (embed_cache_size config) as [n|]; cbn.
  - destruct (sled_open _) as [db|[msg|msg]]; cbn.
    + intros [= <-]. split; [done|]. by intros [_ (m & [=] & _)].
    + destruct (contains _ msg) eqn:Ec; [|done]. intros [= <-]. split; [|done]. intros _. split; [by eexists|]. by exists msg.
    + done.
  - intros [= <-]. split; [done|]. by intros [[? [=]] _].
Qed.

(** The parameters the pipelines of the server run with. *)
Lemma server_index_configs_spec config c : server_index_configs config = Some c →
  default_for_dim (expected_dim (embed_provider config)) = Some (vector_index_config c) ∧
  clustering_index_config c = clustering_index config.
Proof. unfold server_index_configs, new_index_configs. destruct (default_for_dim _); [|done]. by intros [= <-]. Qed.

(** The clean-up does not change whether the store may be written, and caches
    main handles only. *)
Definition same_mode (s s' : LanceStore W H) : Prop :=
  st_read_only s' = st_read_only s ∧ cache_from (st_cache s) (st_cache s').
#[local] Instance mode_preorder : PreOrder same_mode.
Proof.
  split; [split; [done|apply cache_from_refl]|]. intros s1 s2 s3 [E1 C1] [E2 C2]. split; [congruence|by eapply cache_from_trans].
Qed.
Lemma touches_mode p (s s' : LanceStore W H) : touches p s s' → same_mode s s'.
Proof. intros Ht. split; [by eapply touches_read_only|by eapply touches_cache]. Qed.
Lemma mode_quiet {A} (c : io W H A) : Within quiet c → Within same_mode c.
Proof. intros Hc s s' r Hr%Hc. by eapply (touches_mode ""), quiet_touches. Qed.
Lemma mode_tidied {A} d (c : io W H A) : Within (tidied d) c → Within same_mode c.
Proof. intros Hc s s' r Hr%Hc. eapply touches_mode, (td_touches _ _ _ Hr). Qed.
#[local] Instance mode_writable : Within same_mode (ensure_writable (W:=W) (H:=H)).
Proof. apply mode_quiet, _. Qed.
#[local] Instance mode_fresh p : Within same_mode (io_open_fresh (W:=W) (H:=H) p).
Proof. apply mode_quiet, _. Qed.
#[local] Instance mode_list_branches d : Within same_mode (io_list_branches (W:=W) (H:=H) d).
Proof. apply mode_quiet, _. Qed.
#[local] Instance mode_dataset d b : Within same_mode (io_open_dataset (W:=W) (H:=H) d b).
Proof. intros s s' r Hr%io_open_dataset_touches. by eapply touches_mode. Qed.
#[local] Instance mode_write {A} p m (f : W → W * result string A) : Within same_mode (io_write (H:=H) p m f).
Proof. intros s s' r Hr%io_write_touches. by eapply touches_mode. Qed.
#[local] Instance mode_aggressive d b : Within same_mode (io_cleanup_aggressive (W:=W) (H:=H) d b).
Proof. apply (mode_tidied d), _. Qed.
#[local] Instance mode_prune d b : Within same_mode (io_prune_stale_index_dirs (W:=W) (H:=H) d b).
Proof. apply (mode_tidied d), _. Qed.
#[local] Instance mode_prune_empty d : Within same_mode (io_prune_empty_index_dirs (W:=W) (H:=H) d).
Proof. apply (mode_tidied d), _. Qed.
#[local] Instance mode_orphans p d (ds : H) orphans acc : Within same_mode (delete_orphans (W:=W) p d ds orphans acc).
Proof. revert acc. induction orphans as [|t orphans IH]; intros acc; cbn [delete_orphans]; apply _. Qed.
#[local] Instance mode_branches p d bs acc : Within same_mode (delete_branches (W:=W) (H:=H) p d bs acc).
Proof. revert acc. induction bs as [|b bs IH]; intros acc; cbn [delete_branches]; apply _. Qed.
#[local] Instance mode_cleanup d : Within same_mode (io_cleanup_orphaned_tags_and_stale_branches (W:=W) (H:=H) d).
Proof. unfold io_cleanup_orphaned_tags_and_stale_branches. cbv zeta. apply _. Qed.
#[local] Instance mode_domains ds acc : Within same_mode (cleanup_domains (W:=W) (H:=H) ds acc).
Proof. revert acc. induction ds as [|d ds IH]; intros acc; cbn [cleanup_domains]; apply _. Qed.
Lemma startup_mode s s' r : io_cleanup_compaction_branches s = (s', r) → same_mode s s'.
Proof.
  assert (Within same_mode (io_cleanup_compaction_branches (W:=W) (H:=H))) as Hw by (unfold io_cleanup_compaction_branches; apply _).
  apply Hw.
Qed.

(** What a start may end in: the lock's files; of a service that is about to be
    served, its configuration, its store and its cache. *)
Lemma start_server_run get (net : Net) f disk f' disk' r :
  start_server load_tokenizer sled_open header_ok get net f disk = Some (f', disk', r) →
  (∀ p, spares (disk_dir disk p) (disk_dir disk' p)) ∧
  ∀ sv, r = Ok sv → st_disk (sv_store sv) = disk' ∧ cache_on_main (sv_store sv) ∧
    ∃ config cache, from_env get = Some config ∧ cf_admin_secret config ≠ "" ∧
      verify_or_lock_embedding_params (cf_data_dir config) (embed_provider config) (provider2 config) f = (f', Ok tt) ∧
      open (sled_open (path_join (cf_data_dir config) "embed_cache")) (N.to_nat <$> embed_cache_size config) = Some cache ∧
      is_read_only sv = ec_locked_elsewhere cache ∧ (is_read_only sv = true → disk' = recover_stranded_index_backups disk).
Proof.
  unfold start_server. intros (config & Hcfg & Hr)%bind_Some. rewrite Hcfg. clear Hcfg.
  destruct (String.eqb_spec (cf_admin_secret config) "") as [_|Hsec]; [injection Hr as <- <- <-; by split|].
  destruct (verify_or_lock_embedding_params _ _ _ f) as [f1 [[]|e]] eqn:Ev; [|injection Hr as <- <- <-; by split].
  destruct (load_tokenizer (tokenizer_path config)) as [encode|e]; [|injection Hr as <- <- <-; by split].
  apply bind_Some in Hr as (vic & _ & Hr). apply bind_Some in Hr as (cache & Hc & Hr). apply bind_Some in Hr as (sv0 & Hsv & Hr).
  unfold new_with_cache in Hsv. set (store := server_store config disk) in *. set (store1 := if ec_locked_elsewhere cache then _ else _) in Hsv.
  assert (Hsp : ∀ p, spares (disk_dir disk p) (disk_dir (st_disk store1) p)).
  { intros p. replace (st_disk store1) with (recover_stranded_index_backups disk) by (unfold store1; by destruct (ec_locked_elsewhere cache)). apply recover_spares. }
  destruct (_ && _); [|done]. assert (Es : sv_store sv0 = store1) by (by injection Hsv as <-). clear Hsv.
  assert (Hro : st_read_only store1 = ec_locked_elsewhere cache) by (unfold store1; by destruct (ec_locked_elsewhere cache)).
  assert (Hcm : cache_on_main store1) by (intros d en; unfold store1; by destruct (ec_locked_elsewhere cache)).
  unfold is_read_only in Hr. rewrite Es, Hro in Hr. destruct (ec_locked_elsewhere cache) eqn:El; cbn [negb] in Hr.
  - injection Hr as <- <- <-. split; [done|]. intros sv [= <-]. unfold is_read_only. rewrite Es, Hro.
    split_and!; [done..|]. exists config, cache. by split_and!.
  - destruct (io_cleanup_compaction_branches store1) as [s [cl|e]] eqn:Ecl; injection Hr as <- <- <-.
    + split; [intros p; etrans; [apply Hsp|apply (startup_all_spared _ _ _ Ecl p)]|].
      intros sv [= <-]. apply startup_mode in Ecl as [Hm Hcf]. unfold is_read_only. cbn [sv_store with_store]. rewrite Hm, Hro.
      split_and!; [done|by eapply cache_from_on_main|]. exists config, cache. by split_and!.
    + split; [intros p; etrans; [apply Hsp|apply (startup_all_spared _ _ _ Ecl p)]|done].
Qed.

(** C13: a start of the server, from any disk and whatever fails, spares what commits
    stand on: on every dataset, tags on branches that are there keep resolving
    to the same snapshots, and no head moves but of rebuild branches no tag
    refers to.  A server that comes up has an admin secret and the embedding
    parameters of its store, refuses writes exactly when another process holds
    the lock of the embedding cache, and has then changed nothing but to put
    hidden index directories back. *)
Theorem server_start_spares_commits get (net : Net) f disk f' disk' r :
  start_server load_tokenizer sled_open header_ok get net f disk = Some (f', disk', r) →
  (∀ p, spares (disk_dir disk p) (disk_dir disk' p)) ∧
  ∀ sv, r = Ok sv → ∃ config,
    from_env get = Some config ∧ cf_admin_secret config ≠ "" ∧
    verify_or_lock_embedding_params (cf_data_dir config) (embed_provider config) (provider2 config) f = (f', Ok tt) ∧
    st_disk (sv_store sv) = disk' ∧ (is_read_only sv = true ↔ locked_elsewhere config) ∧
    (is_read_only sv = true → disk' = recover_stranded_index_backups disk).
Proof.
  intros [Hsp Hok]%start_server_run. split; [done|]. intros sv (Hd & _ & config & cache & ? & ? & ? & Hc & Hro & ?)%Hok.
  exists config. split_and!; try done. rewrite Hro. by apply open_locked.
Qed.
End start_spec.

(** ** Shutdown *)

Lemma shutdown_wait_spec active elapsed fuel k r :
  shutdown_wait active elapsed fuel k = Some r →
  match r with
  | Graceful n => k ≤ n ∧ active n = 0%N ∧ ∀ j, k ≤ j < n → active j ≠ 0%N ∧ (elapsed j ≤ MAX_WAIT_MS)%N
  | Forced n => k ≤ n ∧ active n ≠ 0%N ∧ (MAX_WAIT_MS < elapsed n)%N ∧ ∀ j, k ≤ j < n → active j ≠ 0%N ∧ (elapsed j ≤ MAX_WAIT_MS)%N
  end.
Proof.
  revert k. induction fuel as [|fuel IH]; intros k; cbn [shutdown_wait]; [done|].
  destruct (N.eqb_spec (active k) 0) as [E|E]; [intros [= <-]; split; [lia|]; split; [done|]; intros; lia|].
  destruct (N.ltb_spec MAX_WAIT_MS (elapsed k)); [intros [= <-]; split_and!; [lia|done|done|]; intros; lia|].
  intros Hr%IH. assert (Hstep : ∀ n, (∀ j, S k ≤ j < n → active j ≠ 0%N ∧ (elapsed j ≤ MAX_WAIT_MS)%N) →
    ∀ j, k ≤ j < n → active j ≠ 0%N ∧ (elapsed j ≤ MAX_WAIT_MS)%N).
  { intros n Hn j Hj. destruct (decide (j = k)) as [->|]; [done|]. apply Hn. lia. }
  destruct r as [n|n].
  - destruct Hr as (? & ? & ?). split; [lia|]. split; [done|]. by apply Hstep.
  - destruct Hr as (? & ? & ? & ?). split; [lia|]. split; [done|]. split; [done|]. by apply Hstep.
Qed.

Lemma shutdown_wait_ends active elapsed fuel k :
  (∀ n, (POLL_MS * N.of_nat n ≤ elapsed n)%N) → 601 < k + fuel → is_Some (shutdown_wait active elapsed fuel k) ∨ 601 < k.
Proof.
  intros Hp. revert k. induction fuel as [|fuel IH]; intros k Hk; cbn [shutdown_wait]; [right; lia|].
  destruct (active k =? 0)%N; [left; by eexists|]. destruct (N.ltb_spec MAX_WAIT_MS (elapsed k)) as [|Hle]; [left; by eexists|].
  destruct (IH (S k)) as [?|Hgt]; [lia|by left|]. exfalso. specialize (Hp k). unfold MAX_WAIT_MS, POLL_MS in *. lia.
Qed.

(** The wait for pipeline tasks ends, whatever the tasks do: with a pause of
    200 ms between polls after at most 602 of them.  It ends gracefully exactly
    at a poll that sees no task, and by force only past the two minutes, with
    tasks still running. *)
Theorem shutdown_wait_terminates active elapsed :
  (∀ n, (POLL_MS * N.of_nat n ≤ elapsed n)%N) →
  ∃ r, shutdown_wait active elapsed 602 0 = Some r ∧
    match r with
    | Graceful n => n ≤ 601 ∧ active n = 0%N ∧ ∀ j, j < n → active j ≠ 0%N
    | Forced n => n ≤ 601 ∧ (MAX_WAIT_MS < elapsed n)%N ∧ ∀ j, j ≤ n → active j ≠ 0%N
    end.
Proof.
  intros Hp. destruct (shutdown_wait_ends active elapsed 602 0 Hp) as [[r Hr]|]; [lia| |lia]. exists r. split; [done|].
  apply shutdown_wait_spec in Hr.
  assert (Hb : ∀ n, (∀ j, 0 ≤ j < n → active j ≠ 0%N ∧ (elapsed j ≤ MAX_WAIT_MS)%N) → n ≤ 601).
  { intros n Hn. destruct n as [|n]; [lia|]. destruct (Hn n) as [_ Hle]; [lia|]. specialize (Hp n). unfold MAX_WAIT_MS, POLL_MS in *. lia. }
  destruct r as [n|n].
  - destruct Hr as (_ & Ha & Hj). split; [by apply Hb|]. split; [done|]. intros j Hlt. apply Hj. lia.
  - destruct Hr as (_ & Ha & He & Hj). split; [by apply Hb|]. split; [done|]. intros j Hlt.
    destruct (decide (j = n)) as [->|]; [done|]. apply Hj. lia.
Qed.

Lemma shutdown_wait_terminates_witness :
  shutdown_wait (λ k, if (k <? 3)%nat then 2%N else 0%N) (λ k, (200 * N.of_nat k)%N) 602 0 = Some (Graceful 3) ∧
  ∃ r, shutdown_wait (λ _, 1%N) (λ k, (200 * N.of_nat k)%N) 602 0 = Some r ∧ r = Forced 601.
Proof.
  split; [by vm_compute|].
  destruct (shutdown_wait_terminates (λ _, 1%N) (λ k, (200 * N.of_nat k)%N)) as (r & Hr & _).
  { intros n. unfold POLL_MS. lia. }
  exists r. split; [exact Hr|]. vm_compute in Hr. by injection Hr as <-.
Defined.

(** ** The primed cache *)

(** What sled does when nothing fails. *)
Class SledKeeps (D : Type) `{SledOps D} : Prop := {
  law_sled_get_insert d k v : sled_get (sled_insert d k v).1 k = Ok (Some v);
  law_sled_get_other d k k' v : k' ≠ k → sled_get (sled_insert d k v).1 k' = sled_get d k';
}.

Section prime.
Context {D Net : Type} `{SledOps D, !SledKeeps D, Codec, !CodecLaws, JsonVectors} {HC : Clients Net}.
Context (config : Config).

(** The model, the prefixed text and the vector of each vector that is put. *)
Definition vector_puts (provider : Provider) (role : EmbeddingRole) (dim : nat) (text : string) (v : list f32) : list (string * list f32) :=
  if (length v =? dim)%nat then [(cache_key (model_name provider) (prefixed_text provider role text), v)] else [].
Definition row_puts (with_clustering : bool) (r : ChunkRow) : list (string * list f32) :=
  let dim := expected_dim (embed_provider config) in
  vector_puts (embed_provider config) RoleDocument dim (cr_content r) (cr_embedding r) ++
  if with_clustering then vector_puts (clustering_provider config) RoleClustering dim (cr_content r) (cr_clustering_embedding r) else [].

Lemma prime_vector_puts provider role dim text v (c : EmbedCache D) n :
  (prime_vector provider role (model_name provider) dim text v (c, n)).1 =
  foldl (λ c kv, cache_put c kv.1 kv.2) c (vector_puts provider role dim text v).
Proof. unfold prime_vector, vector_puts. destruct (_ =? _)%nat; [|done]. by rewrite apply_prefix_map. Qed.

Lemma prime_rows_puts with_clustering rows (c : EmbedCache D) :
  (prime_rows config with_clustering rows c).1 =
  foldl (λ c kv, cache_put c kv.1 kv.2) c (flat_map (row_puts with_clustering) rows).
Proof.
  unfold prime_rows. generalize 0%N as n. revert c. induction rows as [|r rows IH]; intros c n; [done|]. cbn [foldl flat_map].
  rewrite foldl_app. destruct (prime_row config with_clustering (c, n) r) as [c1 n1] eqn:E. rewrite IH. f_equal.
  apply (f_equal fst) in E. cbn in E. rewrite <-E. clear. unfold prime_row, row_puts. cbv zeta. rewrite foldl_app.
  pose proof (prime_vector_puts (embed_provider config) RoleDocument (expected_dim (embed_provider config)) (cr_content r) (cr_embedding r) c n) as E1.
  destruct (prime_vector _ _ _ _ _ _ (c, n)) as [c2 n2]. cbn [fst] in E1. rewrite <-E1. destruct with_clustering; [|done].
  assert (Em : default (model_name (embed_provider config)) (model_name <$> provider2 config) = model_name (clustering_provider config)).
  { unfold clustering_provider. by destruct (provider2 config). }
  rewrite Em. apply (prime_vector_puts (clustering_provider config)).
Qed.

Lemma get_after_put (c : EmbedCache D) k v : ec_enabled c = true → is_Some (ec_db c) →
  ec_enabled (cache_put c k v) = true ∧ is_Some (ec_db (cache_put c k v)) ∧
  (Forall f32_wf v → cache_get (cache_put c k v) k (length v) = Some v) ∧
  ∀ k' dim, k' ≠ k → cache_get (cache_put c k v) k' dim = cache_get c k' dim.
Proof.
  intros En [db Ed]. split_and!.
  - unfold cache_put. by rewrite En, Ed.
  - unfold cache_put. rewrite En, Ed. by eexists.
  - intros Hwf. rewrite (get_put_same c db), decide_True by (done || apply law_sled_get_insert). done.
  - intros k' dim Hne. unfold cache_put. rewrite En, Ed. cbn. unfold cache_get. cbn. rewrite En, Ed. cbn. by rewrite law_sled_get_other.
Qed.

Lemma get_puts l (c : EmbedCache D) : ec_enabled c = true → is_Some (ec_db c) → Forall (λ kv, Forall f32_wf kv.2) l →
  (∀ k v v', (k, v) ∈ l → (k, v') ∈ l → v = v') →
  let c' := foldl (λ c kv, cache_put c kv.1 kv.2) c l in
  (∀ k v, (k, v) ∈ l → cache_get c' k (length v) = Some v) ∧
  ∀ k dim, (∀ v, (k, v) ∉ l) → cache_get c' k dim = cache_get c k dim.
Proof.
  cbv zeta. revert c. induction l as [|[k0 v0] l IH]; intros c En Ed Hwf Hfun.
  { split; [by intros k v ?%elem_of_nil|done]. }
  apply Forall_cons in Hwf as [Hwf0 Hwf]. destruct (get_after_put c k0 v0 En Ed) as (En' & Ed' & Hg & Ho).
  destruct (IH (cache_put c k0 v0) En' Ed' Hwf) as [Hin Hout]; [intros k v v' Hk Hk'; apply (Hfun k); by right|]. cbn [foldl fst snd]. split.
  - intros k v Hk. destruct (decide ((k, v) ∈ l)) as [Hl|Hl]; [by apply Hin|].
    apply elem_of_cons in Hk as [[= -> ->]|]; [|done]. rewrite Hout; [by apply Hg|].
    intros v' Hv'. apply Hl. by rewrite (Hfun k0 v0 v') by (by left || by right).
  - intros k dim Hk. rewrite Hout by (intros v Hv; apply (Hk v); by right). apply Ho. intros ->. apply (Hk v0). by left.
Qed.

Lemma embed_hit provider role key (c : EmbedCache D) (n : Net) text v :
  cache_get c (cache_key (model_name provider) (prefixed_text provider role text)) (expected_dim provider) = Some v →
  io_embed (H2:=client key) (n, Some c) provider [text] role = ((n, Some c), Some (Ok [v])).
Proof. intros Hg. unfold io_embed. rewrite apply_prefix_map. cbn. by rewrite Hg. Qed.

(** Once the cache is primed from the rows of a dataset, embedding the text
    of any of them, as a document or for clustering, sends no request and
    answers with the vector of the row, bit for bit, as long as one key does
    not have two vectors. *)
Theorem primed_cache_answers with_clustering rows (c : EmbedCache D) (n : Net) key r :
  let puts := flat_map (row_puts with_clustering) rows in
  let c' := (prime_rows config with_clustering rows c).1 in
  ec_enabled c = true → is_Some (ec_db c) → Forall (λ kv, Forall f32_wf kv.2) puts →
  (∀ k v v', (k, v) ∈ puts → (k, v') ∈ puts → v = v') → r ∈ rows →
  (length (cr_embedding r) = expected_dim (embed_provider config) →
     io_embed (H2:=client key) (n, Some c') (embed_provider config) [cr_content r] RoleDocument = ((n, Some c'), Some (Ok [cr_embedding r]))) ∧
  (with_clustering = true → expected_dim (clustering_provider config) = expected_dim (embed_provider config) →
   length (cr_clustering_embedding r) = expected_dim (embed_provider config) →
     io_embed (H2:=client key) (n, Some c') (clustering_provider config) [cr_content r] RoleClustering = ((n, Some c'), Some (Ok [cr_clustering_embedding r]))).
Proof.
  intros puts c' En Ed Hwf Hfun Hr. unfold c'. rewrite prime_rows_puts. fold puts. destruct (get_puts puts c En Ed Hwf Hfun) as [Hin _].
  assert (Hput : ∀ kv, kv ∈ row_puts with_clustering r → kv ∈ puts).
  { intros kv Hkv. unfold puts. apply elem_of_list_flat_map || apply list_elem_of_In, in_flat_map.
    exists r. split; by apply list_elem_of_In. }
  split.
  - intros Hd. apply embed_hit. rewrite <-Hd. apply Hin, Hput. unfold row_puts, vector_puts. rewrite Hd, Nat.eqb_refl.
    apply elem_of_app. left. by left.
  - intros -> Hdim Hd. apply embed_hit. rewrite Hdim, <-Hd. apply Hin, Hput. unfold row_puts, vector_puts. rewrite Hd, Nat.eqb_refl.
    apply elem_of_app. right. by left.
Qed.
End prime.

(** ** On the small dataset *)

Module StartExample.
Import StoreExample CommitExample RunExample ServiceExample ConfigExample.
#[export] Existing Instances RefLance.ops RefLance.view RefLance.laws RefLance.versions RefLance.version_laws
  RefMaint.maint_ops RefMaint.maint_laws RefIndex.index_ops RefIndex.index_laws StoreExample.ident_serialize
  StoreExample.cache_order CommitExample.tag_order MaintExample.version_order StatsExample.plain_form RetagExample.branch_laws
  ConfigExample.file_ops ConfigExample.params_json EmbedExample.map_sled EmbedExample.plain_codec EmbedExample.byte_vectors
  EmbedExample.counting_net ServiceExample.one_net EmbedExample.plain_codec_laws.
#[export] Instance no_settings : SettingsJson := {| settings_of_json _ := Err "none"; settings_to_json _ := Err "none" |}.
#[export] Instance map_sled_keeps : SledKeeps (gmap string string).
Proof.
  split; intros d k.
  - intros v. cbn. by rewrite lookup_insert_eq.
  - intros k' v Hne. cbn. by rewrite lookup_insert_ne.
Qed.

Definition secret_env (k : string) : option string := if String.eqb k "VECTORLINK_ADMIN_SECRET" then Some "s" else None.
Definition uncached_env (k : string) : option string :=
  if String.eqb k "VECTORLINK_EMBED_CACHE_SIZE" then Some "none" else secret_env k.
Definition locked_sled (path : string) : result SledError (gmap string string) := Err (SledIo "could not acquire lock").
Definition start (sled : string → result SledError (gmap string string)) (get : Env) (disk : gmap string (option RefLance.dir)) :=
  start_server (D:=gmap string string) (λ _, Ok one_token) sled (λ _, true) get 0 (∅ : Files) disk.
Definition read_only_of (r : option (Files * gmap string (option RefLance.dir) * result string (Service (option RefLance.dir) RefLance.handle nat (gmap string string)))) : option bool :=
  '(f, disk, r) ← r; match r with Ok sv => Some (is_read_only sv) | Err _ => None end.

(** The lock that makes a second process read-only is the one of the embedding
    cache: without a cache nothing stops two writers. *)
Example no_cache_no_lock :
  read_only_of (start locked_sled secret_env ∅) = Some true ∧ read_only_of (start locked_sled uncached_env ∅) = Some false.
Proof. vm_compute. auto. Qed.

(** A second process, which is to be read-only, puts the index directory back
    that the writer has moved out of the way for its clean-up. *)
Definition mid_cleanup : gmap string (option RefLance.dir) := st_disk (hide_index_dir "o/t" "" (cleanup_mode MaintExample.store6) MaintExample.store6).1.
Definition index_dirs (disk : gmap string (option RefLance.dir)) : bool * bool :=
  let entries := l_entries (disk_dir disk MaintExample.path) in
  (bool_decide (is_Some (entries !! INDICES)), bool_decide (is_Some (entries !! INDICES_BACKUP))).
Example read_only_start_moves_indices :
  index_dirs mid_cleanup = (false, true) ∧
  match start locked_sled secret_env mid_cleanup with
  | Some (_, disk, Ok sv) => is_read_only sv = true ∧ index_dirs disk = (true, false)
  | _ => False
  end.
Proof. vm_compute. auto. Qed.

(** Of one dimension, with documents of their first byte. *)
Definition tiny : Config := cfg.
Definition tiny_rows : list ChunkRow := [mkChunkRow "A" "Doc" 0 1 0 1 [F32.one] [F32.zero] "a"; mkChunkRow "B" "Doc" 0 1 0 1 [F32.zero] [F32.one] "b"].
Definition primed := (prime_rows tiny true tiny_rows fresh_cache).1.
End StartExample.
Import EmbedExample StartExample.

Lemma server_start_spares_commits_witness :
  match start locked_sled secret_env (st_disk RetagExample.after) with
  | Some (_, disk, Ok sv) => is_read_only sv = true ∧ v_tags (disk_dir disk MaintExample.path) !! "c_c4" = Some (mkTagContents None 9 3)
  | _ => False
  end.
Proof.
  destruct (start locked_sled secret_env (st_disk RetagExample.after)) as [[[f disk] [sv|e]]|] eqn:E.
  2-3: apply (f_equal read_only_of) in E; vm_compute in E; discriminate E.
  apply server_start_spares_commits in E as E'. destruct E' as [Hsp Hok].
  split.
  - apply (f_equal read_only_of) in E. vm_compute in E. by injection E.
  - destruct (Hsp MaintExample.path) as [_ _ _ _ Hl]. apply Hl; [by vm_compute|done].
Defined.

Lemma primed_cache_answers_witness :
  io_embed (H2:=client None) (0, Some primed) (embed_provider tiny) ["a"] RoleDocument = ((0, Some primed), Some (Ok [[F32.one]])).
Proof.
  destruct (primed_cache_answers tiny true tiny_rows EmbedExample.fresh_cache 0 None (mkChunkRow "A" "Doc" 0 1 0 1 [F32.one] [F32.zero] "a")) as [Hd _];
    [done|by eexists| | |by left|by apply Hd].
  - repeat constructor.
  - set (l := flat_map (row_puts tiny true) tiny_rows). intros k v v' Hv Hv'.
    assert (Forall (λ kv : string * list f32, Forall (λ kv' : string * list f32, kv.1 = kv'.1 → kv.2 = kv'.2) l) l) as Hf
      by (apply (bool_decide_unpack _); by vm_compute).
    rewrite Forall_forall in Hf. specialize (Hf _ Hv). rewrite Forall_forall in Hf. by apply (Hf _ Hv').
Defined.
