(* ===== verification/Http.v ===== *)
(** * The HTTP interface (src/src/http_api/handlers.rs, auth.rs, mod.rs)

    The handlers behind the router: what each reads of a request, what it
    refuses, the service call it makes and the response it answers with; the
    admin-secret gate; and the routes.  Extraction of parameter structures
    from query strings and bodies (axum and serde), form decoding, base64 and
    the validity of header values (the http crate) are parameters; a JSON body
    is the value that is serialised.  A handler runs here to its end together
    with the task it spawns.  CORS headers are not modelled. *)

From S2P Require Import Integrity Stats Prelude F32 RustStr Model Distance LayerIdx Ingest Body Chunk Schema Rollup Dedup Lance Search Resolve Knn DatasetCache Store Commit Tasks Index Maintain Embed Pipeline Growth PipelineSpec PipelineRun Snapshot Neighbours Suggest Config Service.

Class HttpLib := {
  (** [HeaderValue::from_str] accepts, [HeaderValue::to_str] succeeds. *)
  header_value_ok : string → bool;
  header_text_ok : string → bool;
  (** [form_urlencoded::parse]. *)
  form_pairs :: FormParse;
  (** base64's standard engine, to bytes. *)
  base64_decode : string → result string string;
}.

(** ** Requests *)

Record LastIndexedParams := mkLastIndexedParams { lp_domain : option string; lp_branch : option string }.
Record PushParams := mkPushParams {
  pp_domain : option string; pp_branch : option string; pp_target_commit : option string;
  pp_parent_commit : option string; pp_stream : option bool; pp_store_clustering : option bool;
  pp_expected_docs : option N;
}.
Record AssignParams := mkAssignParams {
  ap_domain : option string; ap_source_commit : option string; ap_target_commit : option string;
}.
Record SearchGetParams := mkSearchGetParams {
  sg_domain : option string; sg_commit : option string; sg_branch : option string; sg_q : option string;
  sg_start : option Z; sg_count_param : option Z; sg_mode : option string; sg_snippet : option bool;
}.
Record SimilarParams := mkSimilarParams {
  sm_domain : option string; sm_commit : option string; sm_branch : option string; sm_id : option string;
  sm_start : option Z; sm_count : option Z; sm_snippet : option bool;
}.
Record DuplicatesParams := mkDuplicatesParams {
  du_domain : option string; du_commit : option string; du_branch : option string; du_threshold : option f32;
  du_start : option Z; du_count : option Z; du_snippet : option bool;
}.
Record CompareParams := mkCompareParams { cp_method : option string; cp_role : option string }.
Record SuggestParams := mkSuggestParams {
  su_domain : option string; su_commit : option string; su_branch : option string; su_q : option string;
  su_count : option Z;
}.
Record CompareRequestBody := mkCompareRequestBody { cb_source : option string; cb_target : option string }.
Record CandidatesRequestBody := mkCandidatesRequestBody {
  cd_domain : option string; cd_commit : option string;
  cd_set_doc_types : option (list string); cd_set_doc_ids : option (list string);
  cd_target_doc_types : option (list string); cd_target_doc_ids : option (list string);
  cd_k : option nat; cd_threshold_set : option f32; cd_threshold_target : option f32;
  cd_include : option string; cd_ancestors : option (list string);
}.
Record SearchRequestBody := mkSearchRequestBody {
  sb_domain : option string; sb_commit : option string; sb_branch : option string; sb_q : option string;
  sb_mode : option string; sb_start : option Z; sb_count : option Z;
  sb_doc_type : option (list string); sb_doc_id : option (list string); sb_snippet : option bool;
  sb_ancestors : option (list string);
}.
Record SimilarRequestBody := mkSimilarRequestBody {
  mb_domain : option string; mb_commit : option string; mb_branch : option string; mb_id : option string;
  mb_text : option string; mb_start : option Z; mb_count : option Z;
  mb_doc_type : option (list string); mb_doc_id : option (list string); mb_snippet : option bool;
  mb_ancestors : option (list string);
}.
Record EmbeddingsParams := mkEmbeddingsParams {
  ep_domain : string; ep_commit : option string; ep_branch : option string; ep_doc_ids : option string;
  ep_doc_types : option string; ep_ancestors : option (list string);
}.
Record EmbeddingsBody := mkEmbeddingsBody {
  eb_domain : string; eb_commit : option string; eb_branch : option string; eb_doc_ids : list string;
  eb_doc_types : list string; eb_ancestors : list string; eb_stream : bool;
}.
Record EmbeddingsNdjsonLine := mkEmbeddingsNdjsonLine {
  nl_domain : string; nl_commit : string; nl_doc_id : option string; nl_doc_types : list string; nl_ancestors : list string;
}.

(** ** Responses *)

(** The values that are serialised. *)
Inductive Payload :=
| PError (error : string)
| PLastIndexed (l : LastIndexed)
| PStatus (status : TaskStatus)
| PHits (hits : list SearchHit)
| PGroups (groups : list DuplicateGroup)
| PCandidates (c : CandidatesResult)
| PEmbeddings (e : EmbeddingsResult)
| PRecord (r : EmbeddingRecord)
| PProgress (p : ProgressUpdate)
| PCompare (c : CompareResult)
| PSuggest (s : SuggestOutcome)
| PStatistics (s : Statistics) (internal : option InternalStats)
| PIntegrity (r : IntegrityReport)
| PAlive
| PReady (ready index search : bool).

Inductive ResponseBody :=
| NoBody
| PlainText (s : string)
| Json (p : Payload)
| NdJson (l : list Payload).

Record Response := mkResponse { re_status : N; re_headers : list (string * string); re_body : ResponseBody }.

Definition json_response (status : N) (p : Payload) : Response := mkResponse status [] (Json p).
Definition error_response (status : N) (message : string) : Response := json_response status (PError message).
Definition with_header (name value : string) (r : Response) : Response :=
  mkResponse (re_status r) (re_headers r ++ [(name, value)]) (re_body r).
Definition no_content : Response := mkResponse 204 [] NoBody.
Definition text_response (status : N) (s : string) : Response := mkResponse status [] (PlainText s).

Definition service_error_to_response (err : ServiceError) : Response :=
  match err with
  | Validation msg => error_response 400 msg
  | NotFound msg => error_response 404 msg
  | Conflict msg => error_response 409 msg
  | Unavailable msg => with_header "Retry-After" "30" (error_response 503 msg)
  | ServiceInternal msg => error_response 500 msg
  | AbortError msg => error_response 422 msg
  end.

(** ** Checks *)

Definition HeaderMap : Type := string → option string.

Section checks.
Context `{HttpLib}.

Definition to_str (value : string) : option string := if header_text_ok value then Some value else None.

Definition is_valid_data_version (s : string) : bool :=
  match splitn_char 3 ":"%char s with
  | [label; value] => (4 <=? str_len label)%nat && (4 <=? str_len value)%nat
  | _ => false
  end.

Definition validate_data_version_header (headers : HeaderMap) : result Response unit :=
  match headers "terminusdb-data-version" with
  | None => Ok tt
  | Some value =>
      match to_str value with
      | None => Err (error_response 400 "malformed TerminusDB-Data-Version header: not valid UTF-8")
      | Some s =>
          if is_valid_data_version s then Ok tt
          else Err (error_response 400 "malformed TerminusDB-Data-Version header: must match pattern label:value (each part >=4 chars, no colons)")
      end
  end.

Definition validate_mode (mode : option string) : result Response unit :=
  match mode with
  | Some m => match search_mode_parse m with
              | None => Err (error_response 400 ("invalid mode: " +:+ m))
              | Some _ => Ok tt
              end
  | None => Ok tt
  end.

Definition extract_repeated_param (raw_query : option string) (name : string) : list string :=
  match raw_query with
  | None => []
  | Some query =>
      let bracket_name := name +:+ "[]" in
      omap (λ kv, if String.eqb kv.1 name || String.eqb kv.1 bracket_name then Some kv.2 else None) (form_pairs query)
  end.

Definition MAX_RESULT_COUNT : Z := 1000.
Definition MAX_DUPLICATE_COUNT : Z := 1000.
Definition MAX_START : Z := 1000000.

Definition check_start (start : option Z) : result Response unit :=
  match start with
  | Some s => if (s <? 0)%Z then Err (error_response 400 "invalid start: must be >= 0")
              else if (MAX_START <? s)%Z then Err (error_response 400 ("invalid start: must be <= " +:+ pretty MAX_START))
              else Ok tt
  | None => Ok tt
  end.
Definition check_count (count : option Z) (max_count : Z) : result Response unit :=
  match count with
  | Some c => if (c <? 1)%Z then Err (error_response 400 "invalid count: must be >= 1")
              else if (max_count <? c)%Z then Err (error_response 400 ("invalid count: must be <= " +:+ pretty max_count))
              else Ok tt
  | None => Ok tt
  end.
Definition validate_pagination_with (start count : option Z) (max_count : Z) : result Response unit :=
  check_start start;; check_count count max_count.

Definition validate_pagination (start count : option Z) : result Response unit :=
  validate_pagination_with start count MAX_RESULT_COUNT.

Definition validate_branch_name (branch : string) : result Response unit :=
  if is_compact_rebuild_branch branch
  then Err (error_response 400 ("branch name '" +:+ branch +:+ "' is a reserved internal compaction branch and cannot be used externally"))
  else Ok tt.
Definition validate_branch (branch : option string) : result Response unit :=
  match branch with Some b => validate_branch_name b | None => Ok tt end.

(** [value as usize] of a value [max]ed to a bound of at least 0. *)
Definition to_usize (bound : Z) (v : Z) : nat := Z.to_nat (Z.max v bound).

(** [s.split(',').map(trim).filter(non-empty)]. *)
Definition comma_list (s : option string) : list string :=
  List.filter (λ s, negb (String.eqb s "")) (map trim (split_char ","%char (default "" s))).

(** [str.split(',').any(|s| s.trim() == name)]. *)
Definition includes (include name : string) : bool :=
  existsb (λ s, String.eqb (trim s) name) (split_char ","%char include).

(** ** The admin-secret gate *)

Definition verify_basic_auth (auth_header : option string) (expected_user expected_secret : string) : bool :=
  match auth_header with
  | None => false
  | Some header_value =>
      match strip_prefix "Basic " header_value with
      | None => false
      | Some encoded =>
          match base64_decode encoded with
          | Err _ => false
          | Ok decoded =>
              if utf8_valid (str_bytes decoded) then
                match split_once ":"%char decoded with
                | None => false
                | Some (user, secret) => String.eqb user expected_user && String.eqb secret expected_secret
                end
              else false
          end
      end
  end.
End checks.

(** ** State *)

(** [domain_settings] is written through to a file. *)
Record AppState (W H N D F : Type) := mkAppState {
  app_service : Service W H N D;
  app_config : Config;
  app_files : F;
}.
Arguments mkAppState {W H N D F}.
Arguments app_service {W H N D F}. Arguments app_config {W H N D F}. Arguments app_files {W H N D F}.

(** A handler: a value to go on with, or a response to return early. *)
Section web.
Context {W H N D F : Type}.
Definition web (A : Type) : Type := AppState W H N D F → AppState W H N D F * outcome (result Response A).

Definition web_ret {A} (a : A) : web A := λ st, (st, Done (Ok a)).
Definition respond {A} (r : Response) : web A := λ st, (st, Done (Err r)).
Definition panics {A} : web A := λ st, (st, Panicked).
Definition web_bind {A B} (c : web A) (k : A → web B) : web B := λ st,
  match c st with
  | (st, Done (Ok a)) => k a st
  | (st, Done (Err r)) => (st, Done (Err r))
  | (st, Panicked) => (st, Panicked)
  | (st, OutOfFuel) => (st, OutOfFuel)
  end.
Definition web_lift {A} (r : result Response A) : web A := λ st, (st, Done r).

Definition with_service (st : AppState W H N D F) (sv : Service W H N D) : AppState W H N D F :=
  mkAppState sv (app_config st) (app_files st).

(** A service call whose errors are answered with their response. *)
Definition svc {A} (c : srv W H N D A) : web A := λ st,
  match c (app_service st) with
  | (sv, Done r) => (with_service st sv, Done (map_err service_error_to_response r))
  | (sv, Panicked) => (with_service st sv, Panicked)
  | (sv, OutOfFuel) => (with_service st sv, OutOfFuel)
  end.

(** What is answered. *)
Definition answer (c : web Response) (st : AppState W H N D F) : AppState W H N D F * outcome Response :=
  match c st with
  | (st, Done (Ok r)) | (st, Done (Err r)) => (st, Done r)
  | (st, Panicked) => (st, Panicked)
  | (st, OutOfFuel) => (st, OutOfFuel)
  end.

Definition required (message : string) (v : option string) : web string :=
  match non_empty v with Some s => web_ret s | None => respond (error_response 400 message) end.
End web.
Arguments web : clear implicits.

Declare Scope web_scope.
Delimit Scope web_scope with web.
Notation "'let^' x ':=' c 'in' k" := (web_bind c (λ x, k))
  (at level 10, x binder, c at level 100, k at level 200) : web_scope.
Notation "c ';^' k" := (web_bind c (λ _, k)) (at level 100, k at level 200, right associativity) : web_scope.
Open Scope web_scope.

(** ** Handlers *)

(** What one push meets: whether the pipeline lock stays busy, the fresh
    token and task number, the sends the channel takes, the reads of the token,
    and whether a broken body is recorded after the pipeline has ended. *)
Record PushRun := mkPushRun {
  pr_busy : bool; pr_token : nat; pr_uuid : string;
  pr_accepts : nat → bool; pr_cancelled : nat → bool; pr_late : bool;
}.

Definition query_missing (name : string) : string := "missing required query parameter: " +:+ name.
Definition parameter_missing (name : string) : string := "missing required parameter: " +:+ name.

Section handlers.
Context {W H N D F : Type} `{LanceOps W H, LanceScan W H, LanceCount W H} `{LanceIndexOps W H, LanceMaintOps W H} `{ByteSerialize} {HB : HashIter string (list BinNums.N)}
        `{SledOps D, Codec, JsonVectors} {HCl : Clients N} `{Formats} `{FileOps F, SettingsJson} `{HttpLib}
        {HD : HashIter string (DatasetCacheEntry H)} {HT : HashIter string TagContents} {HU : HashIter string unit}
        {HF : HashIter string f32} {HO : HashIter (string * string) CanonicalObservation}
        {HE : HashIter string (string * (Z * (list f32 * option (list f32))))}
        {HCh : HashIter string ChunkHit} {HFd : HashIter string FusedDoc} {HM : HashIter (string * Z) (f32 * ChunkHit)}
        {HL : Lowercase} {HK : HashIter string (nat * string)} {HTs : HashIter string (TaskStatus * Z)}.
Context (cosine_distance : list f32 → list f32 → f32) (clock : nat → Z).
Context (vector_config : VectorIndexConfig) (encode : string → result string Encoding).
Context (from_str : string → result string Operation).
Abbreviation Web := (web W H N D F).

Definition handle_last_indexed (params : LastIndexedParams) : Web Response :=
  let^ domain := required (query_missing "domain") (lp_domain params) in
  let branch := default "main" (lp_branch params) in
  web_lift (validate_branch_name branch);^
  let^ r := svc (last_indexed domain branch) in
  web_ret (json_response 200 (PLastIndexed r)).

(** [domain_settings.set], when clustering is asked for and the domain parses. *)
Definition enable_clustering (store_clustering : option bool) (domain : string) : Web unit := λ st,
  match store_clustering, parse_domain domain with
  | Some true, Ok rp =>
      let sv := app_service st in
      let '(m, f) := settings_set (domain_str (from_resource_path rp)) (mkDomainSettings true) (sv_settings sv) (app_files st) in
      (mkAppState (mkService (sv_store sv) m (sv_config sv) (sv_chunk_params sv) (sv_net sv) (sv_embed_cache sv)
                     (sv_ready_index sv) (sv_ready_search sv) (sv_tasks sv) (sv_active_tasks sv) (sv_clock_reads sv))
         (app_config st) f, Done (Ok tt))
  | _, _ => (st, Done (Ok tt))
  end.

(** The error recorded before the channel closes. *)
Definition record_body_error (task_id : string) (message : option string) : Web unit :=
  match message with Some m => svc (record_error_task clock task_id m) | None => web_ret tt end.

Definition stream_response (task_id : string) (msgs : list ProgressUpdate) : Response :=
  mkResponse 200 [("Content-Type", "application/x-ndjson");
                  ("X-Task-Id", if header_value_ok task_id then task_id else "task-unknown")]
    (NdJson (map PProgress msgs)).

Definition handle_push (run : PushRun) (params : PushParams) (body : list BodyChunk) : Web Response :=
  let^ domain := required (query_missing "domain") (pp_domain params) in
  let branch := default "main" (pp_branch params) in
  web_lift (validate_branch_name branch);^
  let^ target_commit := required (query_missing "target_commit") (pp_target_commit params) in
  let is_stream := default false (pp_stream params) in
  enable_clustering (pp_store_clustering params) domain;^
  let^ started := svc (push_stream clock (pr_busy run) (pr_token run) (pr_uuid run) domain branch target_commit
                         (pp_parent_commit params)) in
  let '(domain_str, task_id) := started in
  let pipeline operations :=
    svc (push_stream_task clock vector_config encode (pr_cancelled run) is_stream domain_str branch target_commit task_id
           operations (pp_expected_docs params)) in
  if is_stream then
    let '(operations, message) := read_stream_body from_str (pr_accepts run) body in
    record_body_error task_id message;^
    let^ msgs := pipeline operations in
    web_ret (stream_response task_id msgs)
  else
    let '(operations, body_end) := read_body from_str (pr_accepts run) body in
    match body_end with
    | EndAborted line =>
        pipeline operations;^
        web_ret (error_response 422 ("abort received at line " +:+ pretty line))
    | EndMalformed message =>
        record_body_error task_id (Some message);^ pipeline operations;^ web_ret (text_response 200 task_id)
    | EndBroken message =>
        (if pr_late run then pipeline operations;^ record_body_error task_id (Some message)
         else record_body_error task_id (Some message);^ pipeline operations;^ web_ret tt);^
        web_ret (text_response 200 task_id)
    | EndRead => pipeline operations;^ web_ret (text_response 200 task_id)
    end.

Definition handle_check (task_id : option string) : Web Response :=
  let^ task_id := required (query_missing "task_id") task_id in
  let^ status := svc (check_task task_id) in
  web_ret (match status with
           | TaskError error => text_response 500 error
           | _ => json_response 200 (PStatus status)
           end).

Definition handle_assign (params : AssignParams) : Web Response :=
  let^ domain := required (query_missing "domain") (ap_domain params) in
  let^ source_commit := required (query_missing "source_commit") (ap_source_commit params) in
  let^ target_commit := required (query_missing "target_commit") (ap_target_commit params) in
  svc (assign domain source_commit target_commit);^
  web_ret no_content.

(** The commit a request asks for, by id or by branch. *)
Definition requested_commit (domain : string) (commit branch : option string) : Web string :=
  web_lift (validate_branch branch);^
  svc (resolve_commit_or_branch domain (default "" commit) branch).

Definition response_with_served_commit (body : Payload) (served_commit : string) : Response :=
  let value := "commit:" +:+ served_commit in
  if header_value_ok value then with_header "terminusdb-data-version" value (json_response 200 body)
  else error_response 500 ("served commit '" +:+ served_commit +:+ "' cannot be encoded as a data-version header").

Definition search_response (outcome : SearchOutcome) : Response :=
  response_with_served_commit (PHits (so_hits outcome)) (so_served_commit outcome).

Definition mode_of (mode : option string) : SearchMode := default Hybrid (mode ≫= search_mode_parse).

Definition handle_search_get (headers : HeaderMap) (raw_query : option string) (params : SearchGetParams) : Web Response :=
  web_lift (validate_data_version_header headers);^
  let^ domain := required (query_missing "domain") (sg_domain params) in
  let^ commit := requested_commit domain (sg_commit params) (sg_branch params) in
  let^ q := required (query_missing "q") (sg_q params) in
  web_lift (validate_mode (sg_mode params));^
  web_lift (validate_pagination (sg_start params) (sg_count_param params));^
  let^ outcome := svc (search_with_options domain commit q (mode_of (sg_mode params))
    (to_usize 0 (default 0%Z (sg_start params))) (to_usize 1 (default 10%Z (sg_count_param params)))
    (extract_repeated_param raw_query "doc_type") (extract_repeated_param raw_query "doc_id")
    (default false (sg_snippet params)) (extract_repeated_param raw_query "ancestor")) in
  web_ret (search_response outcome).

Definition handle_search_post (headers : HeaderMap) (params : SearchGetParams) (body : SearchRequestBody) : Web Response :=
  web_lift (validate_data_version_header headers);^
  let branch := or_else (sb_branch body) (sg_branch params) in
  let mode := or_else (sb_mode body) (sg_mode params) in
  let start := or_else (sb_start body) (sg_start params) in
  let count := or_else (sb_count body) (sg_count_param params) in
  web_lift (validate_branch branch);^
  let^ domain := required (parameter_missing "domain") (or_else (sb_domain body) (sg_domain params)) in
  let^ commit := svc (resolve_commit_or_branch domain (default "" (or_else (sb_commit body) (sg_commit params))) branch) in
  let^ q := required (parameter_missing "q") (or_else (sb_q body) (sg_q params)) in
  web_lift (validate_mode mode);^
  web_lift (validate_pagination start count);^
  let^ outcome := svc (search_with_options domain commit q (mode_of mode)
    (to_usize 0 (default 0%Z start)) (to_usize 1 (default 10%Z count))
    (default [] (sb_doc_type body)) (default [] (sb_doc_id body)) (default false (sb_snippet body))
    (default [] (sb_ancestors body))) in
  web_ret (search_response outcome).

Definition similar_response (outcome : SimilarOutcome) : Response :=
  response_with_served_commit (PHits (si_hits outcome)) (si_served_commit outcome).

Definition handle_similar (headers : HeaderMap) (raw_query : option string) (params : SimilarParams) : Web Response :=
  web_lift (validate_data_version_header headers);^
  let^ domain := required (query_missing "domain") (sm_domain params) in
  let^ commit := requested_commit domain (sm_commit params) (sm_branch params) in
  let^ id := required (query_missing "id") (sm_id params) in
  web_lift (validate_pagination (sm_start params) (sm_count params));^
  let^ outcome := svc (similar_with_options domain commit id
    (to_usize 0 (default 0%Z (sm_start params))) (to_usize 1 (default 10%Z (sm_count params)))
    (extract_repeated_param raw_query "doc_type") (extract_repeated_param raw_query "doc_id")
    (default false (sm_snippet params)) (extract_repeated_param raw_query "ancestor")) in
  web_ret (similar_response outcome).

(** [body.ancestors], or the repeated query parameter. *)
Definition body_ancestors (body : SimilarRequestBody) (raw_query : option string) : list string :=
  default (extract_repeated_param raw_query "ancestor") (mb_ancestors body).

Definition handle_similar_post (headers : HeaderMap) (raw_query : option string) (params : SimilarParams)
    (body : SimilarRequestBody) : Web Response :=
  web_lift (validate_data_version_header headers);^
  let branch := or_else (mb_branch body) (sm_branch params) in
  let id := default "" (or_else (mb_id body) (sm_id params)) in
  let start := or_else (mb_start body) (sm_start params) in
  let count := or_else (mb_count body) (sm_count params) in
  let start_val := to_usize 0 (default 0%Z start) in
  let count_val := to_usize 1 (default 10%Z count) in
  let doc_type_filter := default [] (mb_doc_type body) in
  let doc_id_filter := default [] (mb_doc_id body) in
  let snippet := default false (mb_snippet body) in
  let ancestors := body_ancestors body raw_query in
  web_lift (validate_branch branch);^
  let^ domain := required (parameter_missing "domain") (or_else (mb_domain body) (sm_domain params)) in
  let^ commit := svc (resolve_commit_or_branch domain (default "" (or_else (mb_commit body) (sm_commit params))) branch) in
  let text := default "" (mb_text body) in
  if String.eqb id "" && negb (String.eqb text "") then
    web_lift (validate_pagination start count);^
    let^ outcome := svc (similar_with_text domain commit text start_val count_val doc_type_filter doc_id_filter snippet ancestors) in
    web_ret (similar_response outcome)
  else if String.eqb id "" then respond (error_response 400 (parameter_missing "id or text"))
  else
    web_lift (validate_pagination start count);^
    let^ outcome := svc (similar_with_options domain commit id start_val count_val doc_type_filter doc_id_filter snippet ancestors) in
    web_ret (similar_response outcome).

Definition handle_duplicates (raw_query : option string) (params : DuplicatesParams) : Web Response :=
  let^ domain := required (query_missing "domain") (du_domain params) in
  let^ commit := requested_commit domain (du_commit params) (du_branch params) in
  web_lift (validate_pagination_with (du_start params) (du_count params) MAX_DUPLICATE_COUNT);^
  let threshold := default F32.zero (du_threshold params) in
  if negb (F32.is_finite threshold) || F32.lt threshold F32.zero
  then respond (error_response 400 "threshold must be a finite, non-negative number")
  else
    let start := Z.to_nat (default 0%Z (du_start params)) in
    let count := Z.to_nat (default usize_max (du_count params)) in
    let scope := mkDuplicateScope (extract_repeated_param raw_query "doc_type") (extract_repeated_param raw_query "doc_id")
                   (extract_repeated_param raw_query "target_doc_type") (extract_repeated_param raw_query "target_doc_id") in
    let^ groups := svc (duplicates_with_options domain commit threshold scope (default false (du_snippet params)) start count
                          (extract_repeated_param raw_query "ancestor")) in
    web_ret (json_response 200 (PGroups groups)).

(** The headers of an embedding stream are made with [parse().unwrap()]. *)
Definition embeddings_stream_response (domain commit : string) (doc_ids doc_types ancestors : list string) : Web Response :=
  let^ r := svc (fetch_embeddings_stream domain commit doc_ids doc_types ancestors) in
  if forallb header_value_ok [es_served_commit r; es_embedding_model r; es_clustering_model r] then
    web_ret (mkResponse 200
      [("content-type", "application/x-ndjson"); ("x-served-commit", es_served_commit r);
       ("x-store-clustering", if es_store_clustering r then "true" else "false");
       ("x-total-count", pretty (N.of_nat (es_total_count r)));
       ("x-embedding-model", es_embedding_model r); ("x-clustering-model", es_clustering_model r)]
      (NdJson (map PRecord (es_receiver r))))
  else panics.

(** A header as text: [""] when absent or not text. *)
Definition header_text (headers : HeaderMap) (name : string) : string := default "" (headers name ≫= to_str).

Definition handle_embeddings_stream (commit : string) (params : EmbeddingsParams) : Web Response :=
  embeddings_stream_response (ep_domain params) commit (comma_list (ep_doc_ids params)) (comma_list (ep_doc_types params))
    (default [] (ep_ancestors params)).

Definition handle_embeddings (params : EmbeddingsParams) (headers : HeaderMap) : Web Response :=
  let^ commit := requested_commit (ep_domain params) (ep_commit params) (ep_branch params) in
  if contains "application/x-ndjson" (header_text headers "accept") then handle_embeddings_stream commit params
  else
    let doc_ids := comma_list (ep_doc_ids params) in
    let doc_types := comma_list (ep_doc_types params) in
    let ancestors := default [] (ep_ancestors params) in
    let^ r := svc (fetch_embeddings (ep_domain params) commit doc_ids doc_types ancestors) in
    web_ret (json_response 200 (PEmbeddings r)).

(** What the lines of an NDJSON request have said so far. *)
Record Gathered := mkGathered {
  ga_domain : string; ga_commit : string; ga_ancestors : list string; ga_doc_types : list string; ga_doc_ids : list string;
}.

Context (ndjson_line : string → result string EmbeddingsNdjsonLine) (embeddings_body : string → result string EmbeddingsBody).

Definition gather_line (i : nat) (g : Gathered) (parsed : EmbeddingsNdjsonLine) : Gathered :=
  let g := if (i =? 0)%nat || String.eqb (ga_domain g) "" then
             mkGathered (nl_domain parsed) (nl_commit parsed)
               (if is_empty (nl_ancestors parsed) then ga_ancestors g else nl_ancestors parsed)
               (if is_empty (nl_doc_types parsed) then ga_doc_types g else nl_doc_types parsed) (ga_doc_ids g)
           else g in
  match nl_doc_id parsed with
  | Some id => mkGathered (ga_domain g) (ga_commit g) (ga_ancestors g) (ga_doc_types g) (ga_doc_ids g ++ [id])
  | None => g
  end.

Fixpoint gather_lines (i : nat) (lines : list string) (g : Gathered) : result Response Gathered :=
  match lines with
  | [] => Ok g
  | line :: lines =>
      let trimmed := trim line in
      if String.eqb trimmed "" then gather_lines (S i) lines g
      else match ndjson_line trimmed with
           | Err e => Err (error_response 400 ("Invalid NDJSON line " +:+ pretty i +:+ ": " +:+ e))
           | Ok parsed => gather_lines (S i) lines (gather_line i g parsed)
           end
  end.

Definition handle_embeddings_post_ndjson (body : string) : Web Response :=
  if negb (utf8_valid (str_bytes body)) then respond (error_response 400 "Invalid UTF-8")
  else
    let^ g := web_lift (gather_lines 0 (lines body) (mkGathered "" "" [] [] [])) in
    if String.eqb (ga_domain g) "" || String.eqb (ga_commit g) ""
    then respond (error_response 400 "Missing domain or commit in NDJSON request")
    else embeddings_stream_response (ga_domain g) (ga_commit g) (ga_doc_ids g) (ga_doc_types g) (ga_ancestors g).

Definition handle_embeddings_post (headers : HeaderMap) (body : string) : Web Response :=
  if contains "application/x-ndjson" (header_text headers "content-type") then handle_embeddings_post_ndjson body
  else
    match embeddings_body body with
    | Err e => respond (error_response 400 ("Invalid JSON body: " +:+ e))
    | Ok params =>
        let^ commit := requested_commit (eb_domain params) (eb_commit params) (eb_branch params) in
        if eb_stream params
        then embeddings_stream_response (eb_domain params) commit (eb_doc_ids params) (eb_doc_types params) (eb_ancestors params)
        else
          let^ r := svc (fetch_embeddings (eb_domain params) commit (eb_doc_ids params) (eb_doc_types params) (eb_ancestors params)) in
          web_ret (json_response 200 (PEmbeddings r))
    end.

Definition handle_delete_domain (domain : option string) : Web Response :=
  let^ domain := required (query_missing "domain") domain in
  svc (delete_domain domain);^
  web_ret no_content.

Definition handle_delete_branch_index (domain branch : option string) : Web Response :=
  let^ domain := required (query_missing "domain") domain in
  let^ branch := required (query_missing "branch") branch in
  web_lift (validate_branch_name branch);^
  svc (delete_branch_index domain branch);^
  web_ret no_content.

Definition handle_health_live : Web Response := web_ret (json_response 200 PAlive).

Definition handle_health_ready : Web Response := λ st,
  let index_ready := is_index_ready (app_service st) in
  let search_ready := is_search_ready (app_service st) in
  let ready := index_ready || search_ready in
  (st, Done (Ok (json_response (if ready then 200 else 503) (PReady ready index_ready search_ready)))).

Definition roles_of (role : option string) : result Response (EmbeddingRole * EmbeddingRole) :=
  match role with
  | None => Ok (RoleQuery, RoleDocument)
  | Some r =>
      if String.eqb r "query" then Ok (RoleQuery, RoleDocument)
      else if String.eqb r "clustering" then Ok (RoleClustering, RoleClustering)
      else if String.eqb r "classification" then Ok (RoleClassification, RoleClassification)
      else if String.eqb r "document" then Ok (RoleDocument, RoleDocument)
      else Err (error_response 400 ("unsupported role: '" +:+ r +:+ "' (supported: query, document, clustering, classification)"))
  end.

Definition handle_compare (params : CompareParams) (body : CompareRequestBody) : Web Response :=
  match cp_method params with
  | None => respond (error_response 400 "missing required query parameter: method (supported: embedding)")
  | Some m =>
      if negb (String.eqb m "embedding")
      then respond (error_response 400 ("unsupported compare method: '" +:+ m +:+ "' (supported: embedding)"))
      else
        let^ roles := web_lift (roles_of (cp_role params)) in
        let^ source := required "missing required body field: source" (cb_source body) in
        let^ target := required "missing required body field: target" (cb_target body) in
        let^ r := svc (compare_with_roles cosine_distance source target roles.1 roles.2) in
        web_ret (json_response 200 (PCompare r))
  end.

Definition handle_suggest (fuel : nat) (headers : HeaderMap) (raw_query : option string) (params : SuggestParams) : Web Response :=
  web_lift (validate_data_version_header headers);^
  let^ domain := required (query_missing "domain") (su_domain params) in
  let^ commit := requested_commit domain (su_commit params) (su_branch params) in
  let^ q := required (query_missing "q") (su_q params) in
  let count := to_usize 1 (default 11%Z (su_count params)) in
  let^ outcome := svc (suggest fuel domain commit q count (extract_repeated_param raw_query "doc_type")
    (extract_repeated_param raw_query "doc_id") (extract_repeated_param raw_query "ancestor")) in
  web_ret (response_with_served_commit (PSuggest outcome) (su_served_commit outcome)).

(** [(0.0..=1.0).contains(&t)]. *)
Definition in_unit (t : f32) : bool := F32.le F32.zero t && F32.le t F32.one.

Definition handle_candidates (body : CandidatesRequestBody) : Web Response :=
  let^ domain := required (parameter_missing "domain") (cd_domain body) in
  let^ commit := required (parameter_missing "commit") (cd_commit body) in
  match cd_threshold_set body with
  | None => respond (error_response 400 (parameter_missing "threshold_set"))
  | Some threshold_set =>
      if negb (in_unit threshold_set) then respond (error_response 400 "threshold_set must be in [0, 1]")
      else
        let threshold_target := default threshold_set (cd_threshold_target body) in
        if negb (in_unit threshold_target) then respond (error_response 400 "threshold_target must be in [0, 1]")
        else
          let k := default 5 (cd_k body) in
          if (k <? 1)%nat then respond (error_response 400 "k must be >= 1")
          else
            let include := default "" (cd_include body) in
            let scope := mkDuplicateScope (default [] (cd_set_doc_types body)) (default [] (cd_set_doc_ids body))
                           (default [] (cd_target_doc_types body)) (default [] (cd_target_doc_ids body)) in
            let^ r := svc (candidates_gather cosine_distance clock domain commit scope k threshold_set threshold_target
                             (includes include "embeddings") (includes include "content") (default [] (cd_ancestors body))) in
            web_ret (json_response 200 (PCandidates r))
  end.

(** Without a domain the answer also holds the sizes of the structures in
    memory, under [internal]. *)
Definition handle_statistics (gauges : Gauges) (domain : option string) : Web Response :=
  match non_empty domain with
  | Some d => let^ s := svc (statistics_for_domain d) in web_ret (json_response 200 (PStatistics s None))
  | None =>
      let^ s := svc statistics in
      let^ i := svc (internal_stats gauges) in
      web_ret (json_response 200 (PStatistics s (Some i)))
  end.

Definition handle_integrity (domain : option string) : Web Response :=
  let^ domain := required (query_missing "domain") domain in
  let^ report := svc (integrity_check domain) in
  web_ret (json_response 200 (PIntegrity report)).

(** ** The router *)

Inductive Method := MGet | MPost | MDelete.
#[export] Instance Method_eq_dec : EqDecision Method. Proof. solve_decision. Defined.

Record Request := mkRequest {
  rq_method : Method; rq_path : string; rq_headers : HeaderMap; rq_query : option string;
  rq_body : string; rq_chunks : list BodyChunk;
}.

Inductive Endpoint :=
| EpLastIndexed | EpPush | EpCheck | EpAssign | EpSearchGet | EpSearchPost | EpSuggest | EpSimilar | EpSimilarPost
| EpDuplicates | EpCandidates | EpCompare | EpStatistics | EpIntegrity | EpEmbeddings | EpEmbeddingsPost
| EpDeleteDomain | EpDeleteBranchIndex | EpHealthLive | EpHealthReady.

Definition authed_routes : list (Method * string * Endpoint) :=
  [ (MGet, "/last-indexed", EpLastIndexed); (MPost, "/push", EpPush); (MGet, "/check", EpCheck); (MPost, "/assign", EpAssign);
    (MGet, "/search", EpSearchGet); (MPost, "/search", EpSearchPost); (MGet, "/suggest", EpSuggest);
    (MGet, "/similar", EpSimilar); (MPost, "/similar", EpSimilarPost); (MGet, "/duplicates", EpDuplicates);
    (MPost, "/candidates", EpCandidates); (MPost, "/compare", EpCompare); (MGet, "/statistics", EpStatistics);
    (MGet, "/integrity", EpIntegrity); (MGet, "/embeddings", EpEmbeddings); (MPost, "/embeddings", EpEmbeddingsPost);
    (MDelete, "/domain", EpDeleteDomain); (MDelete, "/branch-index", EpDeleteBranchIndex) ].
Definition public_routes : list (Method * string * Endpoint) :=
  [ (MGet, "/health/live", EpHealthLive); (MGet, "/health/ready", EpHealthReady) ].

Definition find_route (routes : list (Method * string * Endpoint)) (rq : Request) : option Endpoint :=
  (λ r, r.2) <$> List.find (λ r, bool_decide (r.1.1 = rq_method rq) && String.eqb r.1.2 (rq_path rq)) routes.

(** [auth_middleware]. *)
Definition auth_middleware (headers : HeaderMap) (next : Web Response) : Web Response := λ st,
  let auth_header := headers "authorization" ≫= to_str in
  if verify_basic_auth auth_header (cf_admin_user (app_config st)) (cf_admin_secret (app_config st)) then next st
  else (st, Done (Ok (error_response 401 "missing or wrong admin secret"))).

(** [build_router]; [unrouted]: the answer to a request no route takes. *)
Definition build_router (require_auth : bool) (handle : Endpoint → Request → Web Response) (unrouted : Request → Response)
    (rq : Request) : Web Response :=
  match find_route authed_routes rq with
  | Some e => if require_auth then auth_middleware (rq_headers rq) (handle e rq) else handle e rq
  | None =>
      match find_route public_routes rq with
      | Some e => handle e rq
      | None => web_ret (unrouted rq)
      end
  end.

Definition router := build_router true.
Definition trusted_router := build_router false.
End handlers.
