(* ===== verification/HttpSpec.v ===== *)
(** * What the HTTP interface guarantees

    The admin-secret gate, the requests that only read, pagination, what a
    search answers with, and a push from its body to the tagged commit. *)

From S2P Require Import Integrity Stats Prelude F32 RustStr Model Distance LayerIdx Ingest Body Chunk Schema Rollup Dedup Lance Search Resolve Knn DatasetCache Store Commit Tasks Index Maintain Embed Pipeline Growth PipelineSpec PipelineRun Snapshot Isolation Neighbours Suggest Config Service ServiceSpec Http.

(** ** Handlers step by step *)

Section web.
Context {W H N D F : Type}.
Implicit Types st : AppState W H N D F.

Lemma web_bind_done {A B} (c : web W H N D F A) (k : A → web W H N D F B) st st' r :
  web_bind c k st = (st', Done r) →
  (∃ e, c st = (st', Done (Err e)) ∧ r = Err e) ∨ ∃ st1 a, c st = (st1, Done (Ok a)) ∧ k a st1 = (st', Done r).
Proof.
  unfold web_bind. destruct (c st) as [st1 [[a|e]| |]]; [|intros [= <- <-]; eauto|done|done].
  intros Hk. right. eauto.
Qed.

Lemma web_bind_ok {A B} (c : web W H N D F A) (k : A → web W H N D F B) st st' b :
  web_bind c k st = (st', Done (Ok b)) → ∃ st1 a, c st = (st1, Done (Ok a)) ∧ k a st1 = (st', Done (Ok b)).
Proof. intros [(e & _ & [=])|Hr]%web_bind_done. done. Qed.

Lemma svc_ok {A} (c : srv W H N D A) st st' a :
  svc c st = (st', Done (Ok a)) →
  c (app_service st) = (app_service st', Done (Ok a)) ∧ st' = with_service st (app_service st').
Proof.
  unfold svc. destruct (c (app_service st)) as [sv [[x|e]| |]]; cbn; intros E; simplify_eq; by split.
Qed.

Lemma required_ok m v st st' s :
  required m v st = (st', Done (Ok s)) → st' = st ∧ v = Some s ∧ s ≠ "".
Proof.
  unfold required, respond, web_ret, non_empty. destruct v as [v|]; cbn; [|by intros].
  destruct (String.eqb_spec v "") as [->|Hne]; cbn; intros [= <- <-]. by split_and!.
Qed.

Lemma web_lift_ok {A} (r : result Response A) st st' a : web_lift r st = (st', Done (Ok a)) → st' = st ∧ r = Ok a.
Proof. by intros [= <- ->]. Qed.
End web.

(** ** The admin-secret gate *)

Section gate.
Context {W H N D F : Type} `{HttpLib}.

(** The header carries [user:secret], where the user has no colon. *)
Definition credentials (headers : HeaderMap) (user secret : string) : Prop :=
  ∃ value encoded decoded, headers "authorization" = Some value ∧ header_text_ok value = true ∧
    value = "Basic " +:+ encoded ∧ base64_decode encoded = Ok decoded ∧ utf8_valid (str_bytes decoded) = true ∧
    decoded = user +:+ ":" +:+ secret ∧ no_char ":"%char user.

Lemma strip_prefix_inv p s r : strip_prefix p s = Some r ↔ s = p +:+ r.
Proof.
  split; [|by intros ->; apply strip_prefix_app].
  revert s; induction p as [|a p IH]; intros s; cbn; [by intros [= <-]|]. destruct s as [|b s]; [done|].
  destruct (Ascii.eqb_spec a b) as [->|]; [|done]. by intros ->%IH.
Qed.

Lemma verify_basic_auth_iff headers user secret :
  verify_basic_auth (headers "authorization" ≫= to_str) user secret = true ↔ credentials headers user secret.
Proof.
  unfold verify_basic_auth, credentials, to_str. destruct (headers "authorization") as [value|]; cbn [mbind option_bind]; [|split; [done|by intros (? & ? & ? & ? & _)]].
  destruct (header_text_ok value) eqn:Ht; [|split; [done|intros (? & ? & ? & [= <-] & Hx & _); congruence]].
  destruct (strip_prefix "Basic " value) as [encoded|] eqn:Ep.
  2: { split; [done|]. intros (? & e & ? & [= <-] & _ & Hv & _). apply strip_prefix_inv in Hv. congruence. }
  apply strip_prefix_inv in Ep. subst value. split.
  - destruct (base64_decode encoded) as [decoded|] eqn:Ed; [|done]. destruct (utf8_valid _) eqn:Eu; [|done].
    destruct (split_once _ decoded) as [[u s]|] eqn:Es; [|done]. apply split_once_inv in Es as [-> Hn].
    intros [->%String.eqb_eq ->%String.eqb_eq]%andb_true_iff. by exists ("Basic " +:+ encoded), encoded, (user +:+ ":" +:+ secret).
  - intros (? & e & decoded & [= <-] & _ & Hv & Hd & Hu & -> & Hn). 
    apply strip_prefix_inv in Hv. rewrite strip_prefix_app in Hv. injection Hv as ->. rewrite Hd, Hu.
    assert (split_once ":" (user +:+ ":" +:+ secret) = Some (user, secret)) as -> by by apply split_once_inv.
    by rewrite !String.eqb_refl.
Qed.

Lemma find_route_in routes rq e :
  find_route routes rq = Some e → ∃ m p, (m, p, e) ∈ routes ∧ m = rq_method rq ∧ p = rq_path rq.
Proof.
  unfold find_route. intros ([[m p] e'] & Hf & ->)%fmap_Some. apply List.find_some in Hf as [Hin Hm].
  apply andb_true_iff in Hm as [Hm%bool_decide_eq_true Hp%String.eqb_eq]. cbn in Hm, Hp. subst m p. exists (rq_method rq), (rq_path rq).
  split_and!; [by apply list_elem_of_In|done..].
Qed.

(** C9: behind the router with authentication, a request to any endpoint but the
    two health probes reaches its handler exactly when it carries the admin
    user and secret; otherwise the answer is 401 and nothing has happened,
    whatever the handler would do.  The probes need no credentials. *)
Theorem gate_refuses_strangers (handle : Endpoint → Request → web W H N D F Response) unrouted rq e st :
  (find_route authed_routes rq = Some e →
   let admitted := credentials (rq_headers rq) (cf_admin_user (app_config st)) (cf_admin_secret (app_config st)) in
   (admitted → router handle unrouted rq st = handle e rq st) ∧
   (¬ admitted → router handle unrouted rq st = (st, Done (Ok (error_response 401 "missing or wrong admin secret"))))) ∧
  (find_route public_routes rq = Some e → router handle unrouted rq st = handle e rq st).
Proof.
  split.
  - intros Hr admitted. unfold router, build_router, auth_middleware. rewrite Hr. cbv zeta.
    pose proof (verify_basic_auth_iff (rq_headers rq) (cf_admin_user (app_config st)) (cf_admin_secret (app_config st))) as Hv.
    fold admitted in Hv. destruct (verify_basic_auth _ _ _).
    + split; [done|]. intros []. by apply Hv.
    + split; [|done]. intros Ha. by apply Hv in Ha.
  - intros Hr. unfold router, build_router.
    assert (find_route authed_routes rq = None) as ->; [|by rewrite Hr].
    destruct (find_route authed_routes rq) as [e'|] eqn:Ha; [|done].
    apply find_route_in in Ha as (m' & p' & Hin' & Hm' & Hp'). apply find_route_in in Hr as (m & p & Hin & Hm & Hp). subst m p.
    assert (Forall (λ r, negb (String.eqb r.1.2 (rq_path rq)) = true) authed_routes) as Hall.
    { assert (rq_path rq = "/health/live" ∨ rq_path rq = "/health/ready") as [-> | ->].
      { apply elem_of_cons in Hin as [[= _ -> _]|[[= _ -> _]|[]%elem_of_nil]%elem_of_cons]; auto. }
      all: repeat (constructor; [by vm_compute|]); constructor. }
    rewrite Forall_forall in Hall. apply Hall in Hin'. cbn in Hin'. by rewrite Hp', String.eqb_refl in Hin'.
Qed.
End gate.

(** ** Requests that only read *)

Section requests.
Context {W H N D F : Type} `{LanceLaws W H} {HS : LanceScan W H} {HCo : LanceCount W H} `{ByteSerialize}
        `{SledOps D, Codec, JsonVectors} {HCl : Clients N} `{Formats} `{HttpLib}
        {HD : HashIter string (DatasetCacheEntry H)} {HT : HashIter string TagContents} {HU : HashIter string unit}
        {HF : HashIter string f32} {HO : HashIter (string * string) CanonicalObservation}
        {HE : HashIter string (string * (Z * (list f32 * option (list f32))))}
        {HCh : HashIter string ChunkHit} {HFd : HashIter string FusedDoc} {HM : HashIter (string * Z) (f32 * ChunkHit)}
        {HL : Lowercase} {HK : HashIter string (nat * string)} {HTs : HashIter string (TaskStatus * Z)}
        {HI : LanceIndexOps W H} {HMO : LanceMaintOps W H} {HB : HashIter string (list BinNums.N)}.
Context (cosine_distance : list f32 → list f32 → f32) (clock : nat → Z).
Implicit Types (st : AppState W H N D F) (sv : Service W H N D).

Definition web_reads st st' : Prop :=
  reading (app_service st) (app_service st') ∧ app_config st' = app_config st ∧ app_files st' = app_files st.

Class WebReading {A} (c : web W H N D F A) : Prop := web_reading_run st st' r : c st = (st', r) → web_reads st st'.

#[export] Instance web_reading_lift {A} (r : result Response A) : WebReading (web_lift r).
Proof. intros st st' x [= <- _]. by split. Qed.
#[export] Instance web_reading_ret {A} (a : A) : WebReading (web_ret a).
Proof. intros st st' x [= <- _]. by split. Qed.
#[export] Instance web_reading_respond {A} r : WebReading (respond (A:=A) r).
Proof. intros st st' x [= <- _]. by split. Qed.
#[export] Instance web_reading_panics {A} : WebReading (panics (A:=A)).
Proof. intros st st' x [= <- _]. by split. Qed.
#[export] Instance web_reading_required m v : WebReading (required m v).
Proof. unfold required. destruct (non_empty v); apply _. Qed.
#[export] Instance web_reading_bind {A B} (c : web W H N D F A) (k : A → web W H N D F B) :
  WebReading c → (∀ a, WebReading (k a)) → WebReading (web_bind c k).
Proof.
  intros Hc Hk st st' r. unfold web_bind. destruct (c st) as [st1 [[a|e]| |]] eqn:E; apply Hc in E; try by intros [= <- _].
  intros Hr. apply Hk in Hr. destruct E as (? & ? & ?), Hr as (? & ? & ?). split; [by etrans|]. split; congruence.
Qed.
Lemma web_reading_svc {A} (c : srv W H N D A) : read_request cosine_distance clock A c → WebReading (svc c).
Proof.
  intros Hc st st' r. unfold svc. destruct (c (app_service st)) as [sv o] eqn:E. apply (read_request_reading _ _ _ Hc) in E.
  destruct o; intros [= <- _]; by split.
Qed.
#[local] Hint Extern 1 (WebReading (svc _)) => (apply web_reading_svc; constructor) : typeclass_instances.
#[local] Hint Extern 2 (WebReading (match ?x with _ => _ end)) => destruct x : typeclass_instances.

#[export] Instance web_reading_commit domain commit branch : WebReading (requested_commit domain commit branch).
Proof. unfold requested_commit. apply _. Qed.
#[export] Instance web_reading_stream domain commit ids tys anc : WebReading (embeddings_stream_response domain commit ids tys anc).
Proof. unfold embeddings_stream_response. apply _. Qed.

Context (ndjson_line : string → result string EmbeddingsNdjsonLine) (embeddings_body : string → result string EmbeddingsBody).

#[export] Instance web_reading_ndjson body : WebReading (handle_embeddings_post_ndjson ndjson_line body).
Proof. unfold handle_embeddings_post_ndjson. apply _. Qed.

(** The handlers but those of a push, an assignment and the deletions. *)
Inductive reading_handler : web W H N D F Response → Prop :=
| rh_last_indexed p : reading_handler (handle_last_indexed p)
| rh_check id : reading_handler (handle_check id)
| rh_search_get hs raw p : reading_handler (handle_search_get hs raw p)
| rh_search_post hs p b : reading_handler (handle_search_post hs p b)
| rh_suggest fuel hs raw p : reading_handler (handle_suggest fuel hs raw p)
| rh_similar hs raw p : reading_handler (handle_similar hs raw p)
| rh_similar_post hs raw p b : reading_handler (handle_similar_post hs raw p b)
| rh_duplicates raw p : reading_handler (handle_duplicates raw p)
| rh_candidates b : reading_handler (handle_candidates cosine_distance clock b)
| rh_compare p b : reading_handler (handle_compare cosine_distance p b)
| rh_embeddings p hs : reading_handler (handle_embeddings p hs)
| rh_embeddings_post hs b : reading_handler (handle_embeddings_post ndjson_line embeddings_body hs b)
| rh_statistics gauges d : reading_handler (handle_statistics gauges d)
| rh_integrity d : reading_handler (handle_integrity d)
| rh_live : reading_handler handle_health_live
| rh_ready : reading_handler handle_health_ready.

Lemma reading_handler_reads (c : web W H N D F Response) : reading_handler c → WebReading c.
Proof.
  intros Hc. destruct Hc.
  - unfold handle_last_indexed. cbv zeta. apply _.
  - unfold handle_check. apply _.
  - unfold handle_search_get. cbv zeta. apply _.
  - unfold handle_search_post. cbv zeta. apply _.
  - unfold handle_suggest. cbv zeta. apply _.
  - unfold handle_similar. cbv zeta. apply _.
  - unfold handle_similar_post. cbv zeta. apply _.
  - unfold handle_duplicates. cbv zeta. apply _.
  - unfold handle_candidates. cbv zeta. apply _.
  - unfold handle_compare. apply _.
  - unfold handle_embeddings, handle_embeddings_stream. cbv zeta. apply _.
  - unfold handle_embeddings_post. apply _.
  - unfold handle_statistics. apply _.
  - unfold handle_integrity. apply _.
  - unfold handle_health_live. apply _.
  - intros s s' x [= <- _]. by split.
Qed.


(** ** Pagination *)

Lemma check_start_ok start : check_start start = Ok tt → (Z.of_nat (to_usize 0 (default 0 start)) ≤ MAX_START)%Z.
Proof.
  unfold check_start, to_usize, MAX_START. destruct start as [s|]; cbn; [|unfold MAX_START; lia].
  destruct (Z.ltb_spec s 0); [done|]. destruct (Z.ltb_spec 1000000 s); [done|]. lia.
Qed.

Lemma check_count_ok count max_count : (10 ≤ max_count)%Z → check_count count max_count = Ok tt →
  (1 ≤ Z.of_nat (to_usize 1 (default 10 count)) ≤ max_count)%Z.
Proof.
  unfold check_count, to_usize. destruct count as [c|]; cbn; [|unfold MAX_START; lia].
  destruct (Z.ltb_spec c 1); [done|]. destruct (Z.ltb_spec max_count c); [done|]. lia.
Qed.

Lemma validate_pagination_ok start count : validate_pagination start count = Ok tt →
  (Z.of_nat (to_usize 0 (default 0 start)) ≤ MAX_START)%Z ∧
  (1 ≤ Z.of_nat (to_usize 1 (default 10 count)) ≤ MAX_RESULT_COUNT)%Z.
Proof.
  unfold validate_pagination, validate_pagination_with. intros ([] & Hs & Hc)%result_bind_ok.
  split; [by apply check_start_ok|by apply check_count_ok].
Qed.

(** ** What a search answers *)

Context {HV : LanceVersions W H} {HVL : LanceVersionLaws W H}.

Lemma requested_commit_ok domain commit branch st st' c :
  requested_commit domain commit branch st = (st', Done (Ok c)) →
  web_reads st st' ∧ ∀ c0, commit = Some c0 → c0 ≠ "" → c = c0.
Proof.
  intros Hr. split; [by eapply web_reading_commit|]. intros c0 -> Hne. unfold requested_commit in Hr.
  apply web_bind_ok in Hr as (st1 & [] & _ & Hr). apply svc_ok in Hr as [Hr _].
  unfold resolve_commit_or_branch in Hr. cbn in Hr. destruct (String.eqb_spec c0 ""); [done|].
  unfold srv_ret in Hr. cbn in Hr. by injection Hr as _ ->.
Qed.

(** C8: a search answered with 200 names in its header the commit it served,
    which is the one asked for or one of the supplied ancestors; its body is
    the page asked for of the hits on the version that commit stands for, under
    the filters of the request; and no page begins beyond the millionth hit or
    has more than a thousand. *)
Theorem http_search_answers headers raw_query params st st' resp :
  cache_on_main (sv_store (app_service st)) →
  handle_search_get headers raw_query params st = (st', Done (Ok resp)) → re_status resp = 200%N →
  let start := to_usize 0 (default 0%Z (sg_start params)) in
  let count := to_usize 1 (default 10%Z (sg_count_param params)) in
  let repeated := extract_repeated_param raw_query in
  let s := sv_store (app_service st) in
  ∃ domain rp q commit served h v hits,
    sg_domain params = Some domain ∧ parse_domain domain = Ok rp ∧ sg_q params = Some q ∧
    (∀ c, sg_commit params = Some c → c ≠ "" → commit = c) ∧ served ∈ commit :: repeated "ancestor" ∧
    re_headers resp = [("terminusdb-data-version", "commit:" +:+ served)] ∧
    re_body resp = Json (PHits (page start count hits)) ∧
    (Z.of_nat start ≤ MAX_START)%Z ∧ (1 ≤ Z.of_nat count ≤ MAX_RESULT_COUNT)%Z ∧
    let d := domain_str (from_resource_path rp) in
    snapshot_of s d served h ∧
    Search.io_search_documents (λ ds r, l_run (dir_of s (dataset_path d)) ds r) (Ok h)
      (mkSearchQuery (l2_normalize v) q (mode_of (sg_mode params)) start count (repeated "doc_type") (repeated "doc_id")
         (default false (sg_snippet params))) = Ok (Some hits).
Proof.
  intros Hcm Hh Hst start count repeated s. unfold handle_search_get in Hh.
  apply web_bind_ok in Hh as (? & [] & [-> _]%web_lift_ok & Hh).
  apply web_bind_ok in Hh as (? & domain & (-> & Hd & _)%required_ok & Hh).
  apply web_bind_ok in Hh as (st1 & commit & Hc & Hh). apply requested_commit_ok in Hc as [(Hrd & _) Hc].
  apply web_bind_ok in Hh as (? & q & (-> & Hq & _)%required_ok & Hh).
  apply web_bind_ok in Hh as (? & [] & [-> _]%web_lift_ok & Hh).
  apply web_bind_ok in Hh as (? & [] & [-> [Hstart Hcount]%validate_pagination_ok]%web_lift_ok & Hh).
  apply web_bind_ok in Hh as (st2 & out & [Hs _]%svc_ok & Hh). unfold web_ret in Hh. injection Hh as _ <-.
  pose proof (rq_store _ _ Hrd) as Hstore.
  apply search_run in Hs as (rp & h & v & hits & Hp & _ & Hin & Hs & Hhits & Hpage); [|by eapply reads_on_main].
  exists domain, rp, q, commit, (so_served_commit out), h, v, hits. fold start count in Hpage |- *.
  unfold search_response, response_with_served_commit in Hst |- *. destruct (header_value_ok _); [|done]. cbn.
  rewrite Hpage. destruct Hcount as [Hc1 Hc2]. split_and!; try done.
  - by apply (reads_snapshot _ _ _ _ _ Hstore).
  - rewrite <-(reads_dir _ _ _ Hstore). exact Hhits.
Qed.

(** ** A push, from its body to the tag *)

Context {HIL : LanceIndexLaws W H} {HIG : LanceIndexGrows W H} {HML : LanceMaintLaws W H}.
Context `{FileOps F, SettingsJson} (vector_config : VectorIndexConfig) (encode : string → result string Encoding).
Context (from_str : string → result string Operation).

(** [s] after a push has registered its token. *)
Definition registered (d b : string) (token : nat) (s : LanceStore W H) : LanceStore W H :=
  (cancel_previous_pipeline_and_register d b token s).1.

Lemma push_stream_ok busy token uuid d_raw b c parent sv sv' d task :
  push_stream clock busy token uuid d_raw b c parent sv = (sv', Done (Ok (d, task))) →
  ∃ rp s1, parse_domain d_raw = Ok rp ∧ d = domain_str (from_resource_path rp) ∧ task = "task-" +:+ uuid ∧
    same_setup sv sv' ∧ accepted d b c parent (sv_store sv) s1 ∧ sv_store sv' = registered d b token s1.
Proof.
  unfold push_stream. intros (sv1 & [d0 t0] & Ha & Hr)%srv_bind_ok. pose proof (accept_push_run _ _ _ _ _ _ _ _ _ Ha) as Hrun. clear Ha. rename Hrun into Ha.
  destruct (parse_domain d_raw) as [rp|e]; [|by destruct Ha]. destruct Ha as [Hsame [(e & ? & _)|[[= -> ->] Hacc]]]; [done|].
  apply srv_bind_ok in Hr as (sv2 & [] & Hc & Hr). apply srv_io_ok in Hc as [Hc Hsv2]. destruct busy.
  { apply srv_bind_ok in Hr as (sv3 & [] & _ & Hr). by apply srv_bind_ok in Hr as (sv4 & [] & _ & Hr). }
  injection Hr as <- <- <-. exists rp, (sv_store sv1). split_and!; try done.
  - rewrite Hsv2. destruct Hsame as (? & ? & ? & ? & ?). by split_and!.
  - unfold registered. by rewrite Hc.
Qed.

Lemma enable_clustering_ok store_clustering domain rp st st' u :
  parse_domain domain = Ok rp → enable_clustering store_clustering domain st = (st', Done (Ok u)) →
  let sv := app_service st in let sv' := app_service st' in let d := domain_str (from_resource_path rp) in
  domain_clustering (sv_settings sv') d = match store_clustering with Some true => true | _ => domain_clustering (sv_settings sv) d end ∧
  sv_store sv' = sv_store sv ∧ sv_config sv' = sv_config sv ∧ sv_chunk_params sv' = sv_chunk_params sv ∧
  embedding_state sv' = embedding_state sv.
Proof.
  intros Hp. unfold enable_clustering. rewrite Hp. destruct store_clustering as [[]|]; [|by intros [= <- _]..].
  destruct (settings_set _ _ _ _) as [m f] eqn:Es. intros [= <- _]. cbn. split; [|done].
  unfold domain_clustering. replace m with (settings_set (domain_str (from_resource_path rp)) (mkDomainSettings true)
    (sv_settings (app_service st)) (app_files st)).1 by (by rewrite Es).
  by rewrite settings_set_get, String.eqb_refl.
Qed.

(** The state of a push handler once its pipeline has run. *)
Lemma pipeline_done progress cancelled d b c task ops expected st st' msgs n skipped
    (inv : N * option (EmbedCache D) → Prop) fd fc :
  svc (push_stream_task clock vector_config encode cancelled progress d b c task ops expected) st = (st', Done (Ok msgs)) →
  Tasks.check_task task (sv_tasks (app_service st')) = Some (Complete n skipped) →
  let sv := app_service st in
  provider_for (H4:=service_embedder (sv_config sv)) encode (sv_chunk_params sv) inv fd fc (sv_store sv) →
  inv (embedding_state sv) → ready (sv_store sv) d b →
  ∃ s, commit_done (domain_clustering (sv_settings sv) d) encode (sv_chunk_params sv) fd fc d b c ops (sv_store sv) s n skipped ∧
    sv_store (app_service st') = finished d b c s.
Proof.
  intros [Hp _]%svc_ok Hst sv Hprov Hinv Hready.
  apply push_stream_task_run in Hp as (_ & s & status & t & msgs' & _ & Hran & Hs & Ht).
  unfold Tasks.check_task in Hst. rewrite Ht in Hst. apply fmap_Some in Hst as (en & Hen & Hst).
  apply record_task_self in Hen. rewrite <-Hen, <-Hst in Hran. exists s. split; [|done]. by eapply stream_ran_commits.
Qed.

(** C7: a push over HTTP does what its body says, when the transport cuts the body
    between characters only (each chunk is valid UTF-8 of its own, in which case
    it does not matter where) and the task listens to the end (its channel stays
    open while the body is read): when the body parses to operations without
    an abort and the task of the push reads complete, the answer was 200, the commit was free when the push was accepted,
    and it is now done as the pipeline specifies for exactly those operations,
    with the clustering asked for and the counts the task reports; only the
    reservation and the token were given up since. *)
Theorem http_push_commits run params chunks rp ops st st' resp n skipped
    (inv : N * option (EmbedCache D) → Prop) fd fc :
  let sv := app_service st in
  let d := domain_str (from_resource_path rp) in
  let b := default "main" (pp_branch params) in
  let c := default "" (pp_target_commit params) in
  let clustering := match pp_store_clustering params with Some true => true | _ => domain_clustering (sv_settings sv) d end in
  parse_domain (default "" (pp_domain params)) = Ok rp →
  Forall (λ c, utf8_valid (str_bytes c) = true) chunks →
  parse_ndjson_body from_str (join "" chunks) = Ok ops → OpAbort ∉ ops → pr_accepts run = (λ _, true) →
  cache_on_main (sv_store sv) → (String.eqb b MAIN_BRANCH = false ∨ cache_current (sv_store sv) d) →
  provider_for (H4:=service_embedder (sv_config sv)) encode (sv_chunk_params sv) inv fd fc (sv_store sv) →
  inv (embedding_state sv) →
  handle_push clock vector_config encode from_str run params (map Ok chunks) st = (st', Done (Ok resp)) →
  Tasks.check_task ("task-" +:+ pr_uuid run) (sv_tasks (app_service st')) = Some (Complete n skipped) →
  re_status resp = 200%N ∧ c ≠ "" ∧ is_compact_rebuild_branch b = false ∧
  ∃ s1 s2, accepted d b c (pp_parent_commit params) (sv_store sv) s1 ∧
    commit_done clustering encode (sv_chunk_params sv) fd fc d b c ops (registered d b (pr_token run) s1) s2 n skipped ∧
    sv_store (app_service st') = finished d b c s2.
Proof.
  intros sv d b c clustering Hp Hv Hops Hna Hacc Hcm Hcur Hprov Hinv Hh Hst. unfold handle_push in Hh.
  apply web_bind_ok in Hh as (? & domain & (-> & Hd & _)%required_ok & Hh). rewrite Hd in Hp. cbn in Hp.
  apply web_bind_ok in Hh as (? & [] & [-> Hb]%web_lift_ok & Hh).
  apply web_bind_ok in Hh as (? & commit & (-> & Hc & Hne)%required_ok & Hh).
  assert (c = commit) as <- by (unfold c; by rewrite Hc).
  assert (is_compact_rebuild_branch b = false) as Hbn.
  { unfold b. unfold validate_branch_name in Hb. by destruct (is_compact_rebuild_branch _). }
  apply web_bind_ok in Hh as (st1 & u & He & Hh).
  apply (enable_clustering_ok _ _ _ _ _ _ Hp) in He as (Hcl & Hs1 & Hc1 & Hk1 & He1).
  apply web_bind_ok in Hh as (st2 & [d' task] & [Hpush Hst2]%svc_ok & Hh).
  apply push_stream_ok in Hpush as (rp' & s1 & Hp' & -> & -> & (_ & Hc2 & Hset2 & Hk2 & He2) & Ha & Hs2).
  rewrite Hp in Hp'. injection Hp' as <-. fold d b in Hh, Ha, Hs2, Hcl. rewrite Hs1 in Ha.
  destruct (read_body_parsed from_str chunks ops Hv Hops Hna) as [Hread Hstream]. rewrite Hacc in Hh.
  assert (Hready : ready (sv_store (app_service st2)) d b).
  { rewrite Hs2. destruct Ha as (_ & _ & Hg & Hmain & _). split; [by eapply cache_from_on_main; [apply Hg|]|].
    destruct (String.eqb b MAIN_BRANCH) eqn:Eb; [|by left]. destruct Hcur as [|Hcur]; [done|].
    right. destruct (Hmain (or_introl eq_refl)) as (s0 & _ & -> & Hc0). exact (Hc0 Hcur). }
  assert (Hprov2 : provider_for (H4:=service_embedder (sv_config (app_service st2))) encode (sv_chunk_params (app_service st2))
                     inv fd fc (sv_store (app_service st2))).
  { rewrite Hc2, Hc1, Hk2, Hk1. destruct Hprov as [? ? Hf1 Hf2].
    assert (Hdim : st_dim (sv_store (app_service st2)) = st_dim (sv_store sv)) by (rewrite Hs2; apply Ha).
    split; [done|done|intros ??; rewrite Hdim; eauto..]. }
  assert (Hinv2 : inv (embedding_state (app_service st2))) by (by rewrite He2, He1).
  assert (Hcl2 : domain_clustering (sv_settings (app_service st2)) d = clustering) by (by rewrite Hset2, Hcl).
  assert (Hcase : ∃ msgs, svc (push_stream_task clock vector_config encode (pr_cancelled run) (default false (pp_stream params))
            d b c ("task-" +:+ pr_uuid run) ops (pp_expected_docs params)) st2 = (st', Done (Ok msgs)) ∧ re_status resp = 200%N).
  { destruct (default false (pp_stream params)).
    - rewrite Hstream in Hh. cbn [record_body_error] in Hh. apply web_bind_ok in Hh as (? & ? & [= <- <-] & Hh).
      apply web_bind_ok in Hh as (st3 & msgs & Hpipe & [= <- <-]). by exists msgs.
    - rewrite Hread in Hh. apply web_bind_ok in Hh as (st3 & msgs & Hpipe & [= <- <-]). by exists msgs. }
  destruct Hcase as (msgs & Hpipe & Hcode). split; [done|]. split; [done|]. split; [done|].
  eapply pipeline_done in Hpipe as (s2 & C & Hfin); [|done..]. exists s1, s2. split; [done|].
  rewrite Hcl2, Hk2, Hk1, Hs2 in C. by split.
Qed.
End requests.

(** ** On the small dataset *)

#[local] Existing Instances RefScan.scan RefScan.scan_laws.
Import RunExample ServiceExample.

Module HttpExample.
Export ConfigExample.

(** Visible ASCII header values, [k=v] pairs, and credentials in the clear. *)
Definition visible (s : string) : bool := forallb (in_range 32 126) (str_bytes s).
Definition pair_of (s : string) : option (string * string) := split_once "="%char s.
#[export] Instance http_lib : HttpLib := {|
  header_value_ok := visible; header_text_ok := visible;
  form_pairs := λ s, omap pair_of (split_char "&"%char s);
  base64_decode s := Ok s |}.
#[export] Instance no_settings_file : SettingsJson := {| settings_of_json _ := Err "none"; settings_to_json _ := Err "none" |}.

(** One operation a line: [I:id:text], [C:id:text], [D:id], [abort]. *)
Definition op_line (s : string) : result string Operation :=
  match split_char ":"%char s with
  | ["I"; id; text] => Ok (Inserted id text)
  | ["C"; id; text] => Ok (Changed id text)
  | ["D"; id] => Ok (Deleted id)
  | ["abort"] => Ok OpAbort
  | _ => Err "expected value"
  end.

Definition app (s : CommitExample.St) : AppState (option RefLance.dir) RefLance.handle nat (gmap string string) Files :=
  mkAppState (serve s) cfg ∅.
Definition run1 : PushRun := mkPushRun false 1 "1" (λ _, true) (λ _, false) false.
Definition push_to (commit : string) (stream : bool) (expected : option N) : PushParams :=
  mkPushParams (Some "o/t") None (Some commit) None (Some stream) None expected.
Definition post (run : PushRun) (params : PushParams) (body : list BodyChunk) (s : CommitExample.St) :=
  handle_push ticks RunExample.config one_token op_line run params body (app s).

(** The operations of [RunExample.ops], cut at odd places. *)
Definition body1 : list string :=
  ["I:C:c" +:+ nl +:+ "C:A"; ":a2" +:+ nl; nl +:+ "I:D:b"; "ad" +:+ nl +:+ "D:B"].
Definition posted := post run1 (push_to "c2" true (Some 4%N)) (map Ok body1) store1.
Definition status_of (st : AppState (option RefLance.dir) RefLance.handle nat (gmap string string) Files) : option TaskStatus :=
  Tasks.check_task "task-1" (sv_tasks (app_service st)).
Definition code (o : outcome (result Response Response)) : N :=
  match o with Done (Ok r) | Done (Err r) => re_status r | _ => 0 end.

(** A search with the data version header's commit not indexed, but its parent. *)
Definition search_params : SearchGetParams :=
  mkSearchGetParams (Some "o/t") (Some "c9") None (Some "new") None (Some 1%Z) (Some "vector") None.
Definition found_page := handle_search_get (λ _, None) (Some "ancestor=c8&doc_type=Doc&ancestor=c1") search_params (app SnapshotExample.after).

Definition headers_of (value : string) : HeaderMap := λ n, if String.eqb n "authorization" then Some value else None.
Definition probe (path value : string) : Request := mkRequest MGet path (headers_of value) None "" [].
Definition teapot : Endpoint → Request → web (option RefLance.dir) RefLance.handle nat (gmap string string) Files Response :=
  λ _ _, web_ret (text_response 418 "").
End HttpExample.
Import HttpExample.

Lemma gate_refuses_strangers_witness :
  credentials (headers_of "Basic admin:") "admin" "" ∧
  router teapot (λ _, no_content) (probe "/check" "Basic admin:") (app store1) = (app store1, Done (Ok (text_response 418 ""))) ∧
  router teapot (λ _, no_content) (probe "/health/live" "") (app store1) = (app store1, Done (Ok (text_response 418 ""))).
Proof.
  assert (Hc : credentials (headers_of "Basic admin:") "admin" "").
  { exists "Basic admin:", "admin:", "admin:". split_and!; try by vm_compute. unfold no_char. intros Hin.
    repeat (apply elem_of_cons in Hin as [Hin|Hin]; [discriminate Hin|]). by apply elem_of_nil in Hin. }
  split; [done|]. split.
  - by apply (proj1 (gate_refuses_strangers teapot (λ _, no_content) (probe "/check" "Basic admin:") EpCheck (app store1)) eq_refl).
  - by apply (proj2 (gate_refuses_strangers teapot (λ _, no_content) (probe "/health/live" "") EpHealthLive (app store1)) eq_refl).
Defined.


Lemma http_search_answers_witness :
  match found_page.2 with
  | Done (Ok r) => ∃ hits, re_headers r = [("terminusdb-data-version", "commit:c1")] ∧ re_body r = Json (PHits hits) ∧ map sh_id hits = ["A"]
  | _ => False
  end.
Proof.
  destruct found_page as [st' [[r|r]| |]] eqn:E.
  2-4: refute_as (λ x, match x.2 with Done (Ok _) => true | _ => false end) in E.
  pose proof (f_equal (λ x, match x.2 with Done (Ok r) => Some (re_status r, re_headers r, match re_body r with Json (PHits hits) => map sh_id hits | _ => [] end) | _ => None end) E) as Hr.
  vm_compute in Hr. injection Hr as Hst Hhd Hids.
  destruct (http_search_answers example_cosine ticks (λ _, None) (Some "ancestor=c8&doc_type=Doc&ancestor=c1") search_params
    (app SnapshotExample.after) st' r SnapshotExample.after_on_main E (eq_sym Hst))
    as (domain & rp & q & commit & served & h & v & hits & _ & _ & _ & _ & _ & Hh & Hb & _).
  eexists. split; [exact (eq_sym Hhd)|]. split; [exact Hb|]. destruct r as [cd hs bd]. cbn in Hb, Hids. subst bd. exact (eq_sym Hids).
Defined.

Lemma http_push_commits_witness :
  code posted.2 = 200%N ∧ status_of posted.1 = Some (Complete 3 []) ∧
  ∃ s1 s2, commit_done true one_token window
    (λ t, vector_of (prefixed_text (embed_provider cfg) RoleDocument t))
    (λ t, vector_of (prefixed_text (clustering_provider cfg) RoleClustering t)) "o/t" "main" "c2" RunExample.ops
    (registered "o/t" "main" 1 s1) s2 3 [] ∧ sv_store (app_service posted.1) = finished "o/t" "main" "c2" s2.
Proof.
  assert (code posted.2 = 200%N ∧ status_of posted.1 = Some (Complete 3 [])) as [Hcode Hst] by by vm_compute.
  split; [done|]. split; [done|]. destruct posted as [st' [[resp|r]| |]] eqn:E.
  2-4: refute_as (λ x, match x.2 with Done (Ok _) => true | _ => false end) in E.
  unfold posted, post in E.
  destruct (http_push_commits ticks RunExample.config one_token op_line run1 (push_to "c2" true (Some 4%N)) body1
    (mkResourcePath "o" "t" "local" (RefBranch (mkBranchName "main"))) RunExample.ops (app store1) st' resp 3 []
    (faithful cfg vector_of vector_of)
    (λ t, vector_of (prefixed_text (embed_provider cfg) RoleDocument t))
    (λ t, vector_of (prefixed_text (clustering_provider cfg) RoleClustering t))) as (_ & _ & _ & s1 & s2 & _ & C & Hs).
  - exact domain_parsed.
  - repeat constructor.
  - by vm_compute.
  - apply (bool_decide_unpack (OpAbort ∉ RunExample.ops)). by vm_compute.
  - reflexivity.
  - exact (proj1 ready_store1).
  - exact (proj2 ready_store1).
  - by apply example_provider.
  - apply fresh_faithful.
  - exact E.
  - exact Hst.
  - exists s1, s2. split; [exact C|exact Hs].
Defined.

(** A plain push whose second line is malformed is answered 200 and indexed as
    far as it was read: the error recorded while the body was read gives way to
    the completion of the pipeline, which no announced count stops. *)
Lemma malformed_push_completes :
  let r := post run1 (push_to "c2" false None) [Ok ("I:C:c" +:+ nl +:+ "oops" +:+ nl +:+ "D:B")] store1 in
  code r.2 = 200%N ∧ status_of r.1 = Some (Complete 1 []) ∧ indexed (app_service r.1) "o/t" "c2".
Proof. split; [by vm_compute|]. split; [by vm_compute|]. apply (bool_decide_unpack (indexed _ "o/t" "c2")). by vm_compute. Qed.

(** So is one whose body breaks off, unless the error is recorded later. *)
Lemma broken_push_completes :
  let r late := post (mkPushRun false 1 "1" (λ _, true) (λ _, false) late) (push_to "c2" false None)
             [Ok ("I:C:c" +:+ nl); Err "reset"] store1 in
  status_of (r false).1 = Some (Complete 1 []) ∧ status_of (r true).1 = Some (TaskError "broken stream: reset") ∧
  indexed (app_service (r false).1) "o/t" "c2" ∧ indexed (app_service (r true).1) "o/t" "c2".
Proof. split; [by vm_compute|]. split; [by vm_compute|]. split; apply (bool_decide_unpack (indexed _ "o/t" "c2")); by vm_compute. Qed.

(** A refused push changes the clustering setting of its domain all the same. *)
Lemma refused_push_sets_clustering :
  let refused := handle_push ticks RunExample.config one_token op_line run1
    (mkPushParams (Some "x/y") (Some "dev") (Some "c2") (Some "c0") None (Some true) None) [] (app store1) in
  code refused.2 = 404%N ∧ domain_clustering (sv_settings (app_service refused.1)) "x/y" = true ∧
  domain_clustering (sv_settings (app_service (app store1))) "x/y" = false.
Proof. by vm_compute. Qed.

(** A commit id that is not visible ASCII can be pushed and searched for with a
    clean error, but a request to stream its embeddings panics. *)
Lemma embeddings_stream_panics :
  let commit := str_of_bytes e_acute in
  let st := (post run1 (push_to commit true None) [Ok "I:C:c"] store1).1 in
  code (handle_search_get (λ _, None) None
          (mkSearchGetParams (Some "o/t") (Some commit) None (Some "new") None None (Some "vector") None) st).2 = 500%N ∧
  match (embeddings_stream_response "o/t" commit [] [] [] st).2 with Panicked => True | _ => False end.
Proof. vm_compute. by split. Qed.

(** The number of suggestions is not bounded by the handler: a large one wraps
    the limit of the scan to a small one. *)
Lemma suggest_limit_wraps :
  scan_limit (mkSuggestQuery "q" (to_usize 1 3689348814741910323) [] []) = 4%Z.
Proof.
  unfold scan_limit, to_usize. cbn [sg_count]. rewrite Z2Nat.id by lia. by vm_compute.
Qed.
