(* ===== verification/Server.v ===== *)
(** * The server as a store of commits

    What the process as a whole promises, between any two requests: seen from
    outside, the store is a map from a domain and a commit to the branch the
    commit is indexed on and the rows it stands for.  Each request and each
    restart of the process is one step of that map: a reading request leaves
    it, a push or an assignment may add the one commit it names, a deletion may
    take what it names, and a restart takes nothing that can be served.  While
    the process is down the load tool may add the commit it is run for. *)

From S2P Require Import Integrity Stats Prelude F32 RustStr Model Distance LayerIdx Ingest Body Chunk Schema Rollup Dedup Lance Search Resolve Knn DatasetCache Store Commit Tasks Index Maintain Embed Pipeline Growth PipelineSpec PipelineRun Retag Snapshot Isolation Neighbours Suggest Config Service ServiceSpec Metrics Load Http HttpSpec Start.

(** ** What a step may add to a dataset and take from it *)

Section datasets.
Context {W H : Type} `{LanceLaws W H} {HV : LanceVersions W H} {HVL : LanceVersionLaws W H}
        {HI : LanceIndexOps W H} {HIL : LanceIndexLaws W H} {HIG : LanceIndexGrows W H} {HFr : LanceFrame W H}.

(** Tags outside [K] do not appear; live tags stay, live and with their version,
    unless they are of a branch in [L]. *)
Record moves (K : string → Prop) (L : option string → Prop) (w w' : W) : Prop := {
  mv_kept t k : v_tags w !! t = Some k → live_tag w k → ¬ L (tc_branch k) →
    v_tags w' !! t = Some k ∧ live_tag w' k ∧
    ∀ h, v_version w (tc_branch k) (tc_version k) = Some h → v_version w' (tc_branch k) (tc_version k) = Some h;
  mv_new t k : v_tags w' !! t = Some k → v_tags w !! t = Some k ∨ K t;
}.

#[export] Instance moves_preorder K L : PreOrder (moves K L).
Proof.
  split; [by intros w; split; [|left]|]. intros w1 w2 w3 [K1 N1] [K2 N2]. split.
  - intros t k Ht Hl Hb. destruct (K1 t k Ht Hl Hb) as (Ht2 & Hl2 & Hv2). destruct (K2 t k Ht2 Hl2 Hb) as (Ht3 & Hl3 & Hv3).
    split_and!; [done|done|auto].
  - intros t k [Ht|]%N2; [auto|by right].
Qed.

Lemma grown_moves K L w w' :
  grows w w' → v_tags w' = v_tags w → (∀ b, is_Some (v_head w b) → is_Some (v_head w' b)) → moves K L w w'.
Proof.
  intros [_ Hv] Ht Hh. split; [|intros t k; rewrite Ht; by left].
  intros t k Hk Hl _. rewrite Ht. split_and!; [done| |auto]. intros b Hb. by apply Hh, Hl.
Qed.

Lemma heads_stay w w' : same_heads w w' → ∀ b, is_Some (v_head w b) → is_Some (v_head w' b).
Proof. intros [_ Hh] b. by rewrite Hh. Qed.

Lemma moved_stay w w' h h' : head_moved w w' h h' → ∀ b, is_Some (v_head w b) → is_Some (v_head w' b).
Proof.
  intros (_ & _ & Hn & Ho) b Hb. destruct (decide (b = v_branch h)) as [->|Hne]; [by rewrite Hn; eexists|by rewrite Ho].
Qed.

Lemma rows_step_moves K L f w h w' r : same_rows_step f → f w h = (w', r) → grows w w' → moves K L w w'.
Proof.
  intros Hf Hr Hg. apply Hf in Hr as [Ht Hm]. apply grown_moves; [done|done|].
  destruct r as [h'|e]; [destruct Hm as [Hm _]; by eapply moved_stay|by apply heads_stay].
Qed.

Lemma create_moves K L w w' r : l_create w = (w', r) → moves K L w w'.
Proof.
  intros Hr. pose proof (law_create_grows _ _ _ Hr) as Hg. destruct r as [h|e].
  - apply law_create in Hr as (_ & Ht & _). assert (v_tags w = ∅) as Hw.
    { destruct Hg as [Hg _]. rewrite Ht in Hg. apply (anti_symm (⊆)); [done|apply map_empty_subseteq]. }
    split; intros t k; rewrite ?Hw, ?Ht, lookup_empty; done.
  - apply law_create_err in Hr as [Ht Hh]. apply grown_moves; [done..|by apply heads_stay].
Qed.

Lemma append_moves K L w h rows w' r : l_append w h rows = (w', r) → moves K L w w'.
Proof.
  intros Hr. pose proof (law_append_grows _ _ _ _ _ Hr) as Hg. destruct r as [h'|e].
  - apply law_append_ok in Hr as (Ht & Hm & _). apply grown_moves; [done..|by eapply moved_stay].
  - apply law_append_err in Hr as [Ht Hh]. apply grown_moves; [done..|by apply heads_stay].
Qed.

Lemma delete_rows_moves K L w h x w' r : l_delete_rows w h x = (w', r) → moves K L w w'.
Proof.
  intros Hr. pose proof (law_delete_rows_grows _ _ _ _ _ Hr) as Hg. destruct r as [h'|e].
  - apply law_delete_rows_ok in Hr as (Ht & Hm & _). apply grown_moves; [done..|by eapply moved_stay].
  - apply law_delete_rows_err in Hr as [Ht Hh]. apply grown_moves; [done..|by apply heads_stay].
Qed.

Lemma create_branch_moves K L w h b f w' r : l_create_branch w h b f = (w', r) → moves K L w w'.
Proof.
  intros Hr. pose proof (law_create_branch_grows _ _ _ _ _ _ Hr) as Hg. destruct r as [h'|e].
  - apply law_create_branch_ok in Hr as (_ & Ht & Hn & Hs & _ & Ho & _). apply grown_moves; [done..|].
    intros c Hc. destruct (decide (c = Some b)) as [->|Hne]; [by rewrite Hs; eexists|by rewrite Ho].
  - apply law_create_branch_err in Hr as [Ht Hh]. apply grown_moves; [done..|by apply heads_stay].
Qed.

Lemma create_tag_moves (K : string → Prop) L w h t v w' r : K t → l_create_tag w h t v = (w', r) → moves K L w w'.
Proof.
  intros HK Hr. pose proof (law_create_tag_grows _ _ _ _ _ _ Hr) as [Hg Hv]. destruct r as [[]|e].
  - apply law_create_tag_ok in Hr as (Hn & Hh & at_ & Ht). split.
    + intros t' k Hk Hl _. split_and!; [by eapply lookup_weaken| |auto]. intros b Hb. by eapply heads_stay, Hl.
    + intros t' k. rewrite Ht. intros [[<- _]|[_ ?]]%lookup_insert_Some; [by right|by left].
  - apply law_create_tag_err in Hr as [Ht Hh]. by apply grown_moves; [split|..|apply heads_stay].
Qed.

Lemma same_heads_moves K L w w' : v_tags w' = v_tags w → same_heads w w' → keeps w w' → moves K L w w'.
Proof.
  intros Ht Hh [_ Hv]. split; [|intros t k; rewrite Ht; by left].
  intros t k Hk Hl _. rewrite Ht. split_and!; [done| |intros h; by apply (Hv t)]. intros b Hb. by eapply heads_stay, Hl.
Qed.

Lemma spares_moves K L w w' : spares w w' → moves K L w w'.
Proof.
  intros [_ Hs _ _ Hl]. split.
  - intros t k Hk Hlive _. destruct (Hl t k Hk Hlive) as (Ht & Hh & Hv). split_and!; [done| |done].
    intros b Hb. rewrite Hb in Hh. rewrite Hh. by apply Hlive.
  - intros t k Hk. left. by eapply lookup_weaken.
Qed.
End datasets.

(** ** Steps of the store *)

(** The definition at the head of a computation. *)
Ltac unfold_head c :=
  match c with
  | ?f _ => unfold_head f
  | ?f => unfold f
  end.

Section stores.
Context {W H : Type} `{LanceLaws W H} {HV : LanceVersions W H} {HVL : LanceVersionLaws W H}
        {HI : LanceIndexOps W H} {HIL : LanceIndexLaws W H} {HIG : LanceIndexGrows W H} {HFr : LanceFrame W H}
        {HM : LanceMaintOps W H} {HML : LanceMaintLaws W H} `{ByteSerialize}
        {HD : HashIter string (DatasetCacheEntry H)} {HT : HashIter string TagContents} {HB : HashIter string (list N)}.
Implicit Types s : LanceStore W H.
Context (K : string → string → Prop) (L : string → option string → Prop).

(** Of every dataset directory. *)
Definition disk_moves s s' : Prop := ∀ p, moves (K p) (L p) (dir_of s p) (dir_of s' p).

#[export] Instance disk_moves_preorder : PreOrder disk_moves.
Proof. split; [intros s p; reflexivity|]. intros s1 s2 s3 M1 M2 p. by etrans; [apply M1|apply M2]. Qed.

Lemma same_disk_moves s s' : st_disk s' = st_disk s → disk_moves s s'.
Proof. intros E p. unfold dir_of. rewrite E. reflexivity. Qed.

Lemma quiet_moves {A} (c : io W H A) : Within quiet c → Within disk_moves c.
Proof. intros Hc s s' r Hr%Hc. by apply same_disk_moves, quiet_disk. Qed.

Lemma write_moves {A} p m (f : W → W * result string A) :
  (∀ w w' r, f w = (w', r) → moves (K p) (L p) w w') → Within disk_moves (io_write p m f).
Proof.
  intros Hf s s' r Hr q. destruct (decide (q = p)) as [->|Hne].
  - apply io_write_inv in Hr as (w & r0 & Hw & -> & _). rewrite dir_put. by eapply Hf.
  - apply io_write_touches in Hr. rewrite (touches_dir s s' p) by done. reflexivity.
Qed.

Lemma modify_moves f : (∀ s, st_disk (f s) = st_disk s) → Within disk_moves (io_modify f).
Proof. intros Hf s s' r [= <- _]. by apply same_disk_moves. Qed.

Lemma tidied_moves {A} d (c : io W H A) : Within (tidied d) c → Within disk_moves c.
Proof.
  intros Hc s s' r [Ht Htg Hh Hk]%Hc p. destruct (decide (p = dataset_path d)) as [->|Hne]; [by apply same_heads_moves|].
  rewrite (touches_dir s s' (dataset_path d)) by done. reflexivity.
Qed.

#[export] Instance moves_l_create p m : Within disk_moves (io_write p m l_create).
Proof. apply write_moves. intros *. apply create_moves. Qed.
#[export] Instance moves_l_append p m h rows : Within disk_moves (io_write p m (λ w, l_append w h rows)).
Proof. apply write_moves. intros *. apply append_moves. Qed.
#[export] Instance moves_l_delete_rows p m h e : Within disk_moves (io_write p m (λ w, l_delete_rows w h e)).
Proof. apply write_moves. intros *. apply delete_rows_moves. Qed.
#[export] Instance moves_l_create_branch p m h b f : Within disk_moves (io_write p m (λ w, l_create_branch w h b f)).
Proof. apply write_moves. intros *. apply create_branch_moves. Qed.
#[export] Instance moves_l_create_index p m h c n x : Within disk_moves (io_write p m (λ w, l_create_index w h c n x)).
Proof.
  apply write_moves. intros w w' r Hr. eapply (rows_step_moves _ _ (λ w h, l_create_index w h c n x)); [apply law_create_index|done|by eapply law_create_index_grows].
Qed.
#[export] Instance moves_l_optimize p m h : Within disk_moves (io_write p m (λ w, l_optimize_append w h)).
Proof. apply write_moves. intros w w' r Hr. by eapply rows_step_moves, law_optimize_append_grows; [apply law_optimize_append|..]. Qed.
#[export] Instance moves_l_merge p m n h : Within disk_moves (io_write p m (λ w, l_optimize_merge n w h)).
Proof. apply write_moves. intros w w' r Hr. by eapply rows_step_moves, law_optimize_merge_grows; [apply (law_optimize_merge n)|..]. Qed.
#[export] Instance moves_l_compact p m h : Within disk_moves (io_write p m (λ w, l_compact_files w h)).
Proof. apply write_moves. intros w w' r Hr. by eapply rows_step_moves, law_compact_files_grows; [apply law_compact_files|..]. Qed.
Lemma moves_l_create_tag p m h t v : K p t → Within disk_moves (io_write p m (λ w, l_create_tag w h t v)).
Proof. intros HK. apply write_moves. intros *. by apply create_tag_moves. Qed.
#[export] Instance moves_lift {A} m (f : LanceStore W H → result string A) : Within disk_moves (λ s, io_lift m (f s) s).
Proof. intros s s' r [= <- _]. reflexivity. Qed.
#[export] Instance moves_writable : Within disk_moves (ensure_writable (W:=W) (H:=H)).
Proof. apply quiet_moves, _. Qed.
#[export] Instance moves_cache_hit d : Within disk_moves (io_cache_hit (W:=W) (H:=H) d).
Proof. apply quiet_moves. intros s s' r. apply cache_hit_quiet. Qed.
#[export] Instance moves_insert_cached d h : Within disk_moves (io_insert_cached (W:=W) (H:=H) d h).
Proof.
  intros s s' r. unfold io_insert_cached. destruct (insert_cached_dataset _ _ _). intros [= <- _]. by apply same_disk_moves.
Qed.
#[export] Instance moves_cleanup_old d b : Within disk_moves (io_cleanup_old_versions (W:=W) (H:=H) d b).
Proof. apply (tidied_moves d), _. Qed.
#[export] Instance moves_cleanup d b : Within disk_moves (io_cleanup_aggressive (W:=W) (H:=H) d b).
Proof. apply (tidied_moves d), _. Qed.
End stores.

#[export] Hint Extern 2 (Within (disk_moves _ _) (io_modify _)) => apply modify_moves; intros; by repeat case_match : typeclass_instances.
#[export] Hint Extern 8 (Within (disk_moves _ _) ?c) => unfold_head c; cbv zeta : typeclass_instances.

Section operations.
Context {W H : Type} `{LanceLaws W H} {HV : LanceVersions W H} {HVL : LanceVersionLaws W H}
        {HI : LanceIndexOps W H} {HIL : LanceIndexLaws W H} {HIG : LanceIndexGrows W H} {HFr : LanceFrame W H}
        {HM : LanceMaintOps W H} {HML : LanceMaintLaws W H} `{ByteSerialize}
        {HD : HashIter string (DatasetCacheEntry H)} {HT : HashIter string TagContents} {HB : HashIter string (list N)}.
Context (K : string → string → Prop) (L : string → option string → Prop).

#[export] Instance moves_open_dataset d b : Within (disk_moves K L) (io_open_dataset (W:=W) (H:=H) d b).
Proof. apply _. Qed.
#[export] Instance moves_open_for_write d b : Within (disk_moves K L) (io_open_branch_for_write (W:=W) (H:=H) d b).
Proof. apply _. Qed.
#[export] Instance moves_reserve d b c : Within (disk_moves K L) (io_try_reserve_commit (W:=W) (H:=H) d b c).
Proof. apply _. Qed.
#[export] Instance moves_release d b c : Within (disk_moves K L) (io_release_commit_reservation (W:=W) (H:=H) d b c).
Proof. apply _. Qed.
#[export] Instance moves_create_branch d b v : Within (disk_moves K L) (io_create_branch (W:=W) (H:=H) d b v).
Proof. apply _. Qed.
#[export] Instance moves_head_version d b : Within (disk_moves K L) (io_branch_head_version (W:=W) (H:=H) d b).
Proof. apply _. Qed.
#[export] Instance moves_create_from_tag d b c : Within (disk_moves K L) (io_create_branch_from_tag (W:=W) (H:=H) d b c).
Proof. apply _. Qed.
#[export] Instance moves_forked d b parent : Within (disk_moves K L) (io_ensure_branch_forked (W:=W) (H:=H) d b parent).
Proof.
  unfold io_ensure_branch_forked. case_match; [apply _|]. apply within_bind; [apply _..|]. intros existing.
  case_match; [apply _|]. intros s s' r. destruct (io_create_branch_from_tag d b parent s) as [s1 [v|e]] eqn:E; apply (within_run (disk_moves K L)) in E.
  - by intros [= <- _].
  - destruct (is_already_exists e); [by intros [= <- _]|]. destruct (is_ref_not_found e); [|by intros [= <- _]].
    destruct (path_exists s1 _); [|by intros [= <- _]]. intros Hr%(within_run (disk_moves K L)). by etrans.
Qed.
#[export] Instance moves_register d b n : Within (disk_moves K L) (cancel_previous_pipeline_and_register (W:=W) (H:=H) d b n).
Proof. apply _. Qed.
#[export] Instance moves_unregister d b : Within (disk_moves K L) (unregister_pipeline_cancel_token (W:=W) (H:=H) d b).
Proof. apply _. Qed.
#[export] Instance moves_cascade_steps n p (h : H) : Within (disk_moves K L) (cascade_steps (W:=W) n p h).
Proof. revert h. induction n as [|n IH]; intros h; cbn [cascade_steps]; apply _. Qed.
#[export] Instance moves_boundary vc cc sc d b (h : H) : Within (disk_moves K L) (index_boundary (W:=W) vc cc sc d b h).
Proof. apply _. Qed.
End operations.

(** ** A push and an assignment *)

Section tagging.
Context {W H : Type} `{LanceLaws W H} {HV : LanceVersions W H} {HVL : LanceVersionLaws W H}
        {HI : LanceIndexOps W H} {HIL : LanceIndexLaws W H} {HIG : LanceIndexGrows W H} {HFr : LanceFrame W H}
        {HM : LanceMaintOps W H} {HML : LanceMaintLaws W H} `{ByteSerialize}
        {HD : HashIter string (DatasetCacheEntry H)} {HT : HashIter string TagContents} {HB : HashIter string (list N)}.
Context (L : string → option string → Prop).
Implicit Types s : LanceStore W H.

(** The tag of one commit. *)
Definition tag_at (d c p t : string) : Prop := p = dataset_path d ∧ t = encode_commit_tag c.

#[export] Instance moves_tag_commit d b c v : Within (disk_moves (tag_at d c) L) (io_tag_commit (W:=W) (H:=H) d b c v).
Proof.
  assert (∀ m (h : H), Within (disk_moves (tag_at d c) L) (io_write (dataset_path d) m (λ w, l_create_tag w h (encode_commit_tag c) v))).
  { intros m h. by apply moves_l_create_tag. }
  unfold io_tag_commit. cbv zeta. apply _.
Qed.
#[export] Instance moves_assign_commit d b c c' : Within (disk_moves (tag_at d c') L) (io_assign_commit (W:=W) (H:=H) d b c c').
Proof. apply _. Qed.
#[export] Instance moves_after_tag K d b : Within (disk_moves K L) (cleanup_after_tag (W:=W) (H:=H) d b).
Proof. apply _. Qed.

Context (vector_config : VectorIndexConfig) (clustering_config : option VectorIndexConfig) (store_clustering : bool).

#[export] Instance moves_stream_version K d b (h : H) pos :
  Within (disk_moves K L) (stream_version (W:=W) vector_config clustering_config store_clustering d b h pos).
Proof. apply _. Qed.
#[export] Instance moves_stream_data K d b (h : H) c : Within (disk_moves K L) (stream_data (W:=W) d b h c).
Proof. apply _. Qed.
#[export] Instance moves_stream_open K d b : Within (disk_moves K L) (stream_open (W:=W) (H:=H) d b).
Proof. apply _. Qed.

Lemma stream_run_moves {E : Type} {HEm : Embedder E} encode params cancelled ebs progress (e e' : E) d b c ops expected s s' r msgs :
  io_run_index_pipeline_stream vector_config clustering_config store_clustering encode params cancelled ebs progress
    e d b c ops expected s = (e', Some (s', r, msgs)) →
  disk_moves (tag_at d c) L s s'.
Proof. eapply (stream_run_within _ _ _ (disk_moves (tag_at d c) L)); apply _. Qed.
End tagging.

(** ** The load tool *)

Section loading.
Context {W H D Net : Type} `{LanceLaws W H} {HV : LanceVersions W H} {HVL : LanceVersionLaws W H} {HBL : LanceBranchLaws W H}
        {HI : LanceIndexOps W H} {HIL : LanceIndexLaws W H} {HIG : LanceIndexGrows W H} {HFr : LanceFrame W H}
        {HM : LanceMaintOps W H} {HML : LanceMaintLaws W H} `{ByteSerialize}
        `{SledOps D, Codec, JsonVectors} {HC : Clients Net}
        {HD : HashIter string (DatasetCacheEntry H)} {HT : HashIter string TagContents} {HB : HashIter string (list N)}.
Context (L : string → option string → Prop).
Implicit Types s : LanceStore W H.

Lemma index_one_moves K encode params p d b id text (n n' : Net) s s' r :
  io_index_one (D:=D) encode params p d b id text n s = (n', s', r) → disk_moves K L s s'.
Proof.
  unfold io_index_one. repeat case_match; intros [= <- <- <-]; try reflexivity.
  by eapply (within_run (disk_moves K L) (c:=io_upsert_chunks d b id _)).
Qed.

Lemma load_ops_moves K encode params p d b ops (st st' : Load (W:=W) (H:=H) (Net:=Net)) :
  load_ops (D:=D) encode params p d b ops st = Some st' → disk_moves K L (ld_store st) (ld_store st').
Proof.
  revert st. induction ops as [|op ops IH]; intros st; cbn [load_ops]; [by intros [= <-]|].
  destruct op as [id text|id text|id|msg|].
  1-2: destruct (io_index_one _ _ _ _ _ id text _ _) as [[n s] [[v|e]|]] eqn:E; apply (index_one_moves K) in E; [..|done];
    intros Hr%IH; by etrans.
  - destruct (io_delete_doc d b id (ld_store st)) as [s [v|e]] eqn:E; apply (within_run (disk_moves K L)) in E; intros Hr%IH; by etrans.
  - intros Hr%IH. exact Hr.
  - by intros [= <-].
Qed.

Lemma load_run_moves encode params p d b c ops (n n' : Net) s s' code :
  load_run (D:=D) encode params p d b c ops n s = Some (n', s', code) → disk_moves (tag_at d c) L s s'.
Proof.
  unfold load_run. intros (st & Hops & Hr)%bind_Some. apply (load_ops_moves (tag_at d c)) in Hops. cbn in Hops.
  destruct (load_finish d b c st) as [s1 code1] eqn:Ef. injection Hr as _ <- _. etrans; [exact Hops|]. revert Ef. unfold load_finish.
  destruct (0 <? ld_version st)%N; [|by intros [= <- _]].
  destruct (io_ensure_fts_index d b (ld_store st)) as [s2 r2] eqn:Efts. apply (within_run (disk_moves (tag_at d c) L)) in Efts.
  destruct (io_tag_commit d b c _ s2) as [s3 [[]|e]] eqn:Et; apply (within_run (disk_moves (tag_at d c) L)) in Et; cbn.
  - intros [= <- _]. etrans; [done|]. etrans; [done|]. by apply same_disk_moves.
  - intros [= <- _]. by etrans.
Qed.

(** What is on disk after a run of the tool, whatever it exits with. *)
Lemma load_main_moves load_tokenizer read_to_string from_str header_ok get argv args (n n' : Net) disk disk' code p :
  parse_args get argv = ArgsOk args →
  load_main (D:=D) load_tokenizer read_to_string from_str header_ok get argv n disk = Some (n', disk', code) →
  moves (tag_at (la_domain args) (la_commit args) p) (L p) (disk_dir disk p) (disk_dir disk' p).
Proof.
  intros Ha. unfold load_main. rewrite Ha. destruct (load_tokenizer _) as [encode|e]; [|intros [= _ <- _]; reflexivity].
  destruct (params_for_window _ _) as [params|e]; [|intros [= _ <- _]; reflexivity].
  destruct (read_to_string _) as [body|e]; [|intros [= _ <- _]; reflexivity].
  destruct (parse_ndjson_body _ _) as [ops|e]; [|intros [= _ <- _]; reflexivity].
  intros (vic & _ & Hr)%bind_Some. cbv zeta in Hr. destruct (match resolve_api_key2 _ _ with Some k => _ | None => _ end); [|done].
  apply bind_Some in Hr as ([[n1 s] code1] & Hrun & [= _ <- _]). apply load_run_moves in Hrun. etrans; [|exact (Hrun p)].
  apply spares_moves, recover_spares.
Qed.
End loading.

(** ** The deletions *)

Section deleting.
Context {W H : Type} `{LanceLaws W H} {HV : LanceVersions W H} {HVL : LanceVersionLaws W H} {HBL : LanceBranchLaws W H}
        {HI : LanceIndexOps W H} {HIL : LanceIndexLaws W H} {HIG : LanceIndexGrows W H} {HFr : LanceFrame W H}
        {HM : LanceMaintOps W H} {HML : LanceMaintLaws W H} `{ByteSerialize}
        {HD : HashIter string (DatasetCacheEntry H)} {HT : HashIter string TagContents} {HB : HashIter string (list N)}.
Implicit Types s : LanceStore W H.

(** Of a store: nothing but main handles gets into the cache either. *)
Record evolves (K : string → string → Prop) (L : string → option string → Prop) s s' : Prop := {
  ev_disk : disk_moves K L s s';
  ev_cache : cache_on_main s → cache_on_main s';
}.

#[export] Instance evolves_preorder K L : PreOrder (evolves K L).
Proof. split; [by split|]. intros s1 s2 s3 [M1 C1] [M2 C2]. split; [by etrans|auto]. Qed.

#[export] Instance within_evolves {A} K L (c : io W H A) :
  Within (disk_moves K L) c → Within store_keeps c → Within (evolves K L) c.
Proof. intros Hm Hk s s' r Hr. split; [by eapply Hm|]. apply cache_from_on_main, (sk_cache _ _ (Hk _ _ _ Hr)). Qed.

(** Nothing new; of the dataset of a domain, or of a branch of it. *)
Definition none_at (p t : string) : Prop := False.
Definition of_domain (d p : string) (_ : option string) : Prop := p = dataset_path d.
Definition of_branch (d b p : string) (tb : option string) : Prop := p = dataset_path d ∧ tb = want_branch b.

Lemma removed_moves d m : Within (disk_moves none_at (of_domain d)) (io_write (H:=H) (dataset_path d) m l_remove).
Proof.
  intros s s' r Hr p. destruct (decide (p = dataset_path d)) as [->|Hne].
  - split; [intros t k _ _ Hn; by destruct Hn|]. apply io_write_inv in Hr as (w & [[]|e] & Hw & -> & _); rewrite dir_put; intros t k Hk; left.
    + apply law_remove_ok in Hw as ->. by rewrite (proj1 (law_not_exists _ law_absent)), lookup_empty in Hk.
    + apply law_remove_err in Hw. by eapply lookup_weaken.
  - apply io_write_touches in Hr. rewrite (touches_dir s s' (dataset_path d)) by done. reflexivity.
Qed.

Lemma delete_domain_evolves d s s' r :
  io_delete_domain d s = (s', r) →
  evolves none_at (of_domain d) s s' ∧ (r = Ok tt → v_tags (dir_of s' (dataset_path d)) = ∅).
Proof.
  unfold io_delete_domain, io_bind. destruct (ensure_writable s) as [s0 [[]|e]] eqn:Ew; apply ensure_writable_inv in Ew as [-> _];
    [|by intros [= <- <-]].
  cbn. set (rm := if path_exists s _ then _ else _).
  assert (Hrm : ∀ s1 x, rm s = (s1, x) → evolves none_at (of_domain d) s s1 ∧ (x = Ok tt → v_tags (dir_of s1 (dataset_path d)) = ∅)).
  { intros s1 x. unfold rm. destruct (path_exists s (dataset_path d)) eqn:Ex.
    - intros Hw. split.
      + split; [by apply (within_run _ (Within:=removed_moves d _)) in Hw|]. apply io_write_touches in Hw. by eapply touches_on_main.
      + intros ->. apply io_write_ok in Hw as (w & Hw & ->). apply law_remove_ok in Hw as ->. rewrite dir_put. apply (law_not_exists _ law_absent).
    - intros [= <- <-]. split; [reflexivity|]. intros _. by apply law_not_exists. }
  destruct (rm s) as [s1 [[]|e]]; destruct (Hrm _ _ eq_refl) as [He Ht]; intros [= <- <-]; [|by split].
  split; [|auto]. etrans; [exact He|]. split; [by apply same_disk_moves|].
  intros Hc d' e. cbn. intros [_ He']%lookup_delete_Some. by eapply Hc.
Qed.

(** Deleting a tag that, if there, is of the branch. *)
Lemma delete_tag_moves d b (h : H) m n s s' r :
  (∀ k, v_tags (dir_of s (dataset_path d)) !! n = Some k → tc_branch k = want_branch b) →
  io_write (dataset_path d) m (λ w, l_delete_tag w h n) s = (s', r) →
  disk_moves none_at (of_branch d b) s s' ∧ v_tags (dir_of s' (dataset_path d)) ⊆ v_tags (dir_of s (dataset_path d)) ∧
  (r = Ok tt → v_tags (dir_of s' (dataset_path d)) !! n = None).
Proof.
  intros Hn Hr. pose proof Hr as Ht%io_write_touches. apply io_write_inv in Hr as (w & r0 & Hw & -> & ->).
  pose proof (law_delete_tag_versions _ _ _ _ _ Hw) as Hv. rewrite !dir_put.
  assert (Htags : v_tags w = delete n (v_tags (dir_of s (dataset_path d))) ∨ v_tags w = v_tags (dir_of s (dataset_path d)) ∧ r0 ≠ Ok tt).
  { destruct r0 as [[]|e]; [left; by apply law_delete_tag_ok in Hw as []|right; by apply law_delete_tag_err in Hw as []]. }
  assert (Hh : same_heads (dir_of s (dataset_path d)) w).
  { destruct r0 as [[]|e]; [by apply law_delete_tag_ok in Hw as []|by apply law_delete_tag_err in Hw as []]. }
  assert (Hsub : v_tags w ⊆ v_tags (dir_of s (dataset_path d))).
  { destruct Htags as [-> |[-> _]]; [apply delete_subseteq|done]. }
  split_and!; [|done|].
  2: { destruct r0 as [[]|e]; [|done]. intros _. destruct Htags as [-> |[_ ?]]; [by rewrite lookup_delete_eq|done]. }
  intros p. destruct (decide (p = dataset_path d)) as [->|Hne]; [|rewrite (touches_dir _ _ _ _ Ht Hne); reflexivity].
  rewrite dir_put. split; [|intros t k Hk; left; by eapply lookup_weaken]. intros t k Hk Hl Hb.
  split_and!; [|intros b' Hb'; by eapply heads_stay, Hl|intros h' Hh'; by rewrite Hv].
  destruct Htags as [-> |[-> _]]; [|done]. rewrite lookup_delete_ne; [done|]. intros <-. apply Hb. split; [done|by apply Hn].
Qed.

Lemma delete_tags_evolves d b (h : H) names s s' r :
  (∀ n k, n ∈ names → v_tags (dir_of s (dataset_path d)) !! n = Some k → tc_branch k = want_branch b) →
  delete_tags (dataset_path d) h names s = (s', r) →
  evolves none_at (of_branch d b) s s' ∧ v_tags (dir_of s' (dataset_path d)) ⊆ v_tags (dir_of s (dataset_path d)) ∧
  (r = Ok tt → ∀ n, n ∈ names → v_tags (dir_of s' (dataset_path d)) !! n = None).
Proof.
  revert s. induction names as [|n names IH]; intros s Hn; cbn [delete_tags].
  { intros [= <- <-]. split_and!; [reflexivity|done|]. by intros _ n ?%elem_of_nil. }
  unfold io_bind. destruct (io_write _ _ _ s) as [s1 x] eqn:Ew. pose proof Ew as Ht%io_write_touches.
  apply (delete_tag_moves d b) in Ew as (Hm & Hsub & Hgone); [|intros k; apply Hn; by left].
  assert (He : evolves none_at (of_branch d b) s s1) by (split; [done|by eapply touches_on_main]).
  destruct x as [[]|e]; [|intros [= <- <-]; by split_and!].
  intros (He' & Hsub' & Hgone')%IH; [|intros n' k Hin Hk; apply (Hn n'); [by right|by eapply lookup_weaken]].
  split_and!; [by etrans|by etrans|]. intros Hr n' [->|Hin]%elem_of_cons; [|by apply Hgone'].
  by eapply lookup_weaken_None, Hsub'; apply Hgone.
Qed.

Lemma delete_branch_evolves d b s s' r :
  io_delete_branch_index d b s = (s', r) →
  evolves none_at (of_branch d b) s s' ∧
  (r = Ok tt → ∀ t k, v_tags (dir_of s' (dataset_path d)) !! t = Some k → tc_branch k ≠ want_branch b).
Proof.
  intros Hr. split; [|intros -> t k Hk; by apply delete_branch_index_spec in Hr as (Ht & _); apply Ht in Hk as []].
  revert Hr. unfold io_delete_branch_index. intros Hr. apply (bind_rel _ _ _ _ _ _ Hr); clear Hr.
  { by intros s1 x [-> _]%ensure_writable_inv. }
  intros s0 [] _ _ Hr. apply (bind_rel _ _ _ _ _ _ Hr); clear Hr.
  { intros s1 x [= <- _]. split; [by apply same_disk_moves|done]. }
  intros s1 [] _ _ Hr. apply (bind_rel _ _ _ _ _ _ Hr); clear Hr.
  { intros s2 x [Hq _]%io_open_dataset_readonly_inv. split; [apply same_disk_moves; by apply quiet_disk|].
    eapply touches_on_main. by apply (quiet_touches ""). }
  intros s2 opened _ _ Hr. apply (bind_rel _ _ _ _ _ _ Hr); clear Hr.
  - intros s3 x Hr. destruct opened as [ds|]; [|by injection Hr as <- _].
    revert Hr. unfold io_bind. destruct (list_tags d ds s2) as [s4 [tags|e]] eqn:Et; apply list_tags_inv in Et as [-> Htags]; [|by intros [= <- _]].
    specialize (Htags tags eq_refl). intros Hr. apply (delete_tags_evolves d b) in Hr as [He _]; [done|].
    intros n k ([n' k'] & -> & [Hb Hk']%list_elem_of_filter)%list_elem_of_fmap Hk. apply hash_iter_elem in Hk'.
    cbn in Hk, Hb. rewrite Htags in Hk'. by simplify_eq.
  - intros s3 [] _ _ [= <- _]. split; [by apply same_disk_moves|done].
Qed.
End deleting.

(** ** The store of commits *)

(** Of a domain and a commit: the branch it is indexed on, and the rows it
    stands for when they can be read. *)
Definition Commits : Type := string → string → option (option string * option (list ChunkRow)).

Section commits.
Context {W H : Type} `{LanceLaws W H} {HV : LanceVersions W H} {HVL : LanceVersionLaws W H} `{ByteSerialize}.
Implicit Types s : LanceStore W H.

Definition tag_alive (w : W) (k : TagContents) : bool :=
  match tc_branch k with Some b => bool_decide (is_Some (v_head w (Some b))) | None => true end.
Definition tag_rows (w : W) (k : TagContents) : option (list ChunkRow) :=
  if tag_alive w k then v_rows <$> v_version w (tc_branch k) (tc_version k) else None.

Definition commits s : Commits := λ d c,
  (λ k, (tc_branch k, tag_rows (dir_of s (dataset_path d)) k)) <$> domain_tags s d !! encode_commit_tag c.

Lemma tag_alive_live w k : tag_alive w k = true ↔ live_tag w k.
Proof.
  unfold tag_alive, live_tag. destruct (tc_branch k) as [b|]; [rewrite bool_decide_eq_true; split; [by intros ? ? [= <-]|auto]|done].
Qed.

Lemma commits_some s d c b x : commits s d c = Some (b, x) ↔
  ∃ k, domain_tags s d !! encode_commit_tag c = Some k ∧ tc_branch k = b ∧ tag_rows (dir_of s (dataset_path d)) k = x.
Proof. unfold commits. rewrite fmap_Some. split; intros (k & Hk & E); exists k; [by injection E as -> ->|]. destruct E as [-> ->]. done. Qed.

Lemma tag_rows_some w k rows : tag_rows w k = Some rows ↔
  live_tag w k ∧ ∃ h, v_version w (tc_branch k) (tc_version k) = Some h ∧ v_rows h = rows.
Proof.
  unfold tag_rows. rewrite <-tag_alive_live. destruct (tag_alive w k); [|by split; [|intros []]].
  rewrite fmap_Some. split; [intros (h & ? & ->); eauto|intros (_ & h & ? & <-); eauto].
Qed.

(** What a commit that can be served stands for is what is read. *)
Lemma commits_snapshot s d c b rows h : commits s d c = Some (b, Some rows) → snapshot_of s d c h → v_rows h = rows.
Proof.
  intros (k & Hk & _ & (_ & h' & Hh & <-)%tag_rows_some)%commits_some (k' & Hk' & Hh'). congruence.
Qed.

Lemma same_disk_commits s s' : st_disk s' = st_disk s → ∀ d c, commits s' d c = commits s d c.
Proof. intros E d c. unfold commits, domain_tags, dir_of. by rewrite E. Qed.

(** No commit that can be served is lost but of the domains and branches in
    [lost], and none is there afterwards that was not but those in [new]. *)
Definition keeps_but (lost : string → option string → Prop) (a a' : Commits) : Prop :=
  ∀ d c b rows, a d c = Some (b, Some rows) → ¬ lost d b → a' d c = Some (b, Some rows).
Definition adds_but (new : string → string → Prop) (a a' : Commits) : Prop :=
  ∀ d c b x, a' d c = Some (b, x) → (∃ y, a d c = Some (b, y)) ∨ new d c.

Lemma moves_keeps K L s s' : disk_moves K L s s' → keeps_but (λ d, L (dataset_path d)) (commits s) (commits s').
Proof.
  intros Hm d c b rows (k & Hk & <- & (Hl & h & Hh & <-)%tag_rows_some)%commits_some Hb.
  destruct (mv_kept _ _ _ _ (Hm (dataset_path d)) _ _ Hk Hl Hb) as (Hk' & Hl' & Hv').
  apply commits_some. exists k. split; [exact Hk'|]. split; [done|]. apply tag_rows_some. eauto.
Qed.

Lemma moves_adds K L s s' : disk_moves K L s s' → adds_but (λ d c, K (dataset_path d) (encode_commit_tag c)) (commits s) (commits s').
Proof.
  intros Hm d c b x (k & Hk & <- & _)%commits_some. destruct (mv_new _ _ _ _ (Hm (dataset_path d)) _ _ Hk) as [Hk0|]; [left|by right].
  eexists. apply commits_some. by exists k.
Qed.
End commits.

(** ** The abstract server *)

(** What a step of the process is asked for, and whether it is reported done:
    for a push, that its task completes; for the others, that they answer 204. *)
Inductive event :=
| Reading
| Pushing (domain commit : option string) (branch : string) (complete : bool)
| Assigning (domain source target : option string) (done : bool)
| DeletingDomain (domain : option string) (done : bool)
| DeletingBranch (domain branch : option string) (done : bool)
| Restarting
| Loading (domain commit : string).

(** The domain a parameter names, and the branch. *)
Definition named (domain : option string) : option (string * string) :=
  raw ← domain; rp ← ok_option (parse_domain raw); Some (domain_str (from_resource_path rp), extract_branch rp).

Section spec.
Context `{ByteSerialize}.

(** [d] is kept in the dataset of the domain that is named. *)
Definition is_named (domain : option string) (d : string) : Prop :=
  ∃ d' b, named domain = Some (d', b) ∧ dataset_path d = dataset_path d'.
Definition is_commit (domain commit : option string) (d c : string) : Prop := is_named domain d ∧ commit = Some c.

Definition spec_step (e : event) (a a' : Commits) : Prop :=
  match e with
  | Reading => ∀ d c, a' d c = a d c
  | Pushing domain commit branch complete =>
      keeps_but (λ _ _, False) a a' ∧ adds_but (is_commit domain commit) a a' ∧
      (complete = true → ∃ d b c, named domain = Some (d, b) ∧ commit = Some c ∧ a d c = None ∧
         ∃ x, a' d c = Some (want_branch branch, x))
  | Assigning domain source target done =>
      keeps_but (λ _ _, False) a a' ∧ adds_but (is_commit domain target) a a' ∧
      (done = true → ∃ d b c c', named domain = Some (d, b) ∧ source = Some c ∧ target = Some c' ∧
         a d c' = None ∧ is_Some (a d c) ∧
         ∀ rows, a d c = Some (want_branch b, Some rows) → a' d c' = Some (want_branch b, Some rows))
  | DeletingDomain domain done =>
      keeps_but (λ d _, is_named domain d) a a' ∧ adds_but (λ _ _, False) a a' ∧
      (done = true → ∃ d b, named domain = Some (d, b) ∧ ∀ c, a' d c = None)
  | DeletingBranch domain branch done =>
      keeps_but (λ d tb, is_named domain d ∧ ∃ b, branch = Some b ∧ tb = want_branch b) a a' ∧ adds_but (λ _ _, False) a a' ∧
      (done = true → ∃ d b0 b, named domain = Some (d, b0) ∧ branch = Some b ∧ ∀ c x, a' d c ≠ Some (want_branch b, x))
  | Restarting => keeps_but (λ _ _, False) a a' ∧ adds_but (λ _ _, False) a a'
  | Loading domain commit =>
      keeps_but (λ _ _, False) a a' ∧ adds_but (λ d c, dataset_path d = dataset_path domain ∧ c = commit) a a'
  end.

Inductive spec_run : list event → Commits → Commits → Prop :=
| spec_done a : spec_run [] a a
| spec_next e es a1 a2 a3 : spec_step e a1 a2 → spec_run es a2 a3 → spec_run (e :: es) a1 a3.

(** A deletion that names a branch of a domain. *)
Definition deletes (e : event) (d : string) (tb : option string) : Prop :=
  match e with
  | DeletingDomain domain _ => is_named domain d
  | DeletingBranch domain branch _ => is_named domain d ∧ ∃ b, branch = Some b ∧ tb = want_branch b
  | _ => False
  end.

Lemma spec_step_keeps e a a' : spec_step e a a' → keeps_but (deletes e) a a'.
Proof. destruct e; cbn; [intros Ha d c b rows Hc _; by rewrite Ha|by intros []..]. Qed.

End spec.

(** ** Requests within a relation on stores *)

Section within.
Context {W H N D F : Type} (R : LanceStore W H → LanceStore W H → Prop) `{!PreOrder R} `{LanceOps W H}
        {HTs : HashIter string (TaskStatus * Z)}.

Class SrvWithin {A} (c : srv W H N D A) : Prop := srv_within sv sv' r : c sv = (sv', r) → R (sv_store sv) (sv_store sv').
Class WebWithin {A} (c : web W H N D F A) : Prop :=
  web_within st st' r : c st = (st', r) → R (sv_store (app_service st)) (sv_store (app_service st')).

#[export] Instance srv_within_ret {A} (a : A) : SrvWithin (srv_ret a).
Proof. intros s s' r [= <- _]. reflexivity. Qed.
#[export] Instance srv_within_throw {A} e : SrvWithin (srv_throw (A:=A) e).
Proof. intros s s' r [= <- _]. reflexivity. Qed.
#[export] Instance srv_within_lift {A} (r : result ServiceError A) : SrvWithin (srv_lift r).
Proof. intros s s' x [= <- _]. reflexivity. Qed.
#[export] Instance srv_within_bind {A B} (c : srv W H N D A) (k : A → srv W H N D B) :
  SrvWithin c → (∀ a, SrvWithin (k a)) → SrvWithin (srv_bind c k).
Proof.
  intros Hc Hk s s' r. unfold srv_bind. destruct (c s) as [s1 [[a|e]| |]] eqn:E; apply Hc in E; try by intros [= <- _].
  intros Hr. apply Hk in Hr. by etrans.
Qed.
#[export] Instance srv_within_io {A} err (c : io W H A) : Within R c → SrvWithin (srv_io err c).
Proof.
  intros Hc sv sv' r. unfold srv_io. destruct (c (sv_store sv)) as [s x] eqn:E. apply Hc in E. by intros [= <- _].
Qed.
#[export] Instance srv_within_record clock id status : SrvWithin (srv_record_task clock id status).
Proof. intros s s' r [= <- _]. cbn. reflexivity. Qed.
#[export] Instance srv_within_active n : SrvWithin (add_active n).
Proof. intros s s' r [= <- _]. cbn. reflexivity. Qed.

#[export] Instance web_within_ret {A} (a : A) : WebWithin (web_ret a).
Proof. intros s s' r [= <- _]. reflexivity. Qed.
#[export] Instance web_within_lift {A} (r : result Response A) : WebWithin (web_lift r).
Proof. intros s s' x [= <- _]. reflexivity. Qed.
#[export] Instance web_within_required m v : WebWithin (required m v).
Proof. intros s s' x. unfold required. destruct (non_empty v); intros [= <- _]; reflexivity. Qed.
#[export] Instance web_within_svc {A} (c : srv W H N D A) : SrvWithin c → WebWithin (svc c).
Proof.
  intros Hc s s' r. unfold svc. destruct (c (app_service s)) as [sv [x| |]] eqn:E; apply Hc in E; by intros [= <- _].
Qed.
#[export] Instance web_within_bind {A B} (c : web W H N D F A) (k : A → web W H N D F B) :
  WebWithin c → (∀ a, WebWithin (k a)) → WebWithin (web_bind c k).
Proof.
  intros Hc Hk s s' r. unfold web_bind. destruct (c s) as [s1 [[a|e]| |]] eqn:E; apply Hc in E; try by intros [= <- _].
  intros Hr. apply Hk in Hr. by etrans.
Qed.

(** With what the first step returned known in the second. *)
Lemma web_within_known {A B} (c : web W H N D F A) (k : A → web W H N D F B) :
  WebWithin c → (∀ st st1 a, c st = (st1, Done (Ok a)) → WebWithin (k a)) → WebWithin (web_bind c k).
Proof.
  intros Hc Hk s s' r. unfold web_bind. destruct (c s) as [s1 [[a|e]| |]] eqn:E; pose proof E as Hs; apply Hc in Hs; try by intros [= <- _].
  intros Hr. apply (Hk _ _ _ E) in Hr. by etrans.
Qed.
End within.

#[export] Hint Extern 2 (SrvWithin _ (match ?x with _ => _ end)) => destruct x : typeclass_instances.
#[export] Hint Extern 2 (WebWithin _ (match ?x with _ => _ end)) => destruct x : typeclass_instances.

(** ** The steps of the process *)

Section server.
Context {W H N D F : Type} `{LanceLaws W H} {HS : LanceScan W H} {HCo : LanceCount W H} `{ByteSerialize}
        `{SledOps D, Codec, JsonVectors} {HCl : Clients N} `{Formats} `{HttpLib}
        {HD : HashIter string (DatasetCacheEntry H)} {HT : HashIter string TagContents} {HU : HashIter string unit}
        {HF : HashIter string f32} {HO : HashIter (string * string) CanonicalObservation}
        {HE : HashIter string (string * (Z * (list f32 * option (list f32))))}
        {HCh : HashIter string ChunkHit} {HFd : HashIter string FusedDoc} {HM : HashIter (string * Z) (f32 * ChunkHit)}
        {HL : Lowercase} {HK : HashIter string (nat * string)} {HTs : HashIter string (TaskStatus * Z)}
        {HI : LanceIndexOps W H} {HMO : LanceMaintOps W H} {HB : HashIter string (list BinNums.N)}
        {HV : LanceVersions W H} {HVL : LanceVersionLaws W H} {HBL : LanceBranchLaws W H} {HIL : LanceIndexLaws W H}
        {HIG : LanceIndexGrows W H} {HFr : LanceFrame W H} {HML : LanceMaintLaws W H} `{FileOps F, ParamsJson, SettingsJson}.
Context (cosine_distance : list f32 → list f32 → f32) (clock : nat → Z).
Context (vector_config : VectorIndexConfig) (encode : string → result string Encoding).
Context (from_str : string → result string Operation).
Context (ndjson_line : string → result string EmbeddingsNdjsonLine) (embeddings_body : string → result string EmbeddingsBody).
Context (load_tokenizer : string → result string (string → result string Encoding))
        (sled_open : string → result SledError D) (header_ok : string → bool).
Implicit Types (st : AppState W H N D F) (sv : Service W H N D) (s : LanceStore W H).

Definition the_store st : LanceStore W H := sv_store (app_service st).

(** *** A push *)

#[export] Instance accept_push_within K L d b c parent uuid :
  SrvWithin (evolves K L) (accept_push (W:=W) (H:=H) (N:=N) (D:=D) clock d b c parent uuid).
Proof.
  unfold accept_push, parse_request. cbv zeta. apply srv_within_bind; try apply _. intros rp. apply srv_within_bind; try apply _.
  intros []; cbn [negb]; [|apply _]. apply srv_within_bind; try apply _. destruct parent as [p|]; [|apply _].
  destruct (String.eqb b MAIN_BRANCH); [apply _|]. intros sv sv' r.
  destruct (io_ensure_branch_forked _ b p (sv_store sv)) as [s [o|e]] eqn:E; apply (within_run (evolves K L)) in E; [by intros [= <- _]|].
  unfold release. intros Hr%(srv_within (evolves K L)). by etrans.
Qed.

#[export] Instance push_stream_within K L busy token uuid d b c parent :
  SrvWithin (evolves K L) (push_stream (W:=W) (H:=H) (N:=N) (D:=D) clock busy token uuid d b c parent).
Proof. unfold push_stream, release. apply _. Qed.

(** A run that succeeds has tagged its commit. *)
Lemma stream_finish_tags vc cc sc progress d b c (h : H) pos co s s' u msgs :
  cache_on_main s → stream_finish vc cc sc progress d b c h pos co s = (s', Ok u, msgs) →
  ∃ k, domain_tags s' d !! encode_commit_tag c = Some k ∧ tc_branch k = want_branch b.
Proof.
  assert (Htag : ∀ msg v s1 s2 m, cache_on_main s1 → stream_tag progress msg d b c v s1 = (s2, Ok u, m) →
    ∃ k, domain_tags s2 d !! encode_commit_tag c = Some k ∧ tc_branch k = want_branch b).
  { intros msg v s1 s2 m Hc. unfold stream_tag, reported.
    destruct ((io_ctx msg (io_tag_commit d b c v);! update_last_indexed d b c v) s1) as [s3 [x|e]] eqn:E; [|done].
    intros [= <- <- <-]. apply io_bind_ok in E as (s4 & [] & Ht & [= <- _]). unfold io_ctx in Ht.
    destruct (io_tag_commit d b c v s1) as [s5 [[]|e]] eqn:Et; [|done]. injection Ht as <-.
    apply tag_commit_spec in Et as [[_ (at_ & Hat) _ _ _ _] _]; [|done].
    exists (mkTagContents (want_branch b) v at_). split; [|done]. change (domain_tags s5 d !! encode_commit_tag c = Some (mkTagContents (want_branch b) v at_)).
    by rewrite Hat, lookup_insert_eq. }
  intros Hc. unfold stream_finish. case_match.
  - destruct (stream_version _ _ _ d b h pos s) as [s1 [v|e]] eqn:E; [|done]. apply (within_run (evolves none_at (λ _ _, False))) in E as [_ Hc1].
    destruct (stream_tag _ _ d b c v s1) as [[s2 [[]|e]] m] eqn:E2; [|done]. destruct u. apply Htag in E2 as (k & Hk & Hb); [|auto].
    destruct (cleanup_after_tag d b s2) as [s3 r3] eqn:E3. apply (within_run store_keeps) in E3. intros [= <- _ _]. exists k.
    split; [|done]. eapply lookup_weaken; [exact Hk|apply (sk_dirs _ _ E3 (dataset_path d))].
  - destruct (reported progress _ s) as [[s1 [h0|e]] m] eqn:E; [|done]. apply (reported_within (evolves none_at (λ _ _, False))) in E as [_ Hc1]; [|apply _].
    destruct (io_ctx _ _ s1) as [s2 [v|e]] eqn:E2; [|done]. apply (within_run (evolves none_at (λ _ _, False))) in E2 as [_ Hc2]. eapply Htag. auto.
Qed.

Definition nothing (p : string) (tb : option string) : Prop := False.

Lemma stream_run_tags {E : Type} {HEm : Embedder E} vc cc sc params cancelled ebs progress (e e' : E) d b c ops expected s s' x msgs :
  cache_on_main s →
  io_run_index_pipeline_stream vc cc sc encode params cancelled ebs progress e d b c ops expected s = (e', Some (s', Ok x, msgs)) →
  ∃ k, domain_tags s' d !! encode_commit_tag c = Some k ∧ tc_branch k = want_branch b.
Proof.
  intros Hc. unfold io_run_index_pipeline_stream. destruct (stream_open d b s) as [s1 [[h pos]|err]] eqn:Eo; [|done].
  apply (within_run (evolves none_at nothing)) in Eo as [_ Hc1].
  destruct (collect_stream _ _ _ _ _ _ _ e ops expected) as [st [[u|msg]|]]; cbn; [|done..].
  destruct (stream_data d b h _ s1) as [s2 [ds|err]] eqn:Ed; [|done]. apply (within_run (evolves none_at nothing)) in Ed as [_ Hc2].
  destruct (stream_finish _ _ _ _ _ _ _ _ _ _ s2) as [[s3 [u'|err]] m] eqn:Ef; [|done]. intros [= _ <- _ _].
  eapply stream_finish_tags; [|exact Ef]. auto.
Qed.

(** What the task of a push may change, and what it has done when it reads complete. *)
Lemma push_task_evolves cancelled progress d b c id ops expected sv sv' r :
  push_stream_task clock vector_config encode cancelled progress d b c id ops expected sv = (sv', r) →
  evolves (tag_at d c) nothing (sv_store sv) (sv_store sv') ∧
  ∀ n skipped, cache_on_main (sv_store sv) → Tasks.check_task id (sv_tasks sv') = Some (Complete n skipped) →
    ∃ k, domain_tags (sv_store sv') d !! encode_commit_tag c = Some k ∧ tc_branch k = want_branch b.
Proof.
  intros (_ & s & status & t & msgs & _ & (e & x & Hrun & Hx) & Hs & Ht)%push_stream_task_run. rewrite Hs.
  assert (Hfin : evolves (tag_at d c) nothing s (finished d b c s)) by (split; [by apply same_disk_moves|done]).
  destruct x as [[[s1 r1] m]|]; destruct Hx as (-> & -> & _).
  - pose proof Hrun as Hm. pose proof Hrun as Hk.
    apply (stream_run_moves nothing _ _ _ (HEm:=service_embedder (sv_config sv))) in Hm.
    apply (stream_keeps _ _ _ _ _ (H4:=service_embedder (sv_config sv))) in Hk. split.
    + etrans; [|exact Hfin]. split; [exact Hm|]. apply cache_from_on_main, (sk_cache _ _ Hk).
    + intros n skipped Hc Hst. unfold Tasks.check_task in Hst. rewrite Ht in Hst. apply fmap_Some in Hst as (en & Hen & Hst).
      apply record_task_self in Hen. rewrite Hen in Hst. destruct r1 as [[n1 sk1]|err]; [|done].
      by eapply (stream_run_tags (HEm:=service_embedder (sv_config sv))) in Hrun.
  - destruct (stream_open d b (sv_store sv)) as [s1 o] eqn:Eo. cbn [fst] in Hfin |- *. apply (within_run (evolves (tag_at d c) nothing)) in Eo.
    split; [by etrans|]. intros n skipped _ Hst. unfold Tasks.check_task in Hst. rewrite Ht in Hst. apply fmap_Some in Hst as (en & Hen & Hst).
    apply record_task_self in Hen. by rewrite Hen in Hst.
Qed.

#[local] Instance push_task_within cancelled progress d b c id ops expected :
  SrvWithin (evolves (tag_at d c) nothing) (push_stream_task clock vector_config encode (W:=W) (H:=H) (N:=N) (D:=D) cancelled progress d b c id ops expected).
Proof. intros sv sv' r Hr. apply (push_task_evolves _ _ _ _ _ _ _ _ _ _ _ Hr). Qed.

#[local] Instance clustering_within R `{!PreOrder R} sc d : WebWithin (W:=W) (H:=H) (N:=N) (D:=D) (F:=F) R (enable_clustering sc d).
Proof.
  intros st st' r. unfold enable_clustering. destruct sc as [[]|]; [|intros [= <- _]; reflexivity..].
  destruct (parse_domain d) as [rp|e]; [|intros [= <- _]; reflexivity].
  destruct (settings_set _ _ _ _) as [m f]. intros [= <- _]. cbn. reflexivity.
Qed.

#[local] Instance body_error_within R `{!PreOrder R} id m : WebWithin (W:=W) (H:=H) (N:=N) (D:=D) (F:=F) R (record_body_error clock id m).
Proof. unfold record_body_error, record_error_task. destruct m; apply _. Qed.

(** The tag of the commit a request names. *)
Definition named_tag (domain commit : option string) (p t : string) : Prop :=
  ∃ d b c, named domain = Some (d, b) ∧ commit = Some c ∧ tag_at d c p t.

Lemma evolves_mono (K K' : string → string → Prop) (L L' : string → option string → Prop) s s' :
  (∀ p t, K p t → K' p t) → (∀ p b, L p b → L' p b) → evolves K L s s' → evolves K' L' s s'.
Proof.
  intros HKK HLL [Hm Hc]. split; [|done]. intros p. destruct (Hm p) as [Hk Hn]. split.
  - intros t k Ht Hl Hb. apply Hk; auto.
  - intros t k [|]%Hn; auto.
Qed.

Lemma svc_done {A} (c : srv W H N D A) st st' r :
  svc c st = (st', r) → ∃ o, c (app_service st) = (app_service st', o) ∧ ∀ a, r = Done (Ok a) → o = Done (Ok a).
Proof.
  unfold svc. destruct (c (app_service st)) as [sv o]. intros Hr. exists o. destruct o as [[a|e]| |]; cbn in Hr; injection Hr as <- <-; (split; [done|]); intros ? [=]; by subst.
Qed.

Lemma named_tag_at domain rp c p t :
  parse_domain domain = Ok rp → tag_at (domain_str (from_resource_path rp)) c p t → named_tag (Some domain) (Some c) p t.
Proof. intros Hp Ht. exists (domain_str (from_resource_path rp)), (extract_branch rp), c. split_and!; [|done..]. unfold named. cbn. by rewrite Hp. Qed.

#[local] Instance handle_push_within run params body :
  WebWithin (evolves (named_tag (pp_domain params) (pp_target_commit params)) nothing)
    (handle_push (W:=W) (H:=H) (N:=N) (D:=D) (F:=F) clock vector_config encode from_str run params body).
Proof.
  unfold handle_push. set (R := evolves _ _). apply web_within_known; try apply _. intros _ _ domain (_ & Hd & _)%required_ok.
  cbv zeta. apply web_within_bind; try apply _. intros []. apply web_within_known; try apply _. intros _ _ c (_ & Hc & _)%required_ok.
  apply web_within_bind; try apply _. intros []. apply web_within_known; try apply _.
  intros st st1 [d task] [Hs _]%svc_ok. apply (push_stream_ok clock (HV:=HV)) in Hs as (rp & _ & Hp & -> & _).
  assert (Htask : ∀ cancelled progress b ops expected, SrvWithin R (push_stream_task clock vector_config encode (W:=W) (H:=H) (N:=N) (D:=D)
    cancelled progress (domain_str (from_resource_path rp)) b c task ops expected)).
  { intros * sv sv' r Hr. eapply evolves_mono; [|done|by eapply push_task_within]. intros p t. rewrite Hd, Hc. by apply named_tag_at. }
  apply _.
Qed.

Lemma body_error_store id m st st' x : record_body_error clock id m st = (st', x) → the_store st' = the_store st.
Proof.
  unfold record_body_error. destruct m as [m|]; [|by intros [= <- _]]. unfold svc. cbn. by intros [= <- _].
Qed.

Lemma handle_push_completes run params body st st' resp n skipped :
  cache_on_main (the_store st) →
  handle_push clock vector_config encode from_str run params body st = (st', Done (Ok resp)) →
  Tasks.check_task ("task-" +:+ pr_uuid run) (sv_tasks (app_service st')) = Some (Complete n skipped) →
  ∃ d b c, named (pp_domain params) = Some (d, b) ∧ pp_target_commit params = Some c ∧
    domain_tags (the_store st) d !! encode_commit_tag c = None ∧
    ∃ k, domain_tags (the_store st') d !! encode_commit_tag c = Some k ∧ tc_branch k = want_branch (default "main" (pp_branch params)).
Proof.
  intros Hcm Hh Hst. unfold handle_push in Hh.
  apply web_bind_ok in Hh as (? & domain & (-> & Hd & _)%required_ok & Hh).
  apply web_bind_ok in Hh as (? & [] & [-> _]%web_lift_ok & Hh).
  apply web_bind_ok in Hh as (? & c & (-> & Hc & _)%required_ok & Hh).
  apply web_bind_ok in Hh as (st1 & u & He & Hh). apply (web_within (=)) in He.
  apply web_bind_ok in Hh as (st2 & [d task] & [Hpush _]%svc_ok & Hh). pose proof Hpush as Hc2.
  apply (srv_within (evolves none_at nothing)) in Hc2 as [_ Hc2].
  apply (push_stream_ok clock (HV:=HV)) in Hpush as (rp & s1 & Hp & -> & -> & _ & Ha & _). set (d := domain_str _) in *.
  unfold the_store in Hcm |- *. rewrite He in Hcm |- *. apply Hc2 in Hcm.
  exists d, (extract_branch rp), c. split; [rewrite Hd; unfold named; cbn; by rewrite Hp|]. split; [done|].
  split; [apply Ha|].
  assert (Hpipe : ∀ cancelled progress ops expected st2 st3 msgs, cache_on_main (the_store st2) →
    svc (push_stream_task clock vector_config encode cancelled progress d (default "main" (pp_branch params)) c ("task-" +:+ pr_uuid run) ops expected)
      st2 = (st3, Done (Ok msgs)) → Tasks.check_task ("task-" +:+ pr_uuid run) (sv_tasks (app_service st3)) = Some (Complete n skipped) →
    ∃ k, domain_tags (the_store st3) d !! encode_commit_tag c = Some k ∧ tc_branch k = want_branch (default "main" (pp_branch params))).
  { intros * Hcm2 [Hp2 _]%svc_ok Hst3. apply push_task_evolves in Hp2 as [_ Hp2]. by eapply Hp2. }
  unfold the_store in Hpipe. destruct (default false (pp_stream params)).
  - destruct (read_stream_body _ _ body) as [ops msg]. apply web_bind_ok in Hh as (st3 & ? & Hb%body_error_store & Hh).
    apply web_bind_ok in Hh as (st4 & msgs & Hrun & [= <- _]). unfold the_store in Hb. rewrite <-Hb in Hcm. by eapply Hpipe.
  - destruct (read_body _ _ body) as [ops [l|m|m|]]; [| |destruct (pr_late run)|].
    + apply web_bind_ok in Hh as (st3 & msgs & Hrun & [= <- _]). by eapply Hpipe.
    + apply web_bind_ok in Hh as (st3 & ? & Hb%body_error_store & Hh). apply web_bind_ok in Hh as (st4 & msgs & Hrun & [= <- _]).
      unfold the_store in Hb. rewrite <-Hb in Hcm. by eapply Hpipe.
    + exfalso. apply web_bind_ok in Hh as (st3 & ? & Hh & [= <- _]). apply web_bind_ok in Hh as (st4 & msgs & _ & Hh).
      unfold record_body_error, svc in Hh. cbn in Hh. injection Hh as <- _. cbn in Hst. unfold Tasks.check_task in Hst.
      apply fmap_Some in Hst as (en & Hen & Hst). apply record_task_self in Hen. by rewrite Hen in Hst.
    + apply web_bind_ok in Hh as (st3 & ? & Hh & [= <- _]). apply web_bind_ok in Hh as (st4 & ? & Hb%body_error_store & Hh).
      apply web_bind_ok in Hh as (st5 & msgs & Hrun & [= <- _]). unfold the_store in Hb. rewrite <-Hb in Hcm. by eapply Hpipe.
    + apply web_bind_ok in Hh as (st3 & msgs & Hrun & [= <- _]). by eapply Hpipe.
Qed.

(** *** An assignment and the deletions *)

Lemma assign_evolves raw source target sv sv' r :
  assign raw source target sv = (sv', r) →
  match parse_domain raw with
  | Err _ => sv' = sv ∧ r ≠ Done (Ok tt)
  | Ok rp =>
      let d := domain_str (from_resource_path rp) in
      evolves (tag_at d target) nothing (sv_store sv) (sv_store sv') ∧
      (r = Done (Ok tt) → ∃ v, io_assign_commit d (extract_branch rp) source target (sv_store sv) = (sv_store sv', Ok v))
  end.
Proof.
  unfold assign, parse_request, srv_bind, srv_lift, srv_io. cbn. destruct (parse_domain raw) as [rp|e]; cbn; [|by intros [= <- <-]].
  destruct (io_assign_commit _ _ source target (sv_store sv)) as [s [v|e]] eqn:E; pose proof E as He;
    apply (within_run (evolves (tag_at (domain_str (from_resource_path rp)) target) nothing)) in He; cbn; intros [= <- <-]; (split; [done|]); [by eexists|done].
Qed.

(** A done assignment reads as its source, when that is of the branch. *)
Lemma assign_done d b source target s s' v :
  cache_on_main s → io_assign_commit d b source target s = (s', Ok v) →
  commits s d target = None ∧ is_Some (commits s d source) ∧
  ∀ rows, commits s d source = Some (want_branch b, Some rows) → commits s' d target = Some (want_branch b, Some rows).
Proof.
  intros Hc Hr. pose proof Hr as Hm. apply (within_run (disk_moves (tag_at d target) nothing)) in Hm.
  assert (Hx : path_exists s (dataset_path d) = true).
  { unfold io_assign_commit in Hr. apply io_bind_ok in Hr as (s0 & [] & [-> _]%ensure_writable_ok & Hr).
    apply io_bind_ok in Hr as (s1 & o & Hres & Hr). apply io_resolve_commit_inv in Hres as [_ Hres]. specialize (Hres _ eq_refl).
    destruct Hres as [[_ ->]|Hres]; [done|]. destruct o as [v'|]; [|done]. unfold path_exists. destruct (l_exists _) eqn:Ex; [done|].
    unfold domain_tags in Hres. by rewrite (proj1 (law_not_exists _ Ex)), lookup_empty in Hres. }
  apply assign_commit_spec in Hr as ((k & Hk & Hkv) & Hn & (at_ & Ht) & Hh); [|done..]. unfold commits at 1 2. rewrite Hn, Hk.
  split_and!; [done|by eexists|]. intros rows (k' & Hk' & Hb & (Hl & h & Hv & Hrows)%tag_rows_some)%commits_some.
  assert (k' = k) as -> by (unfold domain_tags in *; congruence).
  destruct (mv_kept _ _ _ _ (Hm (dataset_path d)) _ _ Hk Hl) as (_ & Hl' & Hv'); [by intros []|].
  apply commits_some. eexists. rewrite Ht, lookup_insert_eq. split; [done|]. split; [done|]. apply tag_rows_some. cbn. split.
  - intros b' Hb'. apply Hl'. by rewrite Hb.
  - exists h. split; [|done]. rewrite <-Hb, <-Hkv. by apply Hv'.
Qed.

(** What is refused is not answered as done. *)
Class Refuses {A} (c : web W H N D F A) : Prop := refuses_run st st' e : c st = (st', Done (Err e)) → (400 ≤ re_status e)%N.

#[local] Instance refuses_ret {A} (a : A) : Refuses (web_ret a).
Proof. by intros st st' e. Qed.
#[local] Instance refuses_required m v : Refuses (required m v).
Proof. intros st st' e. unfold required. by destruct (non_empty v); intros [= _ <-]. Qed.
#[local] Instance refuses_branch b : Refuses (web_lift (validate_branch_name b)).
Proof. intros st st' e. unfold web_lift, validate_branch_name. by destruct (is_compact_rebuild_branch b); intros [= _ <-]. Qed.
#[local] Instance refuses_svc {A} (c : srv W H N D A) : Refuses (svc c).
Proof.
  intros st st' e. unfold svc. destruct (c (app_service st)) as [sv [[a|err]| |]]; cbn; [done| |done..].
  intros [= _ <-]. by destruct err; cbn.
Qed.
#[local] Instance refuses_bind {A B} (c : web W H N D F A) (k : A → web W H N D F B) : Refuses c → (∀ a, Refuses (k a)) → Refuses (web_bind c k).
Proof.
  intros Hc Hk st st' e [(e' & He & [= ->])|(st1 & a & _ & He)]%web_bind_done; [by eapply Hc|by eapply Hk].
Qed.

#[local] Hint Extern 2 (Refuses (match ?x with _ => _ end)) => destruct x : typeclass_instances.

(** The status code that is answered. *)
Definition answered (code : BinNums.N) (r : outcome (result Response Response)) : bool :=
  match r with Done (Ok resp) | Done (Err resp) => (re_status resp =? code)%N | _ => false end.

Lemma answered_ok {code} (c : web W H N D F Response) `{!Refuses c} st st' r :
  (code < 400)%N → c st = (st', r) → answered code r = true → ∃ resp, r = Done (Ok resp).
Proof.
  intros Hcode Hr. destruct r as [[resp|resp]| |]; cbn; [by eexists| |done..].
  intros E%N.eqb_eq. apply refuses_run in Hr. lia.
Qed.

#[local] Instance push_refuses run params body :
  Refuses (handle_push (W:=W) (H:=H) (N:=N) (D:=D) (F:=F) clock vector_config encode from_str run params body).
Proof.
  assert (∀ sc d, Refuses (enable_clustering (W:=W) (H:=H) (N:=N) (D:=D) (F:=F) sc d)).
  { intros sc d st st' e. unfold enable_clustering. by destruct sc as [[]|], (parse_domain d). }
  unfold handle_push, record_body_error. apply _.
Qed.

(** *** Steps and runs *)

(** The push of the run was answered 200 and its task reads complete. *)
Definition push_complete (run : PushRun) st' (r : outcome (result Response Response)) : bool :=
  answered 200 r && match Tasks.check_task ("task-" +:+ pr_uuid run) (sv_tasks (app_service st')) with Some (Complete _ _) => true | _ => false end.

(** A restart reads its environment anew; while the process is down the load
    tool may run, on a file of its own. *)
Inductive server_step : event → AppState W H N D F → AppState W H N D F → Prop :=
| step_reading c st st' r :
    reading_handler cosine_distance clock ndjson_line embeddings_body c → c st = (st', r) → server_step Reading st st'
| step_metrics gauges st sv' r : render_metrics gauges (app_service st) = (sv', r) → server_step Reading st (with_service st sv')
| step_push run params body st st' r :
    handle_push clock vector_config encode from_str run params body st = (st', r) →
    server_step (Pushing (pp_domain params) (pp_target_commit params) (default "main" (pp_branch params)) (push_complete run st' r)) st st'
| step_assign params st st' r :
    handle_assign params st = (st', r) →
    server_step (Assigning (ap_domain params) (ap_source_commit params) (ap_target_commit params) (answered 204 r)) st st'
| step_delete_domain domain st st' r :
    handle_delete_domain domain st = (st', r) → server_step (DeletingDomain domain (answered 204 r)) st st'
| step_delete_branch domain branch st st' r :
    handle_delete_branch_index domain branch st = (st', r) → server_step (DeletingBranch domain branch (answered 204 r)) st st'
| step_restarting get net f f' disk sv config st :
    start_server load_tokenizer sled_open header_ok get net f (st_disk (the_store st)) = Some (f', disk, Ok sv) →
    server_step Restarting st (mkAppState sv config f')
| step_loading read_to_string get' argv args net' net'' disk' code get net f f' disk sv config st :
    parse_args get' argv = ArgsOk args →
    load_main (D:=D) load_tokenizer read_to_string from_str header_ok get' argv net' (st_disk (the_store st)) = Some (net'', disk', code) →
    start_server load_tokenizer sled_open header_ok get net f disk' = Some (f', disk, Ok sv) →
    server_step (Loading (la_domain args) (la_commit args)) st (mkAppState sv config f').

Inductive server_run : list event → AppState W H N D F → AppState W H N D F → Prop :=
| run_done st : server_run [] st st
| run_next e es st1 st2 st3 : server_step e st1 st2 → server_run es st2 st3 → server_run (e :: es) st1 st3.

Lemma named_some raw d b : named raw = Some (d, b) ↔
  ∃ r rp, raw = Some r ∧ parse_domain r = Ok rp ∧ d = domain_str (from_resource_path rp) ∧ b = extract_branch rp.
Proof.
  unfold named. split.
  - intros (r & -> & (rp & Hrp & [= <- <-])%bind_Some)%bind_Some. exists r, rp. by destruct (parse_domain r); simplify_eq/=.
  - intros (r & rp & -> & Hp & -> & ->). cbn. by rewrite Hp.
Qed.

Lemma tagged_is_commit domain commit d c :
  named_tag domain commit (dataset_path d) (encode_commit_tag c) → is_commit domain commit d c.
Proof. intros (d' & b & c' & Hd & Hc & Hp & ->%(inj encode_commit_tag)). split; [|done]. by exists d', b. Qed.

Lemma adds_mono (P Q : string → string → Prop) a a' : (∀ d c, P d c → Q d c) → adds_but P a a' → adds_but Q a a'.
Proof. intros HPQ Ha d c b x [?|?]%Ha; auto. Qed.
Lemma keeps_mono (P Q : string → option string → Prop) a a' : (∀ d c, P d c → Q d c) → keeps_but P a a' → keeps_but Q a a'.
Proof. intros HPQ Ha d c b rows Hc Hn. eapply Ha; [done|]. auto. Qed.

(** What a step that only adds the commit it names does to the map. *)
Lemma evolves_adds domain commit s s' :
  evolves (named_tag domain commit) nothing s s' →
  keeps_but (λ _ _, False) (commits s) (commits s') ∧ adds_but (is_commit domain commit) (commits s) (commits s').
Proof.
  intros [Hm _]. split; [by apply moves_keeps in Hm|]. apply moves_adds in Hm. eapply adds_mono; [|done]. intros *. apply tagged_is_commit.
Qed.

(** Reading the metrics. *)
Lemma render_metrics_reads gauges : ServiceSpec.Reading (render_metrics (W:=W) (H:=H) (Net:=N) (D:=D) gauges).
Proof.
  assert (Hu : ∀ A (c : srv W H N D A) a, ServiceSpec.Reading c → ServiceSpec.Reading (srv_unwrap_or a c)).
  { intros A c a Hc sv sv' r. unfold srv_unwrap_or. destruct (c sv) as [sv1 [[x|e]| |]] eqn:E; apply Hc in E; by intros [= <- _]. }
  unfold render_metrics. apply reading_bind; [|intros stats; apply reading_bind; [|intros i; apply _]].
  - apply Hu. apply (read_request_reading cosine_distance clock), rr_statistics.
  - apply (read_request_reading cosine_distance clock), rr_internal_stats.
Qed.

Lemma step_push_refines run params body st st' r :
  cache_on_main (the_store st) → handle_push clock vector_config encode from_str run params body st = (st', r) →
  spec_step (Pushing (pp_domain params) (pp_target_commit params) (default "main" (pp_branch params)) (push_complete run st' r))
    (commits (the_store st)) (commits (the_store st')) ∧ cache_on_main (the_store st').
Proof.
  intros Hc Hr. pose proof Hr as He. apply (web_within (evolves (named_tag (pp_domain params) (pp_target_commit params)) nothing)) in He.
  split; [|by apply He]. pose proof (evolves_adds _ _ _ _ He) as [Hk Ha]. split_and!; [done..|].
  unfold push_complete. intros [H200 Hst]%andb_true_iff. apply (answered_ok _ _ _ _ (eq_refl : (200 < 400)%N) Hr) in H200 as [resp ->].
  destruct (Tasks.check_task _ _) as [[?|n skipped|?]|] eqn:Et; try done.
  eapply handle_push_completes in Hr as (d & b & c & Hd & Hcm & Hn & k & Hk' & Hb); [|done..].
  exists d, b, c. split_and!; [done..| |]; [unfold commits; by rewrite Hn|]. eexists. apply commits_some. by exists k.
Qed.

Lemma step_assign_refines params st st' r :
  cache_on_main (the_store st) → handle_assign params st = (st', r) →
  spec_step (Assigning (ap_domain params) (ap_source_commit params) (ap_target_commit params) (answered 204 r))
    (commits (the_store st)) (commits (the_store st')) ∧ cache_on_main (the_store st').
Proof.
  intros Hc Hr. set (K := named_tag (ap_domain params) (ap_target_commit params)).
  assert (Href : Refuses (handle_assign (W:=W) (H:=H) (N:=N) (D:=D) (F:=F) params)) by (unfold handle_assign; apply _).
  assert (He : evolves K nothing (the_store st) (the_store st')).
  { enough (WebWithin (evolves K nothing) (handle_assign (W:=W) (H:=H) (N:=N) (D:=D) (F:=F) params)) as Hw by (by apply Hw in Hr).
    unfold handle_assign. apply web_within_known; try apply _. intros _ _ raw (_ & Hd & _)%required_ok.
    apply web_within_bind; try apply _. intros source. apply web_within_known; try apply _. intros _ _ target (_ & Ht & _)%required_ok.
    apply web_within_bind; try apply _. apply web_within_svc. intros sv sv' x Hx%assign_evolves.
    destruct (parse_domain raw) as [rp|e] eqn:Hp; [|by destruct Hx as [-> _]]. destruct Hx as [Hx _].
    eapply evolves_mono; [|done|exact Hx]. intros p t. unfold K. rewrite Hd, Ht. by apply named_tag_at. }
  split; [|by apply He]. pose proof (evolves_adds _ _ _ _ He) as [Hk Ha]. split_and!; [done..|].
  intros H204. apply (answered_ok _ _ _ _ (eq_refl : (204 < 400)%N) Hr) in H204 as [resp ->]. unfold handle_assign in Hr.
  apply web_bind_ok in Hr as (? & raw & (-> & Hd & _)%required_ok & Hr). apply web_bind_ok in Hr as (? & source & (-> & Hs & _)%required_ok & Hr).
  apply web_bind_ok in Hr as (? & target & (-> & Ht & _)%required_ok & Hr). apply web_bind_ok in Hr as (st1 & [] & [Hx _]%svc_ok & [= <- _]).
  apply assign_evolves in Hx. destruct (parse_domain raw) as [rp|e] eqn:Hp; [|by destruct Hx]. destruct Hx as [_ [v Hv]]; [done|].
  exists (domain_str (from_resource_path rp)), (extract_branch rp), source, target.
  split; [rewrite Hd; unfold named; cbn; by rewrite Hp|]. split; [done|]. split; [done|]. by eapply assign_done.
Qed.

(** A deletion, of what its parameters name. *)
Definition named_domain (domain : option string) (p : string) (_ : option string) : Prop :=
  ∃ d b, named domain = Some (d, b) ∧ of_domain d p None.
Definition named_branch (domain branch : option string) (p : string) (tb : option string) : Prop :=
  ∃ d b0 b, named domain = Some (d, b0) ∧ branch = Some b ∧ of_branch d b p tb.

Lemma evolves_takes L lost s s' :
  (∀ d tb, L (dataset_path d) tb → lost d tb) → evolves none_at L s s' →
  keeps_but lost (commits s) (commits s') ∧ adds_but (λ _ _, False) (commits s) (commits s').
Proof.
  intros HLs [Hm _]. split; [apply moves_keeps in Hm; eapply keeps_mono; [|exact Hm]; apply HLs|].
  apply moves_adds in Hm. eapply adds_mono; [|exact Hm]. by intros ?? [].
Qed.

Lemma parse_io {A} err raw (k : string → io W H A) sv sv' r :
  (let* rp := parse_request raw in srv_io err (k (domain_str (from_resource_path rp)))) sv = (sv', r) →
  (sv' = sv ∧ (∀ a, r ≠ Done (Ok a)) ∧ is_ok (parse_domain raw) = false) ∨
  ∃ rp x, parse_domain raw = Ok rp ∧ k (domain_str (from_resource_path rp)) (sv_store sv) = (sv_store sv', x) ∧
    ∀ a, r = Done (Ok a) → x = Ok a.
Proof.
  unfold parse_request, srv_bind, srv_lift, srv_io. destruct (parse_domain raw) as [rp|e]; cbn; [|intros [= <- <-]; by left].
  destruct (k _ (sv_store sv)) as [s x] eqn:E. intros [= <- <-]. right. exists rp, x. split_and!; [done|done|]. intros a. by destruct x; intros [= ->].
Qed.

Lemma step_delete_domain_refines domain st st' r :
  handle_delete_domain domain st = (st', r) →
  spec_step (DeletingDomain domain (answered 204 r)) (commits (the_store st)) (commits (the_store st')) ∧
  (cache_on_main (the_store st) → cache_on_main (the_store st')).
Proof.
  intros Hr. assert (Href : Refuses (handle_delete_domain (W:=W) (H:=H) (N:=N) (D:=D) (F:=F) domain)) by (unfold handle_delete_domain; apply _).
  assert (Hw : WebWithin (evolves none_at (named_domain domain)) (handle_delete_domain (W:=W) (H:=H) (N:=N) (D:=D) (F:=F) domain)).
  { unfold handle_delete_domain. apply web_within_known; try apply _. intros _ _ raw (_ & Hd & _)%required_ok.
    apply web_within_bind; try apply _. apply web_within_svc. intros sv sv' x [(-> & _)|(rp & y & Hp & Hx & _)]%parse_io; [reflexivity|].
    apply delete_domain_evolves in Hx as [Hx _]. eapply evolves_mono; [done| |exact Hx]. intros p tb Hp'.
    eexists _, _. split; [by apply named_some; exists raw, rp|done]. }
  apply Hw in Hr as He. destruct (λ HLL, evolves_takes (named_domain domain) (λ d _, is_named domain d) _ _ HLL He) as [Hk Ha].
  { intros d _ (d' & b & Hd & Hp). by exists d', b. }
  split; [|by apply He]. split_and!; [done..|]. intros H204. apply (answered_ok _ _ _ _ (eq_refl : (204 < 400)%N) Hr) in H204 as [resp ->].
  unfold handle_delete_domain in Hr.
  apply web_bind_ok in Hr as (? & raw & (-> & Hd & _)%required_ok & Hr). apply web_bind_ok in Hr as (st1 & [] & [Hx _]%svc_ok & [= <- _]).
  apply parse_io in Hx as [(_ & Hx & _)|(rp & y & Hp & Hx & Hy)]; [by destruct (Hx tt)|]. apply delete_domain_evolves in Hx as [_ Hgone].
  eexists _, _. split; [apply named_some; by exists raw, rp|]. intros c. unfold commits, the_store, domain_tags. by rewrite (Hgone (Hy _ eq_refl)), lookup_empty.
Qed.

Lemma step_delete_branch_refines domain branch st st' r :
  handle_delete_branch_index domain branch st = (st', r) →
  spec_step (DeletingBranch domain branch (answered 204 r)) (commits (the_store st)) (commits (the_store st')) ∧
  (cache_on_main (the_store st) → cache_on_main (the_store st')).
Proof.
  intros Hr. assert (Href : Refuses (handle_delete_branch_index (W:=W) (H:=H) (N:=N) (D:=D) (F:=F) domain branch)) by (unfold handle_delete_branch_index; apply _).
  assert (Hw : WebWithin (evolves none_at (named_branch domain branch)) (handle_delete_branch_index (W:=W) (H:=H) (N:=N) (D:=D) (F:=F) domain branch)).
  { unfold handle_delete_branch_index. apply web_within_known; try apply _. intros _ _ raw (_ & Hd & _)%required_ok.
    apply web_within_known; try apply _. intros _ _ b (_ & Hb & _)%required_ok. apply web_within_bind; try apply _. intros [].
    apply web_within_bind; try apply _. apply web_within_svc.
    intros sv sv' x [(-> & _)|(rp & y & Hp & Hx & _)]%(parse_io _ _ (λ d, io_delete_branch_index d b)); [reflexivity|].
    apply delete_branch_evolves in Hx as [Hx _]. eapply evolves_mono; [done| |exact Hx]. intros p tb Hp'.
    eexists _, _, _. split; [by apply named_some; exists raw, rp|done]. }
  apply Hw in Hr as He. destruct (λ HLL, evolves_takes (named_branch domain branch) (λ d tb, is_named domain d ∧ ∃ b, branch = Some b ∧ tb = want_branch b) _ _ HLL He) as [Hk Ha].
  { intros d tb (d' & b0 & b & Hd & Hb & Hp & ->). split; [by exists d', b0|by exists b]. }
  split; [|by apply He]. split_and!; [done..|]. intros H204. apply (answered_ok _ _ _ _ (eq_refl : (204 < 400)%N) Hr) in H204 as [resp ->].
  unfold handle_delete_branch_index in Hr. apply web_bind_ok in Hr as (? & raw & (-> & Hd & _)%required_ok & Hr).
  apply web_bind_ok in Hr as (? & b & (-> & Hb & _)%required_ok & Hr). apply web_bind_ok in Hr as (? & [] & [-> _]%web_lift_ok & Hr).
  apply web_bind_ok in Hr as (st1 & [] & [Hx _]%svc_ok & [= <- _]).
  apply (parse_io _ _ (λ d, io_delete_branch_index d b)) in Hx as [(_ & Hx & _)|(rp & y & Hp & Hx & Hy)]; [by destruct (Hx tt)|].
  apply delete_branch_evolves in Hx as [_ Hgone]. eexists _, _, b. split; [apply named_some; by exists raw, rp|]. split; [done|].
  intros c x (k & Hk' & Hbr & _)%commits_some. by apply (Hgone (Hy _ eq_refl)) in Hk'.
Qed.

Lemma start_moves K get (net : N) f f' disk0 disk (sv : Service W H N D) :
  start_server load_tokenizer sled_open header_ok get net f disk0 = Some (f', disk, Ok sv) →
  (∀ p, moves (K p) (nothing p) (disk_dir disk0 p) (dir_of (sv_store sv) p)) ∧ cache_on_main (sv_store sv).
Proof.
  intros [Hsp Hok]%start_server_run. destruct (Hok sv eq_refl) as (Hd & Hc & _). split; [|done].
  intros p. pose proof (Hsp p) as Hp. rewrite <-Hd in Hp. by apply (spares_moves (K p) (nothing p)) in Hp.
Qed.

Lemma step_restart_refines get (net : N) f f' disk (sv : Service W H N D) s :
  start_server load_tokenizer sled_open header_ok get net f (st_disk s) = Some (f', disk, Ok sv) →
  spec_step Restarting (commits s) (commits (sv_store sv)) ∧ cache_on_main (sv_store sv).
Proof.
  intros [Hm Hc]%(start_moves none_at). split; [|done].
  split; [by apply (moves_keeps none_at nothing s) in Hm|by apply (moves_adds none_at nothing s) in Hm].
Qed.

Lemma step_loading_refines read_to_string get' argv args (net' net'' : N) disk' code get (net : N) f f' disk (sv : Service W H N D) s :
  parse_args get' argv = ArgsOk args →
  load_main (D:=D) load_tokenizer read_to_string from_str header_ok get' argv net' (st_disk s) = Some (net'', disk', code) →
  start_server load_tokenizer sled_open header_ok get net f disk' = Some (f', disk, Ok sv) →
  spec_step (Loading (la_domain args) (la_commit args)) (commits s) (commits (sv_store sv)) ∧ cache_on_main (sv_store sv).
Proof.
  intros Ha Hl Hstart. apply (start_moves (tag_at (la_domain args) (la_commit args))) in Hstart as [Hstart Hc]. split; [|done].
  assert (Hm : disk_moves (tag_at (la_domain args) (la_commit args)) nothing s (sv_store sv)).
  { intros p. etrans; [|apply Hstart]. by eapply (load_main_moves nothing). }
  split; [by apply moves_keeps in Hm|]. apply moves_adds in Hm. eapply adds_mono; [|exact Hm].
  by intros d c [? ->%(inj encode_commit_tag)].
Qed.

Lemma step_metrics_refines gauges st sv' r :
  cache_on_main (the_store st) → render_metrics gauges (app_service st) = (sv', r) →
  spec_step Reading (commits (the_store st)) (commits (sv_store sv')) ∧ cache_on_main (sv_store sv').
Proof.
  intros Hc Hr. apply render_metrics_reads, rq_store in Hr. split; [|by eapply reads_on_main].
  intros d c. apply same_disk_commits. exact (rd_disk _ _ Hr).
Qed.

Lemma server_step_refines e st st' :
  cache_on_main (the_store st) → server_step e st st' →
  spec_step e (commits (the_store st)) (commits (the_store st')) ∧ cache_on_main (the_store st').
Proof.
  intros Hc Hs. destruct Hs as [c st st' r Hh Hr|gauges st sv' r Hr|run params body st st' r Hr|params st st' r Hr|domain st st' r Hr|domain branch st st' r Hr|get net f f' disk sv config st Hr|???????????????? Ha Hl Hr].
  - apply reading_handler_reads in Hh. apply Hh in Hr as (Hr & _ & _). apply rq_store in Hr.
    split; [|by eapply reads_on_main]. intros d c0. apply same_disk_commits. exact (rd_disk _ _ Hr).
  - by eapply step_metrics_refines.
  - by eapply step_push_refines.
  - by eapply step_assign_refines.
  - apply step_delete_domain_refines in Hr as [? ?]. auto.
  - apply step_delete_branch_refines in Hr as [? ?]. auto.
  - by eapply step_restart_refines.
  - by eapply step_loading_refines.
Qed.

(** C1: the server is a store of commits: from any state whose cache holds main
    handles, whatever requests follow, in any order, and however often the
    process is restarted, with or without a run of the load tool while it is
    down, the map from domains and commits to branches and rows
    takes the steps of the abstract server.  A reading request changes no entry;
    a push or an assignment loses none and adds at most the commit it names,
    which is there once the push reads complete, and reads as its source once
    the assignment is answered 204; a deletion takes nothing but what it names,
    and all of it once it is answered 204; a restart loses nothing that can be
    served, and a load, whatever it exits with, adds at most the commit it is
    run for.  The cache holds main handles ever after. *)
Theorem server_refines_commit_store es st st' :
  cache_on_main (the_store st) → server_run es st st' →
  spec_run es (commits (the_store st)) (commits (the_store st')) ∧ cache_on_main (the_store st').
Proof.
  intros Hc Hr. revert Hc. induction Hr as [st|e es st1 st2 st3 Hs _ IH]; intros Hc; [by split; [constructor|]|].
  apply server_step_refines in Hs as [Hs Hc2]; [|done]. destruct (IH Hc2) as [Hr Hc3]. split; [by econstructor|done].
Qed.

(** C2: an indexed commit outlives everything but its deletion: after any run of
    requests, restarts and loads none of which is a deletion that names its
    domain, or its branch of the domain, it is on the same branch and stands for the same
    rows, and any reader that opens it gets those. *)
Theorem indexed_commit_survives es st st' d c b rows :
  cache_on_main (the_store st) → commits (the_store st) d c = Some (b, Some rows) →
  server_run es st st' → Forall (λ e, ¬ deletes e d b) es →
  commits (the_store st') d c = Some (b, Some rows) ∧
  ∀ b' s'' h, io_open_snapshot d b' c (the_store st') = (s'', Ok h) → v_rows h = rows.
Proof.
  intros Hc Ha Hr. revert Hc Ha. induction Hr as [st|e es st1 st2 st3 Hs _ IH]; intros Hc Ha Hes.
  - split; [done|]. intros b' s'' h Ho. apply snapshot_inv in Ho as [_ Ho]; [|done]. eapply commits_snapshot; [done|]. by apply Ho.
  - apply Forall_cons in Hes as [He Hes]. apply server_step_refines in Hs as [Hs Hc2]; [|done]. apply IH; [done| |done].
    by eapply spec_step_keeps.
Qed.
End server.

(** ** On the small dataset *)

#[local] Existing Instances RefScan.scan RefScan.scan_laws.

Import RunExample ServiceExample HttpExample StartExample.

Module ServerExample.
Definition St := AppState (option RefLance.dir) RefLance.handle nat (gmap string string) Files.

(** A push, the deletion of another domain, a restart, a load of the next
    commit, and a look at what is indexed. *)
Definition pushed := posted.
Definition dropped := handle_delete_domain (Some "x/y") pushed.1.
#[local] Existing Instance form_pairs | 0.
Definition start_on (disk : gmap string (option RefLance.dir)) :=
  start_server (D:=gmap string string) (λ _, Ok one_token) (λ _, Ok ∅) (λ _, true) secret_env 0 (∅ : Files) disk.
(** How a start ended, and the process that came up. *)
Definition Started : Type :=
  option (Files * gmap string (option RefLance.dir) * result string (Service (option RefLance.dir) RefLance.handle nat (gmap string string))).
Definition up (r : Started) : St :=
  match r with Some (f, disk, Ok sv) => mkAppState sv (sv_config sv) f | _ => dropped.1 end.
Definition restarted : St := up (start_on (st_disk (the_store dropped.1))).
Definition load_argv : list string := ["--directory"; "/data"; "--domain"; "o/t"; "--commit"; "c3"; "--input"; "ops"].
Definition load_tool := load_main (D:=gmap string string) (λ _, Ok one_token) (λ _, Ok "D:A") op_line (λ _, true) (λ _, None) load_argv 0
  (st_disk (the_store restarted)).
Definition loaded : St := match load_tool with Some (n, disk, code) => up (start_on disk) | None => restarted end.
Definition looked := handle_last_indexed (mkLastIndexedParams (Some "o/t") None) loaded.

Definition came_up (r : Started) : bool :=
  match r with Some (_, _, Ok _) => true | _ => false end.
Definition load_args : LoadArgs := match parse_args (λ _, None) load_argv with ArgsOk a => a | _ => mkLoadArgs "" "" "" "" "" "" "" 0 "" end.

Definition the_run : list event :=
  [ Pushing (Some "o/t") (Some "c2") "main" true; DeletingDomain (Some "x/y") true; Restarting; Loading "o/t" "c3"; Reading ].
Definition later_run : list event := tail the_run.

Lemma server_later : server_run example_cosine ticks RunExample.config one_token op_line (λ _, Err "") (λ _, Err "")
  (λ _, Ok one_token) (λ _, Ok ∅) (λ _, true) later_run pushed.1 looked.1.
Proof.
  apply run_next with dropped.1.
  { replace true with (answered 204 dropped.2) by (by vm_compute). eapply step_delete_domain. unfold dropped. apply surjective_pairing. }
  apply run_next with restarted.
  { assert (came_up (start_on (st_disk (the_store dropped.1))) = true) as Hup by by vm_compute.
    unfold restarted. destruct (start_on _) as [[[f disk] [sv|e]]|] eqn:Es; [by eapply step_restarting|discriminate Hup..]. }
  apply run_next with loaded.
  { assert (match load_tool with Some (n, disk, code) => came_up (start_on disk) | None => false end = true) as Hup by by vm_compute.
    unfold loaded. destruct load_tool as [[[n disk] code]|] eqn:El; [|discriminate Hup].
    destruct (start_on disk) as [[[f disk'] [sv|e]]|] eqn:Es; [|discriminate Hup..].
    change (Loading "o/t" "c3") with (Loading (la_domain load_args) (la_commit load_args)). cbn [up].
    unfold load_tool in El. unfold start_on in Es. eapply step_loading; [|exact El|exact Es]. by vm_compute. }
  apply run_next with looked.1; [|constructor].
  eapply step_reading; [apply rh_last_indexed|]. unfold looked. apply surjective_pairing.
Qed.
End ServerExample.
Import ServerExample.


Lemma pushed_on_main : cache_on_main (the_store pushed.1).
Proof. apply CommitExample.cache_checked. by vm_compute. Qed.

Lemma server_refines_commit_store_witness :
  match commits (the_store looked.1) "o/t" "c2" with Some (b, Some rows) => b = None ∧ map cr_content rows = ["c"; "a2"; "bad"] | _ => False end ∧
  spec_run the_run (commits (the_store (app store1))) (commits (the_store looked.1)).
Proof.
  split; [by vm_compute|].
  refine (proj1 (server_refines_commit_store example_cosine ticks RunExample.config one_token op_line (λ _, Err "") (λ _, Err "")
    (λ _, Ok one_token) (λ _, Ok ∅) (λ _, true) the_run (app store1) looked.1 (proj1 ready_store1) _)).
  unfold the_run. apply run_next with pushed.1; [|apply server_later].
  replace true with (push_complete run1 pushed.1 pushed.2) by (by vm_compute).
  eapply (step_push _ _ _ _ _ _ _ _ _ _ run1 (push_to "c2" true (Some 4%N))). unfold pushed, posted, post. apply surjective_pairing.
Defined.

Lemma indexed_commit_survives_witness :
  match commits (the_store pushed.1) "o/t" "c2" with
  | Some (b, Some rows) => map cr_content rows = ["c"; "a2"; "bad"] ∧ commits (the_store looked.1) "o/t" "c2" = Some (b, Some rows)
  | _ => False
  end.
Proof.
  destruct (commits (the_store pushed.1) "o/t" "c2") as [[b [rows|]]|] eqn:Ec.
  2-3: refute_as (λ x, match x with Some (_, Some _) => true | _ => false end) in Ec.
  split; [compute_as (λ x : option (option string * option (list ChunkRow)), match x with Some (_, Some rows) => map cr_content rows | _ => [] end) in Ec; done|].
  refine (proj1 (indexed_commit_survives example_cosine ticks RunExample.config one_token op_line (λ _, Err "") (λ _, Err "")
    (λ _, Ok one_token) (λ _, Ok ∅) (λ _, true) later_run pushed.1 looked.1 "o/t" "c2" b rows pushed_on_main Ec server_later _)).
  repeat constructor; cbn; [|tauto..]. intros (d & b0 & Hn & Hp). vm_compute in Hn. injection Hn as <- _. vm_compute in Hp. done.
Defined.
